(** * Matrix product states: canonical forms, spectra and accessors

    A shallow embedding of [tenpy/networks/mps.py] (class [MPS]) together
    with the part of the tensor backend it relies on.

    Conventions of the embedding.
    - Python floats are exact real numbers ([R]); an operation whose IEEE
      result would be [inf] or [nan] has no counterpart in [R] and ends the
      run with the outcome [Anomaly NonFiniteFloat].  The one place where
      [nan] is data is an array of singular values handed over by the
      caller ([NdNan]): it can be stored, copied, measured and compared.
    - Python objects that are shared or compared by identity (numpy arrays,
      [npc.Array]s) live in a heap and are handled through references; the
      [MPS] instance itself is the [this] component of the world.
    - Python exceptions are the [Raise] outcome; methods are computations in
      a state-and-exception monad [M] over the world. *)

From Stdlib Require Import Reals Lra List ZArith Lia String Bool Arith DecimalString.
Import ListNotations.
Local Open Scope string_scope.
Local Open Scope list_scope.

(** ** Exceptions and outcomes *)

Inductive exn : Type :=
| ValueError (msg : string)
| KeyError
| IndexError
| TypeError
| AssertionError
| ZeroDivisionError
| AttributeError.

Inductive anomaly : Type :=
| NonFiniteFloat   (* an [inf] or [nan] would have been produced *)
| DanglingRef.     (* a reference outside the heap: impossible in Python *)

Inductive outcome (A : Type) : Type :=
| Ok (a : A)
| Raise (e : exn)
| Anomaly (a : anomaly).

Arguments Ok {A} a.
Arguments Raise {A} e.
Arguments Anomaly {A} a.

Definition obind {A B} (o : outcome A) (k : A -> outcome B) : outcome B :=
  match o with
  | Ok a => k a
  | Raise e => Raise e
  | Anomaly a => Anomaly a
  end.

Definition omap {A B} (f : A -> B) (o : outcome A) : outcome B :=
  obind o (fun a => Ok (f a)).

Declare Scope outcome_scope.
Delimit Scope outcome_scope with outcome.
Notation "x <-- c1 ;; c2" := (obind c1 (fun x => c2))
  (at level 61, c1 at next level, right associativity) : outcome_scope.

Fixpoint omapM {A B} (f : A -> outcome B) (l : list A) : outcome (list B) :=
  match l with
  | [] => Ok []
  | a :: l' => obind (f a) (fun b => obind (omapM f l') (fun bs => Ok (b :: bs)))
  end.

(** ** Python integers used as list indices *)

(** [l[z]] for a Python int [z]: negative indices count from the end. *)
Definition py_getitem {A} (l : list A) (z : Z) : outcome A :=
  let len := Z.of_nat (List.length l) in
  let z' := if (z <? 0)%Z then (z + len)%Z else z in
  if ((z' <? 0) || (len <=? z'))%Z then Raise IndexError
  else match nth_error l (Z.to_nat z') with
       | Some a => Ok a
       | None => Raise IndexError
       end.

Fixpoint list_set {A} (l : list A) (n : nat) (a : A) : list A :=
  match l, n with
  | [], _ => []
  | _ :: t, O => a :: t
  | h :: t, S n' => h :: list_set t n' a
  end.

(** [l[z] = a] for a Python int [z]. *)
Definition py_setitem {A} (l : list A) (z : Z) (a : A) : outcome (list A) :=
  let len := Z.of_nat (List.length l) in
  let z' := if (z <? 0)%Z then (z + len)%Z else z in
  if ((z' <? 0) || (len <=? z'))%Z then Raise IndexError
  else Ok (list_set l (Z.to_nat z') a).

(** Python's [a % b] for ints (sign of the divisor). *)
Definition py_mod (a b : Z) : outcome Z :=
  if (b =? 0)%Z then Raise ZeroDivisionError else Ok (a mod b)%Z.

(** [range(lo, hi)] *)
Definition py_range (lo hi : Z) : list Z :=
  map (fun k => (lo + Z.of_nat k)%Z) (seq 0 (Z.to_nat (hi - lo))).

(** ** Floats as reals *)

Definition Reqb (x y : R) : bool := if Req_dec_T x y then true else false.
Definition Rltb (x y : R) : bool := if Rlt_dec x y then true else false.

(** [s ** e] on floats.  Where the mathematical power is a real number the
    result is that number; where IEEE arithmetic yields [inf] (zero to a
    negative power) or [nan] (negative base, non-integer exponent) there is
    no result. *)
Definition np_power (s e : R) : option R :=
  if Rltb 0 s then Some (Rpower s e)
  else if Reqb s 0 then
         (if Rltb 0 e then Some 0%R
          else if Reqb e 0 then Some 1%R else None)
  else
    let z := Int_part e in
    if Reqb (IZR z) e then Some (powerRZ s z) else None.

(** ** The tensor backend (numpy and np_conserved) *)

Definition ref := nat.

Record LegCharge : Type := mkLeg {
  leg_chinfo : nat;
  ind_len : nat;
  qconj : Z;
  charges : list Z
}.

(** An [npc.Array]: named legs and dense row-major data. *)
Record Array : Type := mkArray {
  labels : list (option string);
  legs : list LegCharge;
  data : list R
}.

(** A numpy [ndarray] of floats: a zero-dimensional array (as made from a
    number) or a one-dimensional one.  Arrays of higher dimension do not
    occur as singular values.  An array that a caller hands over may hold
    [nan] entries, which have no counterpart in [R]: [NdNan v] is the
    one-dimensional array with the entries [v], [None] being [nan]. *)
Inductive ndarray : Type :=
| Nd0 (x : R)
| Nd1 (v : list R)
| NdNan (v : list (option R)).

Definition nd_shape (a : ndarray) : list nat :=
  match a with
  | Nd0 _ => []
  | Nd1 v => [List.length v]
  | NdNan v => [List.length v]
  end.

(** The entries of an array, [None] being [nan]. *)
Definition nd_entries (a : ndarray) : list (option R) :=
  match a with
  | Nd0 x => [Some x]
  | Nd1 v => map Some v
  | NdNan v => v
  end.

Definition is_nan (x : option R) : bool :=
  match x with
  | None => true
  | Some _ => false
  end.

(** The entries of an array of numbers; of [NdNan], whose entries the
    operations below read through [nd_entries], those that are numbers. *)
Definition nd_data (a : ndarray) : list R :=
  match a with
  | Nd0 x => [x]
  | Nd1 v => v
  | NdNan v => flat_map (fun x => match x with
                                  | Some y => [y]
                                  | None => []
                                  end) v
  end.

Inductive pyobj : Type :=
| NdArray (a : ndarray)
| NpcArray (a : Array).

Definition shape (A : Array) : list nat := map ind_len (legs A).
Definition rank (A : Array) : nat := List.length (legs A).

Definition prod_dims (s : list nat) : nat := fold_right Nat.mul 1 s.

(** All multi-indices of a shape, in row-major order. *)
Fixpoint multi_indices (s : list nat) : list (list nat) :=
  match s with
  | [] => [[]]
  | d :: s' => flat_map (fun k => map (cons k) (multi_indices s')) (seq 0 d)
  end.

Fixpoint flat_index (s idx : list nat) : nat :=
  match s, idx with
  | _ :: s', k :: idx' => k * prod_dims s' + flat_index s' idx'
  | _, _ => 0
  end.

Definition entry (A : Array) (idx : list nat) : R :=
  nth (flat_index (shape A) idx) (data A) 0%R.

(** A leg is addressed by its label or by its (possibly negative) position. *)
Inductive axis : Type :=
| AxLabel (s : string)
| AxIndex (z : Z).

Definition label_eqb (l : option string) (s : string) : bool :=
  match l with
  | Some s' => String.eqb s' s
  | None => false
  end.

Fixpoint find_label (ls : list (option string)) (s : string) : option nat :=
  match ls with
  | [] => None
  | l :: ls' => if label_eqb l s then Some 0
                else option_map S (find_label ls' s)
  end.

(** [B.get_leg_index(ax)] *)
Definition get_leg_index (A : Array) (ax : axis) : outcome nat :=
  match ax with
  | AxLabel s =>
      match find_label (labels A) s with
      | Some k => Ok k
      | None => Raise KeyError
      end
  | AxIndex z =>
      let r := Z.of_nat (rank A) in
      let z' := if (z <? 0)%Z then (z + r)%Z else z in
      if ((z' <? 0) || (r <=? z'))%Z then Raise IndexError
      else Ok (Z.to_nat z')
  end.

Definition default_leg : LegCharge := mkLeg 0 0 0 [].

(** [B.get_leg(ax)] *)
Definition get_leg (A : Array) (ax : axis) : outcome LegCharge :=
  obind (get_leg_index A ax) (fun k => Ok (nth k (legs A) default_leg)).

(** Modelled from the spec: [leg.test_contractible(other)] of the tensor
    backend, "legs can be asserted mutually contractible
    (charge-compatible)": same charge structure, same length, opposite
    orientation, same charges. *)
Definition test_contractible (a b : LegCharge) : outcome unit :=
  if (leg_chinfo a =? leg_chinfo b)%nat && (ind_len a =? ind_len b)%nat
     && (qconj a =? - qconj b)%Z
     && (if list_eq_dec Z.eq_dec (charges a) (charges b) then true else false)
  then Ok tt
  else Raise (ValueError "incompatible LegCharge").

(** Modelled from the spec: [B.test_sanity()] of the tensor backend: labels,
    legs and data agree in size. *)
Definition array_test_sanity (A : Array) : outcome unit :=
  if (List.length (labels A) =? rank A)%nat
     && (List.length (data A) =? prod_dims (shape A))%nat
  then Ok tt
  else Raise (ValueError "npc.Array: inconsistent shapes").

(** Modelled from the spec: [B.replace_label(old, new)] of the tensor
    backend: the leg addressed by [old] is renamed. *)
Definition replace_label (A : Array) (old : axis) (new : string)
  : outcome Array :=
  obind (get_leg_index A old) (fun k =>
  Ok (mkArray (list_set (labels A) k (Some new)) (legs A) (data A))).

(** Modelled from the spec: [scaleAxis(tensor, vector, axis)] of the tensor
    backend: the entry at multi-index [idx] is multiplied by [s[idx[axis]]];
    the vector must be one-dimensional, as long as the leg.  An entry
    multiplied by [nan] is [nan]. *)
Definition scale_axis (A : Array) (s : ndarray) (ax : axis) : outcome Array :=
  obind (get_leg_index A ax) (fun k =>
  if list_eq_dec Nat.eq_dec (nd_shape s) [nth k (shape A) 0]
  then match s with
       | NdNan v =>
           obind (omapM (fun xi =>
                           match nth (nth k (snd xi) 0%nat) v (Some 0%R) with
                           | Some y => Ok (fst xi * y)%R
                           | None => Anomaly NonFiniteFloat
                           end)
                        (combine (data A) (multi_indices (shape A))))
                 (fun d => Ok (mkArray (labels A) (legs A) d))
       | _ =>
           Ok (mkArray (labels A) (legs A)
             (map (fun xi => (fst xi * nth (nth k (snd xi) 0%nat) (nd_data s) 0)%R)
                  (combine (data A) (multi_indices (shape A)))))
       end
  else Raise (ValueError "s has wrong shape")).

Fixpoint index_of (p : nat) (l : list nat) : option nat :=
  match l with
  | [] => None
  | q :: l' => if (p =? q)%nat then Some 0 else option_map S (index_of p l')
  end.

(** The multi-index of a tensor of rank [r] whose kept legs [keep] carry the
    indices [ik] and whose contracted legs [contr] carry the indices [ic]. *)
Definition assemble (r : nat) (keep ik contr ic : list nat) : list nat :=
  map (fun p => match index_of p keep with
                | Some j => nth j ik 0
                | None => match index_of p contr with
                          | Some j => nth j ic 0
                          | None => 0
                          end
                end) (seq 0 r).

Definition kept_legs (r : nat) (contr : list nat) : list nat :=
  filter (fun p => match index_of p contr with
                   | Some _ => false
                   | None => true
                   end) (seq 0 r).

Fixpoint test_contractible_all (la lb : list LegCharge) : outcome unit :=
  match la, lb with
  | a :: la', b :: lb' =>
      obind (test_contractible a b) (fun _ => test_contractible_all la' lb')
  | _, _ => Ok tt
  end.

Definition Rsum (l : list R) : R := fold_right Rplus 0%R l.

(** Modelled from the spec: [tensordot(a, b, axes)] of the tensor backend:
    the legs [axesA] of [A] are contracted with the legs [axesB] of [B]; the
    result carries the remaining legs of [A], then those of [B], with their
    labels. *)
Definition tensordot (A B : Array) (axesA axesB : list axis) : outcome Array :=
  obind (omapM (get_leg_index A) axesA) (fun ca =>
  obind (omapM (get_leg_index B) axesB) (fun cb =>
  if negb (List.length ca =? List.length cb)%nat
  then Raise (ValueError "different number of axes to contract")
  else
  obind (test_contractible_all
           (map (fun k => nth k (legs A) default_leg) ca)
           (map (fun k => nth k (legs B) default_leg) cb)) (fun _ =>
  let ka := kept_legs (rank A) ca in
  let kb := kept_legs (rank B) cb in
  let lgs := map (fun k => nth k (legs A) default_leg) ka
             ++ map (fun k => nth k (legs B) default_leg) kb in
  let lbls := map (fun k => nth k (labels A) None) ka
              ++ map (fun k => nth k (labels B) None) kb in
  let cshape := map (fun k => nth k (shape A) 0) ca in
  Ok (mkArray lbls lgs
        (map (fun idx =>
                let ia := firstn (List.length ka) idx in
                let ib := skipn (List.length ka) idx in
                Rsum (map (fun ic =>
                             (entry A (assemble (rank A) ka ia ca ic)
                              * entry B (assemble (rank B) kb ib cb ic))%R)
                          (multi_indices cshape)))
             (multi_indices (map ind_len lgs))))))).

(** Modelled from the spec: [a.conj()] of the tensor backend: conjugation
    reverses the orientation of every leg and conjugates the entries, which
    are real here. *)
Definition leg_conj (l : LegCharge) : LegCharge :=
  mkLeg (leg_chinfo l) (ind_len l) (- qconj l) (charges l).

Definition array_conj (A : Array) : Array :=
  mkArray (labels A) (map leg_conj (legs A)) (data A).

(** Modelled from the spec: [npc.inner(a, b, axes, do_conj=True)]: the
    contraction of all legs of the conjugate of [a] with those of [b], a
    number; the legs of [a] are addressed by its own labels, as the call in
    [expectation_value] does. *)
Definition inner (A B : Array) (axesA axesB : list axis) : outcome R :=
  obind (tensordot (array_conj A) B axesA axesB) (fun T =>
  if (rank T =? 0)%nat then Ok (nth 0 (data T) 0%R)
  else Raise (ValueError "inner: not all legs contracted")).

(** [S ** e] on a numpy array, elementwise; [nan ** e] is [nan], except
    that [nan ** 0] is [1.]. *)
Definition nd_power (s : ndarray) (e : R) : outcome ndarray :=
  match s with
  | NdNan v =>
      obind (omapM (fun x => match x with
                             | Some x => match np_power x e with
                                         | Some y => Ok y
                                         | None => Anomaly NonFiniteFloat
                                         end
                             | None => if Reqb e 0 then Ok 1%R
                                       else Anomaly NonFiniteFloat
                             end) v) (fun d => Ok (Nd1 d))
  | _ =>
  obind (omapM (fun x => match np_power x e with
                         | Some y => Ok y
                         | None => Anomaly NonFiniteFloat
                         end) (nd_data s)) (fun d =>
  Ok match s with
     | Nd0 _ => Nd0 (nth 0 d 0%R)
     | _ => Nd1 d
     end)
  end.

(** [x != y] on floats: [nan] differs from every float, itself included. *)
Definition float_ne (x y : option R) : bool :=
  match x, y with
  | Some a, Some b => negb (Reqb a b)
  | _, _ => true
  end.

(** [np.any(a != b)] on numpy arrays, with numpy's broadcasting of a
    length-one operand; operands that cannot be broadcast compare
    unequal. *)
Definition nd_any_ne (a b : ndarray) : bool :=
  if list_eq_dec Nat.eq_dec (nd_shape a) (nd_shape b) then
    existsb (fun xy => float_ne (fst xy) (snd xy))
            (combine (nd_entries a) (nd_entries b))
  else match nd_entries a, nd_entries b with
       | [x], _ => existsb (fun y => float_ne x y) (nd_entries b)
       | _, [y] => existsb (fun x => float_ne x y) (nd_entries a)
       | _, _ => true
       end.

Definition str_of_Z (z : Z) : string := NilZero.string_of_int (Z.to_int z).

(** ** Sites, the MPS instance and the world *)

Record Site : Type := mkSite {
  dim : nat;
  leg : LegCharge;
  site_ops : list (string * ref)     (* the named operators of the site *)
}.

(** A form as callers write it: a name, [None], or an exponent pair. *)
Inductive form_spec : Type :=
| FName (s : string)
| FNone
| FTuple (nuL nuR : R).

(** The [form] argument of the constructor and of [convert_form]: one
    choice, or a list of choices. *)
Inductive form_arg : Type :=
| FOne (f : form_spec)
| FList (l : list form_spec).

(** A stored form tag: [None] or [(nuL, nuR)]. *)
Definition form_tag : Type := option (R * R).

(** The attributes of an [MPS] instance.  [_B] holds references to
    [npc.Array]s; [_S] holds [None] or references to the singular values
    (a numpy array, or an [npc.Array] when a mixer is used).  The [dtype]
    attribute is not tracked: all data are reals. *)
Record MPS : Type := mkMPS {
  sites : list Site;
  chinfo : nat;
  form : list form_tag;
  bc : string;
  _B : list ref;
  _S : list (option ref)
}.

Record world : Type := mkWorld {
  this : MPS;
  heap : list pyobj
}.

(** ** The monad of methods *)

Definition M (A : Type) : Type := world -> outcome A * world.

Definition ret {A} (a : A) : M A := fun w => (Ok a, w).

Definition bind {A B} (m : M A) (k : A -> M B) : M B :=
  fun w => match m w with
           | (Ok a, w') => k a w'
           | (Raise e, w') => (Raise e, w')
           | (Anomaly a, w') => (Anomaly a, w')
           end.

Definition raise {A} (e : exn) : M A := fun w => (Raise e, w).

Definition lift {A} (o : outcome A) : M A := fun w => (o, w).

Declare Scope monad_scope.
Delimit Scope monad_scope with monad.
Notation "x <- c1 ;; c2" := (bind c1 (fun x => c2))
  (at level 61, c1 at next level, right associativity) : monad_scope.
Notation "' pat <- c1 ;; c2" := (bind c1 (fun x => match x with pat => c2 end))
  (at level 61, pat pattern, c1 at next level, right associativity)
  : monad_scope.
Notation "c1 ;; c2" := (bind c1 (fun _ => c2))
  (at level 61, right associativity) : monad_scope.
Local Open Scope monad_scope.

Definition assert (b : bool) : M unit :=
  if b then ret tt else raise AssertionError.

(** [for x in l: body(x)] *)
Fixpoint for_each {X} (l : list X) (body : X -> M unit) : M unit :=
  match l with
  | [] => ret tt
  | x :: l' => body x ;; for_each l' body
  end.

(** A [for] loop that updates local variables [s]. *)
Fixpoint for_fold {X S} (l : list X) (s : S) (body : S -> X -> M S) : M S :=
  match l with
  | [] => ret s
  | x :: l' => s' <- body s x ;; for_fold l' s' body
  end.

(** [enumerate(l)] *)
Definition enumerate {A} (l : list A) : list (Z * A) :=
  combine (map Z.of_nat (seq 0 (List.length l))) l.

(** *** The instance *)

Definition self : M MPS := fun w => (Ok (this w), w).

Definition set_self (f : MPS -> MPS) : M unit :=
  fun w => (Ok tt, mkWorld (f (this w)) (heap w)).

Definition with_sites (v : list Site) (m : MPS) : MPS :=
  mkMPS v (chinfo m) (form m) (bc m) (_B m) (_S m).
Definition with_chinfo (v : nat) (m : MPS) : MPS :=
  mkMPS (sites m) v (form m) (bc m) (_B m) (_S m).
Definition with_form (v : list form_tag) (m : MPS) : MPS :=
  mkMPS (sites m) (chinfo m) v (bc m) (_B m) (_S m).
Definition with_bc (v : string) (m : MPS) : MPS :=
  mkMPS (sites m) (chinfo m) (form m) v (_B m) (_S m).
Definition with_B (v : list ref) (m : MPS) : MPS :=
  mkMPS (sites m) (chinfo m) (form m) (bc m) v (_S m).
Definition with_S (v : list (option ref)) (m : MPS) : MPS :=
  mkMPS (sites m) (chinfo m) (form m) (bc m) (_B m) v.

(** *** The heap *)

Definition deref (r : ref) : M pyobj :=
  fun w => match nth_error (heap w) r with
           | Some o => (Ok o, w)
           | None => (Anomaly DanglingRef, w)
           end.

(** A new object; its reference is the next free address. *)
Definition alloc (o : pyobj) : M ref :=
  fun w => (Ok (List.length (heap w)), mkWorld (this w) (heap w ++ [o])).

(** An update in place. *)
Definition store (r : ref) (o : pyobj) : M unit :=
  fun w => match nth_error (heap w) r with
           | Some _ => (Ok tt, mkWorld (this w) (list_set (heap w) r o))
           | None => (Anomaly DanglingRef, w)
           end.

(** The object must be an [npc.Array]. *)
Definition as_npc (r : ref) : M Array :=
  o <- deref r ;;
  match o with
  | NpcArray a => ret a
  | NdArray _ => raise AttributeError
  end.

(** The object must be a numpy array. *)
Definition as_nd (r : ref) : M ndarray :=
  o <- deref r ;;
  match o with
  | NdArray a => ret a
  | NpcArray _ => raise TypeError
  end.

(** *** Library calls on heap objects: each returns a new object *)

Definition npc_copy (b : ref) : M ref :=
  a <- as_npc b ;; alloc (NpcArray a).

(** [B.astype(dtype, copy=True)] *)
Definition astype_copy (b : ref) : M ref :=
  o <- deref b ;; alloc o.

Definition npc_replace_label (b : ref) (old : axis) (new : string) : M ref :=
  a <- as_npc b ;;
  a' <- lift (replace_label a old new) ;;
  alloc (NpcArray a').

Definition npc_scale_axis (b s : ref) (ax : axis) : M ref :=
  a <- as_npc b ;;
  v <- as_nd s ;;
  a' <- lift (scale_axis a v ax) ;;
  alloc (NpcArray a').

Definition npc_tensordot (a b : ref) (axesA axesB : list axis) : M ref :=
  x <- as_npc a ;;
  y <- as_npc b ;;
  t <- lift (tensordot x y axesA axesB) ;;
  alloc (NpcArray t).

(** [S ** e] *)
Definition np_pow (s : ref) (e : R) : M ref :=
  v <- as_nd s ;;
  v' <- lift (nd_power v e) ;;
  alloc (NdArray v').

(** [np.ones([1])] *)
Definition np_ones1 : M ref := alloc (NdArray (Nd1 [1%R])).

(** An entry of the [SVs] argument of the constructor: a number, a sequence
    of numbers given by value, or an existing numpy array. *)
Inductive sv_arg : Type :=
| SvScalar (x : R)
| SvSeq (l : list R)
| SvRef (r : ref).

(** [np.array(sv, dtype=np.float)]: always a new array. *)
Definition np_array (sv : sv_arg) : M ref :=
  match sv with
  | SvScalar x => alloc (NdArray (Nd0 x))
  | SvSeq l => alloc (NdArray (Nd1 l))
  | SvRef r => v <- as_nd r ;; alloc (NdArray v)
  end.

(** [x.shape] of a stored spectrum entry. *)
Definition obj_shape (x : option ref) : M (list nat) :=
  match x with
  | None => raise AttributeError
  | Some r =>
      o <- deref r ;;
      match o with
      | NdArray v => ret (nd_shape v)
      | NpcArray a => ret (shape a)
      end
  end.

(** [len(x)] of a stored spectrum entry; only numpy arrays of dimension at
    least one have a length. *)
Definition obj_len (x : option ref) : M Z :=
  match x with
  | None => raise TypeError
  | Some r =>
      o <- deref r ;;
      match o with
      | NdArray v => match nd_shape v with
                     | [] => raise TypeError
                     | d :: _ => ret (Z.of_nat d)
                     end
      | NpcArray _ => raise TypeError
      end
  end.

(** [np.any(x != y)] on stored spectrum entries.  Numpy arrays are compared
    elementwise; any other pair of objects is compared by identity. *)
Definition py_any_ne (x y : option ref) : M bool :=
  match x, y with
  | None, None => ret false
  | Some r1, Some r2 =>
      o1 <- deref r1 ;;
      o2 <- deref r2 ;;
      match o1, o2 with
      | NdArray v1, NdArray v2 => ret (nd_any_ne v1 v2)
      | _, _ => ret (negb (r1 =? r2)%nat)
      end
  | _, _ => ret true
  end.

Fixpoint mapM {A B} (f : A -> M B) (l : list A) : M (list B) :=
  match l with
  | [] => ret []
  | a :: l' => b <- f a ;; bs <- mapM f l' ;; ret (b :: bs)
  end.

(** [range(n)[a:b]] for a slice with non-negative bounds; indexing a range
    with [None] is a type error. *)
Definition slice_range (n : Z) (sl : option (Z * Z)) : outcome (list Z) :=
  match sl with
  | None => Raise TypeError
  | Some (a, b) => Ok (py_range (Z.min a n) (Z.min b n))
  end.

Definition default_cutoff : R := (/ 10 ^ 16)%R.

Definition tag_eqb (f g : form_tag) : bool :=
  match f, g with
  | Some (a, b), Some (c, d) => Reqb a c && Reqb b d
  | None, None => true
  | _, _ => false
  end.

(** A parsed form passed on where a form is expected. *)
Definition spec_of_tag (f : form_tag) : form_spec :=
  match f with
  | Some (a, b) => FTuple a b
  | None => FNone
  end.

(** ** The class [MPS] *)

Section Methods.

(** Modelled from the spec: [pseudoInverse(matrix, cutoff)] of the tensor
    backend, the Moore-Penrose pseudo-inverse regularised by [cutoff]; a
    numerical kernel, kept abstract. *)
Variable pinv : Array -> R -> outcome Array.

Definition npc_pinv (s : ref) (cutoff : R) : M ref :=
  a <- as_npc s ;;
  a' <- lift (pinv a cutoff) ;;
  alloc (NpcArray a').

(** The class attribute [_valid_forms], a dictionary. *)
Definition _valid_forms (k : form_spec) : outcome form_tag :=
  match k with
  | FName s =>
      if (s =? "A")%string then Ok (Some (1, 0)%R)
      else if (s =? "C")%string then Ok (Some (/ 2, / 2)%R)
      else if (s =? "B")%string then Ok (Some (0, 1)%R)
      else if (s =? "G")%string then Ok (Some (0, 0)%R)
      else Raise KeyError
  | FNone => Ok None
  | FTuple _ _ => Raise KeyError
  end.

Definition _valid_bc : list string := ["finite"; "segment"; "infinite"].

Definition L : M Z :=
  s <- self ;; ret (Z.of_nat (List.length (sites s))).

Definition finite : M bool :=
  s <- self ;;
  assert (existsb (String.eqb (bc s)) _valid_bc) ;;
  ret (negb (bc s =? "infinite")%string).

Definition nontrivial_bonds : M (option (Z * Z)) :=
  s <- self ;;
  if (bc s =? "finite")%string then l <- L ;; ret (Some (1, l)%Z)
  else if (bc s =? "segment")%string then l <- L ;; ret (Some (0, l + 1)%Z)
  else if (bc s =? "infinite")%string then l <- L ;; ret (Some (0, l)%Z)
  else ret None.

Definition _to_valid_index (i : Z) : M Z :=
  fin <- finite ;;
  if negb fin then l <- L ;; lift (py_mod i l)
  else
    i1 <- (if (i <? 0)%Z then l <- L ;; ret (i + l)%Z else ret i) ;;
    l <- L ;;
    if ((i1 >=? l) || (i1 <? 0))%Z
    then raise (ValueError "i out of bounds for finite MPS")
    else ret i1.

Definition _to_valid_form (f : form_spec) : M form_tag :=
  match f with
  | FTuple a b => ret (Some (a, b))
  | _ => lift (_valid_forms f)
  end.

Definition _parse_form (frm : form_arg) : M (list form_tag) :=
  match frm with
  | FOne (FTuple a b) => l <- L ;; ret (repeat (Some (a, b)) (Z.to_nat l))
  | _ =>
      let fl := match frm with FOne f => [f] | FList l => l end in
      fl1 <- (match fl with
              | [f] => l <- L ;; ret (repeat f (Z.to_nat l))
              | _ => ret fl
              end) ;;
      l <- L ;;
      if negb (Z.of_nat (List.length fl1) =? l)%Z
      then raise (ValueError "Wrong len of `form`: ")
      else mapM _to_valid_form fl1
  end.

Definition get_SL (i : Z) : M (option ref) :=
  i <- _to_valid_index i ;;
  s <- self ;;
  lift (py_getitem (_S s) i).

Definition get_SR (i : Z) : M (option ref) :=
  i <- _to_valid_index i ;;
  s <- self ;;
  lift (py_getitem (_S s) (i + 1)).

Definition set_SL (i : Z) (S : ref) : M unit :=
  i <- _to_valid_index i ;;
  s <- self ;;
  S1 <- lift (py_setitem (_S s) i (Some S)) ;;
  set_self (with_S S1) ;;
  fin <- finite ;;
  if negb fin && (i =? 0)%Z then
    s <- self ;;
    l <- L ;;
    S2 <- lift (py_setitem (_S s) l (Some S)) ;;
    set_self (with_S S2)
  else ret tt.

Definition set_SR (i : Z) (S : ref) : M unit :=
  i <- _to_valid_index i ;;
  s <- self ;;
  S1 <- lift (py_setitem (_S s) (i + 1) (Some S)) ;;
  set_self (with_S S1) ;;
  fin <- finite ;;
  l <- L ;;
  if negb fin && (i =? l - 1)%Z then
    s <- self ;;
    S2 <- lift (py_setitem (_S s) 0 (Some S)) ;;
    set_self (with_S S2)
  else ret tt.

Definition _scale_axis_B (B : ref) (S : option ref) (form_diff : R)
    (axis_B : string) (cutoff : R) : M ref :=
  if Reqb form_diff 0 then ret B
  else
    match S with
    | None => raise TypeError
    | Some s =>
        o <- deref s ;;
        match o with
        | NpcArray Sa =>
            if negb (rank Sa =? 2)%nat
            then raise (ValueError "Expect 2D npc.Array or 1D numpy ndarray")
            else
              s1 <- (if Reqb form_diff (-1) then npc_pinv s cutoff
                     else if negb (Reqb form_diff 1)
                          then raise (ValueError
                            "Can't scale/tensordot a 2D `S` for non-integer `form_diff`")
                          else ret s) ;;
              if (axis_B =? "vL")%string || (axis_B =? "vL*")%string then
                t <- npc_tensordot s1 B [AxIndex 1] [AxLabel axis_B] ;;
                npc_replace_label t (AxIndex 0) axis_B
              else if (axis_B =? "vR")%string || (axis_B =? "vR*")%string then
                t <- npc_tensordot B s1 [AxLabel axis_B] [AxIndex 0] ;;
                npc_replace_label t (AxIndex (-1)) axis_B
              else raise (ValueError
                "This should never happen: unexpected leg for scaling with S")
        | NdArray _ =>
            s1 <- (if negb (Reqb form_diff 1) then np_pow s form_diff
                   else ret s) ;;
            npc_scale_axis B s1 (AxLabel axis_B)
        end
    end.

Definition _convert_form_i (B : ref) (i : Z) (frm new_form : form_tag)
    (copy : bool) (cutoff : R) : M ref :=
  if match new_form with None => true | Some _ => false end
     || tag_eqb frm new_form
  then (if copy then npc_copy B else ret B)   (* nothing to do *)
  else
    match frm with
    | None => raise (ValueError "can't convert form of non-canonical state!")
    | Some (old_L, old_R) =>
        match new_form with
        | None => raise TypeError               (* excluded by the test above *)
        | Some (new_L, new_R) =>
            SL <- get_SL i ;;
            B1 <- _scale_axis_B B SL (new_L - old_L) "vL" cutoff ;;
            SR <- get_SR i ;;
            _scale_axis_B B1 SR (new_R - old_R) "vR" cutoff
        end
    end.

Definition get_B (i : Z) (frm : form_spec) (copy : bool) (cutoff : R) : M ref :=
  i <- _to_valid_index i ;;
  new_form <- _to_valid_form frm ;;
  s <- self ;;
  B <- lift (py_getitem (_B s) i) ;;
  f <- lift (py_getitem (form s) i) ;;
  _convert_form_i B i f new_form copy cutoff.

Definition set_B (i : Z) (B : ref) (frm : form_spec) : M unit :=
  i <- _to_valid_index i ;;
  f <- _to_valid_form frm ;;
  s <- self ;;
  fl <- lift (py_setitem (form s) i f) ;;
  set_self (with_form fl) ;;
  s <- self ;;
  bl <- lift (py_setitem (_B s) i B) ;;
  set_self (with_B bl).

Definition get_theta (i n : Z) (cutoff formL formR : R) : M ref :=
  i <- _to_valid_index i ;;
  fin <- finite ;;
  l <- L ;;
  (if fin && ((i <? 0) || (i + n >? l))%Z
   then raise (ValueError "i out of bounds") else ret tt) ;;
  s <- self ;;
  f_i <- lift (py_getitem (form s) i) ;;
  match f_i with
  | None => raise (ValueError "can't calculate theta for non-canonical form")
  | Some (fL, fR) =>
      j_last <- lift (py_mod (i + n - 1) l) ;;
      f_last <- lift (py_getitem (form s) j_last) ;;
      match f_last with
      | None =>
          (* we allow intermediate `form`=None except at the very left and
             right. *)
          raise (ValueError "can't calculate theta for non-canonical form")
      | Some _ =>
          let copy := Reqb fL 0 && Reqb fR 0 in
          theta <- get_B i FNone copy default_cutoff ;;
          theta <- npc_replace_label theta (AxLabel "p") "p0" ;;
          SL <- get_SL i ;;
          theta <- _scale_axis_B theta SL (formL - fL) "vL" cutoff ;;
          '(theta, fR) <-
            for_fold (py_range 1 n) (theta, Some fR)
              (fun '(theta, fR) k =>
                 j <- lift (py_mod (i + k) l) ;;
                 B0 <- get_B j FNone false default_cutoff ;;
                 B <- npc_replace_label B0 (AxLabel "p") ("p" ++ str_of_Z k)%string ;;
                 s <- self ;;
                 f_j <- lift (py_getitem (form s) j) ;;
                 '(B, fR) <-
                   match f_j with
                   | Some (fL_j, fR_j) =>
                       B <- match fR with
                            | Some fR =>
                                SLj <- get_SL j ;;
                                _scale_axis_B B SLj (1 - fL_j - fR) "vL" cutoff
                            | None => ret B  (* we can just hope it's fine. *)
                            end ;;
                       ret (B, Some fR_j)
                   | None => ret (B, None)
                   end ;;
                 theta <- npc_tensordot theta B [AxLabel "vR"] [AxLabel "vL"] ;;
                 ret (theta, fR)) ;;
          SR <- get_SR (i + n - 1) ;;
          match fR with
          | None => raise TypeError             (* formR - None *)
          | Some fR => _scale_axis_B theta SR (formR - fR) "vR" cutoff
          end
      end
  end.

Definition convert_form (new_form : form_arg) : M unit :=
  new_forms <- _parse_form new_form ;;
  for_each (enumerate new_forms)
    (fun '(i, f) =>
       new_B <- get_B i (spec_of_tag f) false default_cutoff ;;
       set_B i new_B (spec_of_tag f)).

Definition has_label (a : Array) (s : string) : bool :=
  existsb (fun l => label_eqb l s) (labels a).

Definition test_sanity : M unit :=
  s <- self ;;
  (if negb (existsb (String.eqb (bc s)) _valid_bc)
   then raise (ValueError "invalid boundary condition: ") else ret tt) ;;
  l <- L ;;
  (if negb (Z.of_nat (List.length (_B s)) =? l)%Z
   then raise (ValueError "wrong len of self._B") else ret tt) ;;
  (if negb (Z.of_nat (List.length (_S s)) =? l + 1)%Z
   then raise (ValueError "wrong len of self._S") else ret tt) ;;
  for_each (enumerate (_B s))
    (fun '(i, B) =>
       a <- as_npc B ;;
       (if negb (forallb (has_label a) ["vL"; "vR"; "p"])
        then raise (ValueError "B has wrong labels ") else ret tt) ;;
       lift (array_test_sanity a) ;;
       Si <- lift (py_getitem (_S s) i) ;;
       shi <- obj_shape Si ;;
       dL <- lift (py_getitem shi (-1)) ;;
       legL <- lift (get_leg a (AxLabel "vL")) ;;
       (if negb (dL =? ind_len legL)%nat
        then raise (ValueError
               "shape of B incompatible with len of singular values")
        else
          Sj <- lift (py_getitem (_S s) (i + 1)) ;;
          shj <- obj_shape Sj ;;
          dR <- lift (py_getitem shj 0) ;;
          legR <- lift (get_leg a (AxLabel "vR")) ;;
          if negb (dR =? ind_len legR)%nat
          then raise (ValueError
                 "shape of B incompatible with len of singular values")
          else ret tt) ;;
       fin <- finite ;;
       if negb fin || (i + 1 <? l)%Z then
         j <- lift (py_mod (i + 1) l) ;;
         B2 <- lift (py_getitem (_B s) j) ;;
         legR <- lift (get_leg a (AxLabel "vR")) ;;
         a2 <- as_npc B2 ;;
         legL2 <- lift (get_leg a2 (AxLabel "vL")) ;;
         lift (test_contractible legR legL2)
       else ret tt) ;;
  (if (bc s =? "finite")%string then
     S0 <- lift (py_getitem (_S s) 0) ;;
     n0 <- obj_len S0 ;;
     if negb (n0 =? 1)%Z
     then raise (ValueError "non-trivial outer bonds for finite MPS")
     else
       S1 <- lift (py_getitem (_S s) (-1)) ;;
       n1 <- obj_len S1 ;;
       if negb (n1 =? 1)%Z
       then raise (ValueError "non-trivial outer bonds for finite MPS")
       else ret tt
   else if (bc s =? "infinite")%string then
     SL <- lift (py_getitem (_S s) l) ;;
     S0 <- lift (py_getitem (_S s) 0) ;;
     ne <- py_any_ne SL S0 ;;
     if ne then raise (ValueError "iMPS with S[0] != S[L]") else ret tt
   else ret tt) ;;
  assert (Z.of_nat (List.length (form s)) =? l)%Z.
  (* the remaining assertions, that each form tag other than [None] is a
     tuple of length two, hold by the type of [form_tag]. *)

Definition __init__ (sites_ : list Site) (Bs : list (option ref))
    (SVs : list sv_arg) (bc_ : string) (form_ : form_arg) : M unit :=
  set_self (with_sites sites_) ;;
  s <- self ;;
  site0 <- lift (py_getitem (sites s) 0) ;;
  set_self (with_chinfo (leg_chinfo (leg site0))) ;;
  (* [B.dtype for B in Bs]: every entry must be an array *)
  Bs <- mapM (fun b => match b with
                       | Some r => ret r
                       | None => raise AttributeError
                       end) Bs ;;
  fl <- _parse_form form_ ;;
  set_self (with_form fl) ;;
  set_self (with_bc bc_) ;;
  (* make copies of Bs and SVs *)
  Bc <- mapM astype_copy Bs ;;
  set_self (with_B Bc) ;;
  l <- L ;;
  set_self (with_S (repeat None (Z.to_nat (l + 1)))) ;;
  l <- L ;;
  nb <- nontrivial_bonds ;;
  bonds <- lift (slice_range (l + 1) nb) ;;
  for_each bonds
    (fun i =>
       sv <- lift (py_getitem SVs i) ;;
       r <- np_array sv ;;
       s <- self ;;
       S1 <- lift (py_setitem (_S s) i (Some r)) ;;
       set_self (with_S S1)) ;;
  s <- self ;;
  (if (bc s =? "infinite")%string then
     S0 <- lift (py_getitem (_S s) 0) ;;
     S1 <- lift (py_setitem (_S s) (-1) S0) ;;
     set_self (with_S S1)
   else if (bc s =? "finite")%string then
     one <- np_ones1 ;;
     S1 <- lift (py_setitem (_S s) 0 (Some one)) ;;
     set_self (with_S S1) ;;
     s <- self ;;
     S2 <- lift (py_setitem (_S s) (-1) (Some one)) ;;
     set_self (with_S S2)
   else ret tt) ;;
  test_sanity.

(** The [ops] argument of [expectation_value]: operators are given by name
    or as arrays, one or a list of them. *)
Inductive op_spec : Type :=
| OpName (s : string)
| OpArray (r : ref).

Inductive ops_arg : Type :=
| OpsOne (o : op_spec)
| OpsList (l : list op_spec).

(** Modelled from the spec: [lookupOperator(name)] of a site. *)
Fixpoint get_op (tbl : list (string * ref)) (name : string) : outcome ref :=
  match tbl with
  | [] => Raise AttributeError
  | (k, r) :: tbl' => if (k =? name)%string then Ok r else get_op tbl' name
  end.

Definition npc_inner (a b : ref) (axesA axesB : list axis) : M R :=
  x <- as_npc a ;;
  y <- as_npc b ;;
  lift (inner x y axesA axesB).

Definition expectation_value (ops : ops_arg) (sites_ : option (list Z))
    (axes : option (list string * list string)) : M ref :=
  (* to_iterable; a single npc.Array is wrapped manually *)
  let ops := match ops with OpsOne o => [o] | OpsList l => l end in
  op0 <- lift (py_getitem ops 0) ;;
  n <- match op0 with
       | OpName _ => ret 1%Z
       | OpArray r => a <- as_npc r ;; ret (Z.of_nat (rank a) / 2)%Z
       end ;;
  let L_ops := Z.of_nat (List.length ops) in
  l <- L ;;
  sites_ <- match sites_ with
            | Some ss => ret ss
            | None =>
                fin <- finite ;;
                if fin then ret (py_range 0 (l - (n - 1)))
                else ret (py_range 0 l)
            end ;;
  let p_labels := map (fun j => ("p" ++ str_of_Z j)%string) (py_range 0 n) in
  let th_labels := ["vL"; "vR"] ++ p_labels in
  let axes := match axes with
              | Some ax => ax
              | None => (p_labels, map (fun lbl => (lbl ++ "*")%string) p_labels)
              end in
  let '(axes_p, axes_pstar) := axes in
  (if negb (Z.of_nat (List.length axes_p) =? n)%Z
      || negb (Z.of_nat (List.length axes_pstar) =? n)%Z
   then
     (* raise ValueError("Len of axes does not match operator n=" + len(n)):
        building the message takes [len] of the int [n] *)
     raise TypeError
   else ret tt) ;;
  let vLvR_axes_p := ["vL"; "vR"] ++ axes_p in
  E <- for_fold sites_ []
         (fun E i =>
            k <- lift (py_mod i L_ops) ;;
            op <- lift (py_getitem ops k) ;;
            op <- match op with
                  | OpName name =>
                      s <- self ;;
                      site <- lift (py_getitem (sites s) i) ;;
                      lift (get_op (site_ops site) name)
                  | OpArray r => ret r
                  end ;;
            theta <- get_theta i n default_cutoff 1 1 ;;
            C <- npc_tensordot op theta (map AxLabel axes_pstar)
                                        (map AxLabel p_labels) ;;
            e <- npc_inner theta C (map AxLabel th_labels)
                                   (map AxLabel vLvR_axes_p) ;;
            ret (E ++ [e])) ;;
  alloc (NdArray (Nd1 E)).           (* np.array(E) *)

(** Modelled from the spec: the remaining operations of the tensor backend
    used by the dense-tensor factory ([transpose], [addTrivialLeg],
    [combineLegs], [splitLegs], [svd]); numerical kernels, kept abstract. *)
Variable transpose : Array -> list string -> outcome Array.
Variable add_trivial_leg : Array -> Z -> string -> Z -> outcome Array.
Variable combine_legs : Array -> list axis -> outcome Array.
Variable split_legs : Array -> Z -> outcome Array.
Variable svd : Array -> bool -> R -> outcome (Array * ndarray * Array).

(** [psi.itranspose(labels)], in place *)
Definition npc_itranspose (psi : ref) (lbls : list string) : M unit :=
  a <- as_npc psi ;;
  a' <- lift (transpose a lbls) ;;
  store psi (NpcArray a').

Definition npc_add_trivial_leg (psi : ref) (pos : Z) (label : string)
    (qc : Z) : M ref :=
  a <- as_npc psi ;;
  a' <- lift (add_trivial_leg a pos label qc) ;;
  alloc (NpcArray a').

Definition npc_combine_legs (psi : ref) (axes : list axis) : M ref :=
  a <- as_npc psi ;;
  a' <- lift (combine_legs a axes) ;;
  alloc (NpcArray a').

Definition npc_split_legs (psi : ref) (ax : Z) : M ref :=
  a <- as_npc psi ;;
  a' <- lift (split_legs a ax) ;;
  alloc (NpcArray a').

(** [npc.svd(psi, ...)]; [qtotal_LR] tells whether [qtotal_LR=[None,
    psi.qtotal]] is passed. *)
Definition npc_svd (psi : ref) (qtotal_LR : bool) (cutoff : R)
  : M (ref * ref * ref) :=
  a <- as_npc psi ;;
  '(u, sv, vh) <- lift (svd a qtotal_LR cutoff) ;;
  ru <- alloc (NpcArray u) ;;
  rs <- alloc (NdArray sv) ;;
  rv <- alloc (NpcArray vh) ;;
  ret (ru, rs, rv).

(** [S /= np.linalg.norm(S)], in place; the norm of an array with a [nan]
    entry is [nan] *)
Definition np_idiv_norm (S : ref) : M unit :=
  v <- as_nd S ;;
  if existsb is_nan (nd_entries v) then lift (Anomaly NonFiniteFloat)
  else
  let nrm := sqrt (Rsum (map (fun x => x * x)%R (nd_data v))) in
  if Reqb nrm 0 then
    match nd_data v with
    | [] => ret tt
    | _ :: _ => lift (Anomaly NonFiniteFloat)
    end
  else store S (NdArray match v with
                        | Nd0 x => Nd0 (x / nrm)%R
                        | _ => Nd1 (map (fun x => x / nrm)%R (nd_data v))
                        end).

(** [psi.iscale_axis(S, ax)], in place *)
Definition npc_iscale_axis (psi S : ref) (ax : axis) : M unit :=
  a <- as_npc psi ;;
  v <- as_nd S ;;
  a' <- lift (scale_axis a v ax) ;;
  store psi (NpcArray a').

Definition is_canonical_name (frm : form_arg) : bool :=
  match frm with
  | FOne (FName s) => existsb (String.eqb s) ["B"; "A"; "C"; "G"]
  | _ => false
  end.

Definition is_name_B (frm : form_arg) : bool :=
  match frm with
  | FOne (FName s) => (s =? "B")%string
  | _ => false
  end.

(** The class method [from_full]; the instance it returns is [this]. *)
Definition from_full (sites_ : list Site) (psi : ref) (frm : form_arg)
    (cutoff : R) : M unit :=
  (if negb (is_canonical_name frm)
   then raise (ValueError "Invalid form: ") else ret tt) ;;
  (* perform SVDs to bring it into 'B' form, afterwards change the form. *)
  let l := Z.of_nat (List.length sites_) in
  assert (l >=? 2)%Z ;;
  let B_list : list (option ref) := repeat None (Z.to_nat l) in
  let S_list := repeat (SvScalar 1) (Z.to_nat (l + 1)) in
  let lbls := map (fun i => ("p" ++ str_of_Z i)%string) (py_range 0 l) in
  npc_itranspose psi lbls ;;
  (* combine legs from left *)
  psi <- npc_add_trivial_leg psi 0 "vL" 1 ;;
  psi <- for_fold (py_range 0 (l - 1)) psi
           (fun psi _ => npc_combine_legs psi [AxIndex 0; AxIndex 1]) ;;
  psi <- npc_add_trivial_leg psi 2 "vR" (-1) ;;
  '(psi, B_list, S_list) <-
    for_fold (rev (py_range 1 l)) (psi, B_list, S_list)
      (fun '(psi, B_list, S_list) i =>
         (* split off B[i] *)
         lbl <- lift (py_getitem lbls i) ;;
         psi <- npc_combine_legs psi [AxLabel lbl; AxLabel "vR"] ;;
         '(psi, Sv, B) <- npc_svd psi false cutoff ;;
         np_idiv_norm Sv ;;
         npc_iscale_axis psi Sv (AxIndex 1) ;;
         Bsp <- npc_split_legs B 1 ;;
         Bi <- npc_replace_label Bsp (AxLabel lbl) "p" ;;
         B_list <- lift (py_setitem B_list i (Some Bi)) ;;
         S_list <- lift (py_setitem S_list i (SvRef Sv)) ;;
         psi <- npc_split_legs psi 0 ;;
         ret (psi, B_list, S_list)) ;;
  lbl0 <- lift (py_getitem lbls 0) ;;
  psi <- npc_combine_legs psi [AxLabel lbl0; AxLabel "vR"] ;;
  '(psi, _, B) <- npc_svd psi true cutoff ;;
  a <- as_npc psi ;;
  assert (if list_eq_dec Nat.eq_dec (shape a) [1; 1] then true else false) ;;
  one <- np_ones1 ;;
  S_list <- lift (py_setitem S_list 0 (SvRef one)) ;;
  Bsp <- npc_split_legs B 1 ;;
  B0 <- npc_replace_label Bsp (AxLabel lbl0) "p" ;;
  B_list <- lift (py_setitem B_list 0 (Some B0)) ;;
  __init__ sites_ B_list S_list "finite" (FOne (FName "B")) ;;
  if negb (is_name_B frm) then convert_form frm else ret tt.

End Methods.

(** ** Reading the heap: what a computation yields *)

(** The heap only grows: every old address keeps its object. *)
Definition extends (h h' : list pyobj) : Prop := exists ext, h' = h ++ ext.

(** The object, if any, behind a stored spectrum entry. *)
Definition spectrum_at (w : world) (s : option ref) (so : option pyobj)
  : Prop :=
  match s, so with
  | None, None => True
  | Some r, Some o => nth_error (heap w) r = Some o
  | _, _ => False
  end.

(** A run from [w] ended in [res], and [v] describes it: the instance is
    untouched, the heap has only grown, and the outcome is [v], an array
    being returned through a reference to it. *)
Definition yields (w : world) (res : outcome ref * world) (v : outcome Array)
  : Prop :=
  this (snd res) = this w
  /\ extends (heap w) (heap (snd res))
  /\ match v with
     | Ok a => exists r, fst res = Ok r
                         /\ nth_error (heap (snd res)) r = Some (NpcArray a)
     | Raise e => fst res = Raise e
     | Anomaly x => fst res = Anomaly x
     end.

(** The matrix [S1] contracted into the leg [axis_B] of [Bv], which the
    result carries again under the same name: from the left for [vL], from
    the right for [vR]. *)
Definition contract_into (S1 Bv : Array) (axis_B : string) : outcome Array :=
  if (axis_B =? "vL")%string || (axis_B =? "vL*")%string then
    obind (tensordot S1 Bv [AxIndex 1] [AxLabel axis_B]) (fun T =>
    replace_label T (AxIndex 0) axis_B)
  else if (axis_B =? "vR")%string || (axis_B =? "vR*")%string then
    obind (tensordot Bv S1 [AxLabel axis_B] [AxIndex 0]) (fun T =>
    replace_label T (AxIndex (-1)) axis_B)
  else Raise (ValueError
    "This should never happen: unexpected leg for scaling with S").

(** The array computed by [_scale_axis_B] from the value [Bv] of the tensor
    and the object [so] behind the spectrum. *)
Definition scale_axis_B_val (pinv : Array -> R -> outcome Array)
    (Bv : Array) (so : option pyobj) (form_diff : R) (axis_B : string)
    (cutoff : R) : outcome Array :=
  if Reqb form_diff 0 then Ok Bv
  else
    match so with
    | None => Raise TypeError
    | Some (NpcArray Sa) =>
        if negb (rank Sa =? 2)%nat
        then Raise (ValueError "Expect 2D npc.Array or 1D numpy ndarray")
        else
          obind (if Reqb form_diff (-1) then pinv Sa cutoff
                 else if negb (Reqb form_diff 1)
                      then Raise (ValueError
                        "Can't scale/tensordot a 2D `S` for non-integer `form_diff`")
                      else Ok Sa) (fun S1 => contract_into S1 Bv axis_B)
    | Some (NdArray v) =>
        obind (if negb (Reqb form_diff 1) then nd_power v form_diff
               else Ok v) (fun v1 =>
        scale_axis Bv v1 (AxLabel axis_B))
    end.

(** The array computed by [_convert_form_i] between two exponent pairs. *)
Definition convert_form_val (pinv : Array -> R -> outcome Array)
    (Bv : Array) (soL soR : option pyobj) (frm new_form : R * R)
    (cutoff : R) : outcome Array :=
  obind (scale_axis_B_val pinv Bv soL (fst new_form - fst frm) "vL" cutoff)
    (fun B1 =>
  scale_axis_B_val pinv B1 soR (snd new_form - snd frm) "vR" cutoff).

(** [Bv] with every entry multiplied by the weight [F] of its
    multi-index. *)
Definition weighted (Bv : Array) (F : list nat -> R) : Array :=
  mkArray (labels Bv) (legs Bv)
    (map (fun xi => (fst xi * F (snd xi))%R)
         (combine (data Bv) (multi_indices (shape Bv)))).

(** A stand-in for the pseudo-inverse in the examples below, exact on the
    one-by-one unit matrix they use. *)
Definition pinv_example (a : Array) (cutoff : R) : outcome Array :=
  if (rank a =? 2)%nat then Ok a else Raise (ValueError "pinv: not a matrix").

(** Renaming the first leg labelled [old]. *)
Fixpoint rename_first (old new : string) (ls : list (option string))
  : list (option string) :=
  match ls with
  | [] => []
  | l :: ls' => if label_eqb l old then Some new :: ls'
                else l :: rename_first old new ls'
  end.

(** [A] under other labels. *)
Definition set_labels (ls : list (option string)) (A : Array) : Array :=
  mkArray ls (legs A) (data A).

(** A list without its entry at position [k]. *)
Definition drop_nth {A} (k : nat) (l : list A) : list A :=
  firstn k l ++ skipn (S k) l.

(** The tensor handed on by [get_theta]: the physical leg [p] renamed to
    [p0]. *)
Definition relabel_p0 (A : Array) : outcome Array :=
  replace_label A (AxLabel "p") "p0".

(** The backend keeps one label per leg. *)
Definition labelled (A : Array) : Prop := List.length (labels A) = rank A.

(** Modelled from the spec: what [pseudoInverse(matrix, cutoff)] returns is
    a matrix again. *)
Definition pinv_matrix (pinv : Array -> R -> outcome Array) : Prop :=
  forall a cutoff a', pinv a cutoff = Ok a' -> rank a' = 2.

Definition all_positive (v : list R) : Prop := Forall (fun x => (0 < x)%R) v.

(** The number [n] of sites an operator acts on, as [expectation_value]
    reads it off the first operator. *)
Definition operator_sites (w : world) (o : op_spec) (n : Z) : Prop :=
  match o with
  | OpName _ => n = 1%Z
  | OpArray r => exists a, nth_error (heap w) r = Some (NpcArray a)
                           /\ n = (Z.of_nat (rank a) / 2)%Z
  end.

(** The operators as a list: what [to_iterable] makes of the argument. *)
Definition ops_list (ops : ops_arg) : list op_spec :=
  match ops with
  | OpsOne o => [o]
  | OpsList l => l
  end.

(** The boundary conditions the class knows. *)
Definition valid_bc (s : string) : Prop :=
  s = "finite" \/ s = "segment" \/ s = "infinite".

(** A tensor that passes the sanity check of the backend. *)
Definition well_formed (Bv : Array) : Prop := array_test_sanity Bv = Ok tt.

(** The two errors that report a form that is not known. *)
Definition unknown_form_error (e : exn) : Prop :=
  e = ValueError "can't calculate theta for non-canonical form"
  \/ e = ValueError "can't convert form of non-canonical state!".

(** The two errors by which validation reports a bad boundary spectrum. *)
Definition boundary_error (e : exn) : Prop :=
  e = ValueError "non-trivial outer bonds for finite MPS"
  \/ e = ValueError "iMPS with S[0] != S[L]".

(** The errors singled out above. *)
Definition flagged (e : exn) : Prop :=
  unknown_form_error e \/ boundary_error e.

(** An outcome that is not one of the flagged errors. *)
Definition plain {A} (o : outcome A) : Prop :=
  forall e, o = Raise e -> ~ flagged e.

(** A computation that never raises a flagged error. *)
Definition never_flagged {A} (m : M A) : Prop :=
  forall w e, fst (m w) = Raise e -> ~ flagged e.

(** A computation that only reads the world. *)
Definition read_only {A} (m : M A) : Prop := forall w, snd (m w) = w.

(** ** The constructor in stages

    The body of [__init__] read as three stages followed by validation:
    setting the attributes, copying the singular values of the nontrivial
    bonds, fixing the boundary spectra. *)

Definition init_attributes (sites_ : list Site) (Bs : list (option ref))
    (bc_ : string) (form_ : form_arg) : M unit :=
  set_self (with_sites sites_) ;;
  s <- self ;;
  site0 <- lift (py_getitem (sites s) 0) ;;
  set_self (with_chinfo (leg_chinfo (leg site0))) ;;
  Bs <- mapM (fun b => match b with
                       | Some r => ret r
                       | None => raise AttributeError
                       end) Bs ;;
  fl <- _parse_form form_ ;;
  set_self (with_form fl) ;;
  set_self (with_bc bc_) ;;
  Bc <- mapM astype_copy Bs ;;
  set_self (with_B Bc) ;;
  l <- L ;;
  set_self (with_S (repeat None (Z.to_nat (l + 1)))).

Definition init_spectra (SVs : list sv_arg) : M unit :=
  l <- L ;;
  nb <- nontrivial_bonds ;;
  bonds <- lift (slice_range (l + 1) nb) ;;
  for_each bonds
    (fun i =>
       sv <- lift (py_getitem SVs i) ;;
       r <- np_array sv ;;
       s <- self ;;
       S1 <- lift (py_setitem (_S s) i (Some r)) ;;
       set_self (with_S S1)).

Definition init_boundary : M unit :=
  s <- self ;;
  if (bc s =? "infinite")%string then
    S0 <- lift (py_getitem (_S s) 0) ;;
    S1 <- lift (py_setitem (_S s) (-1) S0) ;;
    set_self (with_S S1)
  else if (bc s =? "finite")%string then
    one <- np_ones1 ;;
    S1 <- lift (py_setitem (_S s) 0 (Some one)) ;;
    set_self (with_S S1) ;;
    s <- self ;;
    S2 <- lift (py_setitem (_S s) (-1) (Some one)) ;;
    set_self (with_S S2)
  else ret tt.

(** The bonds whose singular values the constructor reads, for a chain of
    [n] sites. *)
Definition nontrivial (bc_ : string) (n i : nat) : Prop :=
  (bc_ = "finite" /\ 1 <= i < n)
  \/ (bc_ = "segment" /\ i <= n)
  \/ (bc_ = "infinite" /\ i < n).

(** A computation that leaves the instance as it is. *)
Definition keeps_this {A} (m : M A) : Prop :=
  forall w, this (snd (m w)) = this w.

(** A property of the world that successful runs of [m] preserve. *)
Definition stable {A} (P : world -> Prop) (m : M A) : Prop :=
  forall w a w', P w -> m w = (Ok a, w') -> P w'.

(** The properties of the instance that the second stage preserves. *)
Definition chain_shape (sites_ : list Site) (bc_ : string) (w : world) : Prop :=
  sites (this w) = sites_ /\ bc (this w) = bc_
  /\ List.length (_S (this w)) = S (List.length sites_).

(** The boundary spectra are as the third stage leaves them: for a finite
    chain the outer two are vectors of length one, for an infinite chain the
    last entry is the first one. *)
Definition boundary_fixed (w : world) : Prop :=
  (bc (this w) = "finite" ->
   exists r0 r1 x y,
     py_getitem (_S (this w)) 0 = Ok (Some r0)
     /\ py_getitem (_S (this w)) (-1) = Ok (Some r1)
     /\ nth_error (heap w) r0 = Some (NdArray (Nd1 [x]))
     /\ nth_error (heap w) r1 = Some (NdArray (Nd1 [y])))
  /\ (bc (this w) = "infinite" ->
      py_getitem (_S (this w)) (Z.of_nat (List.length (sites (this w))))
      = py_getitem (_S (this w)) 0).

(** A property of the world that depends neither on the stored spectra nor
    on the heap. *)
Definition spectra_blind (P : world -> Prop) : Prop :=
  forall w Sl h, P w -> P (mkWorld (with_S Sl (this w)) h).

(** A finite chain over [sites_] whose tensors all carry the form tag
    [t]. *)
Definition in_form (sites_ : list Site) (t : form_tag) (w : world) : Prop :=
  sites (this w) = sites_ /\ bc (this w) = "finite"
  /\ form (this w) = repeat t (List.length sites_).

(** The invariant of the loop of [convert_form]: the sites whose index is
    listed in [done] carry the tag [t]. *)
Definition converted (sites_ : list Site) (t : form_tag)
    (done : list (Z * form_tag)) (w : world) : Prop :=
  sites (this w) = sites_ /\ bc (this w) = "finite"
  /\ List.length (form (this w)) = List.length sites_
  /\ forall k f, In (Z.of_nat k, f) done ->
                 nth_error (form (this w)) k = Some t.

(** ** Example states *)

Definition leg_in : LegCharge := mkLeg 0 1 1 [0%Z].
Definition leg_out : LegCharge := mkLeg 0 1 (-1) [0%Z].

(** A product-state tensor with trivial bonds: legs [vL, vR, p]. *)
Definition B_unit : Array :=
  mkArray [Some "vL"; Some "vR"; Some "p"] [leg_in; leg_out; leg_in] [1%R].

Definition site1 : Site := mkSite 1 leg_in [].

(** The one-by-one unit matrix as a matrix-valued spectrum. *)
Definition S_unit : Array :=
  mkArray [Some "vL"; Some "vR"] [leg_out; leg_in] [1%R].

(** An infinite unit cell of one site; [spectra[0]] and [spectra[1]] are
    the same array [[1.]]; the objects at addresses 2 and 3 are further
    spectra, a vector and a matrix. *)
Definition imps1 : world :=
  mkWorld (mkMPS [site1] 0 [Some (0, 1)%R] "infinite" [0] [Some 1; Some 1])
          [NpcArray B_unit; NdArray (Nd1 [1%R]); NdArray (Nd1 [1%R]);
           NpcArray S_unit].

(** A segment of one site whose left spectrum has a negative entry. *)
Definition seg_neg : world :=
  mkWorld (mkMPS [site1] 0 [Some (0, 1)%R] "segment" [0] [Some 1; Some 2])
          [NpcArray B_unit; NdArray (Nd1 [(-1)%R]); NdArray (Nd1 [1%R])].

(** A segment of three sites; the form of the middle one is not known. *)
Definition chain3 : world :=
  mkWorld (mkMPS [site1; site1; site1] 0
                 [Some (0, 1)%R; None; Some (0, 1)%R] "segment" [0; 0; 0]
                 [Some 1; Some 1; Some 1; Some 1])
          [NpcArray B_unit; NdArray (Nd1 [1%R])].

(** A tensor with a fourth leg [q] besides [vL], [vR], [p], and a finite
    chain of one site holding it. *)
Definition B_extra : Array :=
  mkArray [Some "vL"; Some "vR"; Some "p"; Some "q"]
          [leg_in; leg_out; leg_in; leg_in] [1%R].

Definition fin_extra : world :=
  mkWorld (mkMPS [site1] 0 [Some (0, 1)%R] "finite" [0] [Some 1; Some 1])
          [NpcArray B_extra; NdArray (Nd1 [1%R])].

(** A tensor without a leg [p], and a segment of one site holding it. *)
Definition B_no_p : Array :=
  mkArray [Some "vL"; Some "vR"; Some "q"] [leg_in; leg_out; leg_in] [1%R].

Definition seg_no_p : world :=
  mkWorld (mkMPS [site1] 0 [Some (0, 1)%R] "segment" [0] [Some 1; Some 1])
          [NpcArray B_no_p; NdArray (Nd1 [1%R])].


(** Stand-ins for the remaining kernels in the example of the factory.  On
    the product state of two one-dimensional sites every leg has dimension
    one: rearranging legs leaves the data alone, and each decomposition
    splits off the one-by-one unit matrix, the singular values [[1.]] and a
    tensor with legs [vL, vR, p_i]. *)
Definition transpose_example (a : Array) (lbls : list string)
  : outcome Array := Ok a.
Definition add_trivial_leg_example (a : Array) (pos : Z) (label : string)
    (qc : Z) : outcome Array := Ok a.
Definition combine_legs_example (a : Array) (axes : list axis)
  : outcome Array := Ok a.
Definition split_legs_example (a : Array) (ax : Z) : outcome Array := Ok a.
Definition svd_example (a : Array) (qtotal_LR : bool) (cutoff : R)
  : outcome (Array * ndarray * Array) :=
  Ok (S_unit, Nd1 [1%R],
      mkArray [Some "vL"; Some "vR";
               Some (if qtotal_LR then "p0" else "p1")]
              [leg_in; leg_out; leg_in] [1%R]).

(** The product state of two one-dimensional sites as one tensor, and the
    world the factory is called in: no instance yet, the tensor at address
    0. *)
Definition psi_product : Array :=
  mkArray [Some "p0"; Some "p1"] [leg_in; leg_in] [1%R].

Definition factory_start : world :=
  mkWorld (mkMPS [] 0 [] "" [] []) [NpcArray psi_product].

Definition from_full_example (frm : form_arg) : outcome unit * world :=
  from_full pinv_example transpose_example add_trivial_leg_example
    combine_legs_example split_legs_example svd_example
    [site1; site1] 0 frm default_cutoff factory_start.

(** A segment of one site stored in form A, between the spectra [[2.]] and
    [[4.]]. *)
Definition seg_A : world :=
  mkWorld (mkMPS [site1] 0 [Some (1, 0)%R] "segment" [0] [Some 1; Some 2])
          [NpcArray B_unit; NdArray (Nd1 [2%R]); NdArray (Nd1 [4%R])].

(** ** Further attributes of the class *)

(** [l[a:b]] for a list and a slice with non-negative bounds; indexing a
    list with [None] is a type error. *)
Definition slice_list {A} (l : list A) (sl : option (Z * Z))
  : outcome (list A) :=
  match sl with
  | None => Raise TypeError
  | Some (a, b) =>
      let n := Z.of_nat (List.length l) in
      let lo := Z.to_nat (Z.min a n) in
      let hi := Z.to_nat (Z.min b n) in
      Ok (firstn (hi - lo) (skipn lo l))
  end.

(** The property [dim]: the local physical dimensions. *)
Definition MPS_dim : M (list nat) :=
  s <- self ;; ret (map dim (sites s)).

(** The property [chi]: the dimensions of the nontrivial virtual bonds,
    [[s.shape[0] for s in self._S[self.nontrivial_bonds]]]. *)
Definition chi : M (list nat) :=
  s <- self ;;
  nb <- nontrivial_bonds ;;
  sl <- lift (slice_list (_S s) nb) ;;
  mapM (fun x => sh <- obj_shape x ;; lift (py_getitem sh 0)) sl.

(** ** Properties of computations used below *)

(** A computation that only looks: the instance is as before and every
    object of the heap is where it was, new objects apart. *)
Definition observer {A} (m : M A) : Prop :=
  forall w, this (snd (m w)) = this w
            /\ extends (heap w) (heap (snd (m w))).

(** The number of sites as a Python int. *)
Definition chain_length (w : world) : Z :=
  Z.of_nat (List.length (sites (this w))).

(** An infinite chain with [L+1] spectra whose last one is the first
    one. *)
Definition mirrored (w : world) : Prop :=
  bc (this w) = "infinite"
  /\ List.length (_S (this w)) = S (List.length (sites (this w)))
  /\ nth_error (_S (this w)) (List.length (sites (this w)))
     = nth_error (_S (this w)) 0.

(** A reference that is not in use yet. *)
Definition fresh (w : world) (r : ref) : Prop := List.length (heap w) <= r.

(** The first ([first = true]) or the last dimension of a stored
    spectrum. *)
Definition bond_dim (w : world) (s : option ref) (first : bool) (d : nat)
  : Prop :=
  exists sh, obj_shape s w = (Ok sh, w)
             /\ py_getitem sh (if first then 0 else -1)%Z = Ok d.

(** The tensor [b] of site [k] fits its place: it is a well-formed array
    with legs [vL], [vR], [p], and the spectra to its left and right are as
    long as these legs. *)
Definition site_fits (w : world) (k : nat) (b : ref) : Prop :=
  exists a legL legR SL SR,
    nth_error (heap w) b = Some (NpcArray a)
    /\ forallb (has_label a) ["vL"; "vR"; "p"] = true
    /\ array_test_sanity a = Ok tt
    /\ get_leg a (AxLabel "vL") = Ok legL
    /\ get_leg a (AxLabel "vR") = Ok legR
    /\ nth_error (_S (this w)) k = Some SL
    /\ nth_error (_S (this w)) (S k) = Some SR
    /\ bond_dim w SL false (ind_len legL)
    /\ bond_dim w SR true (ind_len legR).

(** A computation that never overwrites an object: the heap afterwards is
    the heap before, followed by new objects. *)
Definition grows {A} (m : M A) : Prop :=
  forall w, extends (heap w) (heap (snd (m w))).

(** The world a chain of two sites is constructed in: no instance yet, the
    product-state tensor at address 0; and the call of the constructor on
    it. *)
Definition init_start : world :=
  mkWorld (mkMPS [] 0 [] "" [] []) [NpcArray B_unit].

Definition init_example (bc_ : string) : outcome unit * world :=
  __init__ [site1; site1] [Some 0; Some 0]
    [SvScalar 7; SvSeq [1%R]; SvSeq [2%R; 3%R]] bc_ (FOne (FName "B"))
    init_start.

(** What a method that writes tensors may change between two worlds: entries
    of [_B] and [form], and new objects; the spectra, the sites, the boundary
    condition, the number of tensors and form tags and every object that
    existed are as before. *)
Definition tensors_only (w w' : world) : Prop :=
  sites (this w') = sites (this w)
  /\ chinfo (this w') = chinfo (this w)
  /\ bc (this w') = bc (this w)
  /\ _S (this w') = _S (this w)
  /\ List.length (_B (this w')) = List.length (_B (this w))
  /\ List.length (form (this w')) = List.length (form (this w))
  /\ extends (heap w) (heap w').

(** What a method that writes spectra may change: entries of [_S]. *)
Definition spectra_only (w w' : world) : Prop :=
  sites (this w') = sites (this w)
  /\ chinfo (this w') = chinfo (this w)
  /\ bc (this w') = bc (this w)
  /\ form (this w') = form (this w)
  /\ _B (this w') = _B (this w)
  /\ List.length (_S (this w')) = List.length (_S (this w))
  /\ heap w' = heap w.

(** A computation whose final world is related to the initial one by [R],
    whatever it returns or raises. *)
Definition framed (R : world -> world -> Prop) {A} (m : M A) : Prop :=
  forall w, R w (snd (m w)).

(** The segment [seg_A] after [convert_form(None)]: the form tag is
    forgotten, the tensor is the one that was stored. *)
Definition seg_A_unknown : world :=
  mkWorld (with_form [None] (this seg_A)) (heap seg_A).

(** An array with a [nan] entry. *)
Definition has_nan (v : ndarray) : Prop := In None (nd_entries v).

(** The array that [np.array] makes of an entry of [SVs], arrays given by
    reference being read in the heap [h]. *)
Definition sv_array (h : list pyobj) (sv : sv_arg) (v : ndarray) : Prop :=
  match sv with
  | SvScalar x => v = Nd0 x
  | SvSeq l => v = Nd1 l
  | SvRef r => nth_error h r = Some (NdArray v)
  end.

(** Every stored spectrum is the array made of the entry of [SVs] for its
    bond. *)
Definition spectra_copied (SVs : list sv_arg) (w : world) : Prop :=
  forall i r,
    nth_error (_S (this w)) i = Some (Some r) ->
    exists sv v, nth_error SVs i = Some sv
                 /\ nth_error (heap w) r = Some (NdArray v)
                 /\ sv_array (heap w) sv v.

(** The world in which an infinite chain of one site is constructed from an
    array of singular values with a [nan] entry: the product-state tensor at
    address 0, the array [[nan]] at address 1. *)
Definition nan_start : world :=
  mkWorld (mkMPS [] 0 [] "" [] []) [NpcArray B_unit; NdArray (NdNan [None])].

(** The identity on the one-dimensional site as a one-site operator, with
    legs [p0] and [p0*], and the unit cell [imps1] with this operator at
    address 4. *)
Definition Id_op : Array :=
  mkArray [Some "p0"; Some "p0*"] [leg_in; leg_out] [1%R].

Definition imps1_op : world :=
  mkWorld (this imps1) (heap imps1 ++ [NpcArray Id_op]).
(** * Properties *)

(** ** Deciding comparisons of reals *)

Lemma Reqb_refl x : Reqb x x = true.
Proof. unfold Reqb. destruct (Req_dec_T x x); congruence. Qed.

Lemma Reqb_eq x y : x = y -> Reqb x y = true.
Proof. intros ->. apply Reqb_refl. Qed.

Lemma Reqb_neq x y : x <> y -> Reqb x y = false.
Proof. unfold Reqb. destruct (Req_dec_T x y); congruence. Qed.

Lemma Reqb_true_iff x y : Reqb x y = true <-> x = y.
Proof.
  unfold Reqb. destruct (Req_dec_T x y); split; congruence.
Qed.

Lemma Rltb_lt x y : (x < y)%R -> Rltb x y = true.
Proof. unfold Rltb. destruct (Rlt_dec x y); tauto. Qed.

Lemma Rltb_nlt x y : ~ (x < y)%R -> Rltb x y = false.
Proof. unfold Rltb. destruct (Rlt_dec x y); tauto. Qed.

(** ** Running computations *)

Lemma bind_Ok {A B} (m : M A) (k : A -> M B) w a w' :
  m w = (Ok a, w') -> bind m k w = k a w'.
Proof. unfold bind. intros ->. reflexivity. Qed.

Lemma bind_Raise {A B} (m : M A) (k : A -> M B) w e w' :
  m w = (Raise e, w') -> bind m k w = (Raise e, w').
Proof. unfold bind. intros ->. reflexivity. Qed.

Lemma bind_Anomaly {A B} (m : M A) (k : A -> M B) w a w' :
  m w = (Anomaly a, w') -> bind m k w = (Anomaly a, w').
Proof. unfold bind. intros ->. reflexivity. Qed.

Lemma bind_assoc {A B C} (m : M A) (k : A -> M B) (h : B -> M C) w :
  bind (bind m k) h w = bind m (fun a => bind (k a) h) w.
Proof.
  unfold bind. destruct (m w) as [[a|e|a] w']; reflexivity.
Qed.

(** ** Index resolution *)

Ltac mred :=
  cbv beta iota delta [bind ret raise lift self set_self assert L].

Ltac wsimpl :=
  cbn [this heap bc sites form _B _S chinfo with_S with_form with_B with_bc
       with_sites with_chinfo fst snd negb andb orb];
  cbv beta.

Ltac mcase :=
  match goal with
  | |- context [if ?c then _ else _] => destruct c eqn:?
  | |- context [match ?x with Ok _ => _ | Raise _ => _ | Anomaly _ => _ end] =>
      destruct x eqn:?
  | |- context [let (_, _) := ?x in _] => destruct x eqn:?
  end.

Ltac mcases := repeat (mred; simpl fst; simpl snd; try reflexivity; mcase).

Lemma valid_bc_existsb s :
  existsb (String.eqb s) _valid_bc = true <-> valid_bc s.
Proof.
  unfold valid_bc, _valid_bc. simpl.
  destruct (String.eqb_spec s "finite"); [tauto|].
  destruct (String.eqb_spec s "segment"); [tauto|].
  destruct (String.eqb_spec s "infinite"); [tauto|].
  simpl. split; [discriminate|tauto].
Qed.

Lemma finite_run w :
  valid_bc (bc (this w)) ->
  finite w = (Ok (negb (bc (this w) =? "infinite")%string), w).
Proof.
  intros H. apply valid_bc_existsb in H. unfold finite. mred.
  rewrite H. reflexivity.
Qed.

Lemma finite_invalid w :
  ~ valid_bc (bc (this w)) -> finite w = (Raise AssertionError, w).
Proof.
  intros H. unfold finite. mred.
  destruct (existsb (String.eqb (bc (this w))) _valid_bc) eqn:E;
    [|reflexivity].
  apply valid_bc_existsb in E. contradiction.
Qed.

Lemma L_run w : L w = (Ok (Z.of_nat (List.length (sites (this w)))), w).
Proof. reflexivity. Qed.

(** Index resolution never changes the world. *)
Lemma to_valid_index_world i w : snd (_to_valid_index i w) = w.
Proof. unfold _to_valid_index, finite. mcases. Qed.

Lemma to_valid_index_run i w k :
  fst (_to_valid_index i w) = Ok k -> _to_valid_index i w = (Ok k, w).
Proof.
  intros H. rewrite (surjective_pairing (_to_valid_index i w)).
  rewrite H, to_valid_index_world. reflexivity.
Qed.

Lemma to_valid_index_bc i w k :
  fst (_to_valid_index i w) = Ok k -> valid_bc (bc (this w)).
Proof.
  intros H. destruct (existsb (String.eqb (bc (this w))) _valid_bc) eqn:E.
  - now apply valid_bc_existsb.
  - unfold _to_valid_index, finite in H. revert H. mred. rewrite E.
    discriminate.
Qed.

(** A resolved index lies in the chain. *)
Lemma to_valid_index_range i w k :
  fst (_to_valid_index i w) = Ok k ->
  (0 <= k < Z.of_nat (List.length (sites (this w))))%Z.
Proof.
  intros H. pose proof (to_valid_index_bc _ _ _ H) as Hb. revert H.
  unfold _to_valid_index. rewrite (bind_Ok _ _ _ _ _ (finite_run w Hb)).
  destruct (negb (negb _)); mred.
  - unfold py_mod.
    destruct (Z.eqb_spec (Z.of_nat (List.length (sites (this w)))) 0);
      simpl; [discriminate|].
    intros [= <-]. apply Z.mod_pos_bound. lia.
  - destruct (Z.ltb_spec i 0); simpl;
      match goal with |- context [if ?c then _ else _] => destruct c eqn:E end;
      simpl; try discriminate; intros [= <-]; lia.
Qed.

(** A resolved index resolves to itself. *)
Lemma to_valid_index_idem i w k :
  fst (_to_valid_index i w) = Ok k -> _to_valid_index k w = (Ok k, w).
Proof.
  intros H. pose proof (to_valid_index_range _ _ _ H) as Hr.
  pose proof (to_valid_index_bc _ _ _ H) as Hb.
  unfold _to_valid_index. rewrite (bind_Ok _ _ _ _ _ (finite_run w Hb)).
  destruct (negb (negb _)); mred.
  - unfold py_mod.
    destruct (Z.eqb_spec (Z.of_nat (List.length (sites (this w)))) 0); [lia|].
    rewrite Z.mod_small by lia. reflexivity.
  - destruct (Z.ltb_spec k 0); [lia|].
    destruct (Z.geb_spec k (Z.of_nat (List.length (sites (this w))))); [lia|].
    destruct (Z.ltb_spec k 0); [lia|]. reflexivity.
Qed.

(** ** Lists indexed by Python integers *)

Lemma py_setitem_nat {A} (l : list A) (z : Z) (a : A) :
  (0 <= z < Z.of_nat (List.length l))%Z ->
  py_setitem l z a = Ok (list_set l (Z.to_nat z) a).
Proof.
  intros H. unfold py_setitem.
  assert (E1 : (z <? 0)%Z = false) by lia.
  assert (E2 : (Z.of_nat (List.length l) <=? z)%Z = false) by lia.
  cbv zeta. rewrite E1, E1, E2. reflexivity.
Qed.

Lemma py_getitem_nat {A} (l : list A) (z : Z) (a : A) :
  (0 <= z)%Z -> nth_error l (Z.to_nat z) = Some a -> py_getitem l z = Ok a.
Proof.
  intros H Hn. unfold py_getitem.
  assert (Z.to_nat z < List.length l) by (apply nth_error_Some; congruence).
  assert (E1 : (z <? 0)%Z = false) by lia.
  assert (E2 : (Z.of_nat (List.length l) <=? z)%Z = false) by lia.
  cbv zeta. rewrite E1, E1, E2, Hn. reflexivity.
Qed.

Lemma list_set_length {A} (l : list A) n a :
  List.length (list_set l n a) = List.length l.
Proof.
  revert n. induction l as [|h t IH]; intros [|n]; simpl; auto.
Qed.

Lemma nth_error_list_set {A} (l : list A) n a j :
  n < List.length l ->
  nth_error (list_set l n a) j = if (j =? n)%nat then Some a else nth_error l j.
Proof.
  revert n j. induction l as [|h t IH]; intros [|n] [|j] H; simpl in *;
    try lia; auto.
  apply IH. lia.
Qed.

(** ** Writing a spectrum *)

(** C5 (infinite-boundary spectrum mirroring).  On a state with [L+1]
    spectra and for an index that resolves to [k]: [set_SL] stores the
    reference at [spectra[k]], and for an infinite chain with [k = 0] also at
    [spectra[L]]; [set_SR] stores it at [spectra[k+1]], and for an infinite
    chain with [k = L-1] also at [spectra[0]].  Nothing else changes: the
    sites, form tags, boundary condition and tensors of the instance and the
    whole heap are as before. *)
Theorem set_SL_SR_mirror (w : world) (i k : Z) (sv : ref) :
  fst (_to_valid_index i w) = Ok k ->
  List.length (_S (this w)) = S (List.length (sites (this w))) ->
  let m := this w in
  let n := List.length (sites m) in
  set_SL i sv w =
    (Ok tt,
     mkWorld
       (mkMPS (sites m) (chinfo m) (form m) (bc m) (_B m)
          (if (bc m =? "infinite")%string && (k =? 0)%Z
           then list_set (list_set (_S m) 0 (Some sv)) n (Some sv)
           else list_set (_S m) (Z.to_nat k) (Some sv)))
       (heap w))
  /\
  set_SR i sv w =
    (Ok tt,
     mkWorld
       (mkMPS (sites m) (chinfo m) (form m) (bc m) (_B m)
          (if (bc m =? "infinite")%string && (k =? Z.of_nat n - 1)%Z
           then list_set (list_set (_S m) n (Some sv)) 0 (Some sv)
           else list_set (_S m) (S (Z.to_nat k)) (Some sv)))
       (heap w)).
Proof.
  intros Hk Hlen m n.
  pose proof (to_valid_index_range _ _ _ Hk) as Hr.
  pose proof (to_valid_index_bc _ _ _ Hk) as Hb.
  pose proof (to_valid_index_run _ _ _ Hk) as Hrun.
  fold m in Hr, Hb, Hlen. fold n in Hr, Hlen.
  split.
  - unfold set_SL. rewrite (bind_Ok _ _ _ _ _ Hrun). mred.
    fold m. rewrite py_setitem_nat by lia.
    set (w1 := mkWorld _ _).
    rewrite (finite_run w1 Hb). subst w1. wsimpl. fold m.
    destruct (bc m =? "infinite")%string; simpl negb; simpl andb;
      [|reflexivity].
    destruct (Z.eqb_spec k 0) as [->|Hne]; [|reflexivity].
    wsimpl. fold m. fold n.
    rewrite py_setitem_nat by (rewrite list_set_length; lia).
    rewrite Nat2Z.id. reflexivity.
  - unfold set_SR. rewrite (bind_Ok _ _ _ _ _ Hrun). mred.
    fold m. rewrite py_setitem_nat by lia.
    replace (Z.to_nat (k + 1)) with (S (Z.to_nat k)) by lia.
    set (w1 := mkWorld _ _).
    rewrite (finite_run w1 Hb). subst w1. wsimpl. fold m. fold n.
    destruct (bc m =? "infinite")%string; simpl negb; simpl andb;
      [|reflexivity].
    destruct (Z.eqb_spec k (Z.of_nat n - 1)) as [->|Hne]; [|reflexivity].
    wsimpl. fold m.
    rewrite py_setitem_nat by (rewrite list_set_length; lia).
    replace (S (Z.to_nat (Z.of_nat n - 1))) with n by lia.
    reflexivity.
Qed.

(** The one-site infinite unit cell with [spectra[0] = spectra[1] = [1.]]:
    writing the left spectrum of site 0 also updates [spectra[1]]. *)
Lemma set_SL_SR_mirror_witness :
  fst (_to_valid_index 0 imps1) = Ok 0%Z
  /\ List.length (_S (this imps1)) = S (List.length (sites (this imps1)))
  /\ _S (this (snd (set_SL 0 2 imps1))) = [Some 2; Some 2]
  /\ _S (this (snd (set_SR 0 2 imps1))) = [Some 2; Some 2].
Proof.
  assert (H1 : fst (_to_valid_index 0 imps1) = Ok 0%Z) by reflexivity.
  assert (H2 : List.length (_S (this imps1))
               = S (List.length (sites (this imps1)))) by reflexivity.
  destruct (set_SL_SR_mirror imps1 0 0 2 H1 H2) as [HL HR].
  split; [exact H1|]. split; [exact H2|].
  split; [rewrite HL | rewrite HR]; reflexivity.
Defined.

(** ** The rescaling primitive *)

(** C7 (zero-exponent identity).  Called with exponent [0], the rescaling
    primitive returns the reference it was given and leaves the world as it
    is: no array is created or modified, whatever the spectrum (absent, a
    vector, a matrix), the leg and the cutoff. *)
Theorem scale_axis_B_zero_exponent (pinv : Array -> R -> outcome Array)
    (B : ref) (sv : option ref) (axis_B : string) (cutoff : R) (w : world) :
  _scale_axis_B pinv B sv 0 axis_B cutoff w = (Ok B, w).
Proof.
  unfold _scale_axis_B. rewrite Reqb_refl. reflexivity.
Qed.

(** ** The heap *)

Lemma extends_refl h : extends h h.
Proof. exists []. now rewrite app_nil_r. Qed.

Lemma extends_trans h1 h2 h3 : extends h1 h2 -> extends h2 h3 -> extends h1 h3.
Proof. intros [e1 ->] [e2 ->]. exists (e1 ++ e2). now rewrite app_assoc. Qed.

Lemma extends_app h e : extends h (h ++ e).
Proof. now exists e. Qed.

Lemma nth_error_extends h h' r (o : pyobj) :
  extends h h' -> nth_error h r = Some o -> nth_error h' r = Some o.
Proof.
  intros [e ->] H. rewrite nth_error_app1; auto.
  apply nth_error_Some. congruence.
Qed.

Lemma nth_error_app_last {A} (h : list A) o :
  nth_error (h ++ [o]) (List.length h) = Some o.
Proof. rewrite nth_error_app2, Nat.sub_diag; auto. Qed.

Lemma spectrum_at_extends w w' s so :
  extends (heap w) (heap w') -> spectrum_at w s so -> spectrum_at w' s so.
Proof.
  destruct s, so; simpl; auto. intros. eapply nth_error_extends; eauto.
Qed.

Lemma deref_run r w o : nth_error (heap w) r = Some o -> deref r w = (Ok o, w).
Proof. unfold deref. now intros ->. Qed.

Lemma as_npc_run r w a :
  nth_error (heap w) r = Some (NpcArray a) -> as_npc r w = (Ok a, w).
Proof. intros H. unfold as_npc, bind. now rewrite (deref_run _ _ _ H). Qed.

Lemma as_nd_run r w v :
  nth_error (heap w) r = Some (NdArray v) -> as_nd r w = (Ok v, w).
Proof. intros H. unfold as_nd, bind. now rewrite (deref_run _ _ _ H). Qed.

Lemma bind_ret {A B} (a : A) (k : A -> M B) w : bind (ret a) k w = k a w.
Proof. reflexivity. Qed.

Lemma bind_raise {A B} e (k : A -> M B) w :
  bind (raise e) k w = (Raise e, w).
Proof. reflexivity. Qed.

Lemma bind_self {B} (k : MPS -> M B) w : bind self k w = k (this w) w.
Proof. reflexivity. Qed.

Lemma bind_lift_Ok {A B} (a : A) (k : A -> M B) w :
  bind (lift (Ok a)) k w = k a w.
Proof. reflexivity. Qed.

Lemma bind_congr {A B} (m m' : M A) (k : A -> M B) w :
  m w = m' w -> bind m k w = bind m' k w.
Proof. unfold bind. now intros ->. Qed.

(** ** What the library calls yield *)

Lemma yields_ret w0 w r a :
  this w = this w0 -> extends (heap w0) (heap w) ->
  nth_error (heap w) r = Some (NpcArray a) ->
  yields w0 (Ok r, w) (Ok a).
Proof. intros. repeat split; auto. exists r. auto. Qed.

Lemma yields_lift_alloc w0 w (o : outcome Array) :
  this w = this w0 -> extends (heap w0) (heap w) ->
  yields w0 ((a' <- lift o ;; alloc (NpcArray a')) w) o.
Proof.
  intros Ht He. destruct o as [a|e|x]; mred; unfold alloc; simpl;
    repeat split; auto.
  - eapply extends_trans; [exact He|apply extends_app].
  - exists (List.length (heap w)). split; auto. apply nth_error_app_last.
Qed.

Lemma yields_weaken w0 w res v :
  this w = this w0 -> extends (heap w0) (heap w) ->
  yields w res v -> yields w0 res v.
Proof.
  intros Ht He (H1 & H2 & H3). repeat split; auto; try congruence.
  eapply extends_trans; eauto.
Qed.

Lemma npc_replace_label_run b old new w a :
  nth_error (heap w) b = Some (NpcArray a) ->
  npc_replace_label b old new w
  = (a' <- lift (replace_label a old new) ;; alloc (NpcArray a')) w.
Proof.
  intros H. unfold npc_replace_label.
  now rewrite (bind_Ok _ _ _ _ _ (as_npc_run _ _ _ H)).
Qed.

Lemma npc_copy_run b w a :
  nth_error (heap w) b = Some (NpcArray a) ->
  npc_copy b w = alloc (NpcArray a) w.
Proof.
  intros H. unfold npc_copy.
  now rewrite (bind_Ok _ _ _ _ _ (as_npc_run _ _ _ H)).
Qed.

Lemma npc_scale_axis_run b s ax w a v :
  nth_error (heap w) b = Some (NpcArray a) ->
  nth_error (heap w) s = Some (NdArray v) ->
  npc_scale_axis b s ax w
  = (a' <- lift (scale_axis a v ax) ;; alloc (NpcArray a')) w.
Proof.
  intros Hb Hs. unfold npc_scale_axis.
  rewrite (bind_Ok _ _ _ _ _ (as_npc_run _ _ _ Hb)).
  now rewrite (bind_Ok _ _ _ _ _ (as_nd_run _ _ _ Hs)).
Qed.

Lemma npc_tensordot_run a b axesA axesB w x y :
  nth_error (heap w) a = Some (NpcArray x) ->
  nth_error (heap w) b = Some (NpcArray y) ->
  npc_tensordot a b axesA axesB w
  = (t <- lift (tensordot x y axesA axesB) ;; alloc (NpcArray t)) w.
Proof.
  intros Ha Hb. unfold npc_tensordot.
  rewrite (bind_Ok _ _ _ _ _ (as_npc_run _ _ _ Ha)).
  now rewrite (bind_Ok _ _ _ _ _ (as_npc_run _ _ _ Hb)).
Qed.

Lemma npc_pinv_run pinv s cutoff w a :
  nth_error (heap w) s = Some (NpcArray a) ->
  npc_pinv pinv s cutoff w
  = (a' <- lift (pinv a cutoff) ;; alloc (NpcArray a')) w.
Proof.
  intros H. unfold npc_pinv.
  now rewrite (bind_Ok _ _ _ _ _ (as_npc_run _ _ _ H)).
Qed.

Lemma np_pow_run s e w v :
  nth_error (heap w) s = Some (NdArray v) ->
  np_pow s e w = (v' <- lift (nd_power v e) ;; alloc (NdArray v')) w.
Proof.
  intros H. unfold np_pow.
  now rewrite (bind_Ok _ _ _ _ _ (as_nd_run _ _ _ H)).
Qed.

(** Two library calls in a row, each on the result of the one before. *)
Lemma yields_two w0 w (o : outcome Array) (f : ref -> M ref)
    (g : Array -> outcome Array) :
  this w = this w0 -> extends (heap w0) (heap w) ->
  (forall r w1 a, this w1 = this w0 -> extends (heap w0) (heap w1) ->
                  extends (heap w) (heap w1) ->
                  nth_error (heap w1) r = Some (NpcArray a) ->
                  yields w0 (f r w1) (g a)) ->
  yields w0 ((t <- (a' <- lift o ;; alloc (NpcArray a')) ;; f t) w)
         (obind o g).
Proof.
  intros Ht He Hf. destruct o as [a|e|x]; mred; simpl.
  - apply Hf; simpl; auto.
    + eapply extends_trans; [exact He|apply extends_app].
    + apply extends_app.
    + apply nth_error_app_last.
  - repeat split; auto.
  - repeat split; auto.
Qed.

(** [_scale_axis_B] yields what [scale_axis_B_val] computes. *)
Lemma scale_axis_B_yields pinv w0 w b Bv s so d axis_B cutoff :
  this w = this w0 -> extends (heap w0) (heap w) ->
  nth_error (heap w) b = Some (NpcArray Bv) ->
  spectrum_at w s so ->
  yields w0 (_scale_axis_B pinv b s d axis_B cutoff w)
            (scale_axis_B_val pinv Bv so d axis_B cutoff).
Proof.
  intros Ht He Hb Hs. unfold _scale_axis_B, scale_axis_B_val.
  destruct (Reqb d 0); [now apply yields_ret|].
  destruct s as [s|], so as [o|]; simpl in Hs; try contradiction;
    [|repeat split; auto].
  rewrite (bind_Ok _ _ _ _ _ (deref_run _ _ _ Hs)).
  destruct o as [v|Sa].
  - (* a numpy vector *)
    destruct (negb (Reqb d 1)); cbv iota.
    + unfold bind at 1. rewrite (np_pow_run _ _ _ _ Hs).
      destruct (nd_power v d) as [v'|e|x]; mred; simpl;
        [|repeat split; auto..].
      rewrite npc_scale_axis_run with (a := Bv) (v := v'); simpl.
      * apply yields_lift_alloc; simpl; auto.
        eapply extends_trans; [exact He|apply extends_app].
      * rewrite nth_error_app1; auto. apply nth_error_Some. congruence.
      * apply nth_error_app_last.
    + mred. rewrite (npc_scale_axis_run _ _ _ _ _ _ Hb Hs).
      now apply yields_lift_alloc.
  - (* a matrix *)
    destruct (negb (rank Sa =? 2)%nat); [repeat split; auto|].
    assert (Hcont : forall s1 S1 w1,
      this w1 = this w0 -> extends (heap w0) (heap w1) ->
      nth_error (heap w1) b = Some (NpcArray Bv) ->
      nth_error (heap w1) s1 = Some (NpcArray S1) ->
      yields w0
        ((if (axis_B =? "vL")%string || (axis_B =? "vL*")%string
          then t <- npc_tensordot s1 b [AxIndex 1] [AxLabel axis_B] ;;
               npc_replace_label t (AxIndex 0) axis_B
          else if (axis_B =? "vR")%string || (axis_B =? "vR*")%string
               then t <- npc_tensordot b s1 [AxLabel axis_B] [AxIndex 0] ;;
                    npc_replace_label t (AxIndex (-1)) axis_B
               else raise (ValueError
                 "This should never happen: unexpected leg for scaling with S"))
           w1)
        (contract_into S1 Bv axis_B)).
    { intros s1 S1 w1 Ht1 He1 Hb1 Hs1. unfold contract_into.
      destruct ((axis_B =? "vL")%string || (axis_B =? "vL*")%string).
      - rewrite (bind_congr _ _ _ _ (npc_tensordot_run _ _ _ _ _ _ _ Hs1 Hb1)).
        apply yields_two; auto.
        intros r w2 a Ht2 He2 _ Hr.
        rewrite (npc_replace_label_run _ _ _ _ _ Hr).
        now apply yields_lift_alloc.
      - destruct ((axis_B =? "vR")%string || (axis_B =? "vR*")%string).
        + rewrite (bind_congr _ _ _ _ (npc_tensordot_run _ _ _ _ _ _ _ Hb1 Hs1)).
          apply yields_two; auto.
          intros r w2 a Ht2 He2 _ Hr.
          rewrite (npc_replace_label_run _ _ _ _ _ Hr).
          now apply yields_lift_alloc.
        + repeat split; auto. }
    destruct (Reqb d (-1)).
    + rewrite (bind_congr _ _ _ _ (npc_pinv_run _ _ _ _ _ Hs)).
      apply yields_two; auto.
      intros r w1 a Ht1 He1 He1' Hr. apply Hcont; auto.
      eapply nth_error_extends; [exact He1'|exact Hb].
    + destruct (negb (Reqb d 1)); [repeat split; auto|].
      mred. apply Hcont; auto.
Qed.

Lemma scale_axis_B_yields_here pinv w b Bv s so d axis_B cutoff :
  nth_error (heap w) b = Some (NpcArray Bv) ->
  spectrum_at w s so ->
  yields w (_scale_axis_B pinv b s d axis_B cutoff w)
           (scale_axis_B_val pinv Bv so d axis_B cutoff).
Proof. apply scale_axis_B_yields; [reflexivity|apply extends_refl]. Qed.

(** C6 as stated fails at exponent [0]: with a matrix-valued spectrum, an
    exponent outside [{+1, -1}], namely [0], is accepted and the tensor is
    returned as it is. *)
Lemma matrix_exponent_zero_accepted :
  nth_error (heap imps1) 3 = Some (NpcArray S_unit)
  /\ rank S_unit = 2
  /\ (0 <> 1)%R /\ (0 <> -1)%R
  /\ _scale_axis_B pinv_example 0 (Some 3) 0 "vL" default_cutoff imps1
     = (Ok 0, imps1).
Proof.
  repeat split; try lra.
  unfold _scale_axis_B. rewrite Reqb_refl. reflexivity.
Qed.

(** C6 (matrix-spectrum exponent restriction), amended.  With a
    matrix-valued (rank two) spectrum, every exponent other than [0], [+1]
    and [-1] is refused with the unsupported-exponent error, nothing being
    created; with exponent [+1] the primitive yields the spectrum contracted
    into the named leg, and with exponent [-1] it yields the pseudo-inverse
    of the spectrum, taken with the given cutoff, contracted into that
    leg. *)
Theorem matrix_spectrum_exponents (pinv : Array -> R -> outcome Array)
    (w : world) (b s : ref) (Bv Sa : Array) (axis_B : string) (cutoff : R) :
  nth_error (heap w) b = Some (NpcArray Bv) ->
  nth_error (heap w) s = Some (NpcArray Sa) ->
  rank Sa = 2 ->
  (forall d : R, d <> 0%R -> d <> 1%R -> d <> (-1)%R ->
     _scale_axis_B pinv b (Some s) d axis_B cutoff w
     = (Raise (ValueError
          "Can't scale/tensordot a 2D `S` for non-integer `form_diff`"), w))
  /\ yields w (_scale_axis_B pinv b (Some s) 1 axis_B cutoff w)
              (contract_into Sa Bv axis_B)
  /\ yields w (_scale_axis_B pinv b (Some s) (-1) axis_B cutoff w)
              (obind (pinv Sa cutoff) (fun P => contract_into P Bv axis_B)).
Proof.
  intros Hb Hs Hr. split; [|split].
  - intros d H0 H1 Hm1. unfold _scale_axis_B.
    rewrite (Reqb_neq _ _ H0).
    rewrite (bind_Ok _ _ _ _ _ (deref_run _ _ _ Hs)).
    rewrite Hr. simpl negb. cbv iota.
    rewrite (Reqb_neq _ _ Hm1), (Reqb_neq _ _ H1). reflexivity.
  - pose proof (scale_axis_B_yields_here pinv w b Bv (Some s)
                  (Some (NpcArray Sa)) 1 axis_B cutoff Hb Hs) as H.
    unfold scale_axis_B_val in H.
    rewrite Reqb_neq in H by lra. rewrite Hr in H. simpl negb in H.
    cbv iota in H. rewrite (Reqb_neq 1 (-1)) in H by lra.
    rewrite Reqb_refl in H. exact H.
  - pose proof (scale_axis_B_yields_here pinv w b Bv (Some s)
                  (Some (NpcArray Sa)) (-1) axis_B cutoff Hb Hs) as H.
    unfold scale_axis_B_val in H.
    rewrite Reqb_neq in H by lra. rewrite Hr in H. simpl negb in H.
    cbv iota in H. rewrite Reqb_refl in H. exact H.
Qed.

(** On the unit cell [imps1], with the unit matrix as spectrum: exponent [2]
    is refused, exponents [1] and [-1] return a new tensor. *)
Lemma matrix_spectrum_exponents_witness :
  nth_error (heap imps1) 0 = Some (NpcArray B_unit)
  /\ nth_error (heap imps1) 3 = Some (NpcArray S_unit)
  /\ rank S_unit = 2
  /\ fst (_scale_axis_B pinv_example 0 (Some 3) 2 "vL" default_cutoff imps1)
     = Raise (ValueError
         "Can't scale/tensordot a 2D `S` for non-integer `form_diff`")
  /\ yields imps1
       (_scale_axis_B pinv_example 0 (Some 3) 1 "vL" default_cutoff imps1)
       (contract_into S_unit B_unit "vL")
  /\ yields imps1
       (_scale_axis_B pinv_example 0 (Some 3) (-1) "vR" default_cutoff imps1)
       (obind (pinv_example S_unit default_cutoff)
              (fun P => contract_into P B_unit "vR")).
Proof.
  assert (H0 : nth_error (heap imps1) 0 = Some (NpcArray B_unit))
    by reflexivity.
  assert (H3 : nth_error (heap imps1) 3 = Some (NpcArray S_unit))
    by reflexivity.
  assert (Hr : rank S_unit = 2) by reflexivity.
  split; [exact H0|]. split; [exact H3|]. split; [exact Hr|].
  split; [|split].
  - destruct (matrix_spectrum_exponents pinv_example imps1 0 3 B_unit S_unit
                "vL" default_cutoff H0 H3 Hr) as [H _].
    rewrite H by lra. reflexivity.
  - apply (matrix_spectrum_exponents pinv_example imps1 0 3 B_unit S_unit
             "vL" default_cutoff H0 H3 Hr).
  - apply (matrix_spectrum_exponents pinv_example imps1 0 3 B_unit S_unit
             "vR" default_cutoff H0 H3 Hr).
Defined.

(** ** Multi-indices and weights *)

Lemma multi_indices_length s : List.length (multi_indices s) = prod_dims s.
Proof.
  induction s as [|d s IH]; simpl; auto.
  rewrite <- IH. clear IH.
  generalize 0 as a. induction d as [|d IHd]; intros a; simpl; auto.
  rewrite length_app, length_map, IHd. reflexivity.
Qed.

(** Every multi-index of a shape stays below the shape, leg by leg. *)
Lemma multi_indices_bound s idx k :
  In idx (multi_indices s) -> k < List.length s -> nth k idx 0 < nth k s 0.
Proof.
  revert idx k. induction s as [|d s IH]; intros idx k Hin Hk; simpl in *.
  - lia.
  - apply in_flat_map in Hin. destruct Hin as (j & Hj & Hin).
    apply in_map_iff in Hin. destruct Hin as (idx' & <- & Hin').
    apply in_seq in Hj. destruct k as [|k]; simpl.
    + lia.
    + apply IH; auto. lia.
Qed.

Lemma map_combine_map {A B C} (F : A * B -> A) (G : A * B -> C)
    (d : list A) (I : list B) :
  map G (combine (map F (combine d I)) I)
  = map (fun xi => G (F xi, snd xi)) (combine d I).
Proof.
  revert I. induction d as [|x d IH]; intros [|i I]; simpl; auto.
  now rewrite IH.
Qed.

Lemma map_combine_fst {A B} (F : A * B -> A) (d : list A) (I : list B) :
  List.length d <= List.length I ->
  (forall xi, In xi (combine d I) -> F xi = fst xi) ->
  map F (combine d I) = d.
Proof.
  revert I. induction d as [|x d IH]; intros [|i I] Hl HF; simpl in *;
    auto; try lia.
  rewrite (HF (x, i)) by auto. simpl. f_equal. apply IH; auto. lia.
Qed.

Lemma weighted_labels Bv F : labels (weighted Bv F) = labels Bv.
Proof. reflexivity. Qed.

Lemma weighted_legs Bv F : legs (weighted Bv F) = legs Bv.
Proof. reflexivity. Qed.

Lemma weighted_shape Bv F : shape (weighted Bv F) = shape Bv.
Proof. reflexivity. Qed.

Lemma weighted_weighted Bv F G :
  weighted (weighted Bv F) G = weighted Bv (fun idx => F idx * G idx)%R.
Proof.
  unfold weighted. simpl. f_equal.
  change (shape {| labels := labels Bv; legs := legs Bv; data := _ |})
    with (shape Bv).
  rewrite map_combine_map. apply map_ext. intros [x idx]. simpl. ring.
Qed.

Lemma weighted_ext Bv F G :
  (forall idx, In idx (multi_indices (shape Bv)) -> F idx = G idx) ->
  weighted Bv F = weighted Bv G.
Proof.
  intros H. unfold weighted. f_equal. apply map_ext_in.
  intros [x idx] Hin. simpl. rewrite H; auto.
  eapply in_combine_r; eauto.
Qed.

Lemma well_formed_data Bv :
  well_formed Bv ->
  List.length (data Bv) = List.length (multi_indices (shape Bv)).
Proof.
  unfold well_formed, array_test_sanity. intros H.
  destruct (Nat.eqb_spec (List.length (labels Bv)) (rank Bv));
    simpl in H; [|discriminate].
  destruct (Nat.eqb_spec (List.length (data Bv)) (prod_dims (shape Bv)));
    simpl in H; [|discriminate].
  now rewrite multi_indices_length.
Qed.

Lemma well_formed_labels Bv :
  well_formed Bv -> List.length (labels Bv) = rank Bv.
Proof.
  unfold well_formed, array_test_sanity. intros H.
  destruct (Nat.eqb_spec (List.length (labels Bv)) (rank Bv)); auto.
  simpl in H. discriminate.
Qed.

Lemma weighted_one Bv F :
  well_formed Bv ->
  (forall idx, In idx (multi_indices (shape Bv)) -> F idx = 1%R) ->
  weighted Bv F = Bv.
Proof.
  intros Hwf HF. unfold weighted. destruct Bv as [ls lg d]. simpl. f_equal.
  apply map_combine_fst.
  - apply well_formed_data in Hwf. simpl in Hwf. lia.
  - intros [x idx] Hin. simpl. rewrite HF; [ring|].
    eapply in_combine_r; eauto.
Qed.

Lemma weighted_well_formed Bv F : well_formed Bv -> well_formed (weighted Bv F).
Proof.
  intros H. pose proof (well_formed_data _ H) as Hd. revert H.
  unfold well_formed, array_test_sanity, weighted, rank. simpl.
  change (shape {| labels := labels Bv; legs := legs Bv; data := _ |})
    with (shape Bv).
  rewrite length_map, length_combine, <- Hd, Nat.min_id. auto.
Qed.

(** ** Powers of positive singular values *)

Lemma np_power_pos s e : (0 < s)%R -> np_power s e = Some (Rpower s e).
Proof. intros H. unfold np_power. now rewrite Rltb_lt. Qed.

Lemma omapM_power v e :
  all_positive v ->
  omapM (fun x => match np_power x e with
                  | Some y => Ok y
                  | None => Anomaly NonFiniteFloat
                  end) v
  = Ok (map (fun x => Rpower x e) v).
Proof.
  induction 1 as [|x v Hx Hv IH]; simpl; auto.
  rewrite np_power_pos by auto. simpl. rewrite IH. reflexivity.
Qed.

Lemma nd_power_pos v e :
  all_positive v -> nd_power (Nd1 v) e = Ok (Nd1 (map (fun x => Rpower x e) v)).
Proof. intros H. unfold nd_power. simpl. now rewrite omapM_power. Qed.

Lemma all_positive_nth v j : all_positive v -> (0 < nth j v 1)%R.
Proof.
  intros H. revert j. induction H as [|x v Hx Hv IH]; intros [|j]; simpl;
    auto; lra.
Qed.

(** Rescaling a leg by a vector of positive singular values multiplies each
    entry by the power of the singular value at its index along the leg,
    whatever the exponent. *)
Lemma scale_axis_B_val_vector pinv Bv v d ax k cutoff :
  well_formed Bv ->
  find_label (labels Bv) ax = Some k ->
  k < rank Bv ->
  nth k (shape Bv) 0 = List.length v ->
  all_positive v ->
  scale_axis_B_val pinv Bv (Some (NdArray (Nd1 v))) d ax cutoff
  = Ok (weighted Bv (fun idx => Rpower (nth (nth k idx 0) v 1%R) d)).
Proof.
  intros Hwf Hk Hkr Hdim Hpos. unfold scale_axis_B_val.
  assert (Hin : forall idx, In idx (multi_indices (shape Bv)) ->
                            nth k idx 0 < List.length v).
  { intros idx Hi. rewrite <- Hdim. apply multi_indices_bound; auto.
    unfold shape. now rewrite length_map. }
  destruct (Req_dec_T d 0) as [->|H0].
  - rewrite Reqb_refl. f_equal. symmetry. apply weighted_one; auto.
    intros idx _. apply Rpower_O. now apply all_positive_nth.
  - rewrite (Reqb_neq _ _ H0).
    destruct (Req_dec_T d 1) as [->|H1].
    + rewrite Reqb_refl. cbn [negb obind]. unfold scale_axis, get_leg_index.
      rewrite Hk. cbn [obind nd_shape nd_data]. rewrite Hdim.
      destruct (list_eq_dec Nat.eq_dec [List.length v] [List.length v]);
        [|congruence].
      f_equal. apply (weighted_ext Bv (fun idx => nth (nth k idx 0) v 0%R)).
      intros idx Hi.
      rewrite Rpower_1 by now apply all_positive_nth.
      apply nth_indep. auto.
    + rewrite (Reqb_neq _ _ H1). simpl negb. cbv iota.
      rewrite nd_power_pos by auto. cbn [obind].
      unfold scale_axis, get_leg_index.
      rewrite Hk. cbn [obind nd_shape nd_data]. rewrite Hdim, length_map.
      destruct (list_eq_dec Nat.eq_dec [List.length v] [List.length v]);
        [|congruence].
      f_equal.
      apply (weighted_ext Bv
               (fun idx => nth (nth k idx 0) (map (fun x => Rpower x d) v) 0%R)).
      intros idx Hi.
      rewrite (nth_indep _ 0%R (Rpower 1 d))
        by (rewrite length_map; auto).
      apply (map_nth (fun x => Rpower x d)).
Qed.

(** ** Converting between forms *)

Lemma find_label_lt ls s k : find_label ls s = Some k -> k < List.length ls.
Proof.
  revert k. induction ls as [|l ls IH]; intros k; simpl; [discriminate|].
  destruct (label_eqb l s).
  - intros [= <-]. lia.
  - destruct (find_label ls s) as [j|]; simpl; [|discriminate].
    intros [= <-]. specialize (IH j eq_refl). lia.
Qed.

Lemma get_leg_len Bv ax n :
  omap ind_len (get_leg Bv (AxLabel ax)) = Ok n ->
  exists k, find_label (labels Bv) ax = Some k /\ nth k (shape Bv) 0 = n.
Proof.
  unfold get_leg, get_leg_index, omap.
  destruct (find_label (labels Bv) ax) as [k|]; simpl; [|discriminate].
  intros [= <-]. exists k. split; auto.
  unfold shape. apply (map_nth ind_len (legs Bv) default_leg k).
Qed.

Lemma convert_form_val_vectors pinv Bv vl vr X Y cutoff kL kR :
  well_formed Bv ->
  find_label (labels Bv) "vL" = Some kL ->
  find_label (labels Bv) "vR" = Some kR ->
  nth kL (shape Bv) 0 = List.length vl ->
  nth kR (shape Bv) 0 = List.length vr ->
  all_positive vl -> all_positive vr ->
  convert_form_val pinv Bv (Some (NdArray (Nd1 vl))) (Some (NdArray (Nd1 vr)))
    X Y cutoff
  = Ok (weighted Bv (fun idx =>
          Rpower (nth (nth kL idx 0%nat) vl 1) (fst Y - fst X)
          * Rpower (nth (nth kR idx 0%nat) vr 1) (snd Y - snd X))%R).
Proof.
  intros Hwf HL HR HdL HdR HpL HpR. unfold convert_form_val.
  pose proof (well_formed_labels _ Hwf) as Hlab.
  rewrite (scale_axis_B_val_vector pinv Bv vl _ "vL" kL); auto.
  2:{ rewrite <- Hlab. eapply find_label_lt; eauto. }
  cbn [obind].
  rewrite (scale_axis_B_val_vector pinv _ vr _ "vR" kR); auto.
  - now rewrite weighted_weighted.
  - now apply weighted_well_formed.
  - unfold rank. rewrite weighted_legs. fold (rank Bv).
    rewrite <- Hlab. eapply find_label_lt; eauto.
Qed.

(** Value level: converting from [X] to [Y] and back gives the array one
    started from. *)
Lemma convert_form_val_round_trip pinv Bv vl vr X Y cutoff kL kR :
  well_formed Bv ->
  find_label (labels Bv) "vL" = Some kL ->
  find_label (labels Bv) "vR" = Some kR ->
  nth kL (shape Bv) 0 = List.length vl ->
  nth kR (shape Bv) 0 = List.length vr ->
  all_positive vl -> all_positive vr ->
  exists B1,
    convert_form_val pinv Bv (Some (NdArray (Nd1 vl)))
      (Some (NdArray (Nd1 vr))) X Y cutoff = Ok B1
    /\ convert_form_val pinv B1 (Some (NdArray (Nd1 vl)))
         (Some (NdArray (Nd1 vr))) Y X cutoff = Ok Bv.
Proof.
  intros Hwf HL HR HdL HdR HpL HpR.
  eexists. split.
  - apply convert_form_val_vectors with (kL := kL) (kR := kR); auto.
  - rewrite convert_form_val_vectors with (kL := kL) (kR := kR); auto.
    2:{ now apply weighted_well_formed. }
    f_equal. rewrite weighted_weighted. apply weighted_one; auto.
    intros idx _.
    pose proof (all_positive_nth vl (nth kL idx 0) HpL) as H1.
    pose proof (all_positive_nth vr (nth kR idx 0) HpR) as H2.
    set (s := nth (nth kL idx 0) vl 1%R) in *.
    set (t := nth (nth kR idx 0) vr 1%R) in *.
    transitivity ((Rpower s (fst Y - fst X) * Rpower s (fst X - fst Y))
                  * (Rpower t (snd Y - snd X) * Rpower t (snd X - snd Y)))%R;
      [ring|].
    rewrite <- !Rpower_plus.
    replace (fst Y - fst X + (fst X - fst Y))%R with 0%R by ring.
    replace (snd Y - snd X + (snd X - snd Y))%R with 0%R by ring.
    rewrite !Rpower_O by auto. ring.
Qed.

Lemma to_valid_index_this i w w' :
  this w' = this w ->
  fst (_to_valid_index i w') = fst (_to_valid_index i w).
Proof.
  destruct w as [m h], w' as [m' h']. simpl. intros ->.
  unfold _to_valid_index, finite. mcases.
Qed.

Lemma get_SL_run w i k sl :
  fst (_to_valid_index i w) = Ok k ->
  py_getitem (_S (this w)) k = Ok sl ->
  get_SL i w = (Ok sl, w).
Proof.
  intros Hk Hs. unfold get_SL.
  rewrite (bind_Ok _ _ _ _ _ (to_valid_index_run _ _ _ Hk)). mred.
  now rewrite Hs.
Qed.

Lemma get_SR_run w i k sr :
  fst (_to_valid_index i w) = Ok k ->
  py_getitem (_S (this w)) (k + 1) = Ok sr ->
  get_SR i w = (Ok sr, w).
Proof.
  intros Hk Hs. unfold get_SR.
  rewrite (bind_Ok _ _ _ _ _ (to_valid_index_run _ _ _ Hk)). mred.
  now rewrite Hs.
Qed.

Lemma yields_bind w m k v g :
  yields w (m w) v ->
  (forall r w1 a, this w1 = this w -> extends (heap w) (heap w1) ->
                  nth_error (heap w1) r = Some (NpcArray a) ->
                  yields w1 (k r w1) (g a)) ->
  yields w (bind m k w) (obind v g).
Proof.
  intros (Ht & He & Hv) Hk. unfold bind.
  destruct (m w) as [o w1]. simpl in *.
  destruct v as [a|e|x]; simpl.
  - destruct Hv as (r & -> & Hr).
    eapply yields_weaken; [exact Ht|exact He|]. now apply Hk.
  - subst o. repeat split; auto.
  - subst o. repeat split; auto.
Qed.

Lemma tag_eqb_true X Y : tag_eqb (Some X) (Some Y) = true -> X = Y.
Proof.
  destruct X as [a b], Y as [c d]. simpl. intros H.
  apply andb_true_iff in H. destruct H as [H1 H2].
  apply Reqb_true_iff in H1, H2. congruence.
Qed.

(** [_convert_form_i] between two exponent pairs yields what
    [convert_form_val] computes. *)
Lemma convert_form_i_yields pinv w b Bv i k SL SR soL soR X Y copy cutoff :
  nth_error (heap w) b = Some (NpcArray Bv) ->
  fst (_to_valid_index i w) = Ok k ->
  py_getitem (_S (this w)) k = Ok SL ->
  py_getitem (_S (this w)) (k + 1) = Ok SR ->
  spectrum_at w SL soL -> spectrum_at w SR soR ->
  yields w (_convert_form_i pinv b i (Some X) (Some Y) copy cutoff w)
           (convert_form_val pinv Bv soL soR X Y cutoff).
Proof.
  intros Hb Hk HSL HSR HoL HoR. unfold _convert_form_i. cbn [orb].
  destruct (tag_eqb (Some X) (Some Y)) eqn:E.
  - apply tag_eqb_true in E. subst Y.
    unfold convert_form_val, scale_axis_B_val.
    rewrite !Rminus_diag, !Reqb_refl. cbn [obind].
    destruct copy.
    + rewrite (npc_copy_run _ _ _ Hb).
      apply (yields_lift_alloc w w (Ok Bv)); [reflexivity|apply extends_refl].
    + apply yields_ret; auto. apply extends_refl.
  - destruct X as [old_L old_R], Y as [new_L new_R].
    rewrite (bind_Ok _ _ _ _ _ (get_SL_run _ _ _ _ Hk HSL)).
    unfold convert_form_val. cbn [fst snd].
    apply yields_bind.
    + now apply scale_axis_B_yields_here.
    + intros r w1 a Ht He Hr.
      assert (Hk1 : fst (_to_valid_index i w1) = Ok k)
        by (rewrite (to_valid_index_this _ _ _ Ht); exact Hk).
      rewrite <- Ht in HSR.
      rewrite (bind_Ok _ _ _ _ _ (get_SR_run _ _ _ _ Hk1 HSR)).
      apply scale_axis_B_yields_here; auto.
      eapply spectrum_at_extends; eauto.
Qed.

Lemma IZR_neq_half z : IZR z <> (/ 2)%R.
Proof.
  intros H. assert (H2 : IZR (2 * z) = 1%R) by (rewrite mult_IZR; lra).
  apply eq_IZR in H2. lia.
Qed.

(** C1 as stated fails when a singular value is negative: all entries of
    the spectra of [seg_neg] are nonzero and the state passes validation,
    but converting its tensor from form [B] to form [C] takes the square
    root of [-1], which is not a number; no tensor comes back from which
    the original could be recovered. *)
Lemma round_trip_fails_on_negative_spectrum :
  fst (test_sanity seg_neg) = Ok tt
  /\ nth_error (heap seg_neg) 1 = Some (NdArray (Nd1 [(-1)%R]))
  /\ nth_error (heap seg_neg) 2 = Some (NdArray (Nd1 [1%R]))
  /\ Forall (fun x => x <> 0%R) [(-1)%R]
  /\ Forall (fun x => x <> 0%R) [1%R]
  /\ _valid_forms (FName "B") = Ok (Some (0, 1)%R)
  /\ _valid_forms (FName "C") = Ok (Some (/ 2, / 2)%R)
  /\ _convert_form_i pinv_example 0 0 (Some (0, 1)%R) (Some (/ 2, / 2)%R)
       false default_cutoff seg_neg
     = (Anomaly NonFiniteFloat, seg_neg).
Proof.
  split; [reflexivity|]. split; [reflexivity|]. split; [reflexivity|].
  split; [repeat constructor; lra|]. split; [repeat constructor; lra|].
  split; [reflexivity|]. split; [reflexivity|].
  unfold _convert_form_i. cbn [orb tag_eqb].
  rewrite (Reqb_neq 0 (/ 2)) by lra. cbn [andb].
  rewrite (bind_Ok _ _ _ _ _
             (get_SL_run seg_neg 0 0 (Some 1) eq_refl eq_refl)).
  apply bind_Anomaly.
  unfold _scale_axis_B.
  rewrite (Reqb_neq (/ 2 - 0) 0) by lra.
  rewrite (bind_Ok _ _ _ _ _
             (deref_run 1 seg_neg (NdArray (Nd1 [(-1)%R])) eq_refl)).
  rewrite (Reqb_neq (/ 2 - 0) 1) by lra. cbn [negb].
  apply bind_Anomaly.
  rewrite (np_pow_run 1 _ seg_neg (Nd1 [(-1)%R]) eq_refl).
  unfold nd_power, np_power. cbn [nd_data omapM].
  rewrite (Rltb_nlt 0 (-1)) by lra. rewrite (Reqb_neq (-1) 0) by lra.
  rewrite Reqb_neq; [reflexivity|].
  replace (/ 2 - 0)%R with (/ 2)%R by lra. apply IZR_neq_half.
Qed.

(** C1 (round trip of form conversion), amended.  At a site whose left and
    right spectra are vectors of positive singular values fitting the legs
    [vL] and [vR] of a well-formed tensor, converting the tensor from the
    exponent pair [X] to the exponent pair [Y] and the result back to [X]
    succeeds and returns a tensor equal to the original one; the original
    object and the instance are untouched.  The named forms [A], [B], [C],
    [G] stand for exponent pairs through [_valid_forms]. *)
Theorem form_round_trip (pinv : Array -> R -> outcome Array) (w : world)
    (i k : Z) (b sl sr : ref) (Bv : Array) (vl vr : list R) (X Y : R * R)
    (copy copy' : bool) (cutoff : R) :
  fst (_to_valid_index i w) = Ok k ->
  nth_error (_S (this w)) (Z.to_nat k) = Some (Some sl) ->
  nth_error (_S (this w)) (S (Z.to_nat k)) = Some (Some sr) ->
  nth_error (heap w) sl = Some (NdArray (Nd1 vl)) ->
  nth_error (heap w) sr = Some (NdArray (Nd1 vr)) ->
  all_positive vl -> all_positive vr ->
  nth_error (heap w) b = Some (NpcArray Bv) ->
  array_test_sanity Bv = Ok tt ->
  omap ind_len (get_leg Bv (AxLabel "vL")) = Ok (List.length vl) ->
  omap ind_len (get_leg Bv (AxLabel "vR")) = Ok (List.length vr) ->
  exists b1 w1 b2 w2,
    _convert_form_i pinv b i (Some X) (Some Y) copy cutoff w = (Ok b1, w1)
    /\ _convert_form_i pinv b1 i (Some Y) (Some X) copy' cutoff w1
       = (Ok b2, w2)
    /\ nth_error (heap w2) b2 = Some (NpcArray Bv)
    /\ nth_error (heap w2) b = Some (NpcArray Bv)
    /\ this w2 = this w.
Proof.
  intros Hk HSl HSr Hsl Hsr HpL HpR Hb Hwf HlL HlR.
  pose proof (to_valid_index_range _ _ _ Hk) as Hrange.
  apply get_leg_len in HlL, HlR.
  destruct HlL as (kL & HkL & HdL), HlR as (kR & HkR & HdR).
  assert (HgL : py_getitem (_S (this w)) k = Ok (Some sl))
    by (apply py_getitem_nat; [lia|exact HSl]).
  assert (HgR : py_getitem (_S (this w)) (k + 1) = Ok (Some sr)).
  { apply py_getitem_nat; [lia|].
    replace (Z.to_nat (k + 1)) with (S (Z.to_nat k)) by lia. exact HSr. }
  destruct (convert_form_val_round_trip pinv Bv vl vr X Y cutoff kL kR
              Hwf HkL HkR HdL HdR HpL HpR) as (B1 & HB1 & HB2).
  pose proof (convert_form_i_yields pinv w b Bv i k (Some sl) (Some sr)
                (Some (NdArray (Nd1 vl))) (Some (NdArray (Nd1 vr)))
                X Y copy cutoff Hb Hk HgL HgR Hsl Hsr) as Hy1.
  rewrite HB1 in Hy1.
  destruct (_convert_form_i pinv b i (Some X) (Some Y) copy cutoff w)
    as [o1 w1] eqn:E1.
  destruct Hy1 as (Ht1 & He1 & b1 & Ho1 & Hb1). cbn [fst snd] in *. subst o1.
  assert (Hk1 : fst (_to_valid_index i w1) = Ok k)
    by (rewrite (to_valid_index_this _ _ _ Ht1); exact Hk).
  rewrite <- Ht1 in HgL, HgR.
  pose proof (convert_form_i_yields pinv w1 b1 B1 i k (Some sl) (Some sr)
                (Some (NdArray (Nd1 vl))) (Some (NdArray (Nd1 vr)))
                Y X copy' cutoff Hb1 Hk1 HgL HgR
                (nth_error_extends _ _ _ _ He1 Hsl)
                (nth_error_extends _ _ _ _ He1 Hsr)) as Hy2.
  rewrite HB2 in Hy2.
  destruct (_convert_form_i pinv b1 i (Some Y) (Some X) copy' cutoff w1)
    as [o2 w2] eqn:E2.
  destruct Hy2 as (Ht2 & He2 & b2 & Ho2 & Hb2). cbn [fst snd] in *. subst o2.
  exists b1, w1, b2, w2. repeat split; auto.
  - eapply nth_error_extends; [exact He2|].
    eapply nth_error_extends; [exact He1|exact Hb].
  - congruence.
Qed.

(** The unit cell [imps1]: from form [B] to form [C] and back. *)
Lemma form_round_trip_witness :
  fst (_to_valid_index 0 imps1) = Ok 0%Z
  /\ all_positive [1%R]
  /\ array_test_sanity B_unit = Ok tt
  /\ exists b1 w1 b2 w2,
       _convert_form_i pinv_example 0 0 (Some (0, 1)%R) (Some (/ 2, / 2)%R)
         false default_cutoff imps1 = (Ok b1, w1)
       /\ _convert_form_i pinv_example b1 0 (Some (/ 2, / 2)%R)
            (Some (0, 1)%R) false default_cutoff w1 = (Ok b2, w2)
       /\ nth_error (heap w2) b2 = Some (NpcArray B_unit)
       /\ nth_error (heap w2) 0 = Some (NpcArray B_unit)
       /\ this w2 = this imps1.
Proof.
  assert (Hp : all_positive [1%R]) by (repeat constructor; lra).
  split; [reflexivity|]. split; [exact Hp|]. split; [reflexivity|].
  apply (form_round_trip pinv_example imps1 0 0 0 1 1 B_unit [1%R] [1%R]
           (0, 1)%R (/ 2, / 2)%R false false default_cutoff);
    try reflexivity; exact Hp.
Defined.

(** ** Expectation values *)

(** C9 (axes-mismatch diagnostic).  When the first operator fixes the site
    count [n] and one of the two lists of axes does not have length [n], the
    call fails and the world is unchanged.  Unless the boundary condition is
    invalid (then reading [finite] for the default sites fails first), the
    failure is not the intended [ValueError]: building its message takes
    [len] of the int [n], which is a [TypeError]. *)
Theorem expectation_value_axes_mismatch (pinv : Array -> R -> outcome Array)
    (w : world) (ops : ops_arg) (op0 : op_spec) (rest : list op_spec) (n : Z)
    (sites_ : option (list Z)) (axes_p axes_pstar : list string) :
  ops_list ops = op0 :: rest ->
  operator_sites w op0 n ->
  Z.of_nat (List.length axes_p) <> n
  \/ Z.of_nat (List.length axes_pstar) <> n ->
  (exists e, expectation_value pinv ops sites_ (Some (axes_p, axes_pstar)) w
             = (Raise e, w))
  /\ (sites_ <> None \/ valid_bc (bc (this w)) ->
      expectation_value pinv ops sites_ (Some (axes_p, axes_pstar)) w
      = (Raise TypeError, w)).
Proof.
  intros Hops Hn Hax.
  assert (Hcheck : negb (Z.of_nat (List.length axes_p) =? n)%Z
                   || negb (Z.of_nat (List.length axes_pstar) =? n)%Z = true).
  { apply orb_true_iff. destruct Hax as [H|H]; [left|right];
      apply negb_true_iff; now apply Z.eqb_neq. }
  assert (Hn' : (match op0 with
                 | OpName _ => ret 1%Z
                 | OpArray r => a <- as_npc r ;; ret (Z.of_nat (rank a) / 2)%Z
                 end) w = (Ok n, w)).
  { destruct op0 as [name|r]; simpl in Hn.
    - now subst n.
    - destruct Hn as (a & Ha & ->).
      now rewrite (bind_Ok _ _ _ _ _ (as_npc_run _ _ _ Ha)). }
  assert (Hrun : forall ss : list Z,
    (let p_labels := map (fun j => ("p" ++ str_of_Z j)%string) (py_range 0 n) in
     let th_labels := ["vL"; "vR"] ++ p_labels in
     (if negb (Z.of_nat (List.length axes_p) =? n)%Z
         || negb (Z.of_nat (List.length axes_pstar) =? n)%Z
      then raise TypeError else ret tt) ;;
     E <- for_fold ss []
            (fun E i =>
               k <- lift (py_mod i (Z.of_nat (List.length (ops_list ops)))) ;;
               op <- lift (py_getitem (ops_list ops) k) ;;
               op <- match op with
                     | OpName name =>
                         s <- self ;;
                         site <- lift (py_getitem (sites s) i) ;;
                         lift (get_op (site_ops site) name)
                     | OpArray r => ret r
                     end ;;
               theta <- get_theta pinv i n default_cutoff 1 1 ;;
               C <- npc_tensordot op theta (map AxLabel axes_pstar)
                                           (map AxLabel p_labels) ;;
               e <- npc_inner theta C (map AxLabel th_labels)
                      (map AxLabel (["vL"; "vR"] ++ axes_p)) ;;
               ret (E ++ [e])) ;;
     alloc (NdArray (Nd1 E))) w = (Raise TypeError, w)).
  { intros ss. cbv zeta. rewrite Hcheck. reflexivity. }
  unfold expectation_value. fold (ops_list ops). rewrite Hops.
  change (py_getitem (op0 :: rest) 0) with (Ok op0).
  change (lift (Ok op0)) with (ret op0).
  rewrite <- Hops.
  assert (Hstart : forall (k : Z -> M ref),
            bind (ret op0) (fun op0 =>
              bind (match op0 with
                    | OpName _ => ret 1%Z
                    | OpArray r => a <- as_npc r ;; ret (Z.of_nat (rank a) / 2)%Z
                    end) k) w = k n w).
  { intros k. unfold bind at 1, ret at 1. now rewrite (bind_Ok _ _ _ _ _ Hn'). }
  rewrite Hstart. rewrite (bind_Ok _ _ _ _ _ (L_run w)).
  destruct sites_ as [ss|].
  - unfold bind at 1, ret at 1. split; [eexists|intros _]; apply Hrun.
  - destruct (existsb (String.eqb (bc (this w))) _valid_bc) eqn:Ebc.
    + apply valid_bc_existsb in Ebc.
      assert (Hs : (fin <- finite ;;
                    (if fin
                     then ret (py_range 0
                                 (Z.of_nat (List.length (sites (this w)))
                                  - (n - 1)))
                     else ret (py_range 0
                                 (Z.of_nat (List.length (sites (this w)))))))
                     w
                   = (Ok (if negb (bc (this w) =? "infinite")%string
                          then py_range 0
                                 (Z.of_nat (List.length (sites (this w)))
                                  - (n - 1))
                          else py_range 0
                                 (Z.of_nat (List.length (sites (this w))))),
                      w)).
      { rewrite (bind_Ok _ _ _ _ _ (finite_run w Ebc)).
        now destruct (bc (this w) =? "infinite")%string. }
      rewrite (bind_Ok _ _ _ _ _ Hs).
      split; [eexists|intros _]; apply Hrun.
    + assert (Hnb : ~ valid_bc (bc (this w))).
      { intros H. apply valid_bc_existsb in H. congruence. }
      assert (Hs : forall (k : bool -> M (list Z)),
                bind finite k w = (Raise AssertionError, w)).
      { intros k. apply bind_Raise. now apply finite_invalid. }
      rewrite (bind_Raise _ _ _ _ _ (Hs _)).
      split; [eexists; reflexivity|].
      intros [H|H]; [congruence|contradiction].
Qed.

(** The unit cell [imps1], one operator given by name, three axes. *)
Lemma expectation_value_axes_mismatch_witness :
  ops_list (OpsOne (OpName "Sz")) = [OpName "Sz"]
  /\ operator_sites imps1 (OpName "Sz") 1
  /\ Z.of_nat (List.length ["p0"; "p1"]) <> 1%Z
  /\ expectation_value pinv_example (OpsOne (OpName "Sz")) None
       (Some (["p0"; "p1"], ["p0*"])) imps1
     = (Raise TypeError, imps1).
Proof.
  assert (H1 : ops_list (OpsOne (OpName "Sz")) = [OpName "Sz"])
    by reflexivity.
  assert (H2 : operator_sites imps1 (OpName "Sz") 1) by reflexivity.
  assert (H3 : Z.of_nat (List.length ["p0"; "p1"]) <> 1%Z)
    by (simpl; lia).
  split; [exact H1|]. split; [exact H2|]. split; [exact H3|].
  apply (expectation_value_axes_mismatch pinv_example imps1
           (OpsOne (OpName "Sz")) (OpName "Sz") [] 1 None
           ["p0"; "p1"] ["p0*"] H1 H2 (or_introl H3)).
  right. right. right. reflexivity.
Defined.

(** ** Computations that never raise a flagged error *)

Ltac not_unknown :=
  let H := fresh in intros [[H|H]|[H|H]]; discriminate H.

Lemma plain_Ok {A} (a : A) : plain (Ok a).
Proof. intros e H. discriminate. Qed.

Lemma plain_Anomaly {A} x : plain (@Anomaly A x).
Proof. intros e H. discriminate. Qed.

Lemma plain_Raise {A} e : ~ flagged e -> plain (@Raise A e).
Proof. intros H e' [= <-]. exact H. Qed.

Lemma plain_obind {A B} (o : outcome A) (k : A -> outcome B) :
  plain o -> (forall a, plain (k a)) -> plain (obind o k).
Proof.
  intros Ho Hk. destruct o as [a|e|x]; simpl; auto.
  - apply plain_Raise. now apply Ho.
  - apply plain_Anomaly.
Qed.

Lemma plain_omapM {A B} (f : A -> outcome B) l :
  (forall a, plain (f a)) -> plain (omapM f l).
Proof.
  intros Hf. induction l as [|a l IH]; simpl; [apply plain_Ok|].
  apply plain_obind; auto. intros b. apply plain_obind; auto.
  intros bs. apply plain_Ok.
Qed.

Ltac plain_step :=
  first
    [ apply plain_Ok
    | apply plain_Anomaly
    | apply plain_Raise; not_unknown
    | apply plain_obind; [|intros ?]
    | apply plain_omapM; intros ?
    | match goal with
      | |- plain (if ?c then _ else _) => destruct c
      | |- plain (match ?x with _ => _ end) => destruct x
      | |- plain (let '(_, _) := ?x in _) => destruct x
      end ].

Lemma plain_py_getitem {A} (l : list A) z : plain (py_getitem l z).
Proof. unfold py_getitem. repeat plain_step. Qed.

Lemma plain_py_setitem {A} (l : list A) z a : plain (py_setitem l z a).
Proof. unfold py_setitem. repeat plain_step. Qed.

Lemma plain_py_mod a b : plain (py_mod a b).
Proof. unfold py_mod. repeat plain_step. Qed.

Lemma plain_get_leg_index A ax : plain (get_leg_index A ax).
Proof. unfold get_leg_index. repeat plain_step. Qed.

Lemma plain_replace_label A old new : plain (replace_label A old new).
Proof.
  unfold replace_label. apply plain_obind; [apply plain_get_leg_index|].
  intros. apply plain_Ok.
Qed.

Lemma plain_scale_axis A s ax : plain (scale_axis A s ax).
Proof.
  unfold scale_axis. apply plain_obind; [apply plain_get_leg_index|].
  intros. repeat plain_step.
Qed.

Lemma plain_test_contractible_all la lb : plain (test_contractible_all la lb).
Proof.
  revert lb. induction la as [|a la IH]; intros [|b lb]; simpl;
    try apply plain_Ok.
  apply plain_obind; auto. unfold test_contractible. repeat plain_step.
Qed.

Lemma plain_tensordot A B axesA axesB : plain (tensordot A B axesA axesB).
Proof.
  unfold tensordot.
  apply plain_obind; [apply plain_omapM; intros; apply plain_get_leg_index|].
  intros ca.
  apply plain_obind; [apply plain_omapM; intros; apply plain_get_leg_index|].
  intros cb. destruct (negb _); [apply plain_Raise; not_unknown|].
  apply plain_obind; [apply plain_test_contractible_all|].
  intros. apply plain_Ok.
Qed.

Lemma plain_nd_power s e : plain (nd_power s e).
Proof. unfold nd_power. repeat plain_step. Qed.

Lemma nu_ret {A} (a : A) : never_flagged (ret a).
Proof. intros w e H. discriminate. Qed.

Lemma nu_raise {A} e : ~ flagged e -> never_flagged (@raise A e).
Proof. intros H w e' [= <-]. exact H. Qed.

Lemma nu_lift {A} (o : outcome A) : plain o -> never_flagged (lift o).
Proof. intros H w e He. now apply H. Qed.

Lemma nu_bind {A B} (m : M A) (k : A -> M B) :
  never_flagged m -> (forall a, never_flagged (k a)) ->
  never_flagged (bind m k).
Proof.
  intros Hm Hk w e. unfold bind.
  destruct (m w) as [[a|e'|x] w'] eqn:E; simpl.
  - apply Hk.
  - intros [= <-]. apply (Hm w). now rewrite E.
  - discriminate.
Qed.

Lemma nu_bind_lift_Ok {A B} (a : A) (k : A -> M B) :
  never_flagged (k a) -> never_flagged (bind (lift (Ok a)) k).
Proof. intros H w e. apply H. Qed.

Lemma nu_self : never_flagged self.
Proof. intros w e H. discriminate. Qed.

Lemma nu_set_self f : never_flagged (set_self f).
Proof. intros w e H. discriminate. Qed.

Lemma nu_deref r : never_flagged (deref r).
Proof. intros w e. unfold deref. destruct (nth_error _ _); discriminate. Qed.

Lemma nu_alloc o : never_flagged (alloc o).
Proof. intros w e H. discriminate. Qed.

Lemma nu_assert b : never_flagged (assert b).
Proof. destruct b; [apply nu_ret|apply nu_raise; not_unknown]. Qed.

Lemma nu_for_fold {X S} (l : list X) (s : S) body :
  (forall s x, never_flagged (body s x)) -> never_flagged (for_fold l s body).
Proof.
  intros Hb. revert s. induction l as [|x l IH]; intros s; simpl.
  - apply nu_ret.
  - apply nu_bind; auto.
Qed.

Lemma nu_for_each {X} (l : list X) body :
  (forall x, never_flagged (body x)) -> never_flagged (for_each l body).
Proof.
  intros Hb. induction l as [|x l IH]; simpl.
  - apply nu_ret.
  - apply nu_bind; auto.
Qed.

Create HintDb nu.
#[export] Hint Resolve nu_ret nu_self nu_set_self nu_deref nu_alloc nu_assert
  plain_py_getitem plain_py_setitem plain_py_mod plain_replace_label
  plain_scale_axis plain_tensordot plain_nd_power plain_Ok : nu.

Ltac nu_step :=
  first
    [ solve [eauto with nu]
    | apply nu_raise; not_unknown
    | apply nu_lift; solve [eauto with nu]
    | apply nu_bind; [|intros ?]
    | apply nu_for_fold; intros ? ?
    | apply nu_for_each; intros ?
    | match goal with
      | |- never_flagged (if ?c then _ else _) => destruct c
      | |- never_flagged (match ?x with _ => _ end) => destruct x
      | |- never_flagged (let '(_, _) := ?x in _) => destruct x
      | |- never_flagged ((match ?x with _ => _ end) _) =>
          destruct x; cbv beta
      end ].

Ltac nu := repeat nu_step.

Lemma nu_L : never_flagged L.
Proof. unfold L. nu. Qed.

Lemma nu_finite : never_flagged finite.
Proof. unfold finite. nu. Qed.

#[export] Hint Resolve nu_L nu_finite : nu.

Lemma nu_to_valid_index i : never_flagged (_to_valid_index i).
Proof. unfold _to_valid_index. nu. Qed.

#[export] Hint Resolve nu_to_valid_index : nu.

Lemma nu_get_SL i : never_flagged (get_SL i).
Proof. unfold get_SL. nu. Qed.

Lemma nu_get_SR i : never_flagged (get_SR i).
Proof. unfold get_SR. nu. Qed.

Lemma nu_as_npc r : never_flagged (as_npc r).
Proof. unfold as_npc. nu. Qed.

Lemma nu_as_nd r : never_flagged (as_nd r).
Proof. unfold as_nd. nu. Qed.

#[export] Hint Resolve nu_get_SL nu_get_SR nu_as_npc nu_as_nd : nu.

Lemma nu_npc_copy b : never_flagged (npc_copy b).
Proof. unfold npc_copy. nu. Qed.

Lemma nu_npc_replace_label b old new :
  never_flagged (npc_replace_label b old new).
Proof. unfold npc_replace_label. nu. Qed.

Lemma nu_npc_scale_axis b s ax : never_flagged (npc_scale_axis b s ax).
Proof. unfold npc_scale_axis. nu. Qed.

Lemma nu_npc_tensordot a b axesA axesB :
  never_flagged (npc_tensordot a b axesA axesB).
Proof. unfold npc_tensordot. nu. Qed.

Lemma nu_np_pow s e : never_flagged (np_pow s e).
Proof. unfold np_pow. nu. Qed.

#[export] Hint Resolve nu_npc_copy nu_npc_replace_label nu_npc_scale_axis
  nu_npc_tensordot nu_np_pow : nu.

Section NeverUnknown.

Variable pinv : Array -> R -> outcome Array.
Hypothesis pinv_plain : forall a cutoff, plain (pinv a cutoff).

Lemma nu_npc_pinv s cutoff : never_flagged (npc_pinv pinv s cutoff).
Proof. unfold npc_pinv. nu. Qed.

Lemma nu_scale_axis_B B sv d axis_B cutoff :
  never_flagged (_scale_axis_B pinv B sv d axis_B cutoff).
Proof.
  pose proof nu_npc_pinv. unfold _scale_axis_B. nu.
Qed.

(** Asking for the stored form never reports an unknown form. *)
Lemma nu_get_B_None i copy cutoff :
  never_flagged (get_B pinv i FNone copy cutoff).
Proof.
  assert (H : forall B j f, never_flagged
                (_convert_form_i pinv B j f None copy cutoff)).
  { intros B j f. unfold _convert_form_i. cbn [orb]. nu. }
  unfold get_B. apply nu_bind; [nu|intros k].
  change (_to_valid_form FNone) with (lift (Ok (@None (R * R)))).
  apply nu_bind_lift_Ok. nu.
Qed.

End NeverUnknown.

(** ** Sites whose form is not known *)

Lemma py_getitem_cases {A} (l : list A) z :
  (exists a, py_getitem l z = Ok a) \/ py_getitem l z = Raise IndexError.
Proof.
  unfold py_getitem.
  repeat match goal with
         | |- context [if ?c then _ else _] => destruct c
         | |- context [match ?x with Some _ => _ | None => _ end] => destruct x
         end; eauto.
Qed.

Lemma to_valid_form_cases frm w :
  frm <> FNone ->
  (exists t, _to_valid_form frm w = (Ok (Some t), w))
  \/ _to_valid_form frm w = (Raise KeyError, w).
Proof.
  intros H. destruct frm as [s| |a b]; [|congruence|left; eexists; reflexivity].
  unfold _to_valid_form, lift, _valid_forms.
  repeat match goal with
         | |- context [if ?c then _ else _] => destruct c
         end; eauto.
Qed.

Lemma convert_from_unknown pinv b i t copy cutoff w :
  _convert_form_i pinv b i None (Some t) copy cutoff w
  = (Raise (ValueError "can't convert form of non-canonical state!"), w).
Proof. reflexivity. Qed.

Lemma get_B_unknown pinv w i k frm copy cutoff :
  fst (_to_valid_index i w) = Ok k ->
  nth_error (form (this w)) (Z.to_nat k) = Some None ->
  frm <> FNone ->
  exists e, get_B pinv i frm copy cutoff w = (Raise e, w).
Proof.
  intros Hk Hf Hfrm. pose proof (to_valid_index_range _ _ _ Hk) as Hr.
  unfold get_B. rewrite (bind_Ok _ _ _ _ _ (to_valid_index_run _ _ _ Hk)).
  destruct (to_valid_form_cases frm w Hfrm) as [(t & Ht)|Ht].
  - rewrite (bind_Ok _ _ _ _ _ Ht). mred.
    destruct (py_getitem_cases (_B (this w)) k) as [(b & ->)| ->];
      [|eexists; reflexivity].
    rewrite (py_getitem_nat _ _ _ (proj1 Hr) Hf). eexists. reflexivity.
  - rewrite (bind_Raise _ _ _ _ _ Ht). eexists. reflexivity.
Qed.

Lemma get_B_unknown_pair pinv w i k t b copy cutoff :
  fst (_to_valid_index i w) = Ok k ->
  nth_error (form (this w)) (Z.to_nat k) = Some None ->
  nth_error (_B (this w)) (Z.to_nat k) = Some b ->
  get_B pinv i (spec_of_tag (Some t)) copy cutoff w
  = (Raise (ValueError "can't convert form of non-canonical state!"), w).
Proof.
  intros Hk Hf Hb. pose proof (to_valid_index_range _ _ _ Hk) as Hr.
  unfold get_B. rewrite (bind_Ok _ _ _ _ _ (to_valid_index_run _ _ _ Hk)).
  destruct t as [a c]. cbn [spec_of_tag _to_valid_form]. mred.
  rewrite (py_getitem_nat _ _ _ (proj1 Hr) Hb).
  rewrite (py_getitem_nat _ _ _ (proj1 Hr) Hf). reflexivity.
Qed.

Lemma get_B_stored pinv w i k b f cutoff :
  fst (_to_valid_index i w) = Ok k ->
  nth_error (form (this w)) (Z.to_nat k) = Some f ->
  nth_error (_B (this w)) (Z.to_nat k) = Some b ->
  get_B pinv i FNone false cutoff w = (Ok b, w)
  /\ get_B pinv i FNone true cutoff w = npc_copy b w.
Proof.
  intros Hk Hf Hb. pose proof (to_valid_index_range _ _ _ Hk) as Hr.
  split; unfold get_B;
    rewrite (bind_Ok _ _ _ _ _ (to_valid_index_run _ _ _ Hk));
    cbn [_to_valid_form _valid_forms]; mred;
    rewrite (py_getitem_nat _ _ _ (proj1 Hr) Hb);
    rewrite (py_getitem_nat _ _ _ (proj1 Hr) Hf); reflexivity.
Qed.

Lemma get_theta_first_unknown pinv w i k n cutoff formL formR :
  fst (_to_valid_index i w) = Ok k ->
  nth_error (form (this w)) (Z.to_nat k) = Some None ->
  exists e, get_theta pinv i n cutoff formL formR w = (Raise e, w)
            /\ (e = ValueError "i out of bounds"
                \/ e = ValueError "can't calculate theta for non-canonical form").
Proof.
  intros Hk Hf. pose proof (to_valid_index_range _ _ _ Hk) as Hr.
  pose proof (to_valid_index_bc _ _ _ Hk) as Hb.
  unfold get_theta. rewrite (bind_Ok _ _ _ _ _ (to_valid_index_run _ _ _ Hk)).
  rewrite (bind_Ok _ _ _ _ _ (finite_run w Hb)).
  rewrite (bind_Ok _ _ _ _ _ (L_run w)).
  destruct (_ && _); mred; [eexists; split; [reflexivity|auto]|].
  rewrite (py_getitem_nat _ _ _ (proj1 Hr) Hf).
  eexists; split; [reflexivity|auto].
Qed.

Lemma get_theta_last_unknown pinv w i k n fi cutoff formL formR :
  fst (_to_valid_index i w) = Ok k ->
  nth_error (form (this w)) (Z.to_nat k) = Some (Some fi) ->
  nth_error (form (this w))
    (Z.to_nat ((k + n - 1) mod Z.of_nat (List.length (sites (this w)))))
  = Some None ->
  exists e, get_theta pinv i n cutoff formL formR w = (Raise e, w)
            /\ (e = ValueError "i out of bounds"
                \/ e = ValueError "can't calculate theta for non-canonical form").
Proof.
  intros Hk Hf Hl. pose proof (to_valid_index_range _ _ _ Hk) as Hr.
  pose proof (to_valid_index_bc _ _ _ Hk) as Hb.
  unfold get_theta. rewrite (bind_Ok _ _ _ _ _ (to_valid_index_run _ _ _ Hk)).
  rewrite (bind_Ok _ _ _ _ _ (finite_run w Hb)).
  rewrite (bind_Ok _ _ _ _ _ (L_run w)).
  destruct (_ && _); mred; [eexists; split; [reflexivity|auto]|].
  rewrite (py_getitem_nat _ _ _ (proj1 Hr) Hf). destruct fi as [fL fR].
  unfold py_mod.
  destruct (Z.eqb_spec (Z.of_nat (List.length (sites (this w)))) 0); [lia|].
  assert (HL : (0 < Z.of_nat (List.length (sites (this w))))%Z) by lia.
  rewrite (py_getitem_nat _ _ _ (proj1 (Z.mod_pos_bound (k + n - 1) _ HL)) Hl).
  eexists; split; [reflexivity|auto].
Qed.

Lemma get_theta_ends_known pinv w i k n fi fl cutoff formL formR e :
  (forall a c, plain (pinv a c)) ->
  fst (_to_valid_index i w) = Ok k ->
  nth_error (form (this w)) (Z.to_nat k) = Some (Some fi) ->
  nth_error (form (this w))
    (Z.to_nat ((k + n - 1) mod Z.of_nat (List.length (sites (this w)))))
  = Some (Some fl) ->
  fst (get_theta pinv i n cutoff formL formR w) = Raise e ->
  ~ unknown_form_error e.
Proof.
  intros Hp Hk Hf Hl Hrun Hu. revert Hrun.
  enough (H : fst (get_theta pinv i n cutoff formL formR w) = Raise e ->
              ~ flagged e) by (intros Hrun; apply (H Hrun); now left).
  clear Hu. revert Hp Hk Hf Hl.
  intros Hp Hk Hf Hl. pose proof (to_valid_index_range _ _ _ Hk) as Hr.
  pose proof (to_valid_index_bc _ _ _ Hk) as Hb.
  pose proof (nu_get_B_None pinv) as HnuB.
  pose proof (nu_scale_axis_B pinv Hp) as HnuS.
  unfold get_theta. rewrite (bind_Ok _ _ _ _ _ (to_valid_index_run _ _ _ Hk)).
  rewrite (bind_Ok _ _ _ _ _ (finite_run w Hb)).
  rewrite (bind_Ok _ _ _ _ _ (L_run w)).
  destruct (_ && _); [rewrite bind_raise; intros [= <-]; not_unknown|].
  rewrite bind_ret, bind_self.
  rewrite (py_getitem_nat _ _ _ (proj1 Hr) Hf), bind_lift_Ok.
  destruct fi as [fL fR].
  unfold py_mod.
  destruct (Z.eqb_spec (Z.of_nat (List.length (sites (this w)))) 0); [lia|].
  assert (HL : (0 < Z.of_nat (List.length (sites (this w))))%Z) by lia.
  rewrite bind_lift_Ok.
  rewrite (py_getitem_nat _ _ _ (proj1 (Z.mod_pos_bound (k + n - 1) _ HL)) Hl).
  rewrite bind_lift_Ok.
  match goal with
  | |- fst (?m w) = Raise e -> _ =>
      let H := fresh in
      assert (H : never_flagged m); [|exact (H w e)]
  end.
  nu.
Qed.

(** C3 (unknown-form failures).  Let the index [i] resolve to site [k].

    (1) If the form of site [k] is not known: asking for its tensor in any
    form other than [None] raises an error; so does the step of
    [convert_form] for this site towards any exponent pair; asking for form
    [None] returns the stored reference itself (a copy of the stored tensor
    when a copy is asked for); and building a theta window starting at the
    site raises an error, the window being out of bounds or the form
    unknown.

    (2) If the form of site [k] is known but that of the last site of the
    window, [(k + n - 1) mod L], is not, building the window raises an error
    in the same way.

    (3) If the forms of the first and the last site of the window are known,
    no error raised by [get_theta] reports an unknown form, whatever the
    forms of the sites in between (the pseudo-inverse of the backend not
    raising such an error itself). *)
Theorem unknown_form_failures (pinv : Array -> R -> outcome Array)
    (w : world) (i k : Z) :
  fst (_to_valid_index i w) = Ok k ->
  let last n :=
    Z.to_nat ((k + n - 1) mod Z.of_nat (List.length (sites (this w)))) in
  (nth_error (form (this w)) (Z.to_nat k) = Some None ->
   (forall frm copy cutoff, frm <> FNone ->
      exists e, get_B pinv i frm copy cutoff w = (Raise e, w))
   /\ (forall t b, nth_error (_B (this w)) (Z.to_nat k) = Some b ->
         (new_B <- get_B pinv i (spec_of_tag (Some t)) false default_cutoff ;;
          set_B i new_B (spec_of_tag (Some t))) w
         = (Raise (ValueError "can't convert form of non-canonical state!"),
            w))
   /\ (forall b cutoff, nth_error (_B (this w)) (Z.to_nat k) = Some b ->
         get_B pinv i FNone false cutoff w = (Ok b, w)
         /\ get_B pinv i FNone true cutoff w = npc_copy b w)
   /\ (forall n cutoff formL formR,
         exists e, get_theta pinv i n cutoff formL formR w = (Raise e, w)
                   /\ (e = ValueError "i out of bounds"
                       \/ e = ValueError
                            "can't calculate theta for non-canonical form")))
  /\ (forall n fi,
        nth_error (form (this w)) (Z.to_nat k) = Some (Some fi) ->
        nth_error (form (this w)) (last n) = Some None ->
        forall cutoff formL formR,
          exists e, get_theta pinv i n cutoff formL formR w = (Raise e, w)
                    /\ (e = ValueError "i out of bounds"
                        \/ e = ValueError
                             "can't calculate theta for non-canonical form"))
  /\ (forall n fi fl,
        (forall a c, plain (pinv a c)) ->
        nth_error (form (this w)) (Z.to_nat k) = Some (Some fi) ->
        nth_error (form (this w)) (last n) = Some (Some fl) ->
        forall cutoff formL formR e,
          fst (get_theta pinv i n cutoff formL formR w) = Raise e ->
          ~ unknown_form_error e).
Proof.
  intros Hk last. split; [|split].
  - intros Hf. split; [|split; [|split]].
    + intros frm copy cutoff Hfrm. now apply get_B_unknown with (k := k).
    + intros t b Hb. apply bind_Raise.
      now apply get_B_unknown_pair with (k := k) (b := b).
    + intros b cutoff Hb. now apply get_B_stored with (k := k) (f := None).
    + intros n cutoff formL formR.
      now apply get_theta_first_unknown with (k := k).
  - intros n fi Hf Hl cutoff formL formR.
    now apply get_theta_last_unknown with (k := k) (fi := fi).
  - intros n fi fl Hp Hf Hl cutoff formL formR e.
    now apply get_theta_ends_known with (k := k) (fi := fi) (fl := fl).
Qed.

Lemma pinv_example_plain a c : plain (pinv_example a c).
Proof. unfold pinv_example. repeat plain_step. Qed.

(** The chain [chain3], whose middle site has an unknown form. *)
Lemma unknown_form_failures_witness :
  fst (_to_valid_index 1 chain3) = Ok 1%Z
  /\ fst (_to_valid_index 0 chain3) = Ok 0%Z
  /\ nth_error (form (this chain3)) 1 = Some None
  /\ (exists e, get_B pinv_example 1 (FName "B") false default_cutoff chain3
                = (Raise e, chain3))
  /\ get_B pinv_example 1 FNone false default_cutoff chain3 = (Ok 0, chain3)
  /\ (exists e, get_theta pinv_example 1 1 default_cutoff 1 1 chain3
                = (Raise e, chain3))
  /\ (exists e, get_theta pinv_example 0 2 default_cutoff 1 1 chain3
                = (Raise e, chain3))
  /\ (forall e, fst (get_theta pinv_example 0 3 default_cutoff 1 1 chain3)
                = Raise e -> ~ unknown_form_error e).
Proof.
  assert (H1 : fst (_to_valid_index 1 chain3) = Ok 1%Z) by reflexivity.
  assert (H0 : fst (_to_valid_index 0 chain3) = Ok 0%Z) by reflexivity.
  assert (Hf : nth_error (form (this chain3)) 1 = Some None) by reflexivity.
  destruct (unknown_form_failures pinv_example chain3 1 1 H1) as [P1 _].
  destruct (P1 Hf) as (Pa & _ & Pc & Pd).
  destruct (unknown_form_failures pinv_example chain3 0 0 H0) as (_ & P2 & P3).
  split; [exact H1|]. split; [exact H0|]. split; [exact Hf|].
  split; [apply Pa; discriminate|].
  split; [apply (Pc 0 default_cutoff); reflexivity|].
  split.
  { destruct (Pd 1%Z default_cutoff 1%R 1%R) as (e & He & _). now exists e. }
  split.
  { destruct (P2 2%Z (0, 1)%R eq_refl eq_refl default_cutoff 1%R 1%R)
      as (e & He & _). now exists e. }
  intros e. apply (P3 3%Z (0, 1)%R (0, 1)%R pinv_example_plain eq_refl eq_refl).
Defined.

(** ** Computations that only read *)

Lemma ro_ret {A} (a : A) : read_only (ret a).
Proof. intros w. reflexivity. Qed.

Lemma ro_raise {A} e : read_only (@raise A e).
Proof. intros w. reflexivity. Qed.

Lemma ro_lift {A} (o : outcome A) : read_only (lift o).
Proof. intros w. reflexivity. Qed.

Lemma ro_self : read_only self.
Proof. intros w. reflexivity. Qed.

Lemma ro_deref r : read_only (deref r).
Proof. intros w. unfold deref. now destruct (nth_error _ _). Qed.

Lemma ro_assert b : read_only (assert b).
Proof. destruct b; [apply ro_ret|apply ro_raise]. Qed.

Lemma ro_bind {A B} (m : M A) (k : A -> M B) :
  read_only m -> (forall a, read_only (k a)) -> read_only (bind m k).
Proof.
  intros Hm Hk w. unfold bind. specialize (Hm w).
  destruct (m w) as [[a|e|x] w1]; simpl in *; subst; auto. apply Hk.
Qed.

Lemma ro_for_each {X} (l : list X) body :
  (forall x, read_only (body x)) -> read_only (for_each l body).
Proof.
  intros Hb. induction l as [|x l IH]; simpl.
  - apply ro_ret.
  - apply ro_bind; auto.
Qed.

Create HintDb ro.
#[export] Hint Resolve ro_ret ro_raise ro_lift ro_self ro_deref ro_assert : ro.

Ltac ro_step :=
  first
    [ solve [eauto with ro]
    | apply ro_bind; [|intros ?]
    | apply ro_for_each; intros ?
    | match goal with
      | |- read_only (if ?c then _ else _) => destruct c
      | |- read_only (match ?x with _ => _ end) => destruct x
      | |- read_only (let '(_, _) := ?x in _) => destruct x
      end ].

Ltac ro := repeat ro_step.

Lemma ro_L : read_only L.
Proof. unfold L. ro. Qed.

Lemma ro_finite : read_only finite.
Proof. unfold finite. ro. Qed.

Lemma ro_as_npc r : read_only (as_npc r).
Proof. unfold as_npc. ro. Qed.

#[export] Hint Resolve ro_L ro_finite ro_as_npc : ro.

Lemma ro_obj_shape x : read_only (obj_shape x).
Proof. unfold obj_shape. ro. Qed.

Lemma ro_obj_len x : read_only (obj_len x).
Proof. unfold obj_len. ro. Qed.

Lemma ro_py_any_ne x y : read_only (py_any_ne x y).
Proof. unfold py_any_ne. ro. Qed.

#[export] Hint Resolve ro_obj_shape ro_obj_len ro_py_any_ne : ro.

(** Validation only reads the world. *)
Lemma ro_test_sanity : read_only test_sanity.
Proof. unfold test_sanity. ro. Qed.

Lemma run_read_only {A} (m : M A) w : read_only m -> m w = (fst (m w), w).
Proof.
  intros H. rewrite (surjective_pairing (m w)) at 1. now rewrite H.
Qed.

(** ** Taking successful runs apart *)

Lemma bind_Ok_inv {A B} (m : M A) (k : A -> M B) w b w' :
  bind m k w = (Ok b, w') ->
  exists a w1, m w = (Ok a, w1) /\ k a w1 = (Ok b, w').
Proof.
  unfold bind. destruct (m w) as [[a|e|x] w1]; try discriminate. eauto.
Qed.

Lemma guard_Ok_inv (c : bool) e w u w' :
  (if c then raise e else ret tt) w = (Ok u, w') -> c = false /\ w' = w.
Proof. destruct c; [discriminate|]. intros [= _ <-]. auto. Qed.

Lemma for_each_Ok_inv {X} (l : list X) body w u w' :
  (forall x, read_only (body x)) ->
  for_each l body w = (Ok u, w') ->
  forall x, In x l -> body x w = (Ok tt, w).
Proof.
  intros Hro. induction l as [|y l IH]; simpl; [tauto|].
  intros H x Hin. apply bind_Ok_inv in H. destruct H as ([] & w1 & Hy & Hl).
  rewrite (run_read_only _ w (Hro y)) in Hy.
  injection Hy as Hy <-. destruct Hin as [Heq|Hin].
  - subst x. rewrite (run_read_only _ w (Hro y)). now rewrite Hy.
  - now apply IH.
Qed.

Lemma nth_error_combine {A B} (l1 : list A) (l2 : list B) k x y :
  nth_error l1 k = Some x -> nth_error l2 k = Some y ->
  nth_error (combine l1 l2) k = Some (x, y).
Proof.
  revert l2 k. induction l1 as [|a l1 IH]; intros [|b l2] [|k]; simpl;
    try discriminate; auto.
  now intros [= ->] [= ->].
Qed.

Lemma In_enumerate {A} (l : list A) k b :
  nth_error l k = Some b -> In (Z.of_nat k, b) (enumerate l).
Proof.
  intros H. unfold enumerate. apply nth_error_In with (n := k).
  apply nth_error_combine; auto.
  assert (k < List.length l) by (apply nth_error_Some; congruence).
  rewrite nth_error_map, nth_error_seq.
  destruct (Nat.ltb_spec k (List.length l)); [reflexivity|lia].
Qed.

Lemma as_npc_Ok_inv r w a w' :
  as_npc r w = (Ok a, w') -> nth_error (heap w) r = Some (NpcArray a).
Proof.
  unfold as_npc, bind, deref.
  destruct (nth_error (heap w) r) as [[v|a']|]; try discriminate.
  now intros [= ->].
Qed.

(** ** Validation and the legs of the tensors *)

(** What a successful validation says about each tensor: it is an array
    that has legs [vL], [vR] and [p]. *)
Lemma test_sanity_labels w w' k b :
  test_sanity w = (Ok tt, w') ->
  nth_error (_B (this w)) k = Some b ->
  exists a, nth_error (heap w) b = Some (NpcArray a)
            /\ forallb (has_label a) ["vL"; "vR"; "p"] = true.
Proof.
  intros H Hb. unfold test_sanity in H.
  apply bind_Ok_inv in H. destruct H as (s & w1 & Hs & H).
  injection Hs as <- <-.
  apply bind_Ok_inv in H. destruct H as (u1 & w1 & H1 & H).
  apply guard_Ok_inv in H1. destruct H1 as [_ ->].
  apply bind_Ok_inv in H. destruct H as (l & w1 & Hl & H).
  injection Hl as <- <-.
  apply bind_Ok_inv in H. destruct H as (u2 & w1 & H2 & H).
  apply guard_Ok_inv in H2. destruct H2 as [_ ->].
  apply bind_Ok_inv in H. destruct H as (u3 & w1 & H3 & H).
  apply guard_Ok_inv in H3. destruct H3 as [_ ->].
  apply bind_Ok_inv in H. destruct H as (u4 & w1 & H4 & _).
  eapply for_each_Ok_inv in H4; [| |apply In_enumerate; exact Hb].
  2:{ intros [i B]. ro. }
  cbv beta iota in H4.
  apply bind_Ok_inv in H4. destruct H4 as (a & w2 & Ha & H4).
  pose proof (as_npc_Ok_inv _ _ _ _ Ha) as Hheap.
  rewrite (as_npc_run _ _ _ Hheap) in Ha. injection Ha as <-.
  apply bind_Ok_inv in H4. destruct H4 as (u5 & w3 & H5 & _).
  apply guard_Ok_inv in H5. destruct H5 as [H5 _].
  exists a. split; auto. now apply negb_false_iff in H5.
Qed.

(** C4 as stated fails: the tensor of [fin_extra] carries the leg [q] in
    addition to [vL], [vR], [p], everything else is in order, and validation
    raises nothing. *)
Lemma validation_accepts_extra_leg :
  nth_error (_B (this fin_extra)) 0 = Some 0
  /\ nth_error (heap fin_extra) 0 = Some (NpcArray B_extra)
  /\ labels B_extra = [Some "vL"; Some "vR"; Some "p"; Some "q"]
  /\ test_sanity fin_extra = (Ok tt, fin_extra).
Proof. repeat split. Qed.

(** C4 (validation and the legs of the tensors), amended.  Validation
    raises nothing only on states in which every tensor is an array that
    carries the legs [vL], [vR] and [p]; on a state in which some tensor
    lacks one of them it does not succeed.  Legs in addition to these three
    are not looked at. *)
Theorem validation_requires_legs (w : world) :
  (forall w' k b,
     test_sanity w = (Ok tt, w') ->
     nth_error (_B (this w)) k = Some b ->
     w' = w
     /\ exists a, nth_error (heap w) b = Some (NpcArray a)
                  /\ has_label a "vL" = true
                  /\ has_label a "vR" = true
                  /\ has_label a "p" = true)
  /\ (forall k b a s,
        nth_error (_B (this w)) k = Some b ->
        nth_error (heap w) b = Some (NpcArray a) ->
        In s ["vL"; "vR"; "p"] ->
        has_label a s = false ->
        fst (test_sanity w) <> Ok tt).
Proof.
  split.
  - intros w' k b H Hb. split.
    + pose proof (ro_test_sanity w) as Hro. rewrite H in Hro. exact Hro.
    + destruct (test_sanity_labels _ _ _ _ H Hb) as (a & Ha & Hl).
      exists a. split; auto. simpl in Hl.
      repeat (apply andb_true_iff in Hl; destruct Hl as [? Hl]). auto.
  - intros k b a s Hb Ha Hs Hno Hok.
    pose proof (run_read_only _ w ro_test_sanity) as Hrun.
    rewrite Hok in Hrun.
    destruct (test_sanity_labels _ _ _ _ Hrun Hb) as (a' & Ha' & Hl).
    assert (a' = a) by congruence. subst a'.
    rewrite forallb_forall in Hl. specialize (Hl s Hs). congruence.
Qed.

(** The segment [chain3] passes validation, and its tensors carry the three
    legs; the tensor of [seg_no_p] has no leg [p], and validation fails. *)
Lemma validation_requires_legs_witness :
  test_sanity chain3 = (Ok tt, chain3)
  /\ nth_error (_B (this chain3)) 1 = Some 0
  /\ (exists a, nth_error (heap chain3) 0 = Some (NpcArray a)
                /\ has_label a "vL" = true
                /\ has_label a "vR" = true
                /\ has_label a "p" = true)
  /\ nth_error (_B (this seg_no_p)) 0 = Some 0
  /\ nth_error (heap seg_no_p) 0 = Some (NpcArray B_no_p)
  /\ has_label B_no_p "p" = false
  /\ fst (test_sanity seg_no_p) <> Ok tt.
Proof.
  assert (H1 : test_sanity chain3 = (Ok tt, chain3)) by reflexivity.
  assert (H2 : nth_error (_B (this chain3)) 1 = Some 0) by reflexivity.
  assert (H3 : nth_error (_B (this seg_no_p)) 0 = Some 0) by reflexivity.
  assert (H4 : nth_error (heap seg_no_p) 0 = Some (NpcArray B_no_p))
    by reflexivity.
  assert (H5 : has_label B_no_p "p" = false) by reflexivity.
  split; [exact H1|]. split; [exact H2|]. split.
  { destruct (validation_requires_legs chain3) as [P _].
    apply (P chain3 1 0 H1 H2). }
  split; [exact H3|]. split; [exact H4|]. split; [exact H5|].
  destruct (validation_requires_legs seg_no_p) as [_ P].
  apply (P 0 0 B_no_p "p" H3 H4); [simpl; auto|exact H5].
Defined.

(** ** The constructor *)

Lemma init_split sites_ Bs SVs bc_ form_ w :
  __init__ sites_ Bs SVs bc_ form_ w
  = (init_attributes sites_ Bs bc_ form_ ;; init_spectra SVs ;;
     init_boundary ;; test_sanity) w.
Proof.
  unfold __init__, init_attributes, init_spectra, init_boundary.
  mcases.
Qed.

Lemma kt_read_only {A} (m : M A) : read_only m -> keeps_this m.
Proof. intros H w. now rewrite H. Qed.

Lemma kt_alloc o : keeps_this (alloc o).
Proof. intros w. reflexivity. Qed.

Lemma kt_bind {A B} (m : M A) (k : A -> M B) :
  keeps_this m -> (forall a, keeps_this (k a)) -> keeps_this (bind m k).
Proof.
  intros Hm Hk w. unfold bind. specialize (Hm w).
  destruct (m w) as [[a|e|x] w1]; simpl in *; auto.
  rewrite <- Hm. apply Hk.
Qed.

Lemma kt_mapM {A B} (f : A -> M B) l :
  (forall a, keeps_this (f a)) -> keeps_this (mapM f l).
Proof.
  intros Hf. induction l as [|a l IH]; simpl.
  - intros w. reflexivity.
  - apply kt_bind; auto. intros b. apply kt_bind; auto.
    intros bs w. reflexivity.
Qed.

Lemma ro_mapM {A B} (f : A -> M B) l :
  (forall a, read_only (f a)) -> read_only (mapM f l).
Proof.
  intros Hf. induction l as [|a l IH]; simpl.
  - apply ro_ret.
  - apply ro_bind; auto. intros b. apply ro_bind; auto. intros bs. apply ro_ret.
Qed.

Lemma ro_parse_form frm : read_only (_parse_form frm).
Proof.
  unfold _parse_form.
  assert (H : forall l, read_only (mapM _to_valid_form l)).
  { intros l. apply ro_mapM. intros f. unfold _to_valid_form.
    destruct f; ro. }
  destruct frm as [[s| |a b]|l]; ro.
Qed.

Lemma kt_astype_copy b : keeps_this (astype_copy b).
Proof.
  unfold astype_copy. apply kt_bind.
  - apply kt_read_only. apply ro_deref.
  - intros o. apply kt_alloc.
Qed.

Lemma kt_np_array sv : keeps_this (np_array sv).
Proof.
  destruct sv; simpl; try apply kt_alloc.
  apply kt_bind.
  - apply kt_read_only. unfold as_nd. ro.
  - intros v. apply kt_alloc.
Qed.

Lemma kt_Ok {A} (m : M A) w a w' :
  keeps_this m -> m w = (Ok a, w') -> this w' = this w.
Proof. intros H E. specialize (H w). now rewrite E in H. Qed.

Lemma set_self_Ok f w a w' :
  set_self f w = (Ok a, w') -> w' = mkWorld (f (this w)) (heap w).
Proof. unfold set_self. intros H. inversion H. reflexivity. Qed.

Lemma self_Ok w a w' : self w = (Ok a, w') -> a = this w /\ w' = w.
Proof. unfold self. intros H. inversion H. auto. Qed.

Lemma lift_Ok {A} (o : outcome A) w a w' :
  lift o w = (Ok a, w') -> o = Ok a /\ w' = w.
Proof. unfold lift. intros H. inversion H. auto. Qed.

Lemma bind_Raise_inv {A B} (m : M A) (k : A -> M B) w e :
  fst (bind m k w) = Raise e ->
  fst (m w) = Raise e
  \/ exists a w1, m w = (Ok a, w1) /\ fst (k a w1) = Raise e.
Proof.
  unfold bind. destruct (m w) as [[a|e'|x] w1]; cbn [fst]; intros H.
  - right. exists a, w1. auto.
  - left. congruence.
  - discriminate.
Qed.

Lemma bind_ext_Ok {A B} (m : M A) (k k' : A -> M B) w :
  (forall a w1, m w = (Ok a, w1) -> k a w1 = k' a w1) ->
  bind m k w = bind m k' w.
Proof.
  intros H. unfold bind. destruct (m w) as [[a|e|x] w1]; auto.
Qed.

Lemma for_each_ext_in {X} (l : list X) body body' :
  (forall x, In x l -> forall w, body x w = body' x w) ->
  forall w, for_each l body w = for_each l body' w.
Proof.
  induction l as [|x l IH]; intros H w; simpl; auto.
  unfold bind. rewrite (H x) by (simpl; auto).
  destruct (body' x w) as [[a|e|y] w1]; auto.
  apply IH. intros. apply H. simpl; auto.
Qed.

Lemma stable_bind {A B} P (m : M A) (k : A -> M B) :
  stable P m -> (forall a, stable P (k a)) -> stable P (bind m k).
Proof.
  intros Hm Hk w b w' HP H. apply bind_Ok_inv in H.
  destruct H as (a & w1 & H1 & H2).
  apply (Hk a w1 b w'); [|exact H2]. apply (Hm w a w1); auto.
Qed.

Lemma stable_for_each {X} P (l : list X) body :
  (forall x, stable P (body x)) -> stable P (for_each l body).
Proof.
  intros Hb. induction l as [|x l IH]; simpl.
  - intros w a w' HP [= _ <-]. exact HP.
  - apply stable_bind; auto.
Qed.

Lemma py_setitem_length {A} (l : list A) z a l' :
  py_setitem l z a = Ok l' -> List.length l' = List.length l.
Proof.
  unfold py_setitem. destruct (_ || _); [discriminate|].
  intros [= <-]. apply list_set_length.
Qed.

(** What the first stage establishes. *)
Lemma init_attributes_inv sites_ Bs bc_ form_ w u w' :
  init_attributes sites_ Bs bc_ form_ w = (Ok u, w') ->
  sites (this w') = sites_
  /\ bc (this w') = bc_
  /\ _S (this w') = repeat None (S (List.length sites_))
  /\ exists w4, sites (this w4) = sites_
               /\ _parse_form form_ w4 = (Ok (form (this w')), w4).
Proof.
  unfold init_attributes. intros H.
  apply bind_Ok_inv in H. destruct H as (u1 & w1 & H1 & H).
  apply set_self_Ok in H1.
  apply bind_Ok_inv in H. destruct H as (s & w2 & H2 & H).
  apply self_Ok in H2. destruct H2 as [-> ->].
  apply bind_Ok_inv in H. destruct H as (site0 & w2 & H2 & H).
  apply lift_Ok in H2. destruct H2 as [_ ->].
  apply bind_Ok_inv in H. destruct H as (u2 & w2 & H2 & H).
  apply set_self_Ok in H2.
  apply bind_Ok_inv in H. destruct H as (Bs' & w3 & H3 & H).
  apply kt_Ok in H3.
  2:{ apply kt_mapM. intros [r|]; apply kt_read_only; ro. }
  apply bind_Ok_inv in H. destruct H as (fl & w4 & H4 & H).
  pose proof H4 as Hpf.
  rewrite (run_read_only _ w3 (ro_parse_form form_)) in Hpf.
  injection Hpf as Hpf _.
  apply kt_Ok in H4; [|apply kt_read_only, ro_parse_form].
  apply bind_Ok_inv in H. destruct H as (u5 & w5 & H5 & H).
  apply set_self_Ok in H5.
  apply bind_Ok_inv in H. destruct H as (u6 & w6 & H6 & H).
  apply set_self_Ok in H6.
  apply bind_Ok_inv in H. destruct H as (Bc & w7 & H7 & H).
  apply kt_Ok in H7; [|apply kt_mapM; intros; apply kt_astype_copy].
  apply bind_Ok_inv in H. destruct H as (u8 & w8 & H8 & H).
  apply set_self_Ok in H8.
  apply bind_Ok_inv in H. destruct H as (l & w9 & H9 & H).
  injection H9 as <- <-.
  apply set_self_Ok in H. subst w' w8 w6 w5. simpl.
  rewrite H7. simpl. rewrite H4, H3. subst w2 w1. simpl.
  split; [reflexivity|]. split; [reflexivity|]. split.
  - replace (Z.to_nat (Z.of_nat (List.length sites_) + 1))
      with (S (List.length sites_)) by lia.
    reflexivity.
  - exists w3. rewrite H3. simpl. split; [reflexivity|].
    rewrite (run_read_only _ w3 (ro_parse_form form_)), Hpf. reflexivity.
Qed.

Lemma init_attributes_post sites_ Bs bc_ form_ w u w' :
  init_attributes sites_ Bs bc_ form_ w = (Ok u, w') ->
  sites (this w') = sites_
  /\ bc (this w') = bc_
  /\ _S (this w') = repeat None (S (List.length sites_)).
Proof.
  intros H. apply init_attributes_inv in H. tauto.
Qed.

Lemma init_spectra_stable sites_ bc_ SVs :
  stable (chain_shape sites_ bc_) (init_spectra SVs).
Proof.
  assert (Hkt : forall A (m : M A), keeps_this m ->
                                    stable (chain_shape sites_ bc_) m).
  { intros A m Hm w a w' HP H. apply (kt_Ok _ _ _ _ Hm) in H.
    unfold chain_shape in *. now rewrite H. }
  unfold init_spectra.
  apply stable_bind; [apply Hkt, kt_read_only, ro_L|intros l].
  apply stable_bind.
  { apply Hkt, kt_read_only. unfold nontrivial_bonds. ro. }
  intros nb. apply stable_bind; [apply Hkt, kt_read_only, ro_lift|].
  intros bonds. apply stable_for_each. intros i.
  apply stable_bind; [apply Hkt, kt_read_only, ro_lift|intros sv].
  apply stable_bind; [apply Hkt, kt_np_array|intros r].
  intros w a w' HP H.
  apply bind_Ok_inv in H. destruct H as (s & w1 & H1 & H).
  apply self_Ok in H1. destruct H1 as [-> ->].
  apply bind_Ok_inv in H. destruct H as (S1 & w1 & H1 & H).
  apply lift_Ok in H1. destruct H1 as [H1 ->].
  apply set_self_Ok in H. subst w'. unfold chain_shape in *. simpl.
  apply py_setitem_length in H1. rewrite H1. exact HP.
Qed.

(** ** Validation of the boundary spectra *)

Lemma plain_array_test_sanity a : plain (array_test_sanity a).
Proof. unfold array_test_sanity. repeat plain_step. Qed.

Lemma plain_get_leg a ax : plain (get_leg a ax).
Proof.
  unfold get_leg. apply plain_obind; [apply plain_get_leg_index|].
  intros. apply plain_Ok.
Qed.

Lemma plain_test_contractible a b : plain (test_contractible a b).
Proof. unfold test_contractible. repeat plain_step. Qed.

Lemma nu_obj_shape x : never_flagged (obj_shape x).
Proof. unfold obj_shape. nu. Qed.

Lemma nu_obj_len x : never_flagged (obj_len x).
Proof. unfold obj_len. nu. Qed.

Lemma nu_py_any_ne x y : never_flagged (py_any_ne x y).
Proof. unfold py_any_ne. nu. Qed.

#[export] Hint Resolve plain_array_test_sanity plain_get_leg
  plain_test_contractible nu_obj_shape nu_obj_len nu_py_any_ne : nu.

(** An array differs from itself exactly when it has a [nan] entry. *)
Lemma nd_any_ne_same v : nd_any_ne v v = true <-> has_nan v.
Proof.
  unfold nd_any_ne, has_nan.
  destruct (list_eq_dec Nat.eq_dec (nd_shape v) (nd_shape v)); [|congruence].
  induction (nd_entries v) as [|x d IH]; simpl.
  - split; [discriminate|tauto].
  - rewrite orb_true_iff, IH. destruct x as [x|]; simpl.
    + rewrite Reqb_refl. simpl. split.
      * intros [H|H]; [discriminate|now right].
      * intros [H|H]; [discriminate|now right].
    + split; auto.
Qed.

Lemma nd_any_ne_same_cases v :
  (nd_any_ne v v = false /\ ~ has_nan v) \/ (nd_any_ne v v = true /\ has_nan v).
Proof.
  destruct (nd_any_ne v v) eqn:E.
  - right. split; [reflexivity|]. now apply nd_any_ne_same.
  - left. split; [reflexivity|]. intros H. apply nd_any_ne_same in H.
    congruence.
Qed.

(** Comparing a spectrum entry with itself finds a difference only in an
    array with a [nan] entry. *)
Lemma py_any_ne_same x w :
  snd (py_any_ne x x w) = w
  /\ (fst (py_any_ne x x w) = Ok false
      \/ (exists a, fst (py_any_ne x x w) = Anomaly a)
      \/ (exists r v, x = Some r
                      /\ nth_error (heap w) r = Some (NdArray v)
                      /\ has_nan v
                      /\ fst (py_any_ne x x w) = Ok true)).
Proof.
  split; [apply ro_py_any_ne|].
  destruct x as [r|]; [|left; reflexivity].
  unfold py_any_ne, bind, deref.
  destruct (nth_error (heap w) r) as [[v|a]|] eqn:E; unfold ret;
    rewrite ?E; cbn [fst].
  - destruct (nd_any_ne_same_cases v) as [[-> _]|[-> Hn]]; [now left|].
    right. right. exists r, v. auto.
  - left. now rewrite Nat.eqb_refl.
  - right. left. eauto.
Qed.

Lemma obj_len_vector1 r w x :
  nth_error (heap w) r = Some (NdArray (Nd1 [x])) ->
  obj_len (Some r) w = (Ok 1%Z, w).
Proof.
  intros H. unfold obj_len.
  now rewrite (bind_Ok _ _ _ _ _ (deref_run _ _ _ H)).
Qed.

(** On a state whose boundary spectra are as the constructor leaves them,
    validation raises a flagged error in one case only: the chain is
    infinite and the array stored as [spectra[0]] has a [nan] entry, which
    differs from itself. *)
Lemma test_sanity_boundary w e :
  boundary_fixed w -> fst (test_sanity w) = Raise e -> flagged e ->
  bc (this w) = "infinite"
  /\ e = ValueError "iMPS with S[0] != S[L]"
  /\ exists r v, py_getitem (_S (this w)) 0 = Ok (Some r)
                 /\ nth_error (heap w) r = Some (NdArray v)
                 /\ has_nan v.
Proof.
  intros [Hfin Hinf] H Hfl. revert H. unfold test_sanity. rewrite bind_self.
  destruct (negb (existsb (String.eqb (bc (this w))) _valid_bc));
    [rewrite bind_raise; intros [= <-]; exfalso; revert Hfl; not_unknown
    |rewrite bind_ret].
  rewrite (bind_Ok _ _ _ _ _ (L_run w)).
  destruct (negb (Z.of_nat (List.length (_B (this w))) =? _)%Z);
    [rewrite bind_raise; intros [= <-]; exfalso; revert Hfl; not_unknown
    |rewrite bind_ret].
  destruct (negb (Z.of_nat (List.length (_S (this w))) =? _)%Z);
    [rewrite bind_raise; intros [= <-]; exfalso; revert Hfl; not_unknown
    |rewrite bind_ret].
  intros H. apply bind_Raise_inv in H. destruct H as [H|(u & w1 & H1 & H)].
  { exfalso. revert H Hfl.
    match goal with
    | |- fst (?m w) = Raise e -> _ =>
        let Hn := fresh in
        assert (Hn : never_flagged m); [|exact (Hn w e)]
    end.
    nu. }
  assert (w1 = w).
  { match type of H1 with
    | ?m w = _ =>
        let Hr := fresh in
        assert (Hr : read_only m) by (apply ro_for_each; intros [i B]; ro);
        specialize (Hr w); rewrite H1 in Hr; exact Hr
    end. }
  subst w1. clear H1.
  apply bind_Raise_inv in H. destruct H as [H|(u' & w1 & _ & H)].
  2:{ exfalso. revert H Hfl. apply nu_assert. }
  revert H.
  destruct (String.eqb_spec (bc (this w)) "finite") as [Hb|Hb].
  - destruct (Hfin Hb) as (r0 & r1 & x & y & H0 & H1 & Hr0 & Hr1).
    rewrite H0, bind_lift_Ok.
    rewrite (bind_Ok _ _ _ _ _ (obj_len_vector1 _ _ _ Hr0)).
    cbn [Z.eqb Pos.eqb negb].
    rewrite H1, bind_lift_Ok.
    rewrite (bind_Ok _ _ _ _ _ (obj_len_vector1 _ _ _ Hr1)).
    cbn [Z.eqb Pos.eqb negb]. discriminate.
  - destruct (String.eqb_spec (bc (this w)) "infinite") as [Hi|Hi];
      [|discriminate].
    rewrite (Hinf Hi).
    destruct (py_getitem (_S (this w)) 0) as [x|e'|a] eqn:E0.
    + rewrite !bind_lift_Ok.
      destruct (py_any_ne_same x w) as [Hs Hf].
      destruct (py_any_ne x x w) as [o w2] eqn:Ep. cbn [fst snd] in Hs, Hf.
      subst w2. destruct Hf as [->|[(a & ->)|(r & v & -> & Hr & Hn & ->)]].
      * rewrite (bind_Ok _ _ _ _ _ Ep). discriminate.
      * rewrite (bind_Anomaly _ _ _ _ _ Ep). discriminate.
      * rewrite (bind_Ok _ _ _ _ _ Ep). intros [= <-].
        split; [exact Hi|]. split; [reflexivity|]. exists r, v. auto.
    + pose proof (plain_py_getitem (_S (this w)) 0 e' E0) as Hp.
      cbn. intros [= <-]. contradiction.
    + discriminate.
Qed.

(** ** The boundary spectra of a new instance *)

Lemma py_setitem_last {A} (l : list A) a :
  l <> [] -> py_setitem l (-1) a = Ok (list_set l (List.length l - 1) a).
Proof.
  intros H. unfold py_setitem. cbv zeta.
  assert (0 < List.length l) by (destruct l; simpl; [congruence|lia]).
  change (-1 <? 0)%Z with true. cbv iota.
  destruct (Z.ltb_spec (-1 + Z.of_nat (List.length l)) 0); [lia|].
  destruct (Z.leb_spec (Z.of_nat (List.length l))
              (-1 + Z.of_nat (List.length l))); [lia|].
  cbn [orb]. do 2 f_equal. lia.
Qed.

Lemma py_getitem_last {A} (l : list A) a :
  nth_error l (List.length l - 1) = Some a -> py_getitem l (-1) = Ok a.
Proof.
  intros H. unfold py_getitem. cbv zeta.
  assert (List.length l - 1 < List.length l)
    by (apply nth_error_Some; congruence).
  change (-1 <? 0)%Z with true. cbv iota.
  destruct (Z.ltb_spec (-1 + Z.of_nat (List.length l)) 0); [lia|].
  destruct (Z.leb_spec (Z.of_nat (List.length l))
              (-1 + Z.of_nat (List.length l))); [lia|].
  cbn [orb].
  replace (Z.to_nat (-1 + Z.of_nat (List.length l)))
    with (List.length l - 1) by lia.
  now rewrite H.
Qed.

Lemma py_getitem_ext {A} (l l' : list A) z :
  (0 <= z)%Z ->
  nth_error l (Z.to_nat z) = nth_error l' (Z.to_nat z) ->
  py_getitem l z = py_getitem l' z.
Proof.
  intros Hz H. unfold py_getitem. cbv zeta.
  destruct (Z.ltb_spec z 0); [lia|]. rewrite <- H.
  destruct (nth_error l (Z.to_nat z)) as [a|] eqn:E; symmetry in H.
  - assert (Z.to_nat z < List.length l) by (apply nth_error_Some; congruence).
    assert (Z.to_nat z < List.length l') by (apply nth_error_Some; congruence).
    destruct (Z.leb_spec (Z.of_nat (List.length l)) z); [lia|].
    destruct (Z.leb_spec (Z.of_nat (List.length l')) z); [lia|].
    reflexivity.
  - now destruct (_ || _), (_ || _).
Qed.

Lemma in_py_range i lo hi : In i (py_range lo hi) -> (lo <= i < hi)%Z.
Proof.
  unfold py_range. intros H. apply in_map_iff in H.
  destruct H as (k & <- & Hk). apply in_seq in Hk. lia.
Qed.

Lemma init_spectra_ext sites_ bc_ SVs SVs' w :
  sites (this w) = sites_ -> bc (this w) = bc_ ->
  (forall i, nontrivial bc_ (List.length sites_) i ->
             nth_error SVs i = nth_error SVs' i) ->
  init_spectra SVs w = init_spectra SVs' w.
Proof.
  intros Hs Hb Hagree. unfold init_spectra, nontrivial_bonds. mred.
  rewrite Hs, Hb. set (n := List.length sites_) in *.
  assert (Hbody : forall lo hi,
    (forall i, (lo <= i < hi)%Z -> (0 <= i)%Z /\ nontrivial bc_ n (Z.to_nat i)) ->
    forall w0,
      for_each (py_range lo hi)
        (fun i => sv <- lift (py_getitem SVs i) ;;
                  r <- np_array sv ;;
                  s <- self ;;
                  S1 <- lift (py_setitem (_S s) i (Some r)) ;;
                  set_self (with_S S1)) w0
      = for_each (py_range lo hi)
          (fun i => sv <- lift (py_getitem SVs' i) ;;
                    r <- np_array sv ;;
                    s <- self ;;
                    S1 <- lift (py_setitem (_S s) i (Some r)) ;;
                    set_self (with_S S1)) w0).
  { intros lo hi Hr. apply for_each_ext_in. intros i Hi w0.
    apply in_py_range in Hi. destruct (Hr i Hi) as [H0 Hn].
    now rewrite (py_getitem_ext SVs SVs' i H0 (Hagree _ Hn)). }
  unfold nontrivial in Hbody.
  destruct (String.eqb_spec bc_ "finite") as [->|H1].
  { cbn [slice_range]. apply Hbody. intros i Hi. rewrite ?Hs in Hi.
    fold n in Hi. split; [lia|]. left. split; [reflexivity|lia]. }
  destruct (String.eqb_spec bc_ "segment") as [->|H2].
  { cbn [slice_range]. apply Hbody. intros i Hi. rewrite ?Hs in Hi.
    fold n in Hi. split; [lia|].
    right. left. split; [reflexivity|lia]. }
  destruct (String.eqb_spec bc_ "infinite") as [->|H3].
  { cbn [slice_range]. apply Hbody. intros i Hi. rewrite ?Hs in Hi.
    fold n in Hi. split; [lia|].
    right. right. split; [reflexivity|lia]. }
  reflexivity.
Qed.

Lemma nth_error_list_set_same {A} (l : list A) n a :
  n < List.length l -> nth_error (list_set l n a) n = Some a.
Proof.
  intros H. rewrite nth_error_list_set by auto. now rewrite Nat.eqb_refl.
Qed.

(** What the third stage establishes. *)
Lemma init_boundary_post sites_ bc_ w u w' :
  chain_shape sites_ bc_ w ->
  init_boundary w = (Ok u, w') ->
  chain_shape sites_ bc_ w'
  /\ boundary_fixed w'
  /\ (bc_ = "finite" ->
      exists one,
        nth_error (_S (this w')) 0 = Some (Some one)
        /\ nth_error (_S (this w')) (List.length sites_) = Some (Some one)
        /\ nth_error (heap w') one = Some (NdArray (Nd1 [1%R])))
  /\ (bc_ = "infinite" ->
      exists x,
        nth_error (_S (this w')) 0 = Some x
        /\ nth_error (_S (this w')) (List.length sites_) = Some x).
Proof.
  intros (Hs & Hb & Hl). set (n := List.length sites_) in *.
  assert (Hne : _S (this w) <> []) by (destruct (_S (this w)); [discriminate|congruence]).
  assert (Hlast : List.length (_S (this w)) - 1 = n) by lia.
  unfold init_boundary. rewrite bind_self.
  destruct (String.eqb_spec (bc (this w)) "infinite") as [Hi|Hi].
  - (* infinite *)
    destruct (nth_error (_S (this w)) 0) as [x|] eqn:E0.
    2:{ apply nth_error_None in E0. lia. }
    rewrite (py_getitem_nat _ 0 x) by (auto; lia).
    rewrite bind_lift_Ok, py_setitem_last, Hlast, bind_lift_Ok by auto.
    intros H. apply set_self_Ok in H. subst w'. cbn [this heap].
    assert (Hn : nth_error (list_set (_S (this w)) n x) n = Some x)
      by (apply nth_error_list_set_same; lia).
    assert (H0 : nth_error (list_set (_S (this w)) n x) 0 = Some x).
    { rewrite nth_error_list_set by lia.
      destruct (Nat.eqb_spec 0 n); auto. }
    split; [|split; [|split]].
    + unfold chain_shape. cbn. rewrite list_set_length. auto.
    + split; cbn; [congruence|]. intros _. rewrite Hs. fold n.
      rewrite (py_getitem_nat _ (Z.of_nat n) x)
        by (try lia; rewrite Nat2Z.id; exact Hn).
      now rewrite (py_getitem_nat _ 0 x) by (auto; lia).
    + congruence.
    + intros _. exists x. cbn. auto.
  - destruct (String.eqb_spec (bc (this w)) "finite") as [Hf|Hf].
    + (* finite *)
      unfold np_ones1. unfold bind at 1, alloc at 1.
      rewrite py_setitem_nat by lia. rewrite bind_lift_Ok.
      unfold bind at 1, set_self at 1. rewrite bind_self. cbn [this with_S _S].
      rewrite py_setitem_last, list_set_length, Hlast, bind_lift_Ok.
      2:{ intros Hnil. apply (f_equal (@List.length _)) in Hnil.
          rewrite list_set_length in Hnil. simpl in Hnil. lia. }
      intros H. apply set_self_Ok in H. subst w'. cbn [this heap with_S _S].
      set (one := (List.length (heap w) : ref)).
      change (Z.to_nat 0) with 0.
      set (S1 := @list_set (option ref) (_S (this w)) 0 (@Some ref one)).
      assert (H00 : nth_error S1 0 = Some (Some one))
        by (apply nth_error_list_set_same; lia).
      assert (HlS1 : List.length S1 = S n)
        by (unfold S1; rewrite list_set_length; lia).
      set (S2 := @list_set (option ref) S1 n (@Some ref one)).
      assert (Hn : nth_error S2 n = Some (Some one))
        by (apply nth_error_list_set_same; lia).
      assert (H0 : nth_error S2 0 = Some (Some one)).
      { unfold S2. rewrite nth_error_list_set by lia.
        destruct (Nat.eqb_spec 0 n); auto. }
      assert (HlS2 : List.length S2 = S n)
        by (unfold S2; rewrite list_set_length; lia).
      assert (Hone : nth_error (heap w ++ [NdArray (Nd1 [1%R])]) one
                     = Some (NdArray (Nd1 [1%R])))
        by apply nth_error_app_last.
      split; [|split; [|split]].
      * unfold chain_shape. cbn [this sites bc _S with_S]. auto.
      * split; cbn [this sites bc _S with_S heap]; [|congruence]. intros _.
        exists one, one, 1%R, 1%R.
        rewrite (py_getitem_nat _ 0 (Some one) (Z.le_refl 0) H0).
        assert (Hlast' : nth_error S2 (List.length S2 - 1) = Some (Some one)).
        { rewrite HlS2. replace (S n - 1) with n by lia. exact Hn. }
        rewrite (py_getitem_last _ _ Hlast'). auto.
      * intros _. exists one. cbn [this _S with_S heap]. auto.
      * congruence.
    + (* segment, or an invalid boundary condition *)
      intros H. unfold ret in H. injection H as _ <-.
      split; [|split; [|split]]; try congruence.
      * unfold chain_shape. auto.
      * split; intros; congruence.
Qed.

(** ** The constructor and the trivial bonds *)

Lemma nu_mapM {A B} (f : A -> M B) l :
  (forall a, never_flagged (f a)) -> never_flagged (mapM f l).
Proof.
  intros Hf. induction l as [|a l IH]; simpl; [apply nu_ret|].
  apply nu_bind; [apply Hf|]. intros b.
  apply nu_bind; [apply IH|]. intros bs. apply nu_ret.
Qed.

Lemma plain_valid_forms f : plain (_valid_forms f).
Proof. unfold _valid_forms. repeat plain_step. Qed.

Lemma nu_to_valid_form f : never_flagged (_to_valid_form f).
Proof.
  unfold _to_valid_form. destruct f; try apply nu_ret;
    apply nu_lift, plain_valid_forms.
Qed.

Lemma nu_parse_form frm : never_flagged (_parse_form frm).
Proof.
  pose proof nu_to_valid_form.
  unfold _parse_form. nu; apply nu_mapM; auto.
Qed.

Lemma nu_astype_copy b : never_flagged (astype_copy b).
Proof. unfold astype_copy. nu. Qed.

Lemma nu_np_array sv : never_flagged (np_array sv).
Proof. unfold np_array. nu. Qed.

Lemma nu_nontrivial_bonds : never_flagged nontrivial_bonds.
Proof. unfold nontrivial_bonds. nu. Qed.

Lemma plain_slice_range n sl : plain (slice_range n sl).
Proof. unfold slice_range. repeat plain_step. Qed.

Lemma nu_init_attributes sites_ Bs bc_ form_ :
  never_flagged (init_attributes sites_ Bs bc_ form_).
Proof.
  pose proof nu_parse_form. pose proof nu_astype_copy.
  unfold init_attributes. nu; apply nu_mapM; intros; nu.
Qed.

Lemma nu_init_spectra SVs : never_flagged (init_spectra SVs).
Proof.
  pose proof nu_np_array. pose proof nu_nontrivial_bonds.
  pose proof plain_slice_range.
  unfold init_spectra. nu.
Qed.

Lemma nu_init_boundary : never_flagged init_boundary.
Proof. unfold init_boundary, np_ones1. nu. Qed.

Lemma init_attributes_shape sites_ Bs bc_ form_ w u w' :
  init_attributes sites_ Bs bc_ form_ w = (Ok u, w') ->
  chain_shape sites_ bc_ w'.
Proof.
  intros H. apply init_attributes_post in H. destruct H as (Hs & Hb & HS).
  unfold chain_shape. rewrite HS, repeat_length. auto.
Qed.

Lemma init_stages sites_ Bs SVs bc_ form_ w u w' :
  __init__ sites_ Bs SVs bc_ form_ w = (Ok u, w') ->
  exists w2 u2, chain_shape sites_ bc_ w2 /\ init_boundary w2 = (Ok u2, w').
Proof.
  rewrite init_split. intros H.
  apply bind_Ok_inv in H. destruct H as (u1 & w1 & H1 & H).
  apply bind_Ok_inv in H. destruct H as (u2 & w2 & H2 & H).
  apply bind_Ok_inv in H. destruct H as (u3 & w3 & H3 & H).
  rewrite (run_read_only _ w3 ro_test_sanity) in H.
  injection H as _ <-.
  exists w2, u3. split; [|exact H3].
  eapply init_spectra_stable; [|exact H2].
  eapply init_attributes_shape; exact H1.
Qed.

Lemma py_getitem_Ok_nat {A} (l : list A) k x :
  py_getitem l (Z.of_nat k) = Ok x -> nth_error l k = Some x.
Proof.
  unfold py_getitem.
  assert (E : (Z.of_nat k <? 0)%Z = false) by (apply Z.ltb_ge; lia).
  cbv zeta. rewrite E.
  destruct (_ || _); [discriminate|]. rewrite Nat2Z.id.
  destruct (nth_error l k); [now intros [= ->]|discriminate].
Qed.

Lemma py_setitem_Ok_inv {A} (l : list A) z a l' :
  (0 <= z)%Z -> py_setitem l z a = Ok l' ->
  l' = list_set l (Z.to_nat z) a /\ Z.to_nat z < List.length l.
Proof.
  intros Hz. unfold py_setitem. cbv zeta.
  assert (E1 : (z <? 0)%Z = false) by (apply Z.ltb_ge; lia).
  rewrite !E1. cbn [orb].
  destruct (Z.leb_spec (Z.of_nat (List.length l)) z); intros E;
    [discriminate E|].
  injection E as <-. split; [reflexivity|lia].
Qed.

Lemma stable_for_each_in {X} P (l : list X) body :
  (forall x, In x l -> stable P (body x)) -> stable P (for_each l body).
Proof.
  induction l as [|x l IH]; intros Hb; simpl.
  - intros w a w' HP [= _ <-]. exact HP.
  - apply stable_bind; [apply Hb; now left|].
    intros _. apply IH. intros y Hy. apply Hb. now right.
Qed.

(** ** Where the stored spectra come from *)

Lemma sv_array_extends h h' sv v :
  extends h h' -> sv_array h sv v -> sv_array h' sv v.
Proof.
  destruct sv; simpl; auto. intros He H. eapply nth_error_extends; eauto.
Qed.

Lemma np_array_Ok_inv sv w r w' :
  np_array sv w = (Ok r, w') ->
  exists v, w' = mkWorld (this w) (heap w ++ [NdArray v])
            /\ r = List.length (heap w)
            /\ sv_array (heap w) sv v.
Proof.
  destruct sv as [x|l|r0]; simpl.
  - intros [= <- <-]. eauto.
  - intros [= <- <-]. eauto.
  - intros H. apply bind_Ok_inv in H. destruct H as (v & w1 & Hv & H).
    unfold as_nd in Hv. apply bind_Ok_inv in Hv.
    destruct Hv as (o & w2 & Ho & Hv).
    unfold deref in Ho.
    destruct (nth_error (heap w) r0) as [o'|] eqn:E; [|discriminate].
    injection Ho as <- <-. destruct o' as [v'|a]; [|discriminate].
    injection Hv as <- <-. injection H as <- <-. eauto.
Qed.

Lemma init_spectra_copied SVs :
  stable (spectra_copied SVs) (init_spectra SVs).
Proof.
  intros w u w' HP H. unfold init_spectra in H.
  apply bind_Ok_inv in H. destruct H as (l & w1 & Hl & H).
  rewrite L_run in Hl. injection Hl as <- <-.
  apply bind_Ok_inv in H. destruct H as (nb & w1 & Hnb & H).
  assert (Hnb' : w1 = w
                 /\ (nb = None
                     \/ exists a b, nb = Some (a, b) /\ (0 <= a)%Z)).
  { revert Hnb. unfold nontrivial_bonds. rewrite bind_self.
    destruct (_ =? _)%string;
      [rewrite (bind_Ok _ _ _ _ _ (L_run w)); intros [= <- <-];
       split; [reflexivity|right; do 2 eexists; split; [reflexivity|lia]]|].
    destruct (_ =? _)%string;
      [rewrite (bind_Ok _ _ _ _ _ (L_run w)); intros [= <- <-];
       split; [reflexivity|right; do 2 eexists; split; [reflexivity|lia]]|].
    destruct (_ =? _)%string;
      [rewrite (bind_Ok _ _ _ _ _ (L_run w)); intros [= <- <-];
       split; [reflexivity|right; do 2 eexists; split; [reflexivity|lia]]|].
    intros [= <- <-]. auto. }
  destruct Hnb' as [-> Hcase].
  apply bind_Ok_inv in H. destruct H as (bonds & w1 & Hb & H).
  apply lift_Ok in Hb. destruct Hb as [Hb ->].
  destruct Hcase as [->|(a & b & -> & Ha)]; [discriminate|].
  injection Hb as <-.
  match type of H with
  | for_each ?l ?body _ = _ =>
      assert (Hst : stable (spectra_copied SVs) (for_each l body));
        [|exact (Hst _ _ _ HP H)]
  end.
  clear HP w' u H. apply stable_for_each_in.
  intros i Hi w0 u w' HP H. apply in_py_range in Hi.
  assert (Hi0 : (0 <= i)%Z) by lia.
  apply bind_Ok_inv in H. destruct H as (sv & w1 & Hsv & H).
  apply lift_Ok in Hsv. destruct Hsv as [Hsv ->].
  rewrite <- (Z2Nat.id i Hi0) in Hsv. apply py_getitem_Ok_nat in Hsv.
  apply bind_Ok_inv in H. destruct H as (r & w1 & Hr & H).
  apply np_array_Ok_inv in Hr. destruct Hr as (v & -> & -> & Hv).
  apply bind_Ok_inv in H. destruct H as (s & w1 & Hs & H).
  apply self_Ok in Hs. destruct Hs as [-> ->].
  apply bind_Ok_inv in H. destruct H as (S1 & w1 & HS1 & H).
  apply lift_Ok in HS1. destruct HS1 as [HS1 ->].
  cbn [this] in HS1.
  apply (py_setitem_Ok_inv _ _ _ _ Hi0) in HS1. destruct HS1 as [-> Hlt].
  apply set_self_Ok in H. subst w'. cbn [this heap].
  intros j r Hj. cbn [this heap _S with_S] in *.
  rewrite (nth_error_list_set _ _ _ _ Hlt) in Hj.
  destruct (Nat.eqb_spec j (Z.to_nat i)) as [->|Hne].
  - injection Hj as <-. exists sv, v. split; [exact Hsv|].
    split; [apply nth_error_app_last|].
    eapply sv_array_extends; [apply extends_app|exact Hv].
  - destruct (HP j r Hj) as (sv' & v' & H1 & H2 & H3).
    exists sv', v'. split; [exact H1|]. split.
    + eapply nth_error_extends; [apply extends_app|exact H2].
    + eapply sv_array_extends; [apply extends_app|exact H3].
Qed.

(** On an infinite chain the third stage leaves [spectra[0]] and the heap
    as they are. *)
Lemma init_boundary_infinite w u w' :
  bc (this w) = "infinite" ->
  init_boundary w = (Ok u, w') ->
  heap w' = heap w
  /\ nth_error (_S (this w')) 0 = nth_error (_S (this w)) 0.
Proof.
  intros Hb. unfold init_boundary. rewrite bind_self, Hb.
  cbn [String.eqb Ascii.eqb Bool.eqb]. intros H.
  apply bind_Ok_inv in H. destruct H as (S0 & w1 & H0 & H).
  apply lift_Ok in H0. destruct H0 as [H0 ->].
  apply (py_getitem_Ok_nat _ 0) in H0.
  assert (Hne : _S (this w) <> [])
    by (destruct (_S (this w)); [discriminate|congruence]).
  rewrite (py_setitem_last _ _ Hne), bind_lift_Ok in H.
  apply set_self_Ok in H. subst w'. cbn [this heap _S with_S].
  split; [reflexivity|].
  assert (Hl : List.length (_S (this w)) - 1 < List.length (_S (this w))).
  { destruct (_S (this w)); [congruence|simpl; lia]. }
  rewrite (nth_error_list_set _ _ _ _ Hl).
  destruct (0 =? _)%nat; congruence.
Qed.

Lemma has_nan_sv_array h sv v :
  sv_array h sv v -> has_nan v ->
  exists r, sv = SvRef r /\ nth_error h r = Some (NdArray v).
Proof.
  destruct sv as [x|l|r]; simpl.
  - intros -> [H|[]]. discriminate.
  - intros -> H. apply in_map_iff in H. destruct H as (y & Hy & _).
    discriminate.
  - eauto.
Qed.

(** C10: the constructor ignores the singular values supplied on trivial
    bonds.  Two lists of singular values that agree on the nontrivial bonds
    of the chain give the same run of the constructor: the same outcome and
    the same world.  When the constructor succeeds on a finite chain,
    [spectra[0]] and [spectra[L]] are one new array [[1.]]; on an infinite
    chain [spectra[L]] is the entry stored as [spectra[0]].  The constructor
    fails with one of the two errors by which validation reports a bad
    boundary spectrum in one case only: the chain is infinite and the entry
    of [SVs] for bond 0 is an array with a [nan] entry, which differs from
    itself; the error is then the one for [S[0] != S[L]]. *)
Theorem constructor_trivial_bonds sites_ Bs SVs SVs' bc_ form_ w :
  (forall i, nontrivial bc_ (List.length sites_) i ->
             nth_error SVs i = nth_error SVs' i) ->
  __init__ sites_ Bs SVs bc_ form_ w = __init__ sites_ Bs SVs' bc_ form_ w
  /\ (forall u w',
        __init__ sites_ Bs SVs bc_ form_ w = (Ok u, w') ->
        (bc_ = "finite" ->
         exists one,
           nth_error (_S (this w')) 0 = Some (Some one)
           /\ nth_error (_S (this w')) (List.length sites_) = Some (Some one)
           /\ nth_error (heap w') one = Some (NdArray (Nd1 [1%R])))
        /\ (bc_ = "infinite" ->
            exists x,
              nth_error (_S (this w')) 0 = Some x
              /\ nth_error (_S (this w')) (List.length sites_) = Some x))
  /\ (forall e,
        fst (__init__ sites_ Bs SVs bc_ form_ w) = Raise e ->
        boundary_error e ->
        bc_ = "infinite"
        /\ e = ValueError "iMPS with S[0] != S[L]"
        /\ exists r v,
             nth_error SVs 0 = Some (SvRef r)
             /\ nth_error (heap (snd (__init__ sites_ Bs SVs bc_ form_ w))) r
                = Some (NdArray v)
             /\ has_nan v).
Proof.
  intros Hagree. split; [|split].
  - rewrite !init_split. apply bind_ext_Ok. intros u1 w1 H1.
    apply init_attributes_post in H1. destruct H1 as (Hs & Hb & _).
    apply bind_congr. now apply (init_spectra_ext sites_ bc_).
  - intros u w' H. apply init_stages in H. destruct H as (w2 & u2 & Hsh & H3).
    destruct (init_boundary_post _ _ _ _ _ Hsh H3) as (_ & _ & Hf & Hi).
    split; assumption.
  - intros e. rewrite init_split. intros H Hbe.
    assert (Hfl : flagged e) by (right; exact Hbe).
    apply bind_Raise_inv in H. destruct H as [H|(u1 & w1 & H1 & H)];
      [destruct (nu_init_attributes _ _ _ _ _ _ H Hfl)|].
    apply bind_Raise_inv in H. destruct H as [H|(u2 & w2 & H2 & H)];
      [destruct (nu_init_spectra _ _ _ H Hfl)|].
    apply bind_Raise_inv in H. destruct H as [H|(u3 & w3 & H3 & H)];
      [destruct (nu_init_boundary _ _ H Hfl)|].
    rewrite (bind_Ok _ _ _ _ _ H1), (bind_Ok _ _ _ _ _ H2),
      (bind_Ok _ _ _ _ _ H3), (run_read_only _ w3 ro_test_sanity).
    cbn [snd].
    assert (Hsh : chain_shape sites_ bc_ w2).
    { eapply init_spectra_stable; [|exact H2].
      eapply init_attributes_shape; exact H1. }
    destruct (init_boundary_post _ _ _ _ _ Hsh H3) as (Hsh3 & Hbf & _).
    destruct (test_sanity_boundary _ _ Hbf H Hfl)
      as (Hinf & -> & r & v & Hr & Hv & Hn).
    destruct Hsh as (_ & Hb2 & _). destruct Hsh3 as (_ & Hb3 & _).
    assert (Hbc : bc_ = "infinite") by congruence.
    split; [exact Hbc|]. split; [reflexivity|].
    assert (Hc1 : spectra_copied SVs w1).
    { intros i r0 Hi. apply init_attributes_post in H1.
      destruct H1 as (_ & _ & HS). rewrite HS in Hi.
      apply nth_error_In, repeat_spec in Hi. discriminate. }
    pose proof (init_spectra_copied SVs _ _ _ Hc1 H2) as Hc2.
    destruct (init_boundary_infinite w2 u3 w3 ltac:(congruence) H3)
      as [Hh H0].
    apply (py_getitem_Ok_nat _ 0) in Hr. rewrite H0 in Hr.
    destruct (Hc2 0 r Hr) as (sv & v' & Hsv & Hv' & Hsa).
    rewrite Hh in Hv. rewrite Hv in Hv'. injection Hv' as <-.
    destruct (has_nan_sv_array _ _ _ Hsa Hn) as (r0 & -> & Hr0).
    exists r0, v. rewrite Hh. auto.
Qed.

(** A finite chain of two sites built from the product-state tensor: the
    constructor succeeds, whatever is supplied for the outer bonds. *)
Example constructor_runs :
  fst (__init__ [site1; site1] [Some 0; Some 0]
         [SvScalar 7; SvSeq [1%R]; SvSeq [2%R; 3%R]] "finite"
         (FOne (FName "B"))
         (mkWorld (mkMPS [] 0 [] "" [] []) [NpcArray B_unit]))
  = Ok tt.
Proof. vm_compute. reflexivity. Qed.

Lemma constructor_trivial_bonds_witness :
  let w0 := mkWorld (mkMPS [] 0 [] "" [] []) [NpcArray B_unit] in
  let run SVs := __init__ [site1; site1] [Some 0; Some 0] SVs "finite"
                   (FOne (FName "B")) w0 in
  run [SvScalar 7; SvSeq [1%R]; SvSeq [2%R; 3%R]]
  = run [SvSeq []; SvSeq [1%R]]
  /\ (forall u w',
        run [SvScalar 7; SvSeq [1%R]; SvSeq [2%R; 3%R]] = (Ok u, w') ->
        ("finite" = "finite" ->
         exists one,
           nth_error (_S (this w')) 0 = Some (Some one)
           /\ nth_error (_S (this w')) 2 = Some (Some one)
           /\ nth_error (heap w') one = Some (NdArray (Nd1 [1%R])))
        /\ ("finite" = "infinite" ->
            exists x,
              nth_error (_S (this w')) 0 = Some x
              /\ nth_error (_S (this w')) 2 = Some x))
  /\ (forall e,
        fst (run [SvScalar 7; SvSeq [1%R]; SvSeq [2%R; 3%R]]) = Raise e ->
        ~ boundary_error e).
Proof.
  intros w0 run.
  destruct (constructor_trivial_bonds [site1; site1] [Some 0; Some 0]
              [SvScalar 7; SvSeq [1%R]; SvSeq [2%R; 3%R]]
              [SvSeq []; SvSeq [1%R]] "finite" (FOne (FName "B")) w0)
    as (H1 & H2 & H3).
  { intros i [[_ Hi]|[[Hb _]|[Hb _]]]; try discriminate Hb.
    simpl in Hi. assert (Ei : i = 1) by lia. subst i. reflexivity. }
  split; [exact H1|]. split; [exact H2|].
  intros e He Hbe. destruct (H3 e He Hbe) as [Hb _]. discriminate Hb.
Defined.

(** C10, counterexample: an infinite chain of one site constructed from an
    array of singular values with a [nan] entry.  The constructor copies
    the array to [spectra[0]], stores the copy as [spectra[1]] too, and
    validation compares the copy with itself: [nan != nan], so the
    constructor fails with the error for [S[0] != S[L]].  With the array
    [[1.]] in its place the same call succeeds. *)
Theorem constructor_nan_fails_validation :
  let run sv := __init__ [site1] [Some 0] [sv; SvSeq [1%R]] "infinite"
                  (FOne (FName "B")) nan_start in
  nth_error (heap nan_start) 1 = Some (NdArray (NdNan [None]))
  /\ fst (run (SvRef 1)) = Raise (ValueError "iMPS with S[0] != S[L]")
  /\ boundary_error (ValueError "iMPS with S[0] != S[L]")
  /\ fst (run (SvSeq [1%R])) = Ok tt.
Proof.
  intros run. split; [reflexivity|]. split; [|split].
  - vm_compute. reflexivity.
  - right. reflexivity.
  - unfold run, nan_start, __init__.
    lazy -[Reqb IZR]. rewrite Reqb_refl. reflexivity.
Qed.

(** ** The dense-tensor factory *)

Lemma with_S_same s : with_S (_S s) s = s.
Proof. now destruct s. Qed.

Lemma blind_keeps_this {A} P (m : M A) :
  spectra_blind P -> keeps_this m -> stable P m.
Proof.
  intros HP Hm w a w' Hw H. apply (kt_Ok _ _ _ _ Hm) in H.
  specialize (HP w (_S (this w)) (heap w') Hw).
  rewrite with_S_same, <- H in HP. now destruct w'.
Qed.

Lemma blind_set_S P Sl : spectra_blind P -> stable P (set_self (with_S Sl)).
Proof.
  intros HP w a w' Hw H. apply set_self_Ok in H. subst w'. now apply HP.
Qed.

Lemma init_spectra_blind P SVs :
  spectra_blind P -> stable P (init_spectra SVs).
Proof.
  intros HP. unfold init_spectra.
  apply stable_bind;
    [apply blind_keeps_this, kt_read_only, ro_L; exact HP|intros l].
  apply stable_bind.
  { apply blind_keeps_this, kt_read_only; [exact HP|].
    unfold nontrivial_bonds. ro. }
  intros nb.
  apply stable_bind;
    [apply blind_keeps_this, kt_read_only, ro_lift; exact HP|].
  intros bonds. apply stable_for_each. intros i.
  apply stable_bind;
    [apply blind_keeps_this, kt_read_only, ro_lift; exact HP|intros sv].
  apply stable_bind; [apply blind_keeps_this, kt_np_array; exact HP|intros r].
  apply stable_bind;
    [apply blind_keeps_this, kt_read_only, ro_self; exact HP|intros s].
  apply stable_bind;
    [apply blind_keeps_this, kt_read_only, ro_lift; exact HP|intros S1].
  now apply blind_set_S.
Qed.

Lemma init_boundary_blind P : spectra_blind P -> stable P init_boundary.
Proof.
  intros HP. unfold init_boundary, np_ones1.
  apply stable_bind;
    [apply blind_keeps_this, kt_read_only, ro_self; exact HP|intros s].
  destruct (bc s =? "infinite")%string.
  - apply stable_bind;
      [apply blind_keeps_this, kt_read_only, ro_lift; exact HP|intros S0].
    apply stable_bind;
      [apply blind_keeps_this, kt_read_only, ro_lift; exact HP|intros S1].
    now apply blind_set_S.
  - destruct (bc s =? "finite")%string.
    + apply stable_bind; [apply blind_keeps_this, kt_alloc; exact HP|].
      intros one.
      apply stable_bind;
        [apply blind_keeps_this, kt_read_only, ro_lift; exact HP|intros S1].
      apply stable_bind; [now apply blind_set_S|intros _].
      apply stable_bind;
        [apply blind_keeps_this, kt_read_only, ro_self; exact HP|intros s1].
      apply stable_bind;
        [apply blind_keeps_this, kt_read_only, ro_lift; exact HP|intros S2].
      now apply blind_set_S.
    + apply blind_keeps_this, kt_read_only, ro_ret. exact HP.
Qed.

Lemma mapM_repeat {A B} (f : A -> M B) a b n w :
  (forall w, f a w = (Ok b, w)) ->
  mapM f (repeat a n) w = (Ok (repeat b n), w).
Proof.
  intros Hf. induction n as [|n IH]; simpl; [reflexivity|].
  rewrite (bind_Ok _ _ _ _ _ (Hf w)), (bind_Ok _ _ _ _ _ IH). reflexivity.
Qed.

(** Parsing one canonical name gives its tag once per site. *)
Lemma parse_form_name s t w :
  _valid_forms (FName s) = Ok t ->
  _parse_form (FOne (FName s)) w
  = (Ok (repeat t (List.length (sites (this w)))), w).
Proof.
  intros Ht. unfold _parse_form. mred. wsimpl.
  rewrite repeat_length, Nat2Z.id, Z.eqb_refl. cbn [negb].
  apply mapM_repeat. intros w1. unfold _to_valid_form, lift. now rewrite Ht.
Qed.

Lemma blind_form_is fl :
  spectra_blind (fun w => form (this w) = fl).
Proof. intros w Sl h H. exact H. Qed.

(** The constructor called by the factory leaves a finite chain in form
    B. *)
Lemma init_in_form_B sites_ Bl Sl w u w' :
  __init__ sites_ Bl Sl "finite" (FOne (FName "B")) w = (Ok u, w') ->
  in_form sites_ (Some (0, 1)%R) w'.
Proof.
  rewrite init_split. intros H.
  apply bind_Ok_inv in H. destruct H as (u1 & w1 & H1 & H).
  apply bind_Ok_inv in H. destruct H as (u2 & w2 & H2 & H).
  apply bind_Ok_inv in H. destruct H as (u3 & w3 & H3 & H).
  rewrite (run_read_only _ w3 ro_test_sanity) in H. injection H as _ <-.
  assert (Hsh : chain_shape sites_ "finite" w3).
  { pose proof (init_attributes_shape _ _ _ _ _ _ _ H1) as Hsh.
    pose proof (init_spectra_stable _ _ _ _ _ _ Hsh H2) as Hsh2.
    now destruct (init_boundary_post _ _ _ _ _ Hsh2 H3). }
  destruct Hsh as (Hs & Hb & _).
  apply init_attributes_inv in H1. destruct H1 as (_ & _ & _ & w4 & Hs4 & Hp).
  rewrite (parse_form_name "B" (Some (0, 1)%R)) in Hp by reflexivity.
  injection Hp as Hp. rewrite Hs4 in Hp.
  split; [exact Hs|]. split; [exact Hb|].
  symmetry in Hp.
  pose proof (init_spectra_blind _ _ (blind_form_is _) _ _ _ Hp H2) as Hf2.
  exact (init_boundary_blind _ (blind_form_is _) _ _ _ Hf2 H3).
Qed.

(** ** Converting the whole chain *)

Lemma kt_ret {A} (a : A) : keeps_this (ret a).
Proof. apply kt_read_only, ro_ret. Qed.

Lemma kt_raise {A} e : keeps_this (@raise A e).
Proof. apply kt_read_only, ro_raise. Qed.

Lemma kt_lift {A} (o : outcome A) : keeps_this (lift o).
Proof. apply kt_read_only, ro_lift. Qed.

Ltac kt_step :=
  first
    [ apply kt_alloc
    | apply kt_ret
    | apply kt_raise
    | apply kt_lift
    | solve [apply kt_read_only; ro]
    | apply kt_bind; [|intros ?]
    | match goal with
      | |- keeps_this (if ?c then _ else _) => destruct c
      | |- keeps_this (match ?x with _ => _ end) => destruct x
      end ].

Ltac kt := repeat kt_step.

Section KeepsThis.

Variable pinv : Array -> R -> outcome Array.

Lemma kt_scale_axis_B B sv d axis_B cutoff :
  keeps_this (_scale_axis_B pinv B sv d axis_B cutoff).
Proof.
  unfold _scale_axis_B, npc_pinv, npc_tensordot, npc_replace_label,
    npc_scale_axis, np_pow.
  kt.
Qed.

Lemma ro_to_valid_index i : read_only (_to_valid_index i).
Proof. intros w. apply to_valid_index_world. Qed.

Lemma kt_get_B i frm copy cutoff : keeps_this (get_B pinv i frm copy cutoff).
Proof.
  unfold get_B.
  apply kt_bind; [apply kt_read_only, ro_to_valid_index|intros k].
  apply kt_bind; [unfold _to_valid_form; kt|intros nf].
  apply kt_bind; [kt|intros s].
  apply kt_bind; [kt|intros B].
  apply kt_bind; [kt|intros f].
  unfold _convert_form_i, npc_copy.
  destruct (_ || _); [kt|].
  destruct f as [[oL oR]|]; [|kt]. destruct nf as [[nL nR]|]; [|kt].
  apply kt_bind;
    [unfold get_SL; apply kt_bind;
       [apply kt_read_only, ro_to_valid_index|intros ?; kt]|intros SL].
  apply kt_bind; [apply kt_scale_axis_B|intros B1].
  apply kt_bind;
    [unfold get_SR; apply kt_bind;
       [apply kt_read_only, ro_to_valid_index|intros ?; kt]|intros SR].
  apply kt_scale_axis_B.
Qed.

End KeepsThis.

Lemma to_valid_index_finite k w :
  bc (this w) = "finite" ->
  (0 <= k < Z.of_nat (List.length (sites (this w))))%Z ->
  _to_valid_index k w = (Ok k, w).
Proof.
  intros Hb Hr.
  assert (Hv : valid_bc (bc (this w))) by (left; exact Hb).
  unfold _to_valid_index. rewrite (bind_Ok _ _ _ _ _ (finite_run w Hv)).
  rewrite Hb. cbn [String.eqb Ascii.eqb Bool.eqb negb]. mred.
  destruct (k <? 0)%Z eqn:E1; [lia|]. cbn [fst snd].
  destruct (k >=? Z.of_nat (List.length (sites (this w))))%Z eqn:E2; [lia|].
  rewrite E1. reflexivity.
Qed.

Lemma to_valid_form_tag t w :
  _to_valid_form (spec_of_tag t) w = (Ok t, w).
Proof. destruct t as [[a b]|]; reflexivity. Qed.

Lemma nth_error_combine_inv {A B} (l1 : list A) (l2 : list B) k x y :
  nth_error (combine l1 l2) k = Some (x, y) ->
  nth_error l1 k = Some x /\ nth_error l2 k = Some y.
Proof.
  revert l2 k. induction l1 as [|a l1 IH]; intros [|b l2] [|k]; simpl;
    try discriminate; auto.
  now intros [= -> ->].
Qed.

Lemma In_enumerate_inv {A} (l : list A) i b :
  In (i, b) (enumerate l) ->
  exists k, i = Z.of_nat k /\ nth_error l k = Some b.
Proof.
  unfold enumerate. intros H. apply In_nth_error in H. destruct H as [k Hk].
  apply nth_error_combine_inv in Hk. destruct Hk as [H1 H2].
  exists k. split; [|exact H2].
  assert (Hlt : k < List.length l) by (apply nth_error_Some; congruence).
  rewrite nth_error_map, nth_error_seq in H1.
  destruct (Nat.ltb_spec k (List.length l)); [|lia].
  simpl in H1. now injection H1 as <-.
Qed.

(** One round of the loop of [convert_form] on a finite chain. *)
Lemma convert_step pinv sites_ t done k w u w' :
  k < List.length sites_ ->
  converted sites_ t done w ->
  (new_B <- get_B pinv (Z.of_nat k) (spec_of_tag t) false default_cutoff ;;
   set_B (Z.of_nat k) new_B (spec_of_tag t)) w = (Ok u, w') ->
  converted sites_ t (done ++ [(Z.of_nat k, t)]) w'.
Proof.
  intros Hk (Hs & Hb & Hl & Hd) H.
  apply bind_Ok_inv in H. destruct H as (r & w1 & H1 & H).
  apply (kt_Ok _ _ _ _ (kt_get_B pinv _ _ _ _)) in H1.
  unfold set_B in H.
  rewrite (bind_Ok _ _ _ _ _ (to_valid_index_finite (Z.of_nat k) w1
             ltac:(rewrite H1; exact Hb) ltac:(rewrite H1, Hs; lia))) in H.
  rewrite (bind_Ok _ _ _ _ _ (to_valid_form_tag t w1)), bind_self in H.
  rewrite py_setitem_nat in H by (rewrite H1; lia).
  rewrite bind_lift_Ok, Nat2Z.id in H.
  apply bind_Ok_inv in H. destruct H as (u2 & w2 & H2 & H).
  apply set_self_Ok in H2.
  apply bind_Ok_inv in H. destruct H as (s2 & w3 & H3 & H).
  apply self_Ok in H3. destruct H3 as [-> ->].
  apply bind_Ok_inv in H. destruct H as (bl & w3 & H3 & H).
  apply lift_Ok in H3. destruct H3 as [_ ->].
  apply set_self_Ok in H. subst w' w2. wsimpl. rewrite H1.
  unfold converted. wsimpl. split; [exact Hs|]. split; [exact Hb|].
  split; [now rewrite list_set_length|].
  intros j f Hin. rewrite nth_error_list_set by lia.
  destruct (Nat.eqb_spec j k); [reflexivity|].
  apply in_app_or in Hin. destruct Hin as [Hin|[Hin|[]]].
  - exact (Hd j f Hin).
  - injection Hin as Hin _. lia.
Qed.

Lemma for_each_prefix {X} (P : list X -> world -> Prop) body :
  forall l pre w u w',
    (forall pre x w u w',
       In x l -> P pre w -> body x w = (Ok u, w') -> P (pre ++ [x]) w') ->
    P pre w -> for_each l body w = (Ok u, w') -> P (pre ++ l) w'.
Proof.
  induction l as [|x l IH]; intros pre w u w' Hstep HP H; simpl in H.
  - injection H as _ <-. now rewrite app_nil_r.
  - apply bind_Ok_inv in H. destruct H as (u1 & w1 & H1 & H).
    replace (pre ++ x :: l) with ((pre ++ [x]) ++ l)
      by (rewrite <- app_assoc; reflexivity).
    apply (IH _ w1 u); [| |exact H].
    + intros pre' y w2 u2 w2' Hy. apply Hstep. now right.
    + apply (Hstep pre x w u1); [now left|exact HP|exact H1].
Qed.

Lemma nth_error_repeat_ext {A} (l : list A) a n :
  List.length l = n -> (forall k, k < n -> nth_error l k = Some a) ->
  l = repeat a n.
Proof.
  revert n. induction l as [|x l IH]; intros [|n] Hl H; simpl in *;
    try discriminate; [reflexivity|].
  f_equal.
  - specialize (H 0 ltac:(lia)). simpl in H. congruence.
  - apply IH; [lia|]. intros k Hk. apply (H (S k)). lia.
Qed.

(** Converting a finite chain to a canonical name leaves every site with
    the tag of that name. *)
Lemma convert_form_name pinv sites_ t0 s t w u w' :
  in_form sites_ t0 w ->
  _valid_forms (FName s) = Ok t ->
  convert_form pinv (FOne (FName s)) w = (Ok u, w') ->
  in_form sites_ t w'.
Proof.
  intros (Hs & Hb & Hf) Ht H. unfold convert_form in H.
  rewrite (bind_Ok _ _ _ _ _ (parse_form_name s t w Ht)), Hs in H.
  assert (HP : converted sites_ t [] w).
  { split; [exact Hs|]. split; [exact Hb|]. split.
    - rewrite Hf. apply repeat_length.
    - intros k f []. }
  apply (for_each_prefix (converted sites_ t) _ _ [] w u w') in H;
    [|clear H|exact HP].
  - destruct H as (Hs' & Hb' & Hl' & Hd'). simpl in Hd'.
    split; [exact Hs'|]. split; [exact Hb'|].
    apply nth_error_repeat_ext; [exact Hl'|]. intros k Hk.
    apply (Hd' k t). apply In_enumerate.
    apply nth_error_repeat. exact Hk.
  - intros pre [i f] w1 u1 w1' Hin Hpre Hrun.
    apply In_enumerate_inv in Hin. destruct Hin as (k & -> & Hk).
    assert (Hlt : k < List.length sites_).
    { rewrite <- (repeat_length t (List.length sites_)).
      apply nth_error_Some. congruence. }
    rewrite nth_error_repeat in Hk by exact Hlt. injection Hk as <-.
    eapply convert_step; eauto.
Qed.

(** ** The form guard of the factory *)

Lemma assert_Ok_inv b w u w' : assert b w = (Ok u, w') -> b = true /\ w' = w.
Proof. destruct b; [|discriminate]. intros [= _ <-]. auto. Qed.

Ltac ok_step H :=
  apply bind_Ok_inv in H;
  let a := fresh "a" in
  let w := fresh "w" in
  let E := fresh "E" in
  destruct H as (a & w & E & H); cbv beta in H.

Section Factory.

Variable pinv : Array -> R -> outcome Array.
Variable transpose : Array -> list string -> outcome Array.
Variable add_trivial_leg : Array -> Z -> string -> Z -> outcome Array.
Variable combine_legs : Array -> list axis -> outcome Array.
Variable split_legs : Array -> Z -> outcome Array.
Variable svd : Array -> bool -> R -> outcome (Array * ndarray * Array).

(** A successful run of the factory ends with the constructor, called for a
    finite chain in form B, followed by the conversion if another form was
    asked for. *)
Lemma from_full_Ok_inv sites_ psi frm cutoff w u w' :
  from_full pinv transpose add_trivial_leg combine_legs split_legs svd
    sites_ psi frm cutoff w = (Ok u, w') ->
  is_canonical_name frm = true
  /\ 2 <= List.length sites_
  /\ exists Bl Sl w0 w1 u1,
       __init__ sites_ Bl Sl "finite" (FOne (FName "B")) w0 = (Ok u1, w1)
       /\ (if negb (is_name_B frm) then convert_form pinv frm else ret tt) w1
          = (Ok u, w').
Proof.
  unfold from_full. intros H.
  ok_step H. apply guard_Ok_inv in E. destruct E as [Hc ->].
  ok_step H. apply assert_Ok_inv in E. destruct E as [Hl ->].
  cbv zeta in H.
  do 15 (ok_step H; clear E;
         repeat match type of H with
                | (let '(_, _) := ?x in _) _ = _ => destruct x
                end).
  ok_step H.
  split; [now destruct (is_canonical_name frm)|]. split; [lia|].
  eauto 10.
Qed.

(** The guard and the length test come first: a failure there leaves the
    world as it was. *)
Lemma from_full_guard sites_ psi frm cutoff w :
  is_canonical_name frm = false ->
  from_full pinv transpose add_trivial_leg combine_legs split_legs svd
    sites_ psi frm cutoff w = (Raise (ValueError "Invalid form: "), w).
Proof.
  intros Hc. unfold from_full. rewrite Hc. reflexivity.
Qed.

Lemma from_full_short sites_ psi frm cutoff w :
  is_canonical_name frm = true -> List.length sites_ < 2 ->
  from_full pinv transpose add_trivial_leg combine_legs split_legs svd
    sites_ psi frm cutoff w = (Raise AssertionError, w).
Proof.
  intros Hc Hl. unfold from_full. rewrite Hc.
  assert (E : (Z.of_nat (List.length sites_) >=? 2)%Z = false) by lia.
  cbv zeta. rewrite E. reflexivity.
Qed.

Lemma canonical_name_tag frm :
  is_canonical_name frm = true ->
  exists s a b, frm = FOne (FName s) /\ _valid_forms (FName s) = Ok (Some (a, b)).
Proof.
  destruct frm as [[s| |a b]|l]; try discriminate. simpl.
  intros H. exists s. unfold _valid_forms.
  destruct (s =? "B")%string eqn:EB; [apply String.eqb_eq in EB; subst;
     do 2 eexists; split; reflexivity|].
  destruct (s =? "A")%string eqn:EA; [apply String.eqb_eq in EA; subst;
     do 2 eexists; split; reflexivity|].
  destruct (s =? "C")%string eqn:EC; [apply String.eqb_eq in EC; subst;
     do 2 eexists; split; reflexivity|].
  destruct (s =? "G")%string eqn:EG; [apply String.eqb_eq in EG; subst;
     do 2 eexists; split; reflexivity|].
  discriminate.
Qed.

End Factory.

(** C8: the form guard of the dense-tensor factory.  A requested form that
    is not one of the names A, B, C, G (so also [None], an exponent pair or a
    list) makes [from_full] raise the invalid-form error at once, the world
    untouched.  With one of the four names and fewer than two sites the
    length assertion fails, again before anything is built.  Every
    successful run was asked for one of the four names on at least two
    sites; it called the constructor for a finite chain in form B, which
    left every site tagged B, and then, unless B itself was asked for,
    converted the chain to the requested form; the final chain is finite,
    over the given sites, every site tagged with the requested form. *)
Theorem from_full_form_guard
    (pinv : Array -> R -> outcome Array)
    (transpose : Array -> list string -> outcome Array)
    (add_trivial_leg : Array -> Z -> string -> Z -> outcome Array)
    (combine_legs : Array -> list axis -> outcome Array)
    (split_legs : Array -> Z -> outcome Array)
    (svd : Array -> bool -> R -> outcome (Array * ndarray * Array))
    sites_ psi frm cutoff w :
  let run := from_full pinv transpose add_trivial_leg combine_legs
               split_legs svd sites_ psi frm cutoff w in
  (is_canonical_name frm = false ->
   run = (Raise (ValueError "Invalid form: "), w))
  /\ (is_canonical_name frm = true -> List.length sites_ < 2 ->
      run = (Raise AssertionError, w))
  /\ (forall u w',
        run = (Ok u, w') ->
        is_canonical_name frm = true
        /\ 2 <= List.length sites_
        /\ (exists Bl Sl w0 w1 u1,
              __init__ sites_ Bl Sl "finite" (FOne (FName "B")) w0
              = (Ok u1, w1)
              /\ in_form sites_ (Some (0, 1)%R) w1
              /\ (if is_name_B frm then w' = w1
                  else convert_form pinv frm w1 = (Ok u, w')))
        /\ (exists s t,
              frm = FOne (FName s) /\ _valid_forms (FName s) = Ok (Some t)
              /\ in_form sites_ (Some t) w')).
Proof.
  intros run. split; [|split].
  - apply from_full_guard.
  - apply from_full_short.
  - intros u w' H. apply from_full_Ok_inv in H.
    destruct H as (Hc & Hl & Bl & Sl & w0 & w1 & u1 & Hinit & Hfin).
    pose proof (init_in_form_B _ _ _ _ _ _ Hinit) as HB.
    split; [exact Hc|]. split; [exact Hl|].
    destruct (canonical_name_tag frm Hc) as (s & a & b & -> & Ht).
    split.
    + exists Bl, Sl, w0, w1, u1. split; [exact Hinit|]. split; [exact HB|].
      destruct (is_name_B (FOne (FName s))); simpl in Hfin; [|exact Hfin].
      now injection Hfin as _ <-.
    + exists s, (a, b). split; [reflexivity|]. split; [exact Ht|].
      destruct (is_name_B (FOne (FName s))) eqn:EB; simpl in Hfin.
      * injection Hfin as _ <-. simpl in EB. apply String.eqb_eq in EB.
        subst s. injection Ht as <- <-. exact HB.
      * eapply convert_form_name; eauto.
Qed.

(** Normalising a vector with one nonzero entry. *)
Lemma np_idiv_norm_single r x w :
  nth_error (heap w) r = Some (NdArray (Nd1 [x])) -> x <> 0%R ->
  np_idiv_norm r w
  = (Ok tt,
     mkWorld (this w)
       (list_set (heap w) r
          (NdArray (Nd1 [(x / sqrt (x * x + 0))%R])))).
Proof.
  intros Hr Hx. unfold np_idiv_norm, as_nd.
  rewrite bind_assoc, (bind_Ok _ _ _ _ _ (deref_run _ _ _ Hr)).
  rewrite bind_ret.
  cbn [nd_entries nd_data is_nan existsb orb map Rsum fold_right].
  assert (Hn : sqrt (x * x + 0) <> 0%R).
  { rewrite Rplus_0_r. intros H. apply sqrt_eq_0 in H; [|nra]. nra. }
  rewrite (Reqb_neq _ _ Hn). unfold store. now rewrite Hr.
Qed.

(** The factory run on the product state of two sites, asked for form B and
    for form A. *)
Example from_full_runs_B : fst (from_full_example (FOne (FName "B"))) = Ok tt.
Proof.
  unfold from_full_example, from_full, factory_start.
  lazy -[np_idiv_norm IZR Rdiv Rmult Rplus sqrt Rinv].
  rewrite (np_idiv_norm_single 6 1) by (reflexivity || lra).
  lazy -[IZR Rdiv Rmult Rplus sqrt Rinv].
  reflexivity.
Qed.

(** Deciding comparisons between numerals. *)
Ltac decide_R :=
  repeat match goal with
         | |- context [Reqb ?a ?b] =>
             first [rewrite (Reqb_eq a b) by lra
                   |rewrite (Reqb_neq a b) by lra]
         | |- context [Rltb ?a ?b] =>
             first [rewrite (Rltb_lt a b) by lra
                   |rewrite (Rltb_nlt a b) by lra]
         end.

Example from_full_runs_A : fst (from_full_example (FOne (FName "A"))) = Ok tt.
Proof.
  unfold from_full_example, from_full, factory_start.
  lazy -[np_idiv_norm IZR Rdiv Rmult Rplus Rminus Ropp sqrt Rinv Rpower
         Reqb Rltb powerRZ Int_part].
  rewrite (np_idiv_norm_single 6 1) by (reflexivity || lra).
  replace (sqrt (1 * 1 + 0)) with 1%R
    by (rewrite Rplus_0_r, Rmult_1_r, sqrt_1; reflexivity).
  lazy -[IZR Rdiv Rmult Rplus Rminus Ropp sqrt Rinv Rpower
         Reqb Rltb powerRZ Int_part].
  decide_R. reflexivity.
Qed.

Lemma from_full_form_guard_witness :
  from_full_example (FOne FNone)
  = (Raise (ValueError "Invalid form: "), factory_start)
  /\ from_full pinv_example transpose_example add_trivial_leg_example
       combine_legs_example split_legs_example svd_example
       [site1] 0 (FOne (FName "A")) default_cutoff factory_start
     = (Raise AssertionError, factory_start)
  /\ (exists w',
        from_full_example (FOne (FName "B")) = (Ok tt, w')
        /\ in_form [site1; site1] (Some (0, 1)%R) w')
  /\ (exists w',
        from_full_example (FOne (FName "A")) = (Ok tt, w')
        /\ in_form [site1; site1] (Some (1, 0)%R) w').
Proof.
  pose proof (from_full_form_guard pinv_example transpose_example
                add_trivial_leg_example combine_legs_example
                split_legs_example svd_example) as G.
  pose proof (G [site1; site1] 0 (FOne FNone) default_cutoff factory_start)
    as Ha.
  pose proof (G [site1] 0 (FOne (FName "A")) default_cutoff factory_start)
    as Hb.
  pose proof (G [site1; site1] 0 (FOne (FName "B")) default_cutoff
                factory_start) as Hc.
  pose proof (G [site1; site1] 0 (FOne (FName "A")) default_cutoff
                factory_start) as Hd.
  cbv zeta in Ha, Hb, Hc, Hd.
  destruct Ha as (Ha & _). destruct Hb as (_ & Hb & _).
  destruct Hc as (_ & _ & Hc). destruct Hd as (_ & _ & Hd).
  split; [apply Ha; reflexivity|].
  split; [apply Hb; [reflexivity|simpl; lia]|].
  split.
  - exists (snd (from_full_example (FOne (FName "B")))).
    assert (Hrun : from_full_example (FOne (FName "B"))
                   = (Ok tt, snd (from_full_example (FOne (FName "B"))))).
    { rewrite (surjective_pairing (from_full_example (FOne (FName "B"))))
        at 1.
      now rewrite from_full_runs_B. }
    split; [exact Hrun|].
    destruct (Hc tt _ Hrun) as (_ & _ & _ & s & t & Hs & Ht & Hin).
    injection Hs as <-. injection Ht as <-. exact Hin.
  - exists (snd (from_full_example (FOne (FName "A")))).
    assert (Hrun : from_full_example (FOne (FName "A"))
                   = (Ok tt, snd (from_full_example (FOne (FName "A"))))).
    { rewrite (surjective_pairing (from_full_example (FOne (FName "A"))))
        at 1.
      now rewrite from_full_runs_A. }
    split; [exact Hrun|].
    destruct (Hd tt _ Hrun) as (_ & _ & _ & s & t & Hs & Ht & Hin).
    injection Hs as <-. injection Ht as <-. exact Hin.
Defined.

(** ** Renaming the physical leg *)

Lemma drop_nth_0 {A} (x : A) l : drop_nth 0 (x :: l) = l.
Proof. reflexivity. Qed.

Lemma drop_nth_S {A} k (x : A) l : drop_nth (S k) (x :: l) = x :: drop_nth k l.
Proof. reflexivity. Qed.

Lemma drop_nth_length {A} k (l : list A) :
  k < List.length l -> List.length (drop_nth k l) = List.length l - 1.
Proof.
  intros H. unfold drop_nth.
  rewrite length_app, length_firstn, length_skipn. lia.
Qed.

Lemma find_label_list_set ls old new k :
  find_label ls old = Some k ->
  list_set ls k (Some new) = rename_first old new ls.
Proof.
  revert k. induction ls as [|l ls IH]; intros k; simpl; [discriminate|].
  destruct (label_eqb l old); [now intros [= <-]|].
  destruct (find_label ls old) as [j|]; [|discriminate].
  intros [= <-]. simpl. f_equal. now apply IH.
Qed.

Lemma replace_label_rename A old new :
  replace_label A (AxLabel old) new
  = match find_label (labels A) old with
    | Some _ => Ok (set_labels (rename_first old new (labels A)) A)
    | None => Raise KeyError
    end.
Proof.
  unfold replace_label, get_leg_index.
  destruct (find_label (labels A) old) as [k|] eqn:E; [|reflexivity].
  simpl. unfold set_labels. now rewrite (find_label_list_set _ _ _ _ E).
Qed.

Lemma find_label_rename_other ls old new s :
  s <> old -> s <> new ->
  find_label (rename_first old new ls) s = find_label ls s.
Proof.
  intros H1 H2. induction ls as [|l ls IH]; simpl; [reflexivity|].
  destruct (label_eqb l old) eqn:E.
  - simpl. destruct l as [x|]; [|discriminate]. simpl in E.
    apply String.eqb_eq in E. subst x. simpl.
    destruct (String.eqb_spec new s); [congruence|].
    destruct (String.eqb_spec old s); [congruence|]. reflexivity.
  - simpl. now rewrite IH.
Qed.

Lemma find_label_nth ls s k :
  find_label ls s = Some k -> label_eqb (nth k ls None) s = true.
Proof.
  revert k. induction ls as [|l ls IH]; intros k; simpl; [discriminate|].
  destruct (label_eqb l s) eqn:E; [now intros [= <-]|].
  destruct (find_label ls s) as [j|]; [|discriminate].
  intros [= <-]. now apply IH.
Qed.

Lemma rename_first_drop old new k ls :
  label_eqb (nth k ls None) old = false ->
  rename_first old new (drop_nth k ls) = drop_nth k (rename_first old new ls).
Proof.
  revert k. induction ls as [|l ls IH]; intros k H.
  - now destruct k.
  - destruct k as [|k]; simpl in H.
    + rewrite drop_nth_0. simpl. rewrite H. reflexivity.
    + rewrite drop_nth_S. simpl. destruct (label_eqb l old); [reflexivity|].
      rewrite drop_nth_S. f_equal. now apply IH.
Qed.

Lemma find_label_drop old k ls j :
  label_eqb (nth k ls None) old = false ->
  find_label ls old = Some j ->
  exists j', find_label (drop_nth k ls) old = Some j'.
Proof.
  revert k j. induction ls as [|l ls IH]; intros k j H; simpl; [discriminate|].
  destruct k as [|k]; simpl in H.
  - rewrite H, drop_nth_0.
    destruct (find_label ls old) as [i|]; [eauto|discriminate].
  - rewrite drop_nth_S. simpl. destruct (label_eqb l old); [eauto|].
    destruct (find_label ls old) as [i|] eqn:E; [|discriminate].
    intros _. destruct (IH k i H eq_refl) as [j' ->]. simpl. eauto.
Qed.

Lemma rename_first_app old new l1 l2 j :
  find_label l1 old = Some j ->
  rename_first old new (l1 ++ l2) = rename_first old new l1 ++ l2.
Proof.
  revert j. induction l1 as [|l l1 IH]; intros j; simpl; [discriminate|].
  destruct (label_eqb l old); [reflexivity|].
  destruct (find_label l1 old) as [i|]; [|discriminate].
  intros _. simpl. f_equal. now apply (IH i).
Qed.

Lemma find_label_app old l1 l2 j :
  find_label l1 old = Some j -> find_label (l1 ++ l2) old = Some j.
Proof.
  revert j. induction l1 as [|l l1 IH]; intros j; simpl; [discriminate|].
  destruct (label_eqb l old); [auto|].
  destruct (find_label l1 old) as [i|]; [|discriminate].
  intros [= <-]. now rewrite (IH i).
Qed.

Lemma rename_first_length old new ls :
  List.length (rename_first old new ls) = List.length ls.
Proof.
  induction ls as [|l ls IH]; simpl; [reflexivity|].
  destruct (label_eqb l old); simpl; auto.
Qed.

Lemma list_set_app_last {A} (l : list A) x v :
  list_set (l ++ [x]) (List.length l) v = l ++ [v].
Proof. induction l as [|h l IH]; simpl; [reflexivity|]. now rewrite IH. Qed.

(** The legs kept when one leg is contracted. *)
Lemma kept_legs_single r k :
  kept_legs r [k] = filter (fun p => negb (p =? k)%nat) (seq 0 r).
Proof.
  unfold kept_legs. apply filter_ext. intros p. simpl.
  now destruct (p =? k)%nat.
Qed.

Lemma filter_map_S (f : nat -> bool) l :
  filter f (map S l) = map S (filter (fun q => f (S q)) l).
Proof.
  induction l as [|x l IH]; simpl; [reflexivity|].
  destruct (f (S x)); simpl; now rewrite IH.
Qed.

Lemma filter_all {A} (l : list A) : filter (fun _ => true) l = l.
Proof. induction l as [|x l IH]; simpl; [reflexivity|]. now rewrite IH. Qed.

Lemma map_nth_seq {A} (l : list A) d :
  map (fun k => nth k l d) (seq 0 (List.length l)) = l.
Proof.
  induction l as [|x l IH]; [reflexivity|].
  cbn [List.length seq map nth]. f_equal.
  rewrite <- seq_shift, map_map. exact IH.
Qed.

Lemma map_nth_kept {A} (l : list A) d k :
  map (fun p => nth p l d)
      (filter (fun p => negb (p =? k)%nat) (seq 0 (List.length l)))
  = drop_nth k l.
Proof.
  revert k. induction l as [|x l IH]; intros k.
  - now destruct k.
  - cbn [List.length seq]. rewrite <- seq_shift.
    destruct k as [|k]; cbn [filter Nat.eqb negb].
    + rewrite filter_map_S. cbn [Nat.eqb negb]. rewrite filter_all, map_map.
      cbn [nth]. now rewrite map_nth_seq.
    + rewrite filter_map_S. cbn [map nth Nat.eqb]. rewrite map_map.
      cbn [nth]. rewrite IH. reflexivity.
Qed.

(** ** Contractions do not look at the labels of the kept legs *)

Lemma tensordot_set_labels_r A B ls' axesA axesB :
  omapM (get_leg_index (set_labels ls' B)) axesB
  = omapM (get_leg_index B) axesB ->
  tensordot A (set_labels ls' B) axesA axesB
  = obind (omapM (get_leg_index A) axesA) (fun ca =>
    obind (omapM (get_leg_index B) axesB) (fun cb =>
    obind (tensordot A B axesA axesB) (fun T =>
    Ok (set_labels
          (map (fun k => nth k (labels A) None) (kept_legs (rank A) ca)
           ++ map (fun k => nth k ls' None) (kept_legs (rank B) cb)) T)))).
Proof.
  intros H. unfold tensordot. rewrite H.
  destruct (omapM (get_leg_index A) axesA) as [ca| |]; cbn [obind];
    try reflexivity.
  destruct (omapM (get_leg_index B) axesB) as [cb| |]; cbn [obind];
    try reflexivity.
  destruct (negb _); cbn [obind]; try reflexivity.
  destruct (test_contractible_all _ _); cbn [obind]; reflexivity.
Qed.

Lemma tensordot_set_labels_l A B ls' axesA axesB :
  omapM (get_leg_index (set_labels ls' A)) axesA
  = omapM (get_leg_index A) axesA ->
  tensordot (set_labels ls' A) B axesA axesB
  = obind (omapM (get_leg_index A) axesA) (fun ca =>
    obind (omapM (get_leg_index B) axesB) (fun cb =>
    obind (tensordot A B axesA axesB) (fun T =>
    Ok (set_labels
          (map (fun k => nth k ls' None) (kept_legs (rank A) ca)
           ++ map (fun k => nth k (labels B) None) (kept_legs (rank B) cb))
          T)))).
Proof.
  intros H. unfold tensordot. rewrite H.
  destruct (omapM (get_leg_index A) axesA) as [ca| |]; cbn [obind];
    try reflexivity.
  destruct (omapM (get_leg_index B) axesB) as [cb| |]; cbn [obind];
    try reflexivity.
  destruct (negb _); cbn [obind]; try reflexivity.
  destruct (test_contractible_all _ _); cbn [obind]; reflexivity.
Qed.

(** The labels and the rank of a contraction. *)
Lemma tensordot_Ok_inv A B axesA axesB T :
  tensordot A B axesA axesB = Ok T ->
  exists ca cb,
    omapM (get_leg_index A) axesA = Ok ca
    /\ omapM (get_leg_index B) axesB = Ok cb
    /\ labels T
       = map (fun k => nth k (labels A) None) (kept_legs (rank A) ca)
         ++ map (fun k => nth k (labels B) None) (kept_legs (rank B) cb)
    /\ rank T = List.length (kept_legs (rank A) ca)
                + List.length (kept_legs (rank B) cb).
Proof.
  unfold tensordot.
  destruct (omapM (get_leg_index A) axesA) as [ca| |]; cbn [obind];
    try discriminate.
  destruct (omapM (get_leg_index B) axesB) as [cb| |]; cbn [obind];
    try discriminate.
  destruct (negb _); cbn [obind]; try discriminate.
  destruct (test_contractible_all _ _); cbn [obind]; try discriminate.
  intros [= <-]. exists ca, cb. repeat split.
  unfold rank. cbn [legs]. now rewrite length_app, !length_map.
Qed.

Lemma get_leg_index_first A : 0 < rank A -> get_leg_index A (AxIndex 0) = Ok 0.
Proof.
  intros H. unfold get_leg_index. cbv zeta.
  change (0 <? 0)%Z with false. cbv iota.
  assert (E : (Z.of_nat (rank A) <=? 0)%Z = false) by lia.
  rewrite E. reflexivity.
Qed.

Lemma get_leg_index_last A :
  0 < rank A -> get_leg_index A (AxIndex (-1)) = Ok (rank A - 1).
Proof.
  intros H. unfold get_leg_index. cbv zeta.
  change (-1 <? 0)%Z with true. cbv iota.
  assert (E1 : (-1 + Z.of_nat (rank A) <? 0)%Z = false) by lia.
  assert (E2 : (Z.of_nat (rank A) <=? -1 + Z.of_nat (rank A))%Z = false)
    by lia.
  rewrite E1, E2. cbn [orb]. f_equal. lia.
Qed.

Lemma get_leg_index_matrix A (k : nat) :
  rank A = 2 -> k < 2 -> get_leg_index A (AxIndex (Z.of_nat k)) = Ok k.
Proof.
  intros H Hk. unfold get_leg_index. rewrite H. cbv zeta.
  assert (E1 : (Z.of_nat k <? 0)%Z = false) by lia.
  assert (E2 : (Z.of_nat 2 <=? Z.of_nat k)%Z = false)
    by (apply Z.leb_gt; lia).
  rewrite E1. cbv iota. rewrite E1, E2. cbn [orb]. cbv iota.
  now rewrite Nat2Z.id.
Qed.

Lemma get_leg_index_1 A : rank A = 2 -> get_leg_index A (AxIndex 1) = Ok 1.
Proof. intros H. apply (get_leg_index_matrix A 1 H). lia. Qed.

Lemma label_other l s s' :
  label_eqb l s = true -> s <> s' -> label_eqb l s' = false.
Proof.
  destruct l as [x|]; [|discriminate]. simpl. intros H Hs.
  apply String.eqb_eq in H. subst x. now apply String.eqb_neq.
Qed.

Lemma kept_labels_single (ls : list (option string)) k :
  map (fun p => nth p ls None) (kept_legs (List.length ls) [k])
  = drop_nth k ls.
Proof. rewrite kept_legs_single. apply map_nth_kept. Qed.

Lemma kept_legs_single_length r k :
  k < r -> List.length (kept_legs r [k]) = r - 1.
Proof.
  intros H.
  pose proof (kept_labels_single (repeat (@None string) r) k) as E.
  apply (f_equal (@List.length _)) in E.
  rewrite length_map, repeat_length in E. rewrite E.
  rewrite drop_nth_length; rewrite repeat_length; auto.
Qed.

(** ** Rescaling commutes with renaming the physical leg *)

Lemma relabel_p0_inv Bv Bv' :
  relabel_p0 Bv = Ok Bv' ->
  exists kp, find_label (labels Bv) "p" = Some kp
             /\ Bv' = set_labels (rename_first "p" "p0" (labels Bv)) Bv.
Proof.
  unfold relabel_p0. rewrite replace_label_rename.
  destruct (find_label (labels Bv) "p") as [kp|]; [|discriminate].
  intros [= <-]. eauto.
Qed.

Lemma get_leg_index_renamed Bv s :
  s <> "p" -> s <> "p0" ->
  get_leg_index (set_labels (rename_first "p" "p0" (labels Bv)) Bv) (AxLabel s)
  = get_leg_index Bv (AxLabel s).
Proof.
  intros H1 H2. unfold get_leg_index, set_labels. cbn [labels].
  now rewrite find_label_rename_other.
Qed.

Lemma contract_into_relabel_vL S1 Bv Bv' :
  rank S1 = 2 -> labelled Bv -> relabel_p0 Bv = Ok Bv' ->
  contract_into S1 Bv' "vL" = obind (contract_into S1 Bv "vL") relabel_p0.
Proof.
  intros Hr Hl H. apply relabel_p0_inv in H. destruct H as (kp & Ep & ->).
  unfold contract_into. cbn [String.eqb Ascii.eqb Bool.eqb orb andb].
  rewrite tensordot_set_labels_r
    by (cbn [omapM]; rewrite get_leg_index_renamed; [reflexivity|discriminate..]).
  cbn [omapM]. rewrite (get_leg_index_1 S1 Hr). cbn [obind].
  destruct (get_leg_index Bv (AxLabel "vL")) as [kv| |] eqn:Ev.
  2,3: unfold tensordot; cbn [omapM]; rewrite Ev;
       rewrite (get_leg_index_1 S1 Hr); reflexivity.
  cbn [obind].
  destruct (tensordot S1 Bv [AxIndex 1] [AxLabel "vL"]) as [T| |] eqn:ET;
    cbn [obind]; try reflexivity.
  apply tensordot_Ok_inv in ET. destruct ET as (ca & cb & Ea & Eb & EL & ER).
  cbn [omapM] in Ea, Eb. rewrite Ev in Eb.
  rewrite (get_leg_index_1 S1 Hr) in Ea.
  cbn [obind] in Ea, Eb. injection Ea as <-. injection Eb as <-.
  unfold get_leg_index in Ev.
  destruct (find_label (labels Bv) "vL") as [k|] eqn:Ek; [|discriminate].
  injection Ev as ->.
  pose proof (find_label_lt _ _ _ Ek) as Hk.
  pose proof (find_label_nth _ _ _ Ek) as Hn.
  rewrite Hr in *. change (kept_legs 2 [1]) with [0] in *.
  unfold labelled in Hl. rewrite <- Hl in *.
  rewrite kept_labels_single in EL.
  rewrite <- (rename_first_length "p" "p0" (labels Bv)).
  rewrite kept_labels_single.
  cbn [map app] in *.
  assert (HT : 0 < rank T) by (rewrite ER; simpl; lia).
  unfold replace_label at 1.
  change (get_leg_index (set_labels ?l T) (AxIndex 0))
    with (get_leg_index T (AxIndex 0)).
  unfold replace_label. rewrite (get_leg_index_first T HT).
  cbn [obind set_labels labels legs data list_set]. rewrite EL.
  cbn [list_set]. unfold relabel_p0. rewrite replace_label_rename.
  cbn [labels find_label rename_first label_eqb String.eqb Ascii.eqb Bool.eqb].
  assert (Hp : label_eqb (nth kv (labels Bv) None) "p" = false)
    by (apply (label_other _ _ _ Hn); discriminate).
  destruct (find_label_drop "p" kv _ _ Hp Ep) as [j ->].
  cbn [option_map]. unfold set_labels. cbn [legs data].
  now rewrite rename_first_drop.
Qed.

Lemma contract_into_relabel_vR S1 Bv Bv' :
  rank S1 = 2 -> labelled Bv -> relabel_p0 Bv = Ok Bv' ->
  contract_into S1 Bv' "vR" = obind (contract_into S1 Bv "vR") relabel_p0.
Proof.
  intros Hr Hl H. apply relabel_p0_inv in H. destruct H as (kp & Ep & ->).
  unfold contract_into. cbn [String.eqb Ascii.eqb Bool.eqb orb andb].
  rewrite tensordot_set_labels_l
    by (cbn [omapM]; rewrite get_leg_index_renamed; [reflexivity|discriminate..]).
  cbn [omapM]. rewrite (get_leg_index_first S1) by lia. cbn [obind].
  destruct (get_leg_index Bv (AxLabel "vR")) as [kv| |] eqn:Ev.
  2,3: unfold tensordot; cbn [omapM]; rewrite Ev; reflexivity.
  cbn [obind].
  destruct (tensordot Bv S1 [AxLabel "vR"] [AxIndex 0]) as [T| |] eqn:ET;
    cbn [obind]; try reflexivity.
  apply tensordot_Ok_inv in ET. destruct ET as (ca & cb & Ea & Eb & EL & ER).
  cbn [omapM] in Ea, Eb. rewrite Ev in Ea.
  rewrite (get_leg_index_first S1) in Eb by lia.
  cbn [obind] in Ea, Eb. injection Ea as <-. injection Eb as <-.
  unfold get_leg_index in Ev.
  destruct (find_label (labels Bv) "vR") as [k|] eqn:Ek; [|discriminate].
  injection Ev as ->.
  pose proof (find_label_lt _ _ _ Ek) as Hk.
  pose proof (find_label_nth _ _ _ Ek) as Hn.
  rewrite Hr in *. change (kept_legs 2 [0]) with [1] in *.
  unfold labelled in Hl. rewrite <- Hl in *.
  rewrite kept_labels_single in EL.
  rewrite <- (rename_first_length "p" "p0" (labels Bv)).
  rewrite kept_labels_single.
  cbn [map] in *.
  rewrite kept_legs_single_length in ER by exact Hk.
  assert (HT : 0 < rank T) by (rewrite ER; simpl; lia).
  unfold replace_label at 1.
  change (get_leg_index (set_labels ?l T) (AxIndex (-1)))
    with (get_leg_index T (AxIndex (-1))).
  unfold replace_label. rewrite (get_leg_index_last T HT).
  cbn [obind set_labels labels legs data]. rewrite EL.
  assert (Hp : label_eqb (nth kv (labels Bv) None) "p" = false)
    by (apply (label_other _ _ _ Hn); discriminate).
  assert (Hlen : rank T - 1 = List.length (drop_nth kv (labels Bv))).
  { rewrite drop_nth_length by exact Hk. rewrite ER. simpl. lia. }
  rewrite Hlen, list_set_app_last.
  rewrite <- (rename_first_drop "p" "p0") by exact Hp.
  rewrite <- (rename_first_length "p" "p0" (drop_nth kv (labels Bv))).
  rewrite list_set_app_last.
  unfold relabel_p0. rewrite replace_label_rename. cbn [labels].
  destruct (find_label_drop "p" kv _ _ Hp Ep) as [j Ej].
  rewrite (find_label_app _ _ _ _ Ej).
  unfold set_labels. cbn [legs data].
  now rewrite (rename_first_app _ _ _ _ _ Ej).
Qed.

Lemma scale_axis_relabel Bv Bv' v ax :
  relabel_p0 Bv = Ok Bv' -> ax <> "p" -> ax <> "p0" ->
  scale_axis Bv' v (AxLabel ax)
  = obind (scale_axis Bv v (AxLabel ax)) relabel_p0.
Proof.
  intros H H1 H2. apply relabel_p0_inv in H. destruct H as (kp & Ep & ->).
  unfold scale_axis. rewrite get_leg_index_renamed by assumption.
  destruct (get_leg_index Bv (AxLabel ax)) as [k| |]; cbn [obind];
    try reflexivity.
  change (shape (set_labels ?l Bv)) with (shape Bv).
  destruct (list_eq_dec _ _ _); cbn [obind]; [|reflexivity].
  change (data (set_labels ?l Bv)) with (data Bv).
  change (legs (set_labels ?l Bv)) with (legs Bv).
  destruct v as [x|d|d].
  3:{ destruct (omapM _ _) as [d'| |]; cbn [obind]; try reflexivity.
      unfold relabel_p0. rewrite replace_label_rename. cbn [labels].
      rewrite Ep. reflexivity. }
  all: cbn [obind]; unfold relabel_p0; rewrite replace_label_rename;
    cbn [labels]; rewrite Ep; reflexivity.
Qed.

(** Both ways of rescaling keep one label per leg and keep the leg [p]. *)
Lemma scale_axis_labels A v ax T :
  scale_axis A v ax = Ok T -> labels T = labels A /\ legs T = legs A.
Proof.
  unfold scale_axis. destruct (get_leg_index A ax); cbn [obind];
    try discriminate.
  destruct (list_eq_dec _ _ _); [|discriminate].
  destruct v as [x|d|d]; [intros [= <-]; auto..|].
  destruct (omapM _ _) as [d'| |]; cbn [obind]; try discriminate.
  intros [= <-]. auto.
Qed.

Lemma contract_into_labels S1 Bv ax T kp :
  rank S1 = 2 -> labelled Bv -> ax = "vL" \/ ax = "vR" ->
  find_label (labels Bv) "p" = Some kp ->
  contract_into S1 Bv ax = Ok T ->
  labelled T /\ exists j, find_label (labels T) "p" = Some j.
Proof.
  intros Hr Hl Hax Ep. unfold contract_into, labelled in *.
  destruct Hax as [-> | ->];
    cbn [String.eqb Ascii.eqb Bool.eqb orb andb].
  - destruct (tensordot S1 Bv [AxIndex 1] [AxLabel "vL"]) as [T0| |] eqn:ET;
      cbn [obind]; try discriminate.
    apply tensordot_Ok_inv in ET. destruct ET as (ca & cb & Ea & Eb & EL & ER).
    cbn [omapM] in Ea, Eb. rewrite (get_leg_index_1 S1 Hr) in Ea.
    unfold get_leg_index in Eb.
    destruct (find_label (labels Bv) "vL") as [kv|] eqn:Ek; [|discriminate].
    cbn [obind] in Ea, Eb. injection Ea as <-. injection Eb as <-.
    pose proof (find_label_lt _ _ _ Ek) as Hk.
    pose proof (find_label_nth _ _ _ Ek) as Hn.
    rewrite Hr in *. change (kept_legs 2 [1]) with [0] in *.
    rewrite <- Hl in *. rewrite kept_labels_single in EL.
    rewrite kept_legs_single_length in ER by exact Hk.
    cbn [map app] in EL.
    assert (HT : 0 < rank T0) by (rewrite ER; simpl; lia).
    unfold replace_label. rewrite (get_leg_index_first T0 HT). cbn [obind].
    intros [= <-]. unfold rank in *. cbn [labels legs]. rewrite EL.
    cbn [list_set List.length]. rewrite drop_nth_length by exact Hk.
    split; [rewrite ER; simpl; lia|].
    assert (Hp : label_eqb (nth kv (labels Bv) None) "p" = false)
      by (apply (label_other _ _ _ Hn); discriminate).
    destruct (find_label_drop "p" kv _ _ Hp Ep) as [j Ej].
    cbn [find_label label_eqb String.eqb Ascii.eqb Bool.eqb]. rewrite Ej.
    simpl. eauto.
  - destruct (tensordot Bv S1 [AxLabel "vR"] [AxIndex 0]) as [T0| |] eqn:ET;
      cbn [obind]; try discriminate.
    apply tensordot_Ok_inv in ET. destruct ET as (ca & cb & Ea & Eb & EL & ER).
    cbn [omapM] in Ea, Eb. rewrite (get_leg_index_first S1) in Eb by lia.
    unfold get_leg_index in Ea.
    destruct (find_label (labels Bv) "vR") as [kv|] eqn:Ek; [|discriminate].
    cbn [obind] in Ea, Eb. injection Ea as <-. injection Eb as <-.
    pose proof (find_label_lt _ _ _ Ek) as Hk.
    pose proof (find_label_nth _ _ _ Ek) as Hn.
    rewrite Hr in *. change (kept_legs 2 [0]) with [1] in *.
    rewrite <- Hl in *. rewrite kept_labels_single in EL.
    rewrite kept_legs_single_length in ER by exact Hk.
    cbn [map] in EL.
    assert (HT : 0 < rank T0) by (rewrite ER; simpl; lia).
    unfold replace_label. rewrite (get_leg_index_last T0 HT). cbn [obind].
    intros [= <-]. unfold rank in *. cbn [labels legs]. rewrite EL.
    assert (Hlen : List.length (legs T0) - 1
                   = List.length (drop_nth kv (labels Bv))).
    { rewrite drop_nth_length by exact Hk. rewrite ER. simpl. lia. }
    rewrite Hlen, list_set_app_last, length_app.
    rewrite drop_nth_length by exact Hk.
    split; [rewrite ER; simpl; lia|].
    assert (Hp : label_eqb (nth kv (labels Bv) None) "p" = false)
      by (apply (label_other _ _ _ Hn); discriminate).
    destruct (find_label_drop "p" kv _ _ Hp Ep) as [j Ej].
    exists j. now apply find_label_app.
Qed.

Section Relabel.

Variable pinv : Array -> R -> outcome Array.
Hypothesis pinv_ok : pinv_matrix pinv.

Lemma matrix_factor Sa d cutoff S1 :
  negb (rank Sa =? 2)%nat = false ->
  (if Reqb d (-1) then pinv Sa cutoff
   else if negb (Reqb d 1)
        then Raise (ValueError
          "Can't scale/tensordot a 2D `S` for non-integer `form_diff`")
        else Ok Sa) = Ok S1 ->
  rank S1 = 2.
Proof.
  intros Hr. destruct (Reqb d (-1)).
  - apply pinv_ok.
  - destruct (negb (Reqb d 1)); [discriminate|]. intros [= <-].
    destruct (Nat.eqb_spec (rank Sa) 2); [auto|discriminate].
Qed.

Lemma scale_axis_B_val_relabel Bv Bv' so d ax cutoff :
  labelled Bv -> relabel_p0 Bv = Ok Bv' -> ax = "vL" \/ ax = "vR" ->
  scale_axis_B_val pinv Bv' so d ax cutoff
  = obind (scale_axis_B_val pinv Bv so d ax cutoff) relabel_p0.
Proof.
  intros Hl H Hax. unfold scale_axis_B_val.
  destruct (Reqb d 0); [now rewrite <- H|].
  destruct so as [[v|Sa]|]; [| |reflexivity].
  - destruct (if negb (Reqb d 1) then nd_power v d else Ok v) as [v1| |];
      cbn [obind]; try reflexivity.
    apply scale_axis_relabel; [exact H|destruct Hax; subst; discriminate..].
  - destruct (negb (rank Sa =? 2)%nat) eqn:Er; [reflexivity|].
    match goal with
    | |- obind ?f _ = _ => destruct f as [S1| |] eqn:ES
    end; cbn [obind]; try reflexivity.
    pose proof (matrix_factor _ _ _ _ Er ES) as Hr.
    destruct Hax as [-> | ->].
    + now apply contract_into_relabel_vL.
    + now apply contract_into_relabel_vR.
Qed.

Lemma scale_axis_B_val_keeps Bv so d ax cutoff T kp :
  labelled Bv -> ax = "vL" \/ ax = "vR" ->
  find_label (labels Bv) "p" = Some kp ->
  scale_axis_B_val pinv Bv so d ax cutoff = Ok T ->
  labelled T /\ exists j, find_label (labels T) "p" = Some j.
Proof.
  intros Hl Hax Ep. unfold scale_axis_B_val.
  destruct (Reqb d 0); [intros [= <-]; eauto|].
  destruct so as [[v|Sa]|]; [| |discriminate].
  - destruct (if negb (Reqb d 1) then nd_power v d else Ok v) as [v1| |];
      cbn [obind]; try discriminate.
    intros H. apply scale_axis_labels in H. destruct H as [H1 H2].
    unfold labelled, rank in *. rewrite H1, H2. eauto.
  - destruct (negb (rank Sa =? 2)%nat) eqn:Er; [discriminate|].
    match goal with
    | |- obind ?f _ = _ -> _ => destruct f as [S1| |] eqn:ES
    end; cbn [obind]; try discriminate.
    pose proof (matrix_factor _ _ _ _ Er ES) as Hr.
    now apply contract_into_labels with (kp := kp).
Qed.

(** The two rescalings of [get_theta] for one site, on the renamed tensor,
    against those of [get_B] followed by the renaming. *)
Lemma theta_val_relabel Bv Bv' soL soR fL fR cutoff :
  labelled Bv -> relabel_p0 Bv = Ok Bv' ->
  obind (scale_axis_B_val pinv Bv' soL (0 - fL) "vL" cutoff) (fun T1 =>
         scale_axis_B_val pinv T1 soR (1 - fR) "vR" cutoff)
  = obind (convert_form_val pinv Bv soL soR (fL, fR) (0, 1)%R cutoff)
          relabel_p0.
Proof.
  intros Hl H. unfold convert_form_val. cbn [fst snd].
  rewrite (scale_axis_B_val_relabel Bv Bv') by auto.
  destruct (scale_axis_B_val pinv Bv soL (0 - fL) "vL" cutoff)
    as [T1| |] eqn:E1; cbn [obind]; try reflexivity.
  destruct (relabel_p0_inv _ _ H) as (kp & Ep & _).
  destruct (scale_axis_B_val_keeps _ _ _ _ _ _ _ Hl (or_introl eq_refl) Ep E1)
    as (Hl1 & j & Ej).
  assert (HR : exists T1', relabel_p0 T1 = Ok T1').
  { unfold relabel_p0. rewrite replace_label_rename, Ej. eauto. }
  destruct HR as [T1' HR]. rewrite HR. cbn [obind].
  now apply scale_axis_B_val_relabel; auto.
Qed.

(** The renaming succeeds on whatever [get_B] computes. *)
Lemma convert_form_val_keeps Bv soL soR X Y cutoff T kp :
  labelled Bv -> find_label (labels Bv) "p" = Some kp ->
  convert_form_val pinv Bv soL soR X Y cutoff = Ok T ->
  exists T', relabel_p0 T = Ok T'.
Proof.
  intros Hl Ep. unfold convert_form_val.
  destruct (scale_axis_B_val pinv Bv soL _ "vL" cutoff) as [T1| |] eqn:E1;
    cbn [obind]; try discriminate.
  destruct (scale_axis_B_val_keeps _ _ _ _ _ _ _ Hl (or_introl eq_refl) Ep E1)
    as (Hl1 & j & Ej).
  intros E2.
  destruct (scale_axis_B_val_keeps _ _ _ _ _ _ _ Hl1 (or_intror eq_refl) Ej E2)
    as (_ & j2 & Ej2).
  unfold relabel_p0. rewrite replace_label_rename, Ej2. eauto.
Qed.

End Relabel.

(** ** The one-site wave function and the tensor in form B *)

Lemma has_label_find A s :
  has_label A s = true -> exists k, find_label (labels A) s = Some k.
Proof.
  unfold has_label. induction (labels A) as [|l ls IH]; simpl;
    [discriminate|].
  destruct (label_eqb l s); [eauto|]. simpl. intros H.
  destruct (IH H) as [k ->]. simpl. eauto.
Qed.

Lemma get_B_form_B_yields pinv w i k fL fR b Bv SL SR soL soR cutoff :
  fst (_to_valid_index i w) = Ok k ->
  nth_error (form (this w)) (Z.to_nat k) = Some (Some (fL, fR)) ->
  nth_error (_B (this w)) (Z.to_nat k) = Some b ->
  nth_error (heap w) b = Some (NpcArray Bv) ->
  py_getitem (_S (this w)) k = Ok SL ->
  py_getitem (_S (this w)) (k + 1) = Ok SR ->
  spectrum_at w SL soL -> spectrum_at w SR soR ->
  yields w (get_B pinv i (FName "B") false cutoff w)
           (convert_form_val pinv Bv soL soR (fL, fR) (0, 1)%R cutoff).
Proof.
  intros Hk Hf Hb Hv HSL HSR HoL HoR.
  pose proof (to_valid_index_range _ _ _ Hk) as Hr.
  pose proof (to_valid_index_idem _ _ _ Hk) as Hkk.
  unfold get_B. rewrite (bind_Ok _ _ _ _ _ (to_valid_index_run _ _ _ Hk)).
  cbn [_to_valid_form _valid_forms String.eqb Ascii.eqb Bool.eqb].
  rewrite bind_lift_Ok, bind_self.
  rewrite (py_getitem_nat _ _ _ (proj1 Hr) Hb), bind_lift_Ok.
  rewrite (py_getitem_nat _ _ _ (proj1 Hr) Hf), bind_lift_Ok.
  apply convert_form_i_yields with (k := k) (SL := SL) (SR := SR); auto.
  now rewrite Hkk.
Qed.

Lemma get_theta_one_yields pinv w i k fL fR b Bv SL SR soL soR cutoff :
  fst (_to_valid_index i w) = Ok k ->
  nth_error (form (this w)) (Z.to_nat k) = Some (Some (fL, fR)) ->
  nth_error (_B (this w)) (Z.to_nat k) = Some b ->
  nth_error (heap w) b = Some (NpcArray Bv) ->
  py_getitem (_S (this w)) k = Ok SL ->
  py_getitem (_S (this w)) (k + 1) = Ok SR ->
  spectrum_at w SL soL -> spectrum_at w SR soR ->
  yields w (get_theta pinv i 1 cutoff 0 1 w)
    (obind (relabel_p0 Bv) (fun Bv' =>
     obind (scale_axis_B_val pinv Bv' soL (0 - fL) "vL" cutoff) (fun T1 =>
     scale_axis_B_val pinv T1 soR (1 - fR) "vR" cutoff))).
Proof.
  intros Hk Hf Hb Hv HSL HSR HoL HoR.
  pose proof (to_valid_index_range _ _ _ Hk) as Hr.
  pose proof (to_valid_index_idem _ _ _ Hk) as Hkk.
  pose proof (to_valid_index_bc _ _ _ Hk) as Hbc.
  unfold get_theta. rewrite (bind_Ok _ _ _ _ _ (to_valid_index_run _ _ _ Hk)).
  rewrite (bind_Ok _ _ _ _ _ (finite_run w Hbc)).
  rewrite (bind_Ok _ _ _ _ _ (L_run w)).
  assert (E1 : (k <? 0)%Z = false) by lia.
  assert (E2 : (k + 1 >? Z.of_nat (List.length (sites (this w))))%Z = false)
    by (rewrite Z.gtb_ltb; lia).
  rewrite E1, E2, andb_false_r, bind_ret, bind_self.
  rewrite (py_getitem_nat _ _ _ (proj1 Hr) Hf), bind_lift_Ok.
  assert (Em : py_mod (k + 1 - 1) (Z.of_nat (List.length (sites (this w))))
               = Ok k).
  { unfold py_mod.
    destruct (Z.eqb_spec (Z.of_nat (List.length (sites (this w)))) 0); [lia|].
    f_equal. replace (k + 1 - 1)%Z with k by lia. apply Z.mod_small. lia. }
  rewrite Em, bind_lift_Ok.
  rewrite (py_getitem_nat _ _ _ (proj1 Hr) Hf), bind_lift_Ok.
  cbv zeta. change (py_range 1 1) with (@nil Z). cbn [for_fold].
  assert (Hget : yields w (get_B pinv k FNone (Reqb fL 0 && Reqb fR 0)
                             default_cutoff w) (Ok Bv)).
  { assert (Hk' : fst (_to_valid_index k w) = Ok k) by now rewrite Hkk.
    destruct (get_B_stored pinv w k k b _ default_cutoff Hk' Hf Hb)
      as [G1 G2].
    destruct (Reqb fL 0 && Reqb fR 0).
    - rewrite G2, (npc_copy_run _ _ _ Hv).
      apply (yields_lift_alloc w w (Ok Bv)); [reflexivity|apply extends_refl].
    - rewrite G1. apply yields_ret; auto. apply extends_refl. }
  apply (yields_bind w _ _ (Ok Bv)
           (fun a => obind (relabel_p0 a) (fun Bv' =>
            obind (scale_axis_B_val pinv Bv' soL (0 - fL) "vL" cutoff)
              (fun T1 => scale_axis_B_val pinv T1 soR (1 - fR) "vR" cutoff))));
    [exact Hget|].
  clear Hget. intros r w1 a Ht1 He1 Hr1.
  rewrite (bind_congr _ _ _ _ (npc_replace_label_run r (AxLabel "p") "p0" w1 a Hr1)).
  apply (yields_two w1 w1 (replace_label a (AxLabel "p") "p0"));
    [reflexivity|apply extends_refl|].
  intros r2 w2 a2 Ht2 He2 _ Hr2.
  assert (Ht : this w2 = this w) by congruence.
  assert (He : extends (heap w) (heap w2)) by (eapply extends_trans; eauto).
  assert (Hk2 : fst (_to_valid_index k w2) = Ok k)
    by (rewrite (to_valid_index_this _ _ _ Ht); now rewrite Hkk).
  rewrite <- Ht in HSL, HSR.
  rewrite (bind_Ok _ _ _ _ _ (get_SL_run _ _ _ _ Hk2 HSL)).
  eapply yields_weaken; [exact Ht2|exact He2|].
  apply yields_bind.
  - apply scale_axis_B_yields_here; auto.
    eapply spectrum_at_extends; eauto.
  - intros r3 w3 a3 Ht3 He3 Hr3. rewrite bind_ret. cbv beta iota.
    replace (k + 1 - 1)%Z with k by lia.
    assert (Hk3 : fst (_to_valid_index k w3) = Ok k)
      by (rewrite (to_valid_index_this _ _ _ Ht3); exact Hk2).
    rewrite <- Ht3 in HSR.
    rewrite (bind_Ok _ _ _ _ _ (get_SR_run _ _ _ _ Hk3 HSR)).
    apply scale_axis_B_yields_here; auto.
    eapply spectrum_at_extends; [|exact HoR].
    eapply extends_trans; eauto.
Qed.

(** C2: the one-site wave function with exponents 0 and 1 is the tensor in
    form B.  For a site index [i] that resolves to [k], whose form tag is
    the exponent pair [(fL, fR)], whose stored tensor is well formed and
    has the leg [p], and whose two spectra are present, [get_B(i, 'B')]
    computes the stored tensor with its leg [vL] rescaled by
    [spectra[k] ** (0 - fL)] and its leg [vR] by
    [spectra[k+1] ** (1 - fR)], and [get_theta(i, 1, formL=0, formR=1)]
    computes the same outcome with the leg [p] renamed to [p0]: the same
    error if [get_B] fails, and otherwise a tensor with the same legs and
    the same entries whose labels differ only in that renaming.  Neither
    call changes the instance. *)
Theorem theta_one_site_is_B pinv w i k fL fR b Bv SL SR soL soR cutoff :
  pinv_matrix pinv ->
  fst (_to_valid_index i w) = Ok k ->
  nth_error (form (this w)) (Z.to_nat k) = Some (Some (fL, fR)) ->
  nth_error (_B (this w)) (Z.to_nat k) = Some b ->
  nth_error (heap w) b = Some (NpcArray Bv) ->
  well_formed Bv -> has_label Bv "p" = true ->
  py_getitem (_S (this w)) k = Ok SL ->
  py_getitem (_S (this w)) (k + 1) = Ok SR ->
  spectrum_at w SL soL -> spectrum_at w SR soR ->
  let v := convert_form_val pinv Bv soL soR (fL, fR) (0, 1)%R cutoff in
  yields w (get_B pinv i (FName "B") false cutoff w) v
  /\ yields w (get_theta pinv i 1 cutoff 0 1 w) (obind v relabel_p0)
  /\ forall T,
       v = Ok T ->
       exists T',
         relabel_p0 T = Ok T'
         /\ legs T' = legs T /\ data T' = data T
         /\ labels T' = rename_first "p" "p0" (labels T).
Proof.
  intros Hpinv Hk Hf Hb Hv Hwf Hp HSL HSR HoL HoR v.
  pose proof (well_formed_labels _ Hwf) as Hl.
  destruct (has_label_find _ _ Hp) as [kp Ep].
  assert (HR : exists Bv', relabel_p0 Bv = Ok Bv').
  { unfold relabel_p0. rewrite replace_label_rename, Ep. eauto. }
  destruct HR as [Bv' HR].
  split; [|split].
  - now apply get_B_form_B_yields with (k := k) (fL := fL) (fR := fR) (b := b)
                                       (SL := SL) (SR := SR).
  - unfold v. rewrite <- (theta_val_relabel pinv Hpinv Bv Bv') by auto.
    pose proof (get_theta_one_yields pinv w i k fL fR b Bv SL SR soL soR
                  cutoff Hk Hf Hb Hv HSL HSR HoL HoR) as H.
    rewrite HR in H. exact H.
  - intros T HT.
    destruct (convert_form_val_keeps pinv Hpinv _ _ _ _ _ _ _ _ Hl Ep HT)
      as [T' HT'].
    exists T'. split; [exact HT'|].
    unfold relabel_p0 in HT'. rewrite replace_label_rename in HT'.
    destruct (find_label (labels T) "p"); [|discriminate].
    injection HT' as <-. auto.
Qed.

Lemma pinv_example_matrix : pinv_matrix pinv_example.
Proof.
  intros a c a'. unfold pinv_example.
  destruct (Nat.eqb_spec (rank a) 2); [|discriminate]. now intros [= <-].
Qed.

Lemma theta_one_site_is_B_witness :
  let v := convert_form_val pinv_example B_unit
             (Some (NdArray (Nd1 [2%R]))) (Some (NdArray (Nd1 [4%R])))
             (1, 0)%R (0, 1)%R default_cutoff in
  yields seg_A (get_B pinv_example 0 (FName "B") false default_cutoff seg_A) v
  /\ yields seg_A (get_theta pinv_example 0 1 default_cutoff 0 1 seg_A)
            (obind v relabel_p0)
  /\ forall T,
       v = Ok T ->
       exists T',
         relabel_p0 T = Ok T'
         /\ legs T' = legs T /\ data T' = data T
         /\ labels T' = rename_first "p" "p0" (labels T).
Proof.
  apply (theta_one_site_is_B pinv_example seg_A 0 0 1 0 0 B_unit
           (Some 1) (Some 2)).
  - exact pinv_example_matrix.
  - reflexivity.
  - reflexivity.
  - reflexivity.
  - reflexivity.
  - reflexivity.
  - reflexivity.
  - reflexivity.
  - reflexivity.
  - reflexivity.
  - reflexivity.
Defined.

(** The value of the example: the entry [1.] rescaled by [2. ** -1] and
    [4. ** 1]. *)
Example theta_one_site_value :
  exists T,
    convert_form_val pinv_example B_unit
      (Some (NdArray (Nd1 [2%R]))) (Some (NdArray (Nd1 [4%R])))
      (1, 0)%R (0, 1)%R default_cutoff = Ok T.
Proof.
  eexists.
  apply (convert_form_val_vectors pinv_example B_unit [2%R] [4%R]
           (1, 0)%R (0, 1)%R default_cutoff 0 1);
    try reflexivity; repeat constructor; lra.
Qed.

(** * Further properties of the class

    ** Resolving a site index *)

(** X1: on an infinite chain every int is a site index: [i] resolves to
    [i mod L], a site of the unit cell, and indices that differ by a
    multiple of [L] resolve to the same site.  An empty unit cell makes the
    resolution raise [ZeroDivisionError]. *)
Theorem to_valid_index_infinite (w : world) (i m : Z) :
  bc (this w) = "infinite" ->
  let l := chain_length w in
  (l <> 0%Z ->
   _to_valid_index i w = (Ok (i mod l)%Z, w)
   /\ (0 <= i mod l < l)%Z
   /\ _to_valid_index (i + m * l) w = _to_valid_index i w)
  /\ (l = 0%Z -> _to_valid_index i w = (Raise ZeroDivisionError, w)).
Proof.
  intros Hb l.
  assert (Hv : valid_bc (bc (this w))) by (right; right; exact Hb).
  assert (Hrun : forall j,
            _to_valid_index j w = (lift (py_mod j l)) w).
  { intros j. unfold _to_valid_index.
    rewrite (bind_Ok _ _ _ _ _ (finite_run w Hv)), Hb.
    cbn [String.eqb Ascii.eqb Bool.eqb negb].
    now rewrite (bind_Ok _ _ _ _ _ (L_run w)). }
  split.
  - intros Hl. assert (E : (l =? 0)%Z = false) by now apply Z.eqb_neq.
    assert (Hpos : (0 < l)%Z) by (unfold l, chain_length in *; lia).
    split; [|split].
    + rewrite Hrun. unfold lift, py_mod. now rewrite E.
    + now apply Z.mod_pos_bound.
    + rewrite !Hrun. unfold lift, py_mod. rewrite E.
      now rewrite Z.mod_add.
  - intros Hl. rewrite Hrun. unfold lift, py_mod. rewrite Hl. reflexivity.
Qed.

Lemma to_valid_index_infinite_witness :
  _to_valid_index (-1) imps1 = (Ok 0%Z, imps1)
  /\ _to_valid_index 5 imps1 = (Ok 0%Z, imps1).
Proof.
  destruct (to_valid_index_infinite imps1 (-1) 0 eq_refl) as [H1 _].
  destruct (to_valid_index_infinite imps1 5 0 eq_refl) as [H2 _].
  split.
  - apply H1. discriminate.
  - apply H2. discriminate.
Defined.

(** X2: on a finite chain or a segment the valid indices are exactly
    [-L <= i < L]; a negative one counts from the right end, once.  Every
    other int raises the out-of-bounds error.  The world is never
    changed. *)
Theorem to_valid_index_bounded (w : world) (i : Z) :
  bc (this w) = "finite" \/ bc (this w) = "segment" ->
  let l := chain_length w in
  _to_valid_index i w
  = (if ((- l <=? i) && (i <? l))%Z
     then Ok (if (i <? 0)%Z then (i + l)%Z else i)
     else Raise (ValueError "i out of bounds for finite MPS"), w).
Proof.
  intros Hb l.
  assert (Hv : valid_bc (bc (this w)))
    by (destruct Hb; [left|right; left]; auto).
  assert (Hi : (bc (this w) =? "infinite")%string = false)
    by (destruct Hb as [-> | ->]; reflexivity).
  unfold _to_valid_index.
  rewrite (bind_Ok _ _ _ _ _ (finite_run w Hv)), Hi. cbn [negb].
  subst l. unfold chain_length. mred. cbn [fst snd].
  destruct (Z.ltb_spec i 0) as [Hneg|Hpos]; cbn [fst snd];
    remember (Z.of_nat (List.length (sites (this w)))) as l eqn:El;
    assert (Hl : (0 <= l)%Z) by lia; clear El.
  - destruct (Z.leb_spec (- l) i); cbn [andb].
    + assert (E1 : (i <? l)%Z = true) by lia.
      assert (E2 : (i + l >=? l)%Z = false) by lia.
      assert (E3 : (i + l <? 0)%Z = false) by lia.
      rewrite E1, E2, E3. reflexivity.
    + assert (E3 : (i + l <? 0)%Z = true) by lia.
      rewrite E3, orb_true_r. reflexivity.
  - assert (E0 : (- l <=? i)%Z = true) by (apply Z.leb_le; lia).
    assert (E3 : (i <? 0)%Z = false) by lia.
    rewrite E0, E3, orb_false_r. cbn [andb].
    rewrite Z.geb_leb. destruct (Z.ltb_spec i l).
    + assert (E : (l <=? i)%Z = false) by (apply Z.leb_gt; lia).
      now rewrite E.
    + assert (E : (l <=? i)%Z = true) by (apply Z.leb_le; lia).
      now rewrite E.
Qed.

Lemma to_valid_index_bounded_witness :
  _to_valid_index (-1) chain3 = (Ok 2%Z, chain3)
  /\ _to_valid_index 3 chain3
     = (Raise (ValueError "i out of bounds for finite MPS"), chain3)
  /\ _to_valid_index (-4) chain3
     = (Raise (ValueError "i out of bounds for finite MPS"), chain3).
Proof.
  split; [|split].
  - apply (to_valid_index_bounded chain3 (-1)). now right.
  - apply (to_valid_index_bounded chain3 3). now right.
  - apply (to_valid_index_bounded chain3 (-4)). now right.
Defined.

(** An invalid boundary condition makes index resolution fail. *)
Lemma to_valid_index_invalid i w :
  ~ valid_bc (bc (this w)) -> _to_valid_index i w = (Raise AssertionError, w).
Proof.
  intros H. unfold _to_valid_index.
  now rewrite (bind_Raise _ _ _ _ _ (finite_invalid w H)).
Qed.

(** X3: with a boundary condition other than the three valid ones, every
    accessor that takes a site index fails with the assertion of [finite],
    before reading or writing anything: the world is unchanged, also for
    the setters. *)
Theorem invalid_bc_accessors (pinv : Array -> R -> outcome Array) (w : world) :
  ~ valid_bc (bc (this w)) ->
  (forall i, _to_valid_index i w = (Raise AssertionError, w))
  /\ (forall i frm copy cutoff,
        get_B pinv i frm copy cutoff w = (Raise AssertionError, w))
  /\ (forall i B frm, set_B i B frm w = (Raise AssertionError, w))
  /\ (forall i, get_SL i w = (Raise AssertionError, w))
  /\ (forall i, get_SR i w = (Raise AssertionError, w))
  /\ (forall i sv, set_SL i sv w = (Raise AssertionError, w))
  /\ (forall i sv, set_SR i sv w = (Raise AssertionError, w))
  /\ (forall i n cutoff formL formR,
        get_theta pinv i n cutoff formL formR w = (Raise AssertionError, w)).
Proof.
  intros H. pose proof (fun i => to_valid_index_invalid i w H) as Hi.
  repeat split; intros;
    unfold get_B, set_B, get_SL, get_SR, set_SL, set_SR, get_theta;
    try apply Hi; apply bind_Raise; apply Hi.
Qed.

Lemma invalid_bc_accessors_witness :
  get_B pinv_example 0 (FName "B") false default_cutoff factory_start
  = (Raise AssertionError, factory_start)
  /\ set_SL 0 0 factory_start = (Raise AssertionError, factory_start).
Proof.
  assert (H : ~ valid_bc (bc (this factory_start))).
  { intros [H|[H|H]]; discriminate H. }
  destruct (invalid_bc_accessors pinv_example factory_start H)
    as (_ & HB & _ & _ & _ & HS & _).
  split; [apply HB|apply HS].
Defined.

(** ** Reading and writing spectra *)

(** Index resolution looks at the boundary condition and the number of
    sites only. *)
Lemma to_valid_index_frame i w w' :
  bc (this w') = bc (this w) -> sites (this w') = sites (this w) ->
  fst (_to_valid_index i w') = fst (_to_valid_index i w).
Proof.
  destruct w as [[s c f b B S0] h], w' as [[s' c' f' b' B' S'] h']. simpl.
  intros -> ->. unfold _to_valid_index, finite. mcases.
Qed.

Lemma set_SL_run w i k sv :
  fst (_to_valid_index i w) = Ok k ->
  List.length (_S (this w)) = S (List.length (sites (this w))) ->
  set_SL i sv w
  = (Ok tt,
     mkWorld
       (with_S
          (if (bc (this w) =? "infinite")%string && (k =? 0)%Z
           then list_set (list_set (_S (this w)) 0 (Some sv))
                  (List.length (sites (this w))) (Some sv)
           else list_set (_S (this w)) (Z.to_nat k) (Some sv))
          (this w))
       (heap w)).
Proof.
  intros Hk Hlen.
  pose proof (to_valid_index_range _ _ _ Hk) as Hr.
  pose proof (to_valid_index_bc _ _ _ Hk) as Hb.
  pose proof (to_valid_index_run _ _ _ Hk) as Hrun.
  unfold set_SL. rewrite (bind_Ok _ _ _ _ _ Hrun). mred.
  rewrite py_setitem_nat by lia.
  set (w1 := mkWorld _ _).
  rewrite (finite_run w1 Hb). subst w1. wsimpl.
  destruct (bc (this w) =? "infinite")%string; simpl negb; simpl andb;
    [|reflexivity].
  destruct (Z.eqb_spec k 0) as [->|Hne]; [|reflexivity].
  wsimpl.
  rewrite py_setitem_nat by (rewrite list_set_length; lia).
  rewrite Nat2Z.id. reflexivity.
Qed.

Lemma set_SR_run w i k sv :
  fst (_to_valid_index i w) = Ok k ->
  List.length (_S (this w)) = S (List.length (sites (this w))) ->
  set_SR i sv w
  = (Ok tt,
     mkWorld
       (with_S
          (if (bc (this w) =? "infinite")%string
              && (k =? Z.of_nat (List.length (sites (this w))) - 1)%Z
           then list_set (list_set (_S (this w))
                            (List.length (sites (this w))) (Some sv))
                  0 (Some sv)
           else list_set (_S (this w)) (S (Z.to_nat k)) (Some sv))
          (this w))
       (heap w)).
Proof.
  intros Hk Hlen.
  pose proof (to_valid_index_range _ _ _ Hk) as Hr.
  pose proof (to_valid_index_bc _ _ _ Hk) as Hb.
  pose proof (to_valid_index_run _ _ _ Hk) as Hrun.
  unfold set_SR. rewrite (bind_Ok _ _ _ _ _ Hrun). mred.
  rewrite py_setitem_nat by lia.
  replace (Z.to_nat (k + 1)) with (S (Z.to_nat k)) by lia.
  set (w1 := mkWorld _ _).
  rewrite (finite_run w1 Hb). subst w1. wsimpl.
  destruct (bc (this w) =? "infinite")%string; simpl negb; simpl andb;
    [|reflexivity].
  destruct (Z.eqb_spec k (Z.of_nat (List.length (sites (this w))) - 1))
    as [->|Hne]; [|reflexivity].
  wsimpl.
  rewrite py_setitem_nat by (rewrite list_set_length; lia).
  replace (S (Z.to_nat (Z.of_nat (List.length (sites (this w))) - 1)))
    with (List.length (sites (this w))) by lia.
  reflexivity.
Qed.

Lemma nth_error_list_set2 {A} (l : list A) a b x j :
  a < List.length l -> b < List.length l ->
  nth_error (list_set (list_set l a x) b x) j
  = if (j =? a)%nat || (j =? b)%nat then Some x else nth_error l j.
Proof.
  intros Ha Hb. rewrite nth_error_list_set by (rewrite list_set_length; lia).
  destruct (j =? b)%nat; [now rewrite orb_true_r|].
  rewrite orb_false_r. now apply nth_error_list_set.
Qed.

(** The spectra after [set_SL] and after [set_SR], read at the left (right)
    bond of a site. *)
Lemma set_SL_read (S0 : list (option ref)) n (inf : bool) k kj sv :
  List.length S0 = S n -> (0 <= k < Z.of_nat n)%Z ->
  (0 <= kj < Z.of_nat n)%Z ->
  nth_error (if inf && (k =? 0)%Z
             then list_set (list_set S0 0 (Some sv)) n (Some sv)
             else list_set S0 (Z.to_nat k) (Some sv)) (Z.to_nat kj)
  = if (kj =? k)%Z then Some (Some sv) else nth_error S0 (Z.to_nat kj).
Proof.
  intros Hlen Hk Hkj.
  destruct (inf && (k =? 0)%Z) eqn:E.
  - apply andb_true_iff in E. destruct E as [_ E]. apply Z.eqb_eq in E.
    rewrite nth_error_list_set2 by lia.
    destruct (Nat.eqb_spec (Z.to_nat kj) n); [lia|]. rewrite orb_false_r.
    destruct (Z.eqb_spec kj k), (Nat.eqb_spec (Z.to_nat kj) 0);
      try reflexivity; lia.
  - rewrite nth_error_list_set by lia.
    destruct (Z.eqb_spec kj k), (Nat.eqb_spec (Z.to_nat kj) (Z.to_nat k));
      try reflexivity; lia.
Qed.

Lemma set_SR_read (S0 : list (option ref)) n (inf : bool) k kj sv :
  List.length S0 = S n -> (0 <= k < Z.of_nat n)%Z ->
  (0 <= kj < Z.of_nat n)%Z ->
  nth_error (if inf && (k =? Z.of_nat n - 1)%Z
             then list_set (list_set S0 n (Some sv)) 0 (Some sv)
             else list_set S0 (S (Z.to_nat k)) (Some sv)) (S (Z.to_nat kj))
  = if (kj =? k)%Z then Some (Some sv) else nth_error S0 (S (Z.to_nat kj)).
Proof.
  intros Hlen Hk Hkj.
  destruct (inf && (k =? Z.of_nat n - 1)%Z) eqn:E.
  - apply andb_true_iff in E. destruct E as [_ E]. apply Z.eqb_eq in E.
    rewrite nth_error_list_set2 by lia.
    change (S (Z.to_nat kj) =? 0)%nat with false. rewrite orb_false_r.
    destruct (Z.eqb_spec kj k), (Nat.eqb_spec (S (Z.to_nat kj)) n);
      try reflexivity; lia.
  - rewrite nth_error_list_set by lia.
    destruct (Z.eqb_spec kj k),
      (Nat.eqb_spec (S (Z.to_nat kj)) (S (Z.to_nat k)));
      try reflexivity; lia.
Qed.

(** X4: a spectrum that was written is the one read back: after
    [set_SL(i, S)], [get_SL(i)] returns [S], and after [set_SR(i, S)],
    [get_SR(i)] returns [S]; the left (right) spectra of the other sites
    are as before. *)
Theorem spectrum_set_get (w : world) (i k : Z) (sv : ref) :
  fst (_to_valid_index i w) = Ok k ->
  List.length (_S (this w)) = S (List.length (sites (this w))) ->
  (exists w1,
     set_SL i sv w = (Ok tt, w1)
     /\ get_SL i w1 = (Ok (Some sv), w1)
     /\ forall j kj, fst (_to_valid_index j w) = Ok kj -> kj <> k ->
                     fst (get_SL j w1) = fst (get_SL j w))
  /\ (exists w2,
        set_SR i sv w = (Ok tt, w2)
        /\ get_SR i w2 = (Ok (Some sv), w2)
        /\ forall j kj, fst (_to_valid_index j w) = Ok kj -> kj <> k ->
                        fst (get_SR j w2) = fst (get_SR j w)).
Proof.
  intros Hk Hlen.
  pose proof (to_valid_index_range _ _ _ Hk) as Hr.
  set (n := List.length (sites (this w))) in *.
  split.
  - eexists. split; [apply (set_SL_run w i k sv Hk Hlen)|].
    set (w1 := mkWorld _ _).
    assert (Hf : forall j, fst (_to_valid_index j w1)
                           = fst (_to_valid_index j w))
      by (intros j; apply to_valid_index_frame; reflexivity).
    assert (Hread : forall kj, (0 <= kj < Z.of_nat n)%Z ->
              nth_error (_S (this w1)) (Z.to_nat kj)
              = if (kj =? k)%Z then Some (Some sv)
                else nth_error (_S (this w)) (Z.to_nat kj))
      by (intros kj Hkj; apply set_SL_read; auto).
    split.
    + apply get_SL_run with (k := k); [now rewrite Hf|].
      apply py_getitem_nat; [lia|]. rewrite Hread by lia.
      now rewrite Z.eqb_refl.
    + intros j kj Hj Hne.
      pose proof (to_valid_index_range _ _ _ Hj) as Hrj. fold n in Hrj.
      unfold get_SL.
      rewrite (bind_Ok _ _ _ _ _ (to_valid_index_run j w1 kj
                 ltac:(now rewrite Hf))).
      rewrite (bind_Ok _ _ _ _ _ (to_valid_index_run j w kj Hj)).
      rewrite !bind_self. unfold lift. cbn [fst].
      apply py_getitem_ext; [lia|]. rewrite Hread by lia.
      destruct (Z.eqb_spec kj k); [contradiction|reflexivity].
  - eexists. split; [apply (set_SR_run w i k sv Hk Hlen)|].
    set (w2 := mkWorld _ _).
    assert (Hf : forall j, fst (_to_valid_index j w2)
                           = fst (_to_valid_index j w))
      by (intros j; apply to_valid_index_frame; reflexivity).
    assert (Hread : forall kj, (0 <= kj < Z.of_nat n)%Z ->
              nth_error (_S (this w2)) (S (Z.to_nat kj))
              = if (kj =? k)%Z then Some (Some sv)
                else nth_error (_S (this w)) (S (Z.to_nat kj)))
      by (intros kj Hkj; apply set_SR_read; auto).
    assert (Hnat : forall kj, (0 <= kj)%Z ->
                              Z.to_nat (kj + 1) = S (Z.to_nat kj))
      by (intros; lia).
    split.
    + apply get_SR_run with (k := k); [now rewrite Hf|].
      apply py_getitem_nat; [lia|]. rewrite Hnat by lia.
      rewrite Hread by lia. now rewrite Z.eqb_refl.
    + intros j kj Hj Hne.
      pose proof (to_valid_index_range _ _ _ Hj) as Hrj. fold n in Hrj.
      unfold get_SR.
      rewrite (bind_Ok _ _ _ _ _ (to_valid_index_run j w2 kj
                 ltac:(now rewrite Hf))).
      rewrite (bind_Ok _ _ _ _ _ (to_valid_index_run j w kj Hj)).
      rewrite !bind_self. unfold lift. cbn [fst].
      apply py_getitem_ext; [lia|]. rewrite !Hnat by lia.
      rewrite Hread by lia.
      destruct (Z.eqb_spec kj k); [contradiction|reflexivity].
Qed.

Lemma spectrum_set_get_witness :
  (exists w1,
     set_SL 0 2 imps1 = (Ok tt, w1)
     /\ get_SL 0 w1 = (Ok (Some 2), w1)
     /\ forall j kj, fst (_to_valid_index j imps1) = Ok kj -> kj <> 0%Z ->
                     fst (get_SL j w1) = fst (get_SL j imps1))
  /\ (exists w2,
        set_SR 0 2 imps1 = (Ok tt, w2)
        /\ get_SR 0 w2 = (Ok (Some 2), w2)
        /\ forall j kj, fst (_to_valid_index j imps1) = Ok kj -> kj <> 0%Z ->
                        fst (get_SR j w2) = fst (get_SR j imps1)).
Proof. apply (spectrum_set_get imps1 0 0 2); reflexivity. Defined.

(** An index inside the chain resolves to itself. *)
Lemma to_valid_index_self k w :
  valid_bc (bc (this w)) ->
  (0 <= k < Z.of_nat (List.length (sites (this w))))%Z ->
  _to_valid_index k w = (Ok k, w).
Proof.
  intros Hb Hr.
  unfold _to_valid_index. rewrite (bind_Ok _ _ _ _ _ (finite_run w Hb)).
  destruct (negb (negb _)); mred.
  - unfold py_mod.
    destruct (Z.eqb_spec (Z.of_nat (List.length (sites (this w)))) 0); [lia|].
    rewrite Z.mod_small by lia. reflexivity.
  - assert (E1 : (k <? 0)%Z = false) by lia.
    assert (E2 : (k >=? Z.of_nat (List.length (sites (this w))))%Z = false)
      by lia.
    rewrite E1. cbn [fst snd]. rewrite E1, E2. reflexivity.
Qed.

(** On an infinite chain the index [L] is site 0 again. *)
Lemma to_valid_index_wrap w :
  bc (this w) = "infinite" ->
  (0 < Z.of_nat (List.length (sites (this w))))%Z ->
  _to_valid_index (Z.of_nat (List.length (sites (this w)))) w = (Ok 0%Z, w).
Proof.
  intros Hb Hl.
  assert (Hv : valid_bc (bc (this w))) by (right; right; exact Hb).
  unfold _to_valid_index.
  rewrite (bind_Ok _ _ _ _ _ (finite_run w Hv)), Hb.
  cbn [String.eqb Ascii.eqb Bool.eqb negb].
  rewrite (bind_Ok _ _ _ _ _ (L_run w)). unfold lift, py_mod.
  destruct (Z.eqb_spec (Z.of_nat (List.length (sites (this w)))) 0); [lia|].
  now rewrite Z_mod_same_full.
Qed.

(** X5: the right spectrum of a site is the left spectrum of the next one:
    [get_SR(i)] returns what [get_SL(k+1)] returns, [k] being the site [i]
    resolves to, whenever [k+1] is a site, and on an infinite chain, whose
    stored [spectra[L]] is [spectra[0]], also across the end of the unit
    cell. *)
Theorem right_spectrum_is_next_left (w : world) (i k : Z) :
  fst (_to_valid_index i w) = Ok k ->
  List.length (_S (this w)) = S (List.length (sites (this w))) ->
  (k + 1 < chain_length w)%Z
  \/ (bc (this w) = "infinite"
      /\ nth_error (_S (this w)) (List.length (sites (this w)))
         = nth_error (_S (this w)) 0) ->
  get_SR i w = get_SL (k + 1) w.
Proof.
  intros Hk Hlen Hcase. unfold chain_length in Hcase.
  pose proof (to_valid_index_range _ _ _ Hk) as Hr.
  pose proof (to_valid_index_bc _ _ _ Hk) as Hb.
  unfold get_SR, get_SL.
  rewrite (bind_Ok _ _ _ _ _ (to_valid_index_run _ _ _ Hk)), bind_self.
  destruct (Z.ltb_spec (k + 1) (Z.of_nat (List.length (sites (this w)))))
    as [Hlt|Hge].
  - rewrite (bind_Ok _ _ _ _ _ (to_valid_index_self (k + 1) w Hb
               ltac:(lia))).
    now rewrite bind_self.
  - destruct Hcase as [Hlt|[Hinf Hmir]]; [lia|].
    assert (Ek : (k + 1)%Z = Z.of_nat (List.length (sites (this w))))
      by lia.
    rewrite Ek.
    rewrite (bind_Ok _ _ _ _ _ (to_valid_index_wrap w Hinf ltac:(lia))).
    rewrite bind_self. unfold lift. f_equal.
    unfold py_getitem. rewrite Hlen.
    assert (E1 : (Z.of_nat (List.length (sites (this w))) <? 0)%Z = false)
      by lia.
    assert (E2 : (Z.of_nat (S (List.length (sites (this w))))
                  <=? Z.of_nat (List.length (sites (this w))))%Z = false)
      by (apply Z.leb_gt; lia).
    assert (E3 : (Z.of_nat (S (List.length (sites (this w)))) <=? 0)%Z
                 = false) by (apply Z.leb_gt; lia).
    cbv zeta. rewrite E1, E2. change (0 <? 0)%Z with false. cbv iota.
    rewrite E3. cbn [orb]. rewrite Nat2Z.id. change (Z.to_nat 0) with 0.
    rewrite E1. change (0 <? 0)%Z with false. cbn [orb].
    now rewrite Hmir.
Qed.

Lemma right_spectrum_is_next_left_witness :
  get_SR 0 imps1 = get_SL 1 imps1
  /\ get_SR 0 chain3 = get_SL 1 chain3.
Proof.
  split.
  - apply (right_spectrum_is_next_left imps1 0 0); try reflexivity.
    right. split; reflexivity.
  - apply (right_spectrum_is_next_left chain3 0 0); try reflexivity.
    left. reflexivity.
Defined.

(** X6: on an infinite chain the setters keep the two ends of the unit cell
    together: if [spectra[L]] is [spectra[0]] before [set_SL] or [set_SR],
    the call succeeds and it is so afterwards; the sites and the number of
    spectra are unchanged. *)
Theorem setters_keep_mirror (w : world) (i k : Z) (sv : ref) :
  mirrored w ->
  fst (_to_valid_index i w) = Ok k ->
  exists w1 w2,
    set_SL i sv w = (Ok tt, w1) /\ set_SR i sv w = (Ok tt, w2)
    /\ mirrored w1 /\ mirrored w2
    /\ sites (this w1) = sites (this w) /\ sites (this w2) = sites (this w).
Proof.
  intros (Hb & Hlen & Hmir) Hk.
  pose proof (to_valid_index_range _ _ _ Hk) as Hr.
  eexists. eexists.
  split; [apply (set_SL_run w i k sv Hk Hlen)|].
  split; [apply (set_SR_run w i k sv Hk Hlen)|].
  unfold mirrored. wsimpl.
  set (n := List.length (sites (this w))) in *.
  rewrite Hb. cbn [String.eqb Ascii.eqb Bool.eqb andb].
  split; [|split; [|split; reflexivity]].
  - split; [reflexivity|].
    destruct (Z.eqb_spec k 0) as [E|E].
    + split; [rewrite !list_set_length; exact Hlen|].
      rewrite !nth_error_list_set2 by lia.
      rewrite Nat.eqb_refl, orb_true_r. reflexivity.
    + split; [rewrite list_set_length; exact Hlen|].
      rewrite !nth_error_list_set by lia.
      destruct (Nat.eqb_spec n (Z.to_nat k)); [lia|].
      destruct (Nat.eqb_spec 0 (Z.to_nat k)); [lia|]. exact Hmir.
  - split; [reflexivity|].
    destruct (Z.eqb_spec k (Z.of_nat n - 1)) as [E|E].
    + split; [rewrite !list_set_length; exact Hlen|].
      rewrite !nth_error_list_set2 by lia.
      rewrite Nat.eqb_refl. cbn [orb]. now rewrite orb_true_r.
    + split; [rewrite list_set_length; exact Hlen|].
      rewrite !nth_error_list_set by lia.
      destruct (Nat.eqb_spec n (S (Z.to_nat k))); [lia|]. exact Hmir.
Qed.

Lemma setters_keep_mirror_witness :
  exists w1 w2,
    set_SL 0 2 imps1 = (Ok tt, w1) /\ set_SR 0 2 imps1 = (Ok tt, w2)
    /\ mirrored w1 /\ mirrored w2
    /\ sites (this w1) = sites (this imps1)
    /\ sites (this w2) = sites (this imps1).
Proof.
  apply (setters_keep_mirror imps1 0 0 2); [|reflexivity].
  repeat split.
Defined.

(** ** Reading and writing tensors *)

Lemma tag_eqb_refl t : tag_eqb t t = true.
Proof.
  destruct t as [[a b]|]; simpl; [|reflexivity]. now rewrite !Reqb_refl.
Qed.

Lemma to_valid_form_run frm w :
  _to_valid_form frm w = (fst (_to_valid_form frm w), w).
Proof. destruct frm; reflexivity. Qed.

Lemma to_valid_form_world frm w w' :
  fst (_to_valid_form frm w') = fst (_to_valid_form frm w).
Proof. destruct frm; reflexivity. Qed.

(** Asking for the form a tensor is stored in, or for no form, returns the
    stored object or a copy of it. *)
Lemma get_B_same_form pinv w i k b t frm copy cutoff :
  fst (_to_valid_index i w) = Ok k ->
  nth_error (form (this w)) (Z.to_nat k) = Some t ->
  nth_error (_B (this w)) (Z.to_nat k) = Some b ->
  fst (_to_valid_form frm w) = Ok t \/ frm = FNone ->
  get_B pinv i frm copy cutoff w
  = (if copy then npc_copy b else ret b) w.
Proof.
  intros Hk Hf Hb Hfrm. pose proof (to_valid_index_range _ _ _ Hk) as Hr.
  unfold get_B. rewrite (bind_Ok _ _ _ _ _ (to_valid_index_run _ _ _ Hk)).
  assert (Ht : exists t', _to_valid_form frm w = (Ok t', w)
                          /\ (t' = None \/ t' = t)).
  { destruct Hfrm as [H| ->].
    - exists t. rewrite to_valid_form_run, H. auto.
    - exists None. split; [reflexivity|auto]. }
  destruct Ht as (t' & Ht & Hcase).
  rewrite (bind_Ok _ _ _ _ _ Ht), bind_self.
  rewrite (py_getitem_nat _ _ _ (proj1 Hr) Hb), bind_lift_Ok.
  rewrite (py_getitem_nat _ _ _ (proj1 Hr) Hf), bind_lift_Ok.
  unfold _convert_form_i.
  destruct Hcase as [-> | ->]; [reflexivity|].
  now rewrite tag_eqb_refl, orb_true_r.
Qed.

(** X7: [get_B] returns a view or a copy.  Asked for the form the tensor is
    stored in, or for no form, [get_B] with [copy=False] returns the stored
    object itself and changes nothing; with [copy=True] it returns a new
    object with the same content, the stored object and the instance being
    untouched. *)
Theorem get_B_view_or_copy (pinv : Array -> R -> outcome Array) (w : world)
    (i k : Z) (b : ref) (t : form_tag) (Bv : Array) (frm : form_spec)
    (cutoff : R) :
  fst (_to_valid_index i w) = Ok k ->
  nth_error (form (this w)) (Z.to_nat k) = Some t ->
  nth_error (_B (this w)) (Z.to_nat k) = Some b ->
  nth_error (heap w) b = Some (NpcArray Bv) ->
  fst (_to_valid_form frm w) = Ok t \/ frm = FNone ->
  get_B pinv i frm false cutoff w = (Ok b, w)
  /\ get_B pinv i frm true cutoff w
     = (Ok (List.length (heap w)),
        mkWorld (this w) (heap w ++ [NpcArray Bv]))
  /\ b <> List.length (heap w).
Proof.
  intros Hk Hf Hb Hv Hfrm. split; [|split].
  - now rewrite (get_B_same_form pinv w i k b t frm false cutoff).
  - rewrite (get_B_same_form pinv w i k b t frm true cutoff) by assumption.
    now rewrite (npc_copy_run _ _ _ Hv).
  - assert (b < List.length (heap w)) by (apply nth_error_Some; congruence).
    lia.
Qed.

Lemma get_B_view_or_copy_witness :
  get_B pinv_example 0 (FName "B") false default_cutoff imps1 = (Ok 0, imps1)
  /\ get_B pinv_example 0 (FName "B") true default_cutoff imps1
     = (Ok 4, mkWorld (this imps1) (heap imps1 ++ [NpcArray B_unit]))
  /\ 0 <> 4.
Proof.
  apply (get_B_view_or_copy pinv_example imps1 0 0 0 (Some (0, 1)%R) B_unit
           (FName "B") default_cutoff); try reflexivity.
  left. reflexivity.
Defined.

(** X8: a tensor that was written is the one read back.  On a state with
    one form tag and one tensor per site, [set_B(i, B, form)] with a valid
    form stores the reference and the tag of the form at the site [i]
    resolves to, and nothing else; afterwards [get_B(i, form)] and
    [get_B(i, None)] return [B] itself, without conversion and without a
    copy. *)
Theorem tensor_set_get (pinv : Array -> R -> outcome Array) (w : world)
    (i k : Z) (b : ref) (frm : form_spec) (t : form_tag) (cutoff : R) :
  fst (_to_valid_index i w) = Ok k ->
  fst (_to_valid_form frm w) = Ok t ->
  List.length (form (this w)) = List.length (sites (this w)) ->
  List.length (_B (this w)) = List.length (sites (this w)) ->
  let w1 := mkWorld
              (with_B (list_set (_B (this w)) (Z.to_nat k) b)
                 (with_form (list_set (form (this w)) (Z.to_nat k) t)
                    (this w)))
              (heap w) in
  set_B i b frm w = (Ok tt, w1)
  /\ get_B pinv i frm false cutoff w1 = (Ok b, w1)
  /\ get_B pinv i FNone false cutoff w1 = (Ok b, w1).
Proof.
  intros Hk Ht Hlf HlB w1.
  pose proof (to_valid_index_range _ _ _ Hk) as Hr.
  assert (Hset : set_B i b frm w = (Ok tt, w1)).
  { unfold set_B. rewrite (bind_Ok _ _ _ _ _ (to_valid_index_run _ _ _ Hk)).
    assert (Hrun : _to_valid_form frm w = (Ok t, w))
      by (rewrite to_valid_form_run, Ht; reflexivity).
    rewrite (bind_Ok _ _ _ _ _ Hrun), bind_self.
    rewrite py_setitem_nat by lia. rewrite bind_lift_Ok.
    unfold bind at 1, set_self at 1. rewrite bind_self.
    cbn [this _B with_form].
    rewrite py_setitem_nat by lia. rewrite bind_lift_Ok. reflexivity. }
  assert (Hk1 : fst (_to_valid_index i w1) = Ok k)
    by (rewrite <- Hk; apply to_valid_index_frame; reflexivity).
  assert (Hf1 : nth_error (form (this w1)) (Z.to_nat k) = Some t)
    by (apply nth_error_list_set_same; lia).
  assert (Hb1 : nth_error (_B (this w1)) (Z.to_nat k) = Some b)
    by (apply nth_error_list_set_same; lia).
  split; [exact Hset|]. split.
  - rewrite (get_B_same_form pinv w1 i k b t frm false cutoff); auto.
    left. rewrite <- Ht. apply to_valid_form_world.
  - rewrite (get_B_same_form pinv w1 i k b t FNone false cutoff); auto.
Qed.

Lemma tensor_set_get_witness :
  let w1 := mkWorld
              (with_B [0] (with_form [Some (/ 2, / 2)%R] (this imps1)))
              (heap imps1) in
  set_B 0 0 (FName "C") imps1 = (Ok tt, w1)
  /\ get_B pinv_example 0 (FName "C") false default_cutoff w1 = (Ok 0, w1)
  /\ get_B pinv_example 0 FNone false default_cutoff w1 = (Ok 0, w1).
Proof.
  apply (tensor_set_get pinv_example imps1 0 0 0 (FName "C")
           (Some (/ 2, / 2)%R) default_cutoff); reflexivity.
Defined.

(** ** Computations that only look *)

Lemma obs_read_only {A} (m : M A) : read_only m -> observer m.
Proof. intros H w. rewrite H. split; [reflexivity|apply extends_refl]. Qed.

Lemma obs_alloc o : observer (alloc o).
Proof. intros w. split; [reflexivity|apply extends_app]. Qed.

Lemma obs_bind {A B} (m : M A) (k : A -> M B) :
  observer m -> (forall a, observer (k a)) -> observer (bind m k).
Proof.
  intros Hm Hk w. unfold bind. destruct (Hm w) as [H1 H2].
  destruct (m w) as [[a|e|x] w1]; cbn [fst snd] in *; auto.
  destruct (Hk a w1) as [H3 H4]. split; [congruence|].
  eapply extends_trans; eauto.
Qed.

Lemma obs_for_fold {X S} (l : list X) (s : S) body :
  (forall s x, observer (body s x)) -> observer (for_fold l s body).
Proof.
  intros Hb. revert s. induction l as [|x l IH]; intros s; simpl.
  - apply obs_read_only, ro_ret.
  - apply obs_bind; auto.
Qed.

Lemma obs_mapM {A B} (f : A -> M B) l :
  (forall a, observer (f a)) -> observer (mapM f l).
Proof.
  intros Hf. induction l as [|a l IH]; simpl.
  - apply obs_read_only, ro_ret.
  - apply obs_bind; [apply Hf|]. intros b.
    apply obs_bind; [apply IH|]. intros bs. apply obs_read_only, ro_ret.
Qed.

Create HintDb obs.
#[export] Hint Resolve obs_alloc : obs.

Ltac obs_step :=
  first
    [ solve [eauto with obs]
    | solve [apply obs_read_only; ro]
    | apply obs_bind; [|intros ?]
    | apply obs_for_fold; intros ? ?
    | match goal with
      | |- observer (if ?c then _ else _) => destruct c
      | |- observer (match ?x with _ => _ end) => destruct x
      | |- observer (let '(_, _) := ?x in _) => destruct x
      | |- observer ((match ?x with _ => _ end) _) => destruct x; cbv beta
      end ].

Ltac obs := repeat obs_step.

Lemma ro_get_SL i : read_only (get_SL i).
Proof. unfold get_SL. pose proof ro_to_valid_index. ro. Qed.

Lemma ro_get_SR i : read_only (get_SR i).
Proof. unfold get_SR. pose proof ro_to_valid_index. ro. Qed.

Lemma obs_to_valid_index i : observer (_to_valid_index i).
Proof. apply obs_read_only, ro_to_valid_index. Qed.

Lemma obs_get_SL i : observer (get_SL i).
Proof. apply obs_read_only, ro_get_SL. Qed.

Lemma obs_get_SR i : observer (get_SR i).
Proof. apply obs_read_only, ro_get_SR. Qed.

Lemma obs_npc_copy b : observer (npc_copy b).
Proof. unfold npc_copy. obs. Qed.

Lemma obs_npc_replace_label b old new :
  observer (npc_replace_label b old new).
Proof. unfold npc_replace_label. obs. Qed.

Lemma obs_npc_scale_axis b s ax : observer (npc_scale_axis b s ax).
Proof. unfold npc_scale_axis, as_nd. obs. Qed.

Lemma obs_npc_tensordot a b axesA axesB :
  observer (npc_tensordot a b axesA axesB).
Proof. unfold npc_tensordot. obs. Qed.

Lemma obs_np_pow s e : observer (np_pow s e).
Proof. unfold np_pow, as_nd. obs. Qed.

#[export] Hint Resolve obs_to_valid_index obs_get_SL obs_get_SR obs_npc_copy
  obs_npc_replace_label obs_npc_scale_axis obs_npc_tensordot obs_np_pow : obs.

Section Observers.

Variable pinv : Array -> R -> outcome Array.

Lemma obs_npc_pinv s cutoff : observer (npc_pinv pinv s cutoff).
Proof. unfold npc_pinv. obs. Qed.

Lemma obs_scale_axis_B B sv d axis_B cutoff :
  observer (_scale_axis_B pinv B sv d axis_B cutoff).
Proof. pose proof obs_npc_pinv. unfold _scale_axis_B. obs. Qed.

Lemma obs_convert_form_i B i f nf copy cutoff :
  observer (_convert_form_i pinv B i f nf copy cutoff).
Proof.
  pose proof obs_scale_axis_B. unfold _convert_form_i.
  destruct (_ || _); [obs|]. destruct f as [[oL oR]|]; [|obs].
  destruct nf as [[nL nR]|]; obs.
Qed.

Lemma obs_get_B i frm copy cutoff : observer (get_B pinv i frm copy cutoff).
Proof.
  pose proof obs_convert_form_i. unfold get_B, _to_valid_form. obs.
Qed.

Lemma obs_get_theta i n cutoff formL formR :
  observer (get_theta pinv i n cutoff formL formR).
Proof.
  pose proof obs_get_B. pose proof obs_scale_axis_B.
  unfold get_theta. obs.
Qed.

Lemma obs_expectation_value ops sites_ axes :
  observer (expectation_value pinv ops sites_ axes).
Proof.
  pose proof obs_get_theta. unfold expectation_value, npc_inner. obs.
Qed.

End Observers.

Lemma ro_chi : read_only chi.
Proof.
  unfold chi, nontrivial_bonds. ro. apply ro_mapM. intros x. ro.
Qed.

(** X9: the reading methods only look.  [get_B], [get_theta] and
    [expectation_value] never change the instance and never touch an object
    that exists: whatever they return or raise, the heap afterwards is the
    heap before, followed by the objects they created.  [get_SL], [get_SR],
    [test_sanity], [chi] and [dim] leave the whole world as it is. *)
Theorem reading_methods_only_look (pinv : Array -> R -> outcome Array) :
  (forall i frm copy cutoff, observer (get_B pinv i frm copy cutoff))
  /\ (forall i n cutoff formL formR,
        observer (get_theta pinv i n cutoff formL formR))
  /\ (forall ops sites_ axes,
        observer (expectation_value pinv ops sites_ axes))
  /\ (forall i, read_only (get_SL i))
  /\ (forall i, read_only (get_SR i))
  /\ read_only test_sanity
  /\ read_only chi
  /\ read_only MPS_dim.
Proof.
  split; [intros; apply obs_get_B|].
  split; [intros; apply obs_get_theta|].
  split; [intros; apply obs_expectation_value|].
  split; [apply ro_get_SL|]. split; [apply ro_get_SR|].
  split; [apply ro_test_sanity|]. split; [apply ro_chi|].
  unfold MPS_dim. ro.
Qed.

(** ** Parsing forms *)

Lemma mapM_length {A B} (f : A -> M B) l w r w' :
  mapM f l w = (Ok r, w') -> List.length r = List.length l.
Proof.
  revert w r w'. induction l as [|a l IH]; intros w r w'; simpl.
  - now intros [= <- _].
  - intros H. apply bind_Ok_inv in H. destruct H as (b & w1 & _ & H).
    apply bind_Ok_inv in H. destruct H as (bs & w2 & H2 & H).
    injection H as <- _. simpl. f_equal. exact (IH _ _ _ H2).
Qed.

Lemma ro_to_valid_form f : read_only (_to_valid_form f).
Proof. unfold _to_valid_form. destruct f; ro. Qed.

(** A parsed form has one tag per site. *)
Lemma parse_form_length frm w fl w' :
  _parse_form frm w = (Ok fl, w') ->
  List.length fl = List.length (sites (this w)).
Proof.
  unfold _parse_form.
  assert (Hgen : forall fl0 : list form_spec,
    ((fl1 <- (match fl0 with
              | [f] => l <- L ;; ret (repeat f (Z.to_nat l))
              | _ => ret fl0
              end) ;;
      l <- L ;;
      if negb (Z.of_nat (List.length fl1) =? l)%Z
      then raise (ValueError "Wrong len of `form`: ")
      else mapM _to_valid_form fl1) w = (Ok fl, w')) ->
    List.length fl = List.length (sites (this w))).
  { intros fl0 H. apply bind_Ok_inv in H.
    destruct H as (fl1 & w1 & H1 & H).
    assert (Hw1 : w1 = w).
    { assert (Hro : read_only
                (match fl0 with
                 | [f] => l <- L ;; ret (repeat f (Z.to_nat l))
                 | _ => ret fl0
                 end)) by (destruct fl0 as [|f [|g fl0]]; ro).
      specialize (Hro w). now rewrite H1 in Hro. }
    subst w1. rewrite (bind_Ok _ _ _ _ _ (L_run w)) in H.
    destruct (Z.eqb_spec (Z.of_nat (List.length fl1))
                         (Z.of_nat (List.length (sites (this w)))))
      as [E|E]; cbn [negb] in H; [|discriminate].
    apply mapM_length in H. lia. }
  destruct frm as [[s| |a b]|l].
  - apply (Hgen [FName s]).
  - apply (Hgen [FNone]).
  - rewrite (bind_Ok _ _ _ _ _ (L_run w)).
    intros [= <- _]. rewrite repeat_length. lia.
  - apply (Hgen l).
Qed.

(** X10: [_parse_form] gives one form tag per site.  Whenever it succeeds
    the result has length [L] and the world is unchanged; an exponent pair
    is repeated [L] times without being looked at; a list that has neither
    one entry nor [L] entries raises the wrong-length error. *)
Theorem parse_form_per_site (w : world) :
  let n := List.length (sites (this w)) in
  (forall frm fl w',
     _parse_form frm w = (Ok fl, w') -> w' = w /\ List.length fl = n)
  /\ (forall a b,
        _parse_form (FOne (FTuple a b)) w = (Ok (repeat (Some (a, b)) n), w))
  /\ (forall l,
        List.length l <> 1 -> List.length l <> n ->
        _parse_form (FList l) w
        = (Raise (ValueError "Wrong len of `form`: "), w)).
Proof.
  intros n. split; [|split].
  - intros frm fl w' H. split.
    + pose proof (ro_parse_form frm w) as Hro. now rewrite H in Hro.
    + now apply parse_form_length in H.
  - intros a b. unfold _parse_form.
    rewrite (bind_Ok _ _ _ _ _ (L_run w)). unfold ret.
    now rewrite Nat2Z.id.
  - intros l H1 Hn. unfold _parse_form.
    assert (E : (match l with
                 | [f] => l0 <- L ;; ret (repeat f (Z.to_nat l0))
                 | _ => ret l
                 end) w = (Ok l, w)).
    { destruct l as [|f [|g l]]; try reflexivity. simpl in H1. lia. }
    rewrite (bind_Ok _ _ _ _ _ E), (bind_Ok _ _ _ _ _ (L_run w)).
    destruct (Z.eqb_spec (Z.of_nat (List.length l))
                         (Z.of_nat (List.length (sites (this w)))));
      [unfold n in Hn; lia|reflexivity].
Qed.

(** ** Converting to the form the chain is in *)

Lemma list_set_same {A} (l : list A) k x :
  nth_error l k = Some x -> list_set l k x = l.
Proof.
  revert k. induction l as [|h t IH]; intros [|k]; simpl; try discriminate.
  - now intros [= ->].
  - intros H. f_equal. now apply IH.
Qed.

Lemma for_each_fixed {X} (l : list X) body w :
  (forall x, In x l -> body x w = (Ok tt, w)) ->
  for_each l body w = (Ok tt, w).
Proof.
  induction l as [|x l IH]; intros H; simpl; [reflexivity|].
  rewrite (bind_Ok _ _ _ _ _ (H x (or_introl eq_refl))).
  apply IH. intros y Hy. apply H. now right.
Qed.

Lemma world_eta w : mkWorld (this w) (heap w) = w.
Proof. now destruct w. Qed.

Lemma with_form_B_same s : with_B (_B s) (with_form (form s) s) = s.
Proof. now destruct s. Qed.

(** One round of the loop of [convert_form] at a site that already has the
    requested form. *)
Lemma convert_step_fixed (pinv : Array -> R -> outcome Array) (w : world)
    (k : nat) (t : form_tag) (b : ref) :
  valid_bc (bc (this w)) ->
  k < List.length (sites (this w)) ->
  nth_error (form (this w)) k = Some t ->
  nth_error (_B (this w)) k = Some b ->
  (new_B <- get_B pinv (Z.of_nat k) (spec_of_tag t) false default_cutoff ;;
   set_B (Z.of_nat k) new_B (spec_of_tag t)) w = (Ok tt, w).
Proof.
  intros Hbc Hk Ht Hb.
  assert (Hlf : k < List.length (form (this w)))
    by (apply nth_error_Some; congruence).
  assert (HlB : k < List.length (_B (this w)))
    by (apply nth_error_Some; congruence).
  assert (Hrun : _to_valid_index (Z.of_nat k) w = (Ok (Z.of_nat k), w))
    by (apply to_valid_index_self; [exact Hbc|lia]).
  assert (Hget : get_B pinv (Z.of_nat k) (spec_of_tag t) false
                   default_cutoff w = (Ok b, w)).
  { rewrite (get_B_same_form pinv w (Z.of_nat k) (Z.of_nat k) b t);
      rewrite ?Nat2Z.id; auto.
    - now rewrite Hrun.
    - left. now rewrite to_valid_form_tag. }
  rewrite (bind_Ok _ _ _ _ _ Hget). unfold set_B.
  rewrite (bind_Ok _ _ _ _ _ Hrun).
  rewrite (bind_Ok _ _ _ _ _ (to_valid_form_tag t w)), bind_self.
  rewrite py_setitem_nat by lia. rewrite bind_lift_Ok.
  unfold bind at 1, set_self at 1. rewrite bind_self.
  cbn [this _B with_form].
  rewrite py_setitem_nat by lia. rewrite bind_lift_Ok.
  unfold set_self. cbn [this heap]. rewrite !Nat2Z.id.
  rewrite (list_set_same _ _ _ Ht), (list_set_same _ _ _ Hb).
  now rewrite with_form_B_same, world_eta.
Qed.

(** X11: converting to the forms the sites already have changes nothing.
    If the requested form parses to the form tags of the state, which has
    one tensor per site, [convert_form] succeeds and the world afterwards
    is the world before: no tensor is rescaled, copied or replaced. *)
Theorem convert_form_same (pinv : Array -> R -> outcome Array) (w : world)
    (frm : form_arg) :
  valid_bc (bc (this w)) ->
  List.length (_B (this w)) = List.length (sites (this w)) ->
  _parse_form frm w = (Ok (form (this w)), w) ->
  convert_form pinv frm w = (Ok tt, w).
Proof.
  intros Hbc HlB Hparse.
  pose proof (parse_form_length _ _ _ _ Hparse) as Hlf.
  unfold convert_form. rewrite (bind_Ok _ _ _ _ _ Hparse).
  apply for_each_fixed. intros [i t] Hin.
  apply In_enumerate_inv in Hin. destruct Hin as (k & -> & Ht).
  assert (Hk : k < List.length (sites (this w)))
    by (rewrite <- Hlf; apply nth_error_Some; congruence).
  destruct (nth_error (_B (this w)) k) as [b|] eqn:Hb;
    [|apply nth_error_None in Hb; lia].
  now apply convert_step_fixed with (b := b).
Qed.

Lemma convert_form_same_witness :
  convert_form pinv_example (FOne (FName "B")) imps1 = (Ok tt, imps1).
Proof.
  apply convert_form_same.
  - right. right. reflexivity.
  - reflexivity.
  - reflexivity.
Defined.

(** ** What validation establishes *)

Lemma ro_Ok {A} (m : M A) w a w' :
  read_only m -> m w = (Ok a, w') -> w' = w.
Proof. intros Hro H. specialize (Hro w). now rewrite H in Hro. Qed.

Lemma lift_Ok_eq {A} (o : outcome A) w a w' :
  lift o w = (Ok a, w') -> o = Ok a.
Proof. intros H. now apply lift_Ok in H. Qed.

(** One round of the loop of [test_sanity]. *)
Lemma test_sanity_site w (k : nat) b (u : unit) w'
    (rest : Array -> M unit) :
  (a <- as_npc b ;;
   (if negb (forallb (has_label a) ["vL"; "vR"; "p"])
    then raise (ValueError "B has wrong labels ") else ret tt) ;;
   lift (array_test_sanity a) ;;
   Si <- lift (py_getitem (_S (this w)) (Z.of_nat k)) ;;
   shi <- obj_shape Si ;;
   dL <- lift (py_getitem shi (-1)) ;;
   legL <- lift (get_leg a (AxLabel "vL")) ;;
   (if negb (dL =? ind_len legL)%nat
    then raise (ValueError
           "shape of B incompatible with len of singular values")
    else
      Sj <- lift (py_getitem (_S (this w)) (Z.of_nat k + 1)) ;;
      shj <- obj_shape Sj ;;
      dR <- lift (py_getitem shj 0) ;;
      legR <- lift (get_leg a (AxLabel "vR")) ;;
      if negb (dR =? ind_len legR)%nat
      then raise (ValueError
             "shape of B incompatible with len of singular values")
      else ret tt) ;;
   rest a) w = (Ok u, w') ->
  site_fits w k b.
Proof.
  intros H.
  apply bind_Ok_inv in H. destruct H as (a & w1 & Ha & H).
  pose proof (as_npc_Ok_inv _ _ _ _ Ha) as Hheap.
  rewrite (as_npc_run _ _ _ Hheap) in Ha. injection Ha as <-.
  apply bind_Ok_inv in H. destruct H as (u1 & w1 & H1 & H).
  apply guard_Ok_inv in H1. destruct H1 as [Hlab ->].
  apply negb_false_iff in Hlab.
  apply bind_Ok_inv in H. destruct H as ([] & w1 & H1 & H).
  apply lift_Ok in H1. destruct H1 as [Hwf ->].
  apply bind_Ok_inv in H. destruct H as (Si & w1 & H1 & H).
  apply lift_Ok in H1. destruct H1 as [HSi ->].
  apply bind_Ok_inv in H. destruct H as (shi & w1 & Hshi & H).
  pose proof (ro_Ok _ _ _ _ (ro_obj_shape Si) Hshi) as ->.
  apply bind_Ok_inv in H. destruct H as (dL & w1 & H1 & H).
  apply lift_Ok in H1. destruct H1 as [HdL ->].
  apply bind_Ok_inv in H. destruct H as (legL & w1 & H1 & H).
  apply lift_Ok in H1. destruct H1 as [HlegL ->].
  apply bind_Ok_inv in H. destruct H as (u2 & w1 & H1 & _).
  destruct (Nat.eqb_spec dL (ind_len legL)) as [EL|EL]; cbn [negb] in H1;
    [|discriminate].
  apply bind_Ok_inv in H1. destruct H1 as (Sj & w2 & H2 & H1).
  apply lift_Ok in H2. destruct H2 as [HSj ->].
  apply bind_Ok_inv in H1. destruct H1 as (shj & w2 & Hshj & H1).
  pose proof (ro_Ok _ _ _ _ (ro_obj_shape Sj) Hshj) as ->.
  apply bind_Ok_inv in H1. destruct H1 as (dR & w2 & H2 & H1).
  apply lift_Ok in H2. destruct H2 as [HdR ->].
  apply bind_Ok_inv in H1. destruct H1 as (legR & w2 & H2 & H1).
  apply lift_Ok in H2. destruct H2 as [HlegR ->].
  destruct (Nat.eqb_spec dR (ind_len legR)) as [ER|ER]; cbn [negb] in H1;
    [|discriminate].
  exists a, legL, legR, Si, Sj. subst dL dR.
  split; [exact Hheap|]. split; [exact Hlab|]. split; [exact Hwf|].
  split; [exact HlegL|]. split; [exact HlegR|].
  split; [now apply py_getitem_Ok_nat|].
  split.
  { apply py_getitem_Ok_nat.
    now replace (Z.of_nat (S k)) with (Z.of_nat k + 1)%Z by lia. }
  split; [exists shi|exists shj]; auto.
Qed.

(** The part of validation that concerns the tensors and their bonds. *)
Lemma test_sanity_sites (w w' : world) :
  test_sanity w = (Ok tt, w') ->
  valid_bc (bc (this w))
  /\ List.length (_B (this w)) = List.length (sites (this w))
  /\ List.length (_S (this w)) = S (List.length (sites (this w)))
  /\ (forall k b, nth_error (_B (this w)) k = Some b -> site_fits w k b).
Proof.
  intros H. unfold test_sanity in H.
  apply bind_Ok_inv in H. destruct H as (s & w1 & Hs & H).
  injection Hs as <- <-.
  apply bind_Ok_inv in H. destruct H as (u1 & w1 & H1 & H).
  apply guard_Ok_inv in H1. destruct H1 as [Hbc ->].
  apply negb_false_iff, valid_bc_existsb in Hbc.
  apply bind_Ok_inv in H. destruct H as (l & w1 & Hl & H).
  injection Hl as <- <-.
  apply bind_Ok_inv in H. destruct H as (u2 & w1 & H2 & H).
  apply guard_Ok_inv in H2. destruct H2 as [HlB ->].
  apply negb_false_iff, Z.eqb_eq in HlB.
  apply bind_Ok_inv in H. destruct H as (u3 & w1 & H3 & H).
  apply guard_Ok_inv in H3. destruct H3 as [HlS ->].
  apply negb_false_iff, Z.eqb_eq in HlS.
  apply bind_Ok_inv in H. destruct H as (u4 & w1 & H4 & _).
  split; [exact Hbc|]. split; [lia|]. split; [lia|].
  intros k b Hb.
  eapply for_each_Ok_inv in H4; [| |apply In_enumerate; exact Hb].
  2:{ intros [i B]. ro. }
  cbv beta iota in H4. eapply test_sanity_site. exact H4.
Qed.

(** X12: what a successful validation says.  If [test_sanity] raises
    nothing, then the world is unchanged, the boundary condition is one of
    the three valid ones, there are [L] tensors, [L+1] spectra and [L] form
    tags, every tensor is a well-formed array with legs [vL], [vR], [p]
    whose left and right spectra have the dimensions of these legs, and on
    a finite chain the two outer spectra have length one. *)
Theorem validation_invariants (w w' : world) :
  test_sanity w = (Ok tt, w') ->
  w' = w
  /\ valid_bc (bc (this w))
  /\ List.length (_B (this w)) = List.length (sites (this w))
  /\ List.length (_S (this w)) = S (List.length (sites (this w)))
  /\ List.length (form (this w)) = List.length (sites (this w))
  /\ (forall k b, nth_error (_B (this w)) k = Some b -> site_fits w k b)
  /\ (bc (this w) = "finite" ->
      exists S0 S1,
        py_getitem (_S (this w)) 0 = Ok S0
        /\ py_getitem (_S (this w)) (-1) = Ok S1
        /\ obj_len S0 w = (Ok 1%Z, w) /\ obj_len S1 w = (Ok 1%Z, w)).
Proof.
  intros H.
  assert (Hw : w' = w) by (apply (ro_Ok _ _ _ _ ro_test_sanity H)).
  subst w'. split; [reflexivity|].
  destruct (test_sanity_sites _ _ H) as (Hbc & HlB & HlS & Hfit).
  split; [exact Hbc|]. split; [exact HlB|]. split; [exact HlS|].
  unfold test_sanity in H.
  apply bind_Ok_inv in H. destruct H as (s & w1 & Hs & H).
  injection Hs as <- <-.
  apply bind_Ok_inv in H. destruct H as (u1 & w1 & H1 & H).
  apply guard_Ok_inv in H1. destruct H1 as [_ ->].
  apply bind_Ok_inv in H. destruct H as (l & w1 & Hl & H).
  injection Hl as <- <-.
  apply bind_Ok_inv in H. destruct H as (u2 & w1 & H2 & H).
  apply guard_Ok_inv in H2. destruct H2 as [_ ->].
  apply bind_Ok_inv in H. destruct H as (u3 & w1 & H3 & H).
  apply guard_Ok_inv in H3. destruct H3 as [_ ->].
  apply bind_Ok_inv in H. destruct H as (u4 & w1 & H4 & H).
  assert (Hw1 : w1 = w).
  { match type of H4 with
    | ?m _ = _ =>
        assert (Hro4 : read_only m) by (apply ro_for_each; intros [i B]; ro)
    end.
    exact (ro_Ok _ _ _ _ Hro4 H4). }
  subst w1.
  apply bind_Ok_inv in H. destruct H as (u5 & w1 & H5 & H).
  apply assert_Ok_inv in H. destruct H as [Hlf _].
  apply Z.eqb_eq in Hlf.
  split; [lia|]. split; [exact Hfit|].
  intros Hfin. rewrite Hfin in H5.
  cbn [String.eqb Ascii.eqb Bool.eqb] in H5.
  apply bind_Ok_inv in H5. destruct H5 as (S0 & w2 & H6 & H5).
  apply lift_Ok in H6. destruct H6 as [HS0 ->].
  apply bind_Ok_inv in H5. destruct H5 as (len0 & w2 & Hn0 & H5).
  pose proof (ro_Ok _ _ _ _ (ro_obj_len S0) Hn0) as Hw2. subst w2.
  destruct (Z.eqb_spec len0 1) as [E0|E0]; cbn [negb] in H5;
    [|discriminate].
  apply bind_Ok_inv in H5. destruct H5 as (S1 & w2 & H6 & H5).
  apply lift_Ok in H6. destruct H6 as [HS1 Hw2]. subst w2.
  apply bind_Ok_inv in H5. destruct H5 as (len1 & w2 & Hn1 & H5).
  pose proof (ro_Ok _ _ _ _ (ro_obj_len S1) Hn1) as Hw2. subst w2.
  destruct (Z.eqb_spec len1 1) as [E1|E1]; cbn [negb] in H5;
    [|discriminate].
  rewrite E0 in Hn0. rewrite E1 in Hn1.
  exists S0, S1. auto.
Qed.

Lemma validation_invariants_witness :
  exists w',
    test_sanity fin_extra = (Ok tt, w')
    /\ w' = fin_extra
    /\ valid_bc (bc (this fin_extra))
    /\ site_fits fin_extra 0 0.
Proof.
  exists fin_extra.
  assert (H : test_sanity fin_extra = (Ok tt, fin_extra)) by reflexivity.
  destruct (validation_invariants fin_extra fin_extra H)
    as (Hw & Hbc & _ & _ & _ & Hfit & _).
  split; [exact H|]. split; [exact Hw|]. split; [exact Hbc|].
  apply Hfit. reflexivity.
Defined.

(** ** What the constructor builds *)

Lemma grows_observer {A} (m : M A) : observer m -> grows m.
Proof. intros H w. apply H. Qed.

Lemma grows_read_only {A} (m : M A) : read_only m -> grows m.
Proof. intros H. now apply grows_observer, obs_read_only. Qed.

Lemma grows_set_self f : grows (set_self f).
Proof. intros w. apply extends_refl. Qed.

Lemma grows_bind {A B} (m : M A) (k : A -> M B) :
  grows m -> (forall a, grows (k a)) -> grows (bind m k).
Proof.
  intros Hm Hk w. unfold bind. specialize (Hm w).
  destruct (m w) as [[a|e|x] w1]; cbn [fst snd] in *; auto.
  eapply extends_trans; [exact Hm|apply Hk].
Qed.

Lemma grows_for_each {X} (l : list X) body :
  (forall x, grows (body x)) -> grows (for_each l body).
Proof.
  intros Hb. induction l as [|x l IH]; simpl.
  - apply grows_read_only, ro_ret.
  - apply grows_bind; auto.
Qed.

Lemma grows_mapM {A B} (f : A -> M B) l :
  (forall a, grows (f a)) -> grows (mapM f l).
Proof.
  intros Hf. induction l as [|a l IH]; simpl.
  - apply grows_read_only, ro_ret.
  - apply grows_bind; [apply Hf|]. intros b.
    apply grows_bind; [apply IH|]. intros bs. apply grows_read_only, ro_ret.
Qed.

Lemma grows_Ok {A} (m : M A) w a w' :
  grows m -> m w = (Ok a, w') -> extends (heap w) (heap w').
Proof. intros H E. specialize (H w). now rewrite E in H. Qed.

Ltac grows_step :=
  first
    [ apply grows_set_self
    | solve [apply grows_read_only; ro]
    | solve [apply grows_observer; obs]
    | apply grows_bind; [|intros ?]
    | apply grows_for_each; intros ?
    | match goal with
      | |- grows (if ?c then _ else _) => destruct c
      | |- grows (match ?x with _ => _ end) => destruct x
      end ].

Ltac grows := repeat grows_step.

Lemma grows_astype_copy b : grows (astype_copy b).
Proof. unfold astype_copy. grows. Qed.

Lemma grows_np_array sv : grows (np_array sv).
Proof. unfold np_array, as_nd. grows. Qed.

Lemma grows_init_attributes sites_ Bs bc_ form_ :
  grows (init_attributes sites_ Bs bc_ form_).
Proof.
  unfold init_attributes.
  apply grows_bind; [grows|intros ?]. apply grows_bind; [grows|intros ?].
  apply grows_bind; [grows|intros ?]. apply grows_bind; [grows|intros ?].
  apply grows_bind.
  { apply grows_mapM. intros [r|]; grows. }
  intros Bs1. apply grows_bind; [apply grows_read_only, ro_parse_form|].
  intros fl. apply grows_bind; [grows|intros ?].
  apply grows_bind; [grows|intros ?].
  apply grows_bind; [apply grows_mapM, grows_astype_copy|intros Bc].
  grows.
Qed.

Lemma grows_init_spectra SVs : grows (init_spectra SVs).
Proof.
  pose proof grows_np_array. unfold init_spectra, nontrivial_bonds.
  apply grows_bind; [grows|intros l]. apply grows_bind; [grows|intros nb].
  apply grows_bind; [grows|intros bonds]. apply grows_for_each. intros i.
  apply grows_bind; [grows|intros sv]. apply grows_bind; [auto|intros r].
  grows.
Qed.

Lemma grows_init_boundary : grows init_boundary.
Proof. unfold init_boundary, np_ones1. grows. Qed.

(** The copies made of the tensors: new objects, one per given tensor, with
    the same content. *)
Lemma mapM_astype_copy l : forall w Bc w',
  mapM astype_copy l w = (Ok Bc, w') ->
  this w' = this w
  /\ extends (heap w) (heap w')
  /\ List.length Bc = List.length l
  /\ forall k b', nth_error Bc k = Some b' ->
       fresh w b'
       /\ exists b o, nth_error l k = Some b
                      /\ nth_error (heap w') b' = Some o
                      /\ nth_error (heap w') b = Some o.
Proof.
  induction l as [|b l IH]; intros w Bc w' H; simpl in H.
  - injection H as <- <-.
    split; [reflexivity|]. split; [apply extends_refl|].
    split; [reflexivity|]. intros [|k] b' Hk; discriminate.
  - apply bind_Ok_inv in H. destruct H as (b1 & w1 & H1 & H).
    apply bind_Ok_inv in H. destruct H as (bs & w2 & H2 & H).
    injection H as <- <-.
    unfold astype_copy in H1. apply bind_Ok_inv in H1.
    destruct H1 as (o & w0 & Ho & H1).
    unfold deref in Ho.
    destruct (nth_error (heap w) b) as [o'|] eqn:Eb; [|discriminate].
    injection Ho as <- <-. unfold alloc in H1. injection H1 as <- <-.
    destruct (IH _ _ _ H2) as (Ht & He & Hlen & Hall).
    cbn [this heap] in *.
    assert (He0 : extends (heap w) (heap w2))
      by (eapply extends_trans; [apply extends_app|exact He]).
    split; [exact Ht|]. split; [exact He0|].
    split; [simpl; now rewrite Hlen|].
    intros [|k] b' Hk; simpl in Hk.
    + injection Hk as <-. split; [unfold fresh; lia|].
      exists b, o'. split; [reflexivity|]. split.
      * eapply nth_error_extends; [exact He|apply nth_error_app_last].
      * eapply nth_error_extends; [exact He0|exact Eb].
    + destruct (Hall k b' Hk) as (Hf & b0 & o & Hb0 & Hc & Hc0).
      split.
      { unfold fresh in *. cbn [heap] in Hf. rewrite length_app in Hf.
        simpl in Hf. lia. }
      exists b0, o. auto.
Qed.

Lemma mapM_some (l : list (option ref)) w Bs' w' :
  mapM (fun b => match b with
                 | Some r => ret r
                 | None => raise AttributeError
                 end) l w = (Ok Bs', w') ->
  w' = w /\ l = map Some Bs'.
Proof.
  revert Bs'. induction l as [|b l IH]; intros Bs' H; simpl in H.
  - injection H as <- <-. auto.
  - apply bind_Ok_inv in H. destruct H as (r & w1 & H1 & H).
    destruct b as [r0|]; [|discriminate]. injection H1 as <- <-.
    apply bind_Ok_inv in H. destruct H as (rs & w2 & H2 & H).
    injection H as <- <-. destruct (IH _ H2) as [-> ->]. auto.
Qed.

(** The tensors the first stage stores are copies of the given ones. *)
Lemma init_attributes_B sites_ Bs bc_ form_ w u w1 :
  init_attributes sites_ Bs bc_ form_ w = (Ok u, w1) ->
  exists Bs' wa,
    Bs = map Some Bs' /\ heap wa = heap w
    /\ mapM astype_copy Bs' wa
       = (Ok (_B (this w1)), mkWorld (this wa) (heap w1)).
Proof.
  unfold init_attributes. intros H.
  apply bind_Ok_inv in H. destruct H as (u1 & w2 & H1 & H).
  apply set_self_Ok in H1. subst w2.
  apply bind_Ok_inv in H. destruct H as (s & w2 & H2 & H).
  apply self_Ok in H2. destruct H2 as [-> ->].
  apply bind_Ok_inv in H. destruct H as (site0 & w2 & H2 & H).
  apply lift_Ok in H2. destruct H2 as [_ ->].
  apply bind_Ok_inv in H. destruct H as (u2 & w2 & H2 & H).
  apply set_self_Ok in H2. subst w2.
  apply bind_Ok_inv in H. destruct H as (Bs' & w3 & H3 & H).
  apply mapM_some in H3. destruct H3 as [-> HBs].
  apply bind_Ok_inv in H. destruct H as (fl & w4 & H4 & H).
  pose proof (ro_Ok _ _ _ _ (ro_parse_form form_) H4) as ->.
  apply bind_Ok_inv in H. destruct H as (u5 & w5 & H5 & H).
  apply set_self_Ok in H5. subst w5.
  apply bind_Ok_inv in H. destruct H as (u6 & w6 & H6 & H).
  apply set_self_Ok in H6. subst w6.
  apply bind_Ok_inv in H. destruct H as (Bc & w7 & H7 & H).
  apply bind_Ok_inv in H. destruct H as (u8 & w8 & H8 & H).
  apply set_self_Ok in H8. subst w8.
  apply bind_Ok_inv in H. destruct H as (l & w9 & H9 & H).
  injection H9 as <- <-.
  apply set_self_Ok in H. subst w1. cbn [this heap _B with_S with_B].
  eexists Bs', _. split; [exact HBs|]. split; [|].
  2:{ rewrite H7. f_equal.
      destruct (mapM_astype_copy _ _ _ _ H7) as (Ht & _).
      rewrite <- Ht. now destruct w7. }
  reflexivity.
Qed.

Lemma blind_B_is Bl : spectra_blind (fun w => _B (this w) = Bl).
Proof. intros w Sl h H. exact H. Qed.

(** X13: the constructor stores copies.  After a successful call there is
    one stored tensor per given one, each a new object, distinct from every
    object that existed, with the content of the given tensor; the objects
    that existed before the call, the given tensors among them, are
    untouched. *)
Theorem constructor_copies_tensors sites_ Bs SVs bc_ form_ w u w' :
  __init__ sites_ Bs SVs bc_ form_ w = (Ok u, w') ->
  extends (heap w) (heap w')
  /\ List.length (_B (this w')) = List.length Bs
  /\ forall k b', nth_error (_B (this w')) k = Some b' ->
       fresh w b'
       /\ exists b o, nth_error Bs k = Some (Some b)
                      /\ nth_error (heap w') b' = Some o
                      /\ nth_error (heap w') b = Some o.
Proof.
  rewrite init_split. intros H.
  apply bind_Ok_inv in H. destruct H as (u1 & w1 & H1 & H).
  apply bind_Ok_inv in H. destruct H as (u2 & w2 & H2 & H).
  apply bind_Ok_inv in H. destruct H as (u3 & w3 & H3 & H).
  pose proof (ro_Ok _ _ _ _ ro_test_sanity H) as ->.
  pose proof (grows_Ok _ _ _ _ (grows_init_attributes _ _ _ _) H1) as G1.
  pose proof (grows_Ok _ _ _ _ (grows_init_spectra _) H2) as G2.
  pose proof (grows_Ok _ _ _ _ grows_init_boundary H3) as G3.
  assert (G23 : extends (heap w1) (heap w3))
    by (eapply extends_trans; eauto).
  assert (HB : _B (this w3) = _B (this w1)).
  { pose proof (init_spectra_blind _ SVs (blind_B_is (_B (this w1)))
                  _ _ _ eq_refl H2) as E2.
    exact (init_boundary_blind _ (blind_B_is (_B (this w1))) _ _ _ E2 H3). }
  destruct (init_attributes_B _ _ _ _ _ _ _ H1) as (Bs' & wa & -> & Hha & Hm).
  destruct (mapM_astype_copy _ _ _ _ Hm) as (_ & _ & Hlen & Hall).
  split; [eapply extends_trans; eauto|].
  split; [rewrite HB, Hlen; now rewrite length_map|].
  intros k b' Hk. rewrite HB in Hk.
  destruct (Hall k b' Hk) as (Hf & b & o & Hb & Hc & Hc0).
  cbn [heap] in Hc, Hc0.
  split; [unfold fresh in *; now rewrite <- Hha|].
  exists b, o. split; [now rewrite nth_error_map, Hb|].
  split; eapply nth_error_extends; eauto.
Qed.

(** X14: what the constructor leaves behind.  After a successful call the
    instance has the given sites and boundary condition, its form tags are
    the parsed form, and it passes validation: [test_sanity] on the result
    raises nothing and changes nothing. *)
Theorem constructor_postcondition sites_ Bs SVs bc_ form_ w u w' :
  __init__ sites_ Bs SVs bc_ form_ w = (Ok u, w') ->
  sites (this w') = sites_
  /\ bc (this w') = bc_
  /\ (exists w0, sites (this w0) = sites_
                 /\ _parse_form form_ w0 = (Ok (form (this w')), w0))
  /\ test_sanity w' = (Ok tt, w').
Proof.
  rewrite init_split. intros H.
  apply bind_Ok_inv in H. destruct H as (u1 & w1 & H1 & H).
  apply bind_Ok_inv in H. destruct H as (u2 & w2 & H2 & H).
  apply bind_Ok_inv in H. destruct H as (u3 & w3 & H3 & H).
  pose proof (ro_Ok _ _ _ _ ro_test_sanity H) as Hw. subst w3.
  assert (Hsh : chain_shape sites_ bc_ w').
  { pose proof (init_attributes_shape _ _ _ _ _ _ _ H1) as Hsh.
    pose proof (init_spectra_stable _ _ _ _ _ _ Hsh H2) as Hsh2.
    now destruct (init_boundary_post _ _ _ _ _ Hsh2 H3). }
  destruct Hsh as (Hs & Hb & _).
  split; [exact Hs|]. split; [exact Hb|]. split.
  - apply init_attributes_inv in H1.
    destruct H1 as (_ & _ & _ & w4 & Hs4 & Hp).
    exists w4. split; [exact Hs4|].
    assert (Hf : form (this w') = form (this w1)).
    { pose proof (init_spectra_blind _ SVs (blind_form_is (form (this w1)))
                    _ _ _ eq_refl H2) as E2.
      exact (init_boundary_blind _ (blind_form_is (form (this w1)))
               _ _ _ E2 H3). }
    now rewrite Hf.
  - destruct u. exact H.
Qed.

(** X15: a boundary condition that is not one of the three valid ones is
    never reported as such by the constructor.  The constructor cannot
    succeed; if its first stage (attributes, parsed form, copies of the
    tensors) goes through, it fails with the [TypeError] of indexing a range
    with [None], the value of [nontrivial_bonds], before validation is
    reached. *)
Theorem constructor_invalid_bc sites_ Bs SVs bc_ form_ w :
  ~ valid_bc bc_ ->
  (forall u w', __init__ sites_ Bs SVs bc_ form_ w <> (Ok u, w'))
  /\ (forall u1 w1,
        init_attributes sites_ Bs bc_ form_ w = (Ok u1, w1) ->
        __init__ sites_ Bs SVs bc_ form_ w = (Raise TypeError, w1)).
Proof.
  intros Hbc.
  assert (Hstage : forall u1 w1,
            init_attributes sites_ Bs bc_ form_ w = (Ok u1, w1) ->
            __init__ sites_ Bs SVs bc_ form_ w = (Raise TypeError, w1)).
  { intros u1 w1 H1. rewrite init_split, (bind_Ok _ _ _ _ _ H1).
    apply bind_Raise.
    apply init_attributes_post in H1. destruct H1 as (_ & Hb & _).
    unfold init_spectra, nontrivial_bonds. mred. wsimpl. rewrite Hb.
    destruct (String.eqb_spec bc_ "finite") as [E|_];
      [exfalso; apply Hbc; now left|].
    destruct (String.eqb_spec bc_ "segment") as [E|_];
      [exfalso; apply Hbc; right; now left|].
    destruct (String.eqb_spec bc_ "infinite") as [E|_];
      [exfalso; apply Hbc; right; now right|].
    reflexivity. }
  split; [|exact Hstage].
  intros u w' H. pose proof H as H0. rewrite init_split in H0.
  apply bind_Ok_inv in H0. destruct H0 as (u1 & w1 & H1 & _).
  rewrite (Hstage _ _ H1) in H. discriminate.
Qed.

Lemma init_example_runs :
  init_example "finite" = (Ok tt, snd (init_example "finite")).
Proof. vm_compute. reflexivity. Qed.

Lemma constructor_copies_tensors_witness :
  let w' := snd (init_example "finite") in
  extends (heap init_start) (heap w')
  /\ List.length (_B (this w')) = 2
  /\ forall k b', nth_error (_B (this w')) k = Some b' ->
       fresh init_start b'
       /\ exists b o, nth_error [Some 0; Some 0] k = Some (Some b)
                      /\ nth_error (heap w') b' = Some o
                      /\ nth_error (heap w') b = Some o.
Proof.
  exact (constructor_copies_tensors _ _ _ _ _ _ _ _ init_example_runs).
Defined.

Lemma constructor_postcondition_witness :
  let w' := snd (init_example "finite") in
  sites (this w') = [site1; site1]
  /\ bc (this w') = "finite"
  /\ (exists w0, sites (this w0) = [site1; site1]
                 /\ _parse_form (FOne (FName "B")) w0
                    = (Ok (form (this w')), w0))
  /\ test_sanity w' = (Ok tt, w').
Proof.
  exact (constructor_postcondition _ _ _ _ _ _ _ _ init_example_runs).
Defined.

Lemma constructor_invalid_bc_witness :
  (forall u w', init_example "periodic" <> (Ok u, w'))
  /\ fst (init_example "periodic") = Raise TypeError.
Proof.
  assert (Hbc : ~ valid_bc "periodic").
  { intros [H|[H|H]]; discriminate H. }
  destruct (constructor_invalid_bc [site1; site1] [Some 0; Some 0]
              [SvScalar 7; SvSeq [1%R]; SvSeq [2%R; 3%R]] "periodic"
              (FOne (FName "B")) init_start Hbc) as [H1 H2].
  split; [exact H1|].
  unfold init_example.
  erewrite H2; [reflexivity|].
  vm_compute. reflexivity.
Defined.

(** ** The window of the wave function *)

Lemma py_mod_pos a b : (0 < b)%Z -> py_mod a b = Ok (a mod b)%Z.
Proof.
  intros H. unfold py_mod.
  destruct (Z.eqb_spec b 0) as [E|_]; [lia|reflexivity].
Qed.

Lemma bind_guard_false {B} (c : bool) e (k : unit -> M B) w :
  c = false -> bind (if c then raise e else ret tt) k w = k tt w.
Proof. intros ->. reflexivity. Qed.

Section Window.

Variable pinv : Array -> R -> outcome Array.

(** X16: the window of [get_theta].  With [k] the resolved index of the
    first site: on a finite or segment chain a window of [n] sites that ends
    behind the last site is refused with the [ValueError] for the bounds;
    a window that is allowed (any window on an infinite chain) whose first
    site, or whose last site [(k + n - 1) % L], has no canonical form is
    refused with the [ValueError] for the non-canonical form.  In each case
    the world is unchanged. *)
Theorem get_theta_window (w : world) (i k n : Z) (cutoff formL formR : R) :
  fst (_to_valid_index i w) = Ok k ->
  let l := chain_length w in
  let fits := bc (this w) = "infinite" \/ (k + n <= l)%Z in
  let non_canonical :=
    (Raise (ValueError "can't calculate theta for non-canonical form"), w) in
  (~ fits ->
   get_theta pinv i n cutoff formL formR w
   = (Raise (ValueError "i out of bounds"), w))
  /\ (fits ->
      nth_error (form (this w)) (Z.to_nat k) = Some None ->
      get_theta pinv i n cutoff formL formR w = non_canonical)
  /\ (fits ->
      forall f,
        nth_error (form (this w)) (Z.to_nat k) = Some (Some f) ->
        nth_error (form (this w)) (Z.to_nat ((k + n - 1) mod l)) = Some None ->
        get_theta pinv i n cutoff formL formR w = non_canonical).
Proof.
  intros Hk l fits non_canonical.
  pose proof (to_valid_index_range _ _ _ Hk) as Hr.
  pose proof (to_valid_index_bc _ _ _ Hk) as Hb.
  apply to_valid_index_run in Hk.
  assert (Hguard : fits ->
            negb (bc (this w) =? "infinite")%string
            && ((k <? 0) || (k + n >? l))%Z = false).
  { intros [Hinf|Hle].
    - rewrite Hinf. reflexivity.
    - assert (E1 : (k <? 0)%Z = false) by (apply Z.ltb_ge; lia).
      assert (E2 : (k + n >? l)%Z = false).
      { rewrite Z.gtb_ltb. apply Z.ltb_ge. exact Hle. }
      rewrite E1, E2. apply andb_false_r. }
  assert (Hpos : (0 < l)%Z) by (unfold l, chain_length; lia).
  split; [|split].
  - intros Hnot. unfold get_theta.
    rewrite (bind_Ok _ _ _ _ _ Hk).
    rewrite (bind_Ok _ _ _ _ _ (finite_run w Hb)).
    rewrite (bind_Ok _ _ _ _ _ (L_run w)).
    fold (chain_length w). fold l.
    destruct (String.eqb_spec (bc (this w)) "infinite") as [E|_];
      [exfalso; apply Hnot; now left|].
    assert (E2 : (k + n >? l)%Z = true).
    { rewrite Z.gtb_ltb. apply Z.ltb_lt.
      destruct (Z.lt_ge_cases l (k + n)) as [H|H]; [exact H|].
      exfalso. apply Hnot. right. exact H. }
    rewrite E2, orb_true_r. reflexivity.
  - intros Hfits Hnone. unfold get_theta.
    rewrite (bind_Ok _ _ _ _ _ Hk).
    rewrite (bind_Ok _ _ _ _ _ (finite_run w Hb)).
    rewrite (bind_Ok _ _ _ _ _ (L_run w)).
    fold (chain_length w). fold l.
    rewrite (bind_guard_false _ _ _ _ (Hguard Hfits)), bind_self.
    rewrite (py_getitem_nat _ _ _ (proj1 Hr) Hnone). reflexivity.
  - intros Hfits f Hf Hlast. unfold get_theta.
    rewrite (bind_Ok _ _ _ _ _ Hk).
    rewrite (bind_Ok _ _ _ _ _ (finite_run w Hb)).
    rewrite (bind_Ok _ _ _ _ _ (L_run w)).
    fold (chain_length w). fold l.
    rewrite (bind_guard_false _ _ _ _ (Hguard Hfits)), bind_self.
    rewrite (py_getitem_nat _ _ _ (proj1 Hr) Hf), bind_lift_Ok.
    destruct f as [fL fR].
    rewrite (py_mod_pos _ _ Hpos), bind_lift_Ok.
    assert (H0 : (0 <= (k + n - 1) mod l)%Z)
      by (apply Z.mod_pos_bound; exact Hpos).
    rewrite (py_getitem_nat _ _ _ H0 Hlast). reflexivity.
Qed.

End Window.

Lemma get_theta_window_witness :
  get_theta pinv_example 1 3 default_cutoff 1 1 chain3
  = (Raise (ValueError "i out of bounds"), chain3)
  /\ get_theta pinv_example 1 2 default_cutoff 1 1 chain3
     = (Raise (ValueError "can't calculate theta for non-canonical form"),
        chain3)
  /\ get_theta pinv_example 0 2 default_cutoff 1 1 chain3
     = (Raise (ValueError "can't calculate theta for non-canonical form"),
        chain3).
Proof.
  assert (H1 : fst (_to_valid_index 1 chain3) = Ok 1%Z) by reflexivity.
  assert (H0 : fst (_to_valid_index 0 chain3) = Ok 0%Z) by reflexivity.
  split; [|split].
  - apply (get_theta_window pinv_example chain3 1 1 3 default_cutoff 1 1 H1).
    intros [H|H]; [discriminate H|].
    unfold chain_length in H. simpl in H. lia.
  - apply (get_theta_window pinv_example chain3 1 1 2 default_cutoff 1 1 H1).
    + right. unfold chain_length. simpl. lia.
    + reflexivity.
  - apply (get_theta_window pinv_example chain3 0 0 2 default_cutoff 1 1 H0)
      with (f := (0, 1)%R).
    + right. unfold chain_length. simpl. lia.
    + reflexivity.
    + reflexivity.
Defined.

(** ** One expectation value per site *)

Lemma py_range_length lo hi : List.length (py_range lo hi) = Z.to_nat (hi - lo).
Proof. unfold py_range. now rewrite length_map, length_seq. Qed.

Lemma for_fold_length {X Y} (body : list Y -> X -> M (list Y)) (l : list X) :
  (forall E x w E' w',
      body E x w = (Ok E', w') -> List.length E' = S (List.length E)) ->
  forall E w E' w',
    for_fold l E body w = (Ok E', w') ->
    List.length E' = List.length E + List.length l.
Proof.
  intros Hb. induction l as [|x l IH]; intros E w E' w' H.
  - injection H as <- _. simpl. lia.
  - simpl in H. apply bind_Ok_inv in H. destruct H as (E1 & w1 & H1 & H).
    apply Hb in H1. apply IH in H. simpl. lia.
Qed.

Lemma finite_Ok_inv w fin w' :
  finite w = (Ok fin, w') ->
  fin = negb (bc (this w) =? "infinite")%string /\ w' = w.
Proof.
  destruct (existsb (String.eqb (bc (this w))) _valid_bc) eqn:E.
  - apply valid_bc_existsb in E. rewrite (finite_run w E).
    intros [= <- <-]. auto.
  - assert (Hn : ~ valid_bc (bc (this w))).
    { intros Hv. apply valid_bc_existsb in Hv. congruence. }
    rewrite (finite_invalid w Hn). discriminate.
Qed.

Section Expectation.

Variable pinv : Array -> R -> outcome Array.

(** X17: one expectation value per site.  A successful call returns a new
    one-dimensional array with one entry per evaluated site: as many as the
    given [sites]; by default the [L] sites of an infinite chain, and the
    [L - (n - 1)] first sites of a finite or segment chain (none if that is
    not positive), where [n] is the number of sites the first operator acts
    on. *)
Theorem expectation_value_per_site (w : world) (ops : ops_arg)
    (sites_ : option (list Z)) (axes : option (list string * list string))
    (r : ref) (w' : world) :
  expectation_value pinv ops sites_ axes w = (Ok r, w') ->
  exists op0 n E,
    nth_error (ops_list ops) 0 = Some op0
    /\ operator_sites w op0 n
    /\ fresh w r
    /\ nth_error (heap w') r = Some (NdArray (Nd1 E))
    /\ List.length E
       = match sites_ with
         | Some ss => List.length ss
         | None => if (bc (this w) =? "infinite")%string
                   then List.length (sites (this w))
                   else Z.to_nat (chain_length w - (n - 1))
         end.
Proof.
  unfold expectation_value. fold (ops_list ops). intros H.
  apply bind_Ok_inv in H. destruct H as (op0 & w1 & H1 & H).
  apply lift_Ok in H1. destruct H1 as [Hop0 ->].
  apply (py_getitem_Ok_nat _ 0) in Hop0.
  apply bind_Ok_inv in H. destruct H as (n & w1 & Hn & H).
  assert (Hn' : operator_sites w op0 n /\ w1 = w).
  { destruct op0 as [name|ra]; simpl.
    - injection Hn as <- <-. auto.
    - apply bind_Ok_inv in Hn. destruct Hn as (a & w2 & Ha & Hn).
      pose proof (as_npc_Ok_inv _ _ _ _ Ha) as Hheap.
      rewrite (as_npc_run _ _ _ Hheap) in Ha. injection Ha as <-.
      injection Hn as <- <-. eauto. }
  destruct Hn' as [Hops ->].
  apply bind_Ok_inv in H. destruct H as (l & w1 & Hl & H).
  rewrite L_run in Hl. injection Hl as <- <-.
  apply bind_Ok_inv in H. destruct H as (ss & w1 & Hss & H).
  assert (Hlen : List.length ss
                 = match sites_ with
                   | Some ss => List.length ss
                   | None => if (bc (this w) =? "infinite")%string
                             then List.length (sites (this w))
                             else Z.to_nat (chain_length w - (n - 1))
                   end /\ w1 = w).
  { destruct sites_ as [ss0|].
    - injection Hss as <- <-. auto.
    - apply bind_Ok_inv in Hss. destruct Hss as (fin & w2 & Hfin & Hss).
      apply finite_Ok_inv in Hfin. destruct Hfin as [-> ->].
      destruct (bc (this w) =? "infinite")%string; simpl in Hss;
        injection Hss as <- <-; rewrite py_range_length; split; auto.
      + rewrite Z.sub_0_r. apply Nat2Z.id.
      + now rewrite Z.sub_0_r. }
  destruct Hlen as [Hlen ->].
  destruct (match axes with
            | Some ax => ax
            | None => _
            end) as [axes_p axes_pstar].
  apply bind_Ok_inv in H. destruct H as (u & w1 & Hg & H).
  apply guard_Ok_inv in Hg. destruct Hg as [_ ->].
  apply bind_Ok_inv in H. destruct H as (E & w1 & HE & H).
  unfold alloc in H. injection H as <- <-.
  exists op0, n, E.
  split; [exact Hop0|]. split; [exact Hops|].
  assert (Hext : extends (heap w) (heap w1)).
  { match type of HE with
    | ?m w = _ => assert (Hobs : observer m)
    end.
    { pose proof (obs_get_theta pinv). unfold npc_inner. obs. }
    specialize (Hobs w). rewrite HE in Hobs. apply Hobs. }
  split.
  { unfold fresh. destruct Hext as [e ->]. rewrite length_app. lia. }
  split; [cbn [heap]; apply nth_error_app_last|].
  rewrite <- Hlen.
  apply for_fold_length in HE; [exact HE|].
  clear. intros E x w E' w' H.
  apply bind_Ok_inv in H. destruct H as (k & w1 & _ & H).
  apply bind_Ok_inv in H. destruct H as (op & w2 & _ & H).
  apply bind_Ok_inv in H. destruct H as (op' & w3 & _ & H).
  apply bind_Ok_inv in H. destruct H as (theta & w4 & _ & H).
  apply bind_Ok_inv in H. destruct H as (C & w5 & _ & H).
  apply bind_Ok_inv in H. destruct H as (e & w6 & _ & H).
  injection H as <- _. rewrite length_app. simpl. lia.
Qed.

End Expectation.

(** The expectation value of the identity on the unit cell [imps1]: one
    site is evaluated, through a one-site wave function, a contraction with
    the operator and an inner product. *)
Example expectation_value_runs :
  fst (expectation_value pinv_example (OpsOne (OpArray 4)) None None imps1_op)
  = Ok 8.
Proof.
  unfold expectation_value, imps1_op, imps1.
  lazy -[IZR Rdiv Rmult Rplus Rminus Ropp sqrt Rinv Rpower
         Reqb Rltb powerRZ Int_part].
  decide_R.
  lazy -[IZR Rdiv Rmult Rplus Rminus Ropp sqrt Rinv Rpower
         Reqb Rltb powerRZ Int_part].
  decide_R. reflexivity.
Qed.

Lemma expectation_value_per_site_witness :
  let run := expectation_value pinv_example (OpsOne (OpArray 4)) None None
               imps1_op in
  exists op0 n E,
    nth_error [OpArray 4] 0 = Some op0
    /\ operator_sites imps1_op op0 n
    /\ fresh imps1_op 8
    /\ nth_error (heap (snd run)) 8 = Some (NdArray (Nd1 E))
    /\ List.length E = 1.
Proof.
  intros run.
  apply (expectation_value_per_site pinv_example imps1_op
           (OpsOne (OpArray 4)) None None 8).
  change (run = (Ok 8, snd run)).
  rewrite (surjective_pairing run) at 1. f_equal.
  exact expectation_value_runs.
Defined.

(** ** The bond dimensions of a validated chain *)

Lemma mapM_run_all {A B} (f : A -> M B) (g : A -> B) l w :
  (forall x, In x l -> f x w = (Ok (g x), w)) ->
  mapM f l w = (Ok (map g l), w).
Proof.
  induction l as [|a l IH]; intros H; simpl; [reflexivity|].
  rewrite (bind_Ok _ _ _ _ _ (H a (or_introl eq_refl))).
  rewrite (bind_Ok _ _ _ _ _ (IH (fun x Hx => H x (or_intror Hx)))).
  reflexivity.
Qed.

Lemma nth_error_slice {A} (l : list A) lo hi j :
  lo <= j < hi ->
  nth_error (firstn (hi - lo) (skipn lo l)) (j - lo) = nth_error l j.
Proof.
  intros H. rewrite nth_error_firstn.
  destruct (Nat.ltb_spec (j - lo) (hi - lo)); [|lia].
  rewrite nth_error_skipn. f_equal. lia.
Qed.

Lemma In_slice {A} (l : list A) lo hi x :
  In x (firstn (hi - lo) (skipn lo l)) ->
  exists j, lo <= j < hi /\ nth_error l j = Some x.
Proof.
  intros H. apply In_nth_error in H. destruct H as [i Hi].
  rewrite nth_error_firstn in Hi.
  destruct (Nat.ltb_spec i (hi - lo)); [|discriminate].
  rewrite nth_error_skipn in Hi. exists (lo + i). split; [lia|exact Hi].
Qed.

(** The first dimension of a stored spectrum, as [chi] reads it. *)
Lemma first_dim_run w x d :
  bond_dim w x true d ->
  (sh <- obj_shape x ;; lift (py_getitem sh 0)) w = (Ok d, w).
Proof.
  intros (sh & Hsh & Hd). rewrite (bind_Ok _ _ _ _ _ Hsh).
  unfold lift. now rewrite Hd.
Qed.

Lemma last_dim_first_dim w x d :
  bond_dim w x false d -> exists d', bond_dim w x true d'.
Proof.
  intros (sh & Hsh & Hd). destruct sh as [|d0 sh]; [discriminate|].
  exists d0, (d0 :: sh). split; [exact Hsh|reflexivity].
Qed.

(** X18: the bond dimensions of a validated chain.  On a chain of at least
    one site that passes validation, [chi] raises nothing and changes
    nothing; it has one entry per nontrivial bond ([L - 1] of them on a
    finite chain, [L + 1] on a segment, [L] on an infinite chain), and the
    entry of the bond to the right of site [k] is the dimension of the leg
    [vR] of the tensor of that site. *)
Theorem chi_validated (w w0 : world) :
  test_sanity w = (Ok tt, w0) ->
  sites (this w) <> [] ->
  let n := List.length (sites (this w)) in
  let lo := if (bc (this w) =? "finite")%string then 1 else 0 in
  let hi := if (bc (this w) =? "segment")%string then S n else n in
  exists l,
    chi w = (Ok l, w)
    /\ List.length l = hi - lo
    /\ forall k b,
         nth_error (_B (this w)) k = Some b -> S k < hi ->
         exists a legR,
           nth_error (heap w) b = Some (NpcArray a)
           /\ get_leg a (AxLabel "vR") = Ok legR
           /\ nth_error l (S k - lo) = Some (ind_len legR).
Proof.
  intros H Hne n lo hi.
  destruct (test_sanity_sites _ _ H) as (Hbc & HlB & HlS & Hfit).
  fold n in HlB, HlS.
  assert (Hn : 1 <= n).
  { unfold n. destruct (sites (this w)); [congruence|simpl; lia]. }
  assert (Hhi : hi <= S n).
  { unfold hi. destruct (bc (this w) =? "segment")%string; lia. }
  assert (Hlo1 : lo <= 1).
  { unfold lo. destruct (bc (this w) =? "finite")%string; lia. }
  set (f := fun x : option ref =>
              sh <- obj_shape x ;; lift (py_getitem sh 0)).
  set (g := fun x : option ref =>
              match fst (f x w) with Ok d => d | _ => 0 end).
  assert (Hdim : forall j x, j <= n -> nth_error (_S (this w)) j = Some x ->
                             f x w = (Ok (g x), w)).
  { intros j x Hj Hx.
    assert (Hd : exists d, bond_dim w x true d).
    { destruct j as [|j].
      - destruct (nth_error (_B (this w)) 0) as [b|] eqn:Hb;
          [|apply nth_error_None in Hb; lia].
        destruct (Hfit _ _ Hb)
          as (a & legL & legR & SL & SR
              & _ & _ & _ & _ & _ & HSL & _ & HdL & _).
        rewrite Hx in HSL. injection HSL as <-.
        eapply last_dim_first_dim. exact HdL.
      - destruct (nth_error (_B (this w)) j) as [b|] eqn:Hb;
          [|apply nth_error_None in Hb; lia].
        destruct (Hfit _ _ Hb)
          as (a & legL & legR & SL & SR
              & _ & _ & _ & _ & _ & _ & HSR & _ & HdR).
        rewrite Hx in HSR. injection HSR as <-. eauto. }
    destruct Hd as [d Hd]. pose proof (first_dim_run _ _ _ Hd) as Hrun.
    fold (f x) in Hrun. unfold g. now rewrite Hrun. }
  assert (Hnb : nontrivial_bonds w
                = (Ok (Some (Z.of_nat lo, Z.of_nat hi)), w)).
  { unfold nontrivial_bonds, lo, hi. rewrite bind_self.
    destruct Hbc as [E|[E|E]]; rewrite E;
      cbn [String.eqb Ascii.eqb Bool.eqb];
      rewrite (bind_Ok _ _ _ _ _ (L_run w));
      unfold ret; fold n; repeat f_equal; lia. }
  assert (Hsl : slice_list (_S (this w)) (Some (Z.of_nat lo, Z.of_nat hi))
                = Ok (firstn (hi - lo) (skipn lo (_S (this w))))).
  { unfold slice_list. cbv zeta. rewrite HlS.
    rewrite !Z.min_l by lia. now rewrite !Nat2Z.id. }
  exists (map g (firstn (hi - lo) (skipn lo (_S (this w))))).
  split; [|split].
  - unfold chi. rewrite bind_self, (bind_Ok _ _ _ _ _ Hnb), Hsl, bind_lift_Ok.
    apply mapM_run_all. intros x Hx.
    apply In_slice in Hx. destruct Hx as (j & Hj & Hx).
    apply (Hdim j); [lia|exact Hx].
  - rewrite length_map, length_firstn, length_skipn, HlS. lia.
  - intros k b Hb Hk.
    destruct (Hfit _ _ Hb)
      as (a & legL & legR & SL & SR & Hh & _ & _ & _ & HlR & _ & HSR & _ & HdR).
    exists a, legR. split; [exact Hh|]. split; [exact HlR|].
    assert (Hlo : lo <= S k).
    { unfold lo. destruct (bc (this w) =? "finite")%string; lia. }
    rewrite nth_error_map, (nth_error_slice _ lo hi (S k)) by lia.
    rewrite HSR. cbn [option_map]. f_equal.
    pose proof (first_dim_run _ _ _ HdR) as Hrun.
    fold (f SR) in Hrun. unfold g. now rewrite Hrun.
Qed.

Lemma chi_validated_witness :
  exists l,
    chi seg_A = (Ok l, seg_A)
    /\ List.length l = 2
    /\ forall k b,
         nth_error (_B (this seg_A)) k = Some b -> S k < 2 ->
         exists a legR,
           nth_error (heap seg_A) b = Some (NpcArray a)
           /\ get_leg a (AxLabel "vR") = Ok legR
           /\ nth_error l (S k - 0) = Some (ind_len legR).
Proof.
  apply (chi_validated seg_A seg_A).
  - reflexivity.
  - discriminate.
Defined.

(** ** What the writing methods leave alone *)

Section Framed.

Variable R : world -> world -> Prop.
Hypothesis R_refl : forall w, R w w.
Hypothesis R_trans : forall w1 w2 w3, R w1 w2 -> R w2 w3 -> R w1 w3.

Lemma framed_read_only {A} (m : M A) : read_only m -> framed R m.
Proof. intros H w. rewrite H. apply R_refl. Qed.

Lemma framed_bind {A B} (m : M A) (k : A -> M B) :
  framed R m -> (forall a, framed R (k a)) -> framed R (bind m k).
Proof.
  intros Hm Hk w. unfold bind. specialize (Hm w).
  destruct (m w) as [[a|e|x] w1]; cbn [fst snd] in *; auto.
  eapply R_trans; [exact Hm|apply Hk].
Qed.

Lemma framed_for_each {X} (l : list X) body :
  (forall x, framed R (body x)) -> framed R (for_each l body).
Proof.
  intros Hb. induction l as [|x l IH]; simpl.
  - apply framed_read_only, ro_ret.
  - apply framed_bind; auto.
Qed.

End Framed.

Lemma tensors_only_refl w : tensors_only w w.
Proof. unfold tensors_only. repeat split; auto. apply extends_refl. Qed.

Lemma tensors_only_trans w1 w2 w3 :
  tensors_only w1 w2 -> tensors_only w2 w3 -> tensors_only w1 w3.
Proof.
  unfold tensors_only.
  intros (A1 & A2 & A3 & A4 & A5 & A6 & A7) (B1 & B2 & B3 & B4 & B5 & B6 & B7).
  repeat split; try congruence. eapply extends_trans; eauto.
Qed.

Lemma spectra_only_refl w : spectra_only w w.
Proof. unfold spectra_only. repeat split; auto. Qed.

Lemma spectra_only_trans w1 w2 w3 :
  spectra_only w1 w2 -> spectra_only w2 w3 -> spectra_only w1 w3.
Proof.
  unfold spectra_only.
  intros (A1 & A2 & A3 & A4 & A5 & A6 & A7) (B1 & B2 & B3 & B4 & B5 & B6 & B7).
  repeat split; congruence.
Qed.

Lemma framed_observer {A} (m : M A) : observer m -> framed tensors_only m.
Proof.
  intros H w. destruct (H w) as [Ht He]. unfold tensors_only.
  rewrite Ht. repeat split; auto.
Qed.

(** Replacing one tensor, one spectrum. *)
Lemma framed_set_tensor i (B : ref) :
  framed tensors_only
    (s <- self ;; bl <- lift (py_setitem (_B s) i B) ;;
     set_self (with_B bl)).
Proof.
  intros w. rewrite bind_self.
  destruct (py_setitem (_B (this w)) i B) as [l|e|x] eqn:E;
    try apply tensors_only_refl.
  rewrite bind_lift_Ok. unfold set_self, tensors_only. cbn.
  apply py_setitem_length in E.
  repeat split; auto. apply extends_refl.
Qed.

Lemma framed_set_spectrum i (S : ref) :
  framed spectra_only
    (s <- self ;; S1 <- lift (py_setitem (_S s) i (Some S)) ;;
     set_self (with_S S1)).
Proof.
  intros w. rewrite bind_self.
  destruct (py_setitem (_S (this w)) i (Some S)) as [l|e|x] eqn:E;
    try apply spectra_only_refl.
  rewrite bind_lift_Ok. unfold set_self, spectra_only. cbn.
  apply py_setitem_length in E.
  repeat split; auto.
Qed.

Lemma framed_set_B i B frm : framed tensors_only (set_B i B frm).
Proof.
  unfold set_B.
  apply (framed_bind _ tensors_only_trans);
    [apply (framed_read_only _ tensors_only_refl), ro_to_valid_index|].
  intros k.
  apply (framed_bind _ tensors_only_trans);
    [apply (framed_read_only _ tensors_only_refl), ro_to_valid_form|].
  intros f w. rewrite bind_self.
  destruct (py_setitem (form (this w)) k f) as [l|e|x] eqn:E;
    try apply tensors_only_refl.
  rewrite bind_lift_Ok.
  apply (tensors_only_trans _ (mkWorld (with_form l (this w)) (heap w))).
  - unfold tensors_only. cbn. apply py_setitem_length in E.
    repeat split; auto. apply extends_refl.
  - apply (framed_set_tensor k B).
Qed.

Lemma framed_set_SL i S : framed spectra_only (set_SL i S).
Proof.
  unfold set_SL.
  apply (framed_bind _ spectra_only_trans);
    [apply (framed_read_only _ spectra_only_refl), ro_to_valid_index|].
  intros k w. rewrite bind_self.
  destruct (py_setitem (_S (this w)) k (Some S)) as [l|e|x] eqn:E;
    try apply spectra_only_refl.
  rewrite bind_lift_Ok.
  apply (spectra_only_trans _ (mkWorld (with_S l (this w)) (heap w))).
  - unfold spectra_only. cbn. apply py_setitem_length in E.
    repeat split; auto.
  - apply (framed_bind _ spectra_only_trans
             finite (fun fin =>
               if negb fin && (k =? 0)%Z
               then s <- self ;; l0 <- L ;;
                    S2 <- lift (py_setitem (_S s) l0 (Some S)) ;;
                    set_self (with_S S2)
               else ret tt)).
    + apply (framed_read_only _ spectra_only_refl), ro_finite.
    + intros fin. destruct (negb fin && (k =? 0)%Z).
      * intros w1. rewrite bind_self, (bind_Ok _ _ _ _ _ (L_run w1)).
        apply (framed_set_spectrum _ S w1).
      * apply (framed_read_only _ spectra_only_refl), ro_ret.
Qed.

Lemma framed_set_SR i S : framed spectra_only (set_SR i S).
Proof.
  unfold set_SR.
  apply (framed_bind _ spectra_only_trans);
    [apply (framed_read_only _ spectra_only_refl), ro_to_valid_index|].
  intros k w. rewrite bind_self.
  destruct (py_setitem (_S (this w)) (k + 1) (Some S)) as [l|e|x] eqn:E;
    try apply spectra_only_refl.
  rewrite bind_lift_Ok.
  apply (spectra_only_trans _ (mkWorld (with_S l (this w)) (heap w))).
  - unfold spectra_only. cbn. apply py_setitem_length in E.
    repeat split; auto.
  - apply (framed_bind _ spectra_only_trans
             finite (fun fin =>
               l0 <- L ;;
               if negb fin && (k =? l0 - 1)%Z
               then s <- self ;;
                    S2 <- lift (py_setitem (_S s) 0 (Some S)) ;;
                    set_self (with_S S2)
               else ret tt)).
    + apply (framed_read_only _ spectra_only_refl), ro_finite.
    + intros fin.
      apply (framed_bind _ spectra_only_trans);
        [apply (framed_read_only _ spectra_only_refl), ro_L|].
      intros l0. destruct (negb fin && (k =? l0 - 1)%Z).
      * apply framed_set_spectrum.
      * apply (framed_read_only _ spectra_only_refl), ro_ret.
Qed.

Section Writers.

Variable pinv : Array -> R -> outcome Array.

Lemma framed_convert_form frm : framed tensors_only (convert_form pinv frm).
Proof.
  unfold convert_form.
  apply (framed_bind _ tensors_only_trans);
    [apply (framed_read_only _ tensors_only_refl), ro_parse_form|].
  intros fl. apply (framed_for_each _ tensors_only_refl tensors_only_trans).
  intros [i f].
  apply (framed_bind _ tensors_only_trans);
    [apply framed_observer, obs_get_B|].
  intros b. apply framed_set_B.
Qed.

(** X19: what the writing methods leave alone.  Whatever they return or
    raise, [set_B] and [convert_form] change nothing but entries of the
    tensor list and of the form tags: the spectra, the sites, the boundary
    condition and the lengths of both lists are as before, and every object
    that existed is untouched, so that a tensor handed out earlier is never
    rescaled in place.  [set_SL] and [set_SR] change nothing but entries of
    the spectra. *)
Theorem writing_methods_frame :
  (forall frm w, tensors_only w (snd (convert_form pinv frm w)))
  /\ (forall i B frm w, tensors_only w (snd (set_B i B frm w)))
  /\ (forall i S w, spectra_only w (snd (set_SL i S w)))
  /\ (forall i S w, spectra_only w (snd (set_SR i S w))).
Proof.
  split; [exact framed_convert_form|].
  split; [exact framed_set_B|].
  split; [exact framed_set_SL|exact framed_set_SR].
Qed.

End Writers.

(** ** Converting all sites *)

Lemma mapM_to_valid_form_world l w w' :
  fst (mapM _to_valid_form l w') = fst (mapM _to_valid_form l w).
Proof.
  induction l as [|a l IH]; simpl; [reflexivity|]. unfold bind.
  rewrite (to_valid_form_run a w), (to_valid_form_run a w').
  rewrite (to_valid_form_world a w w').
  destruct (fst (_to_valid_form a w)); cbn [fst]; try reflexivity.
  rewrite (run_read_only _ w (ro_mapM _ l ro_to_valid_form)).
  rewrite (run_read_only _ w' (ro_mapM _ l ro_to_valid_form)).
  rewrite IH. destruct (fst (mapM _to_valid_form l w)); reflexivity.
Qed.

(** Parsing a form looks at nothing but the number of sites. *)
Lemma parse_form_frame frm w w' :
  sites (this w') = sites (this w) ->
  _parse_form frm w' = (fst (_parse_form frm w), w').
Proof.
  intros Hs. rewrite (run_read_only _ w' (ro_parse_form frm)). f_equal.
  unfold _parse_form.
  assert (Hgen : forall fl0 : list form_spec,
    fst ((fl1 <- (match fl0 with
                  | [f] => l <- L ;; ret (repeat f (Z.to_nat l))
                  | _ => ret fl0
                  end) ;;
          l <- L ;;
          if negb (Z.of_nat (List.length fl1) =? l)%Z
          then raise (ValueError "Wrong len of `form`: ")
          else mapM _to_valid_form fl1) w')
    = fst ((fl1 <- (match fl0 with
                    | [f] => l <- L ;; ret (repeat f (Z.to_nat l))
                    | _ => ret fl0
                    end) ;;
            l <- L ;;
            if negb (Z.of_nat (List.length fl1) =? l)%Z
            then raise (ValueError "Wrong len of `form`: ")
            else mapM _to_valid_form fl1) w)).
  { intros fl0.
    assert (Hfirst : forall v,
      (match fl0 with
       | [f] => l <- L ;; ret (repeat f (Z.to_nat l))
       | _ => ret fl0
       end) v
      = (Ok (match fl0 with
             | [f] => repeat f (Z.to_nat
                                  (Z.of_nat (List.length (sites (this v)))))
             | _ => fl0
             end), v))
      by (intros v; destruct fl0 as [|f [|g fl0]]; reflexivity).
    rewrite (bind_Ok _ _ _ _ _ (Hfirst w)), (bind_Ok _ _ _ _ _ (Hfirst w')).
    rewrite (bind_Ok _ _ _ _ _ (L_run w)), (bind_Ok _ _ _ _ _ (L_run w')).
    rewrite Hs. destruct (negb _); [reflexivity|].
    apply mapM_to_valid_form_world. }
  destruct frm as [[s| |a b]|l].
  - apply (Hgen [FName s]).
  - apply (Hgen [FNone]).
  - rewrite (bind_Ok _ _ _ _ _ (L_run w)), (bind_Ok _ _ _ _ _ (L_run w')).
    now rewrite Hs.
  - apply (Hgen l).
Qed.

Section ConvertAll.

Variable pinv : Array -> R -> outcome Array.

(** One round of the loop of [convert_form], taken apart. *)
Lemma convert_step_inv w k t u w1 :
  k < List.length (sites (this w)) ->
  (new_B <- get_B pinv (Z.of_nat k) (spec_of_tag t) false default_cutoff ;;
   set_B (Z.of_nat k) new_B (spec_of_tag t)) w = (Ok u, w1) ->
  valid_bc (bc (this w))
  /\ form (this w1) = list_set (form (this w)) k t
  /\ k < List.length (form (this w))
  /\ k < List.length (_B (this w))
  /\ tensors_only w w1.
Proof.
  intros Hk H.
  assert (Hfr : tensors_only w w1).
  { pose proof (framed_bind _ tensors_only_trans _ _
                  (framed_observer _ (obs_get_B pinv (Z.of_nat k)
                                        (spec_of_tag t) false default_cutoff))
                  (fun b => framed_set_B (Z.of_nat k) b (spec_of_tag t)) w)
      as Hfr.
    now rewrite H in Hfr. }
  apply bind_Ok_inv in H. destruct H as (r & w0 & H1 & H).
  pose proof (kt_Ok _ _ _ _ (kt_get_B pinv _ _ _ _) H1) as Hthis.
  unfold get_B in H1.
  apply bind_Ok_inv in H1. destruct H1 as (i' & wa & Hi & H1).
  assert (Hbc : valid_bc (bc (this w))).
  { apply (to_valid_index_bc (Z.of_nat k) w i'). now rewrite Hi. }
  rewrite (to_valid_index_self (Z.of_nat k) w Hbc) in Hi by lia.
  injection Hi as <- <-.
  apply bind_Ok_inv in H1. destruct H1 as (nf & wa & Hnf & H1).
  pose proof (ro_Ok _ _ _ _ (ro_to_valid_form _) Hnf) as Hwa. subst wa.
  apply bind_Ok_inv in H1. destruct H1 as (s & wa & Hs & H1).
  apply self_Ok in Hs. destruct Hs as [-> ->].
  apply bind_Ok_inv in H1. destruct H1 as (B & wa & HB & H1).
  apply lift_Ok in HB. destruct HB as [HB ->].
  apply py_getitem_Ok_nat in HB.
  apply bind_Ok_inv in H1. destruct H1 as (f & wa & Hf & _).
  apply lift_Ok in Hf. destruct Hf as [Hf _].
  apply py_getitem_Ok_nat in Hf.
  assert (HlB : k < List.length (_B (this w)))
    by (apply nth_error_Some; congruence).
  assert (Hlf : k < List.length (form (this w)))
    by (apply nth_error_Some; congruence).
  split; [exact Hbc|]. split; [|auto].
  unfold set_B in H.
  rewrite (bind_Ok _ _ _ _ _ (to_valid_index_self (Z.of_nat k) w0
             ltac:(rewrite Hthis; exact Hbc) ltac:(rewrite Hthis; lia))) in H.
  rewrite (bind_Ok _ _ _ _ _ (to_valid_form_tag t w0)), bind_self in H.
  rewrite py_setitem_nat in H by (rewrite Hthis; lia).
  rewrite bind_lift_Ok, Nat2Z.id in H.
  apply bind_Ok_inv in H. destruct H as (u2 & w2 & H2 & H).
  apply set_self_Ok in H2.
  apply bind_Ok_inv in H. destruct H as (s2 & w3 & H3 & H).
  apply self_Ok in H3. destruct H3 as [-> ->].
  apply bind_Ok_inv in H. destruct H as (bl & w3 & H3 & H).
  apply lift_Ok in H3. destruct H3 as [_ ->].
  apply set_self_Ok in H. subst w1 w2. wsimpl. now rewrite Hthis.
Qed.

(** The loop of [convert_form] over the sites [a], [a + 1], ... *)
Lemma convert_loop_inv : forall (l : list form_tag) a w w',
  a + List.length l <= List.length (sites (this w)) ->
  for_each (combine (map Z.of_nat (seq a (List.length l))) l)
    (fun '(i, f) =>
       new_B <- get_B pinv i (spec_of_tag f) false default_cutoff ;;
       set_B i new_B (spec_of_tag f)) w = (Ok tt, w') ->
  tensors_only w w'
  /\ (l <> [] -> valid_bc (bc (this w)))
  /\ (forall j, j < a ->
                nth_error (form (this w')) j = nth_error (form (this w)) j)
  /\ (forall j f, nth_error l j = Some f ->
                  nth_error (form (this w')) (a + j) = Some f)
  /\ (forall j, j < List.length l -> a + j < List.length (_B (this w))).
Proof.
  induction l as [|f l IH]; intros a w w' Hlen H.
  - injection H as <-. split; [apply tensors_only_refl|].
    split; [congruence|]. split; [reflexivity|].
    split; [intros [|j] g Hj; discriminate|]. simpl. lia.
  - cbn [List.length seq map combine for_each] in H.
    apply bind_Ok_inv in H. destruct H as (u1 & w1 & H1 & H).
    simpl in Hlen.
    destruct (convert_step_inv w a f u1 w1 ltac:(lia) H1)
      as (Hbc & Hform & Hlf & HlB & Hfr).
    pose proof Hfr as (Hs1 & _ & _ & _ & HB1 & _).
    destruct (IH (S a) w1 w' ltac:(rewrite Hs1; lia) H)
      as (Hfr' & _ & Hold & Hnew & HBs).
    split; [eapply tensors_only_trans; eauto|].
    split; [intros _; exact Hbc|].
    split; [|split].
    + intros j Hj. rewrite (Hold j) by lia. rewrite Hform.
      rewrite nth_error_list_set by exact Hlf.
      destruct (Nat.eqb_spec j a); [lia|reflexivity].
    + intros [|j] g Hg; simpl in Hg.
      * injection Hg as <-. rewrite Nat.add_0_r, (Hold a) by lia.
        rewrite Hform. now apply nth_error_list_set_same.
      * replace (a + S j) with (S a + j) by lia. now apply Hnew.
    + intros [|j] Hj; [lia|]. simpl in Hj.
      specialize (HBs j ltac:(lia)). rewrite HB1 in HBs. lia.
Qed.

(** X20: what [convert_form] leaves behind.  On a state with one form tag
    per site, after a successful conversion the form tags are exactly the
    parsed form, and calling [convert_form] with the same argument again
    succeeds and changes nothing. *)
Theorem convert_form_postcondition (w : world) (frm : form_arg) (w' : world) :
  List.length (form (this w)) = List.length (sites (this w)) ->
  convert_form pinv frm w = (Ok tt, w') ->
  _parse_form frm w' = (Ok (form (this w')), w')
  /\ convert_form pinv frm w' = (Ok tt, w').
Proof.
  intros Hlf H. unfold convert_form in H.
  apply bind_Ok_inv in H. destruct H as (fl & w0 & Hp & H).
  pose proof (ro_Ok _ _ _ _ (ro_parse_form frm) Hp) as Hw0. subst w0.
  pose proof (parse_form_length _ _ _ _ Hp) as Hfl.
  unfold enumerate in H.
  destruct (convert_loop_inv fl 0 w w' ltac:(simpl; lia) H)
    as (Hfr & Hbc & _ & Hnew & HBs).
  pose proof Hfr as (Hs & _ & Hb & _ & HB & Hf & _).
  assert (Hform : form (this w') = fl).
  { apply nth_error_ext. intros j.
    destruct (nth_error fl j) as [f|] eqn:Ej.
    - exact (Hnew j f Ej).
    - apply nth_error_None. apply nth_error_None in Ej. lia. }
  assert (Hp' : _parse_form frm w' = (Ok (form (this w')), w')).
  { rewrite (parse_form_frame frm w w' Hs), Hp, Hform. reflexivity. }
  split; [exact Hp'|].
  unfold convert_form. rewrite (bind_Ok _ _ _ _ _ Hp').
  apply for_each_fixed. intros [i t] Hin.
  apply In_enumerate_inv in Hin. destruct Hin as (k & -> & Ht).
  assert (Hk : k < List.length fl)
    by (rewrite <- Hform; apply nth_error_Some; congruence).
  assert (Hne : fl <> []) by (destruct fl; [simpl in Hk; lia|discriminate]).
  specialize (HBs k Hk). simpl in HBs.
  destruct (nth_error (_B (this w')) k) as [b|] eqn:Eb;
    [|apply nth_error_None in Eb; lia].
  apply convert_step_fixed with (b := b); auto.
  - rewrite Hb. auto.
  - rewrite Hs. lia.
Qed.

End ConvertAll.

Lemma convert_form_postcondition_witness :
  _parse_form (FOne FNone) seg_A_unknown
  = (Ok (form (this seg_A_unknown)), seg_A_unknown)
  /\ convert_form pinv_example (FOne FNone) seg_A_unknown
     = (Ok tt, seg_A_unknown).
Proof.
  apply (convert_form_postcondition pinv_example seg_A (FOne FNone)).
  - reflexivity.
  - reflexivity.
Defined.
